(* ===== verification/_CoqProject ===== *)
-Q . S2P
Prelude.v
Text.v
Regex.v
Varint.v
Graph.v
Codec.v
Tokenizer.v
MasterRegex.v
Pipeline.v
Sentences.v
Morph.v
Json.v
Labels.v
Enricher.v
WordSync.v
L0Db.v
DictStore.v
Rebuild.v
SyncMain.v
SyncLoop.v
Paths.v
Structure.v
VerifySetup.v
ToDb.v
ScraperText.v
EnrichFS.v
