(* ===== verification/Prelude.v ===== *)
(** * PABLO: a verification development

    This library models the parts of the repository and proves the
    properties that make them correct or show where they are not.

    The language core, the five Python modules under
    [src/brain/language/], is a pipeline:

      text --tokenize--> tokens --+--> segment_tokens --> sentence spans
                                  +--> analyze_tokens (Vocab) --> morphology
      tokens --tokens_to_graph (GraphBuilder)--> Graph --annotate_graph--> Graph
      Graph --encode_pgraph--> bytes --decode_pgraph--> Graph

    The dictionary tools under [src/memory/adapters/] scrape Wiktionary
    and keep what they find in JSON files and in SQLite:
    [language/wiktionary_scraper.py] rebuilds per-POS lemma files and
    manifests, [language/dictionary_maker.py] files scraped dumps into
    per-lemma containers that [language/dictionary_loader.py] reads back,
    [language/dictionary_label_enricher.py] adds flat labels to the
    definitions of those files, [sync_json_words_to_db.py] finds words of
    the files missing from the database and scrapes them, and
    [l0_db.py] (with its copy in [wiktionary_scraper.py]) stores a lemma
    object in SQLite.  Files, network and database are what these tools
    share; the models make the file system and the connection explicit
    state and take the network as an input.  [pablopath.py] names the
    directories all of them use, and [structure.py] and
    [scripts/verify_setup.py] inspect that tree.

    ** Files, in dependency order (each [Require]s the ones it uses)

    - [Prelude] (this file): the [result] type of fallible code
      ([Ok]/[Err]) with its bind and the notation [x <- c ;; k] in
      [pablo_scope], the hint database [pablo], [foldlM] (a [for] loop
      whose body may raise) with its invariant and failure lemmas,
      [enumerate1], and association lists updated in place
      ([alist_find]/[alist_set], a Python dict's lookup and assignment).
    - [Text]: Python strings as [list Z] of codepoints; the ASCII classes
      the regular expressions use, Python's whitespace table,
      [startswith]/[endswith]/[strip], and the class [UnicodeDB] of
      [str.isdigit]/[isalpha]/[isupper]/[lower]/[upper] with its laws on
      ASCII and the ASCII instance [ascii_db].
    - [Regex]: the matching of Python's [re] as a backtracking matcher
      in continuation-passing style ([bm]): character classes,
      literals, concatenation, alternation and the greedy [?], [*] and
      [+], a star stopping on an iteration that reads nothing; the runs
      of a class with and without backtracking.
    - [Varint]: [_uvarint_encode] and [_uvarint_decode] of
      [graph_builder.py], the byte reads of [decode_pgraph], and the
      parser monad [parser A := list Z -> result (A * list Z) _].
    - [Graph]: the enums, flag constants and dataclasses of
      [graph_builder.py], the class [GraphBuilder] (one function per
      method; [set_thumbnail] fallible), and the builder as a step
      relation [bstep]/[reachable].
    - [Codec]: [encode_pgraph]/[decode_pgraph]; the interface [Codec]
      (class) with its laws [CodecLaws], instantiated for [Node], [Edge]
      and [Graph].
    - [Tokenizer]: [tokenizer.py]: each alternative of [_MASTER] as a
      matcher (Python's first-alternative and backtracking behaviour
      written out), [finditer] as a scan with fuel, the token loop, the
      [fallback] and the in-place post-pass over the list of tokens.
    - [MasterRegex]: the pattern strings [_URL] ... [_WS] and the named
      alternation [_MASTER] as syntax of [Regex]; the matchers of
      [Tokenizer] compute the regex semantics at every position.
    - [Pipeline]: [tokens_to_graph] of [tokenizer.py], the loops of
      [add_node] and [add_edge] calls it makes.
    - [Sentences]: [sentences.py]: [segment_tokens] ([seg_loop] with
      fuel, the inner loops as [count_while]), [segment],
      [segment_to_graph].
    - [Morph]: [morph.py]: [POS], [pack_bits], the [Vocab] class (a
      [gmap] and a list; [get_id] passes the vocabulary as state), the
      rule cascade [analyze_token], [analyze_tokens], [annotate_graph].
    - [Json]: the values [json.load] returns; [dict]s as association
      lists in insertion order with [obj_get]/[obj_set]; truthiness
      ([py_truthy]); iteration ([py_iter]); [json.dumps(sort_keys=True)]
      as [canon]; [setdefault] on a [dict[str, str]].
    - [Labels]: the label extraction shared by
      [dictionary_label_enricher.py], [wiktionary_to_db.py] and
      [wiktionary_scraper.py]: the three regular expressions as
      functions with the engine's behaviour, the helpers, and the three
      [_enrich_def*] variants with their walks into subdefinitions.
    - [Enricher]: the file loop of [enrich_dictionary] in
      [dictionary_label_enricher.py], with the loop variables Python keeps
      after the entry loop and across files, [_collect_lemmas] (a stable
      sort), [bisect_left] and [_find_start_index].
    - [WordSync]: [sync_json_words_to_db.py]: [WORD_RE.findall], the
      word collectors, the resume logic of the state file, the scan loop,
      [chunks], [scrape_one] with retries against an oracle of outcomes,
      the batch loop and the failure merge.
    - [L0Db]: [l0_db.py] [connect]/[upsert_lemma] and the copies
      [db_connect]/[upsert_lemma] of [wiktionary_scraper.py]: a model of
      an [sqlite3] connection (tables, committed rows, the open
      transaction that survives an exception, [BEGIN] refused inside a
      transaction), the statements [upsert_lemma] issues in order
      ([upsert_steps], with [Raise] for a Python exception), and the
      walk over entries, POS blocks and definitions that computes the
      rows.
    - [DictStore]: a file system (paths to directories or JSON files)
      with [os.listdir], [os.makedirs] (the recursion of the library:
      missing parents first, a file on the way raises), [open]/
      [json.dump] and [os.remove]; [save_entry], [sort_wiktionary_dumps],
      [build_manifest], [build_pos_manifests] of [dictionary_maker.py]
      and [load_dictionary] of [dictionary_loader.py].
    - [Rebuild]: the batch side of [language/wiktionary_scraper.py] on
      the same file system, in a state monad [St] whose state survives
      an exception ([st_try] is [try]/[except]): [_bucket_by_pos],
      [_definition_stats], [_format_pos_order], [write_pos_files],
      [build_and_save_manifest], [rebuild_word], [_purge_lemma_files],
      [_iter_lemmas_from_dictionary], the progress file,
      [_find_start_index] and [rebuild_entire_dictionary].
    - [SyncMain]: [main] of [sync_json_words_to_db.py] as one pass over
      the file system of [DictStore] and the lemmas of [l0_entry]
      ([World]), in the [St] monad of [Rebuild]: [load_state],
      [build_file_list], [load_word_list], [load_blacklist],
      [db_lemmas_lower], the resume and scan of [WordSync]
      ([sync_plan]), the writes of the new words and the state
      ([sync_save]), the scrape against an outcome oracle, and the
      writes of the failures and successes ([sync_record]); [sync_pass]
      gives the exit status and the world after the pass, its database
      being the lemmas the upserts of the batch loop stored.
    - [SyncLoop]: [sync_loop_until_done.py]: [read_state_idx],
      [read_count], the loop over any pass ([loop_pass],
      [loop_until_done]) and [sync_loop], the loop on [sync_pass] with
      the command the loop builds ([loop_args]).
    - [Paths]: [pablopath.py]: [os.path.join] and [os.path.dirname],
      every path constant as its join chain under [ROOT_DIR] (the
      module's location is a section variable), [_add] and the loop of
      import roots on [sys.path] ([add_import_roots], [os.path.isdir] a
      parameter), and [discover_manifests] ([glob] a parameter, its
      [seen]/[uniq] loop as [dedup_step]).  Rebuild's purge takes its
      [DICTIONARY_DIR] from here.
    - [Structure]: [structure.py]: [build_structure] over the file
      system of [DictStore] ([iterdir_sorted], [dictionary_node],
      [entry_child], [collect_children]) with fuel, [PermissionError]
      through a [readable] predicate, and [structure_main].
    - [VerifySetup]: [scripts/verify_setup.py]: [CHECKS] on the paths
      of [Paths], [ok], [os.walk] with fuel, the [l0_code] scan and the
      exit status ([verify_setup]).
    - [ToDb]: the [main] of [wiktionary_to_db.py]: a scraper oracle per
      word and attempt ([attempt], [retry_loop], [word_step],
      [todb_main]), the enrichment of [Labels] and [l0_upsert_lemma] of
      [L0Db] on one connection threaded through the words.
    - [ScraperText]: the text helpers of
      [memory/adapters/wiktionary_scraper.py]: [norm_space],
      [text_clean], [_strip_invisible], [_normalize_punct] (its
      [re.sub] passes as [collapse_ws], [drop_space_before_punct] and
      [space_after_punct]) and [unique_preserve] ([json.dumps] a
      parameter).
    - [EnrichFS]: [enrich_dictionary] of [dictionary_label_enricher.py]
      on the file system of [DictStore]: [_iter_lemma_files],
      [_load], the mirrored backup ([backup_file]) and [_dump] inside
      [files_loop_fs], which reuses [file_step] of [Enricher] and keeps
      the writes made before an exception; [enrich_main] is the
      [__main__] block and [_enrich_labels_for_lemma] the call of
      [rebuild_word] in [language/wiktionary_scraper.py].  The order of
      a Python [set] is a parameter.

    ** What is proved (the claims of the manifest and their lemmas)

    - Codec and Varint: [decode_pgraph] inverts [encode_pgraph] on every
      graph with in-range fields; values of 2^70 or more encode but are
      rejected by the decoder; an empty thumbnail is lost; the record
      loops with fuel equal the unbounded loops.
    - Builder: dense node ids and a valid thumbnail in every reachable
      state (rule induction); [set_thumbnail] accepts exactly [None], 64
      and 128 bytes.
    - Tokenizer, Pipeline, Sentences, Morph: [finditer] is the unique
      left-to-right scan under the backtracking semantics of [re] on
      [_MASTER] as written in the source; tokens are indexed, non-empty,
      ordered and carry their slice; the post-pass adds exactly the cue
      flags; [tokens_to_graph] node for node and edge for edge; spans
      partition the tokens and a strong terminator closes its sentence
      after its closers; [get_id]/[get_str] round trip; lemma ids map
      back; [pack_bits] bounds; the annotated graph survives the codec.
    - L0Db: a successful [upsert_lemma] commits the canonical JSON and
      its checksum under the lemma and leaves the other lemmas alone;
      every INSERT has the arity of its column list; on the schema
      [connect] creates, the first upsert fails with the transaction left
      open and every later upsert on that connection fails at [BEGIN].
    - DictStore: [save_entry] is idempotent; lemmas differing in case
      share a file that keeps the first lemma; [str(n)] has enough fuel.
    - SyncMain and SyncLoop: a pass that exits with status 0 leaves
      every word it collected in [l0_entry] or in [--out-failed]; the
      loop stops by itself within [2 * |U| + 2] passes whatever the
      scraper does ([U] the words the JSON files offer), when its three
      output files are distinct, outside [--json-dir] and not in the
      state's file list (a measure, twice the words not yet settled
      plus one while the saved index is not 0, drops at every pass that
      goes on); a pass that reaches the end of the list with new words
      is followed by a full rescan.
    - Rebuild: the files of [write_pos_files] make [load_dictionary]
      raise (the two tools disagree on the file format); the purge backs
      a file up before deleting it when no file lies on the backup path,
      loses it when one does, and leaves no lemma file behind;
      [--from] starts at the first lemma not before it when names are
      lower case, and skips a capitalised lemma otherwise; once started,
      the batch attempts every lemma from the start, in order, each in a
      [try] of its own, whatever a lemma raises.
    - Enricher: only the last entry of a file is ever enriched;
      definitions leak from one file into the next; [bisect_left] counts
      the smaller keys; a single-entry file is enriched and counted
      exactly when its dump changes.
    - WordSync: [WORD_RE.findall] is the leftmost-greedy match list; the
      scan stays within its target, ends within its fuel, and loses the
      rest of the new words of the file where it stops; the batched
      scrape fails exactly the failing words.
    - Labels: the two copies of [_enrich_lemma_inplace] agree; a second
      run of [_enrich_def_obj_in_place] is not a no-op.
    - Paths, Structure, VerifySetup: the constants are distinct paths
      under [ROOT_DIR]; with pablopath's [DICTIONARY_DIR] the default
      backup tree never meets a lemma file, so the purge leaves none;
      [discover_manifests] equals a reference first-occurrence
      deduplication; the import-root loop only prepends, without
      duplicates; [build_structure] terminates within its fuel bound,
      nests at most [5 + 2 (max_depth - depth)] JSON levels, and raises
      only from an unreadable [dictionary] directory; the [l0_code] scan
      is exactly the [.py] files of the directories the walk can visit,
      and the script exits normally exactly when every checked path
      exists.
    - ToDb: on a database [connect] creates, every word fails and
      nothing is committed, for any scraper and any retries; once an
      [upsert_lemma] raises after its [BEGIN], every later word fails.
    - ScraperText: [_normalize_punct] is idempotent (its output is
      normally spaced, and the two punctuation passes undo each other's
      changes), it splits decimals such as [3.5]; [unique_preserve] on
      strings is the first-occurrence deduplication of [Paths].
    - EnrichFS: the label pass of [rebuild_word] writes only the
      [<pos>/<name>.json] files of the dictionary whose stem is the
      lemma up to case, for every file system and even when it raises.

    ** Bounds and fuel

    - Integers are [Z].  Varint fields are in [0, 2^70): the decoder's
      guard ([shift > 63] after a group) admits ten 7-bit groups.
    - [_uvarint_encode] recurses on fuel [1 + log2 v], enough for every
      group ([uvarint_fuel_enough]); [_uvarint_decode] on the buffer.
    - [dec_records] has fuel [1 + length of the unread buffer]: every
      record consumes a byte ([dec_records_adequate]).
    - [finditer] and [findall_go] have fuel [length text]: every step
      consumes a codepoint ([finditer_spec], [findall_go_fuel]).  The
      star of [Regex] has fuel the length of the text, since every
      iteration reads a codepoint ([star_go_fuel]); [makedirs] has fuel
      [1 + len(path)], the head of a path being shorter
      ([makedirs_go_fuel]).
    - [seg_loop] has fuel [length tokens] ([seg_loop_fuel]).
    - The walks into nested JSON ([collect_words_from_obj], the
      [_enrich_def*] recursion) have fuel the nesting depth of the
      value ([json_depth]), and any larger fuel gives the same result
      ([collect_words_from_obj_fuel], [enrich_def_todb_fuel]);
      [scan_loop] has fuel [len(files) - idx]
      ([scan_terminates]); [bisect_go] has fuel [1 + len(a)], one
      halving per step ([bisect_go_spec]); [dec_digits] has fuel
      [1 + log2 |n|], at least the number of decimal digits
      ([z_to_dec_spec]).
    - [loop_until_done] has fuel the number of passes, since the
      [while True] of the source has no bound; [sync_loop_terminates]
      shows that fuel [2 * |U| + 2] ends the loop before the fuel does.
    - [build_structure] has fuel [max_depth - current_depth + 1], or
      without a limit the longest path of the file system less the
      length of the root, plus one: each call descends into a longer
      path ([build_structure_fuel]); [structure_main] uses 7 for the
      default depth 6.  [os_walk] has fuel the longest path less the
      length of the top ([os_walk_spec]).

    ** Not modelled

    - The Unicode database: [str.isdigit], [isalpha], [isupper],
      [lower] and [upper] are the operations of [UnicodeDB]; the
      theorems hold for every instance, the examples use the ASCII one.
    - The network and HTML: [scrape_word], [fetch_wiktionary_page] and
      the BeautifulSoup parsing of both scrapers are inputs of the
      models ([scrape] oracles, lists of scraped sections).
    - SQLite beyond what [upsert_lemma] needs: PRAGMAs, timestamps,
      [upsert_lemma_pos_order]; [_sha] is a parameter.
    - The Flask viewer, [tester.py] and [wiktionary_scraper_old.py]; the
      printing of [verify_setup.py] and [structure.py]; symbolic links.
    - Permissions: [Structure]'s [readable] predicate stands for both
      listing and searching a directory, so [Path.is_dir()] never
      raises; a directory that can be listed but not searched, where
      it raises [PermissionError] outside the [try], is not modelled.
    - In [WordSync]: [int()] of a stored string accepts ASCII digits
      only; a [files] value that is not a list of strings is an error
      when the state is read rather than at [files[idx]].
    - In [SyncMain]: [fnmatch], the [repr] of a list or dict, the lines
      of a text blacklist and the clock are parameters; the dynamic
      import of the scraper succeeds; a scrape, enrichment and upsert
      that succeeds adds its word to [l0_entry]; file contents that are
      not JSON are unreadable ([errors="ignore"] is not modelled).
    - In [SyncLoop]: the subprocess is the pass of [SyncMain]; printing
      and sleeping are left out.
    - Python's object identity: [annotate_graph] returns the graph with
      updated nodes; that [finalize] shares the [Node] objects with the
      builder is not modelled. *)

From stdpp Require Export base list gmap strings.
From Stdlib Require Export ZArith Lia.

Declare Scope pablo_scope.
Delimit Scope pablo_scope with pablo.

(** ** Results of fallible code: [Ok] or [Err] with an error value. *)
Inductive result (A E : Type) : Type :=
| Ok (a : A)
| Err (e : E).
Arguments Ok {A E} a.
Arguments Err {A E} e.

Definition res_bind {A B E} (r : result A E) (f : A -> result B E) : result B E :=
  match r with
  | Ok a => f a
  | Err e => Err e
  end.

Notation "x <- c ;; k" := (res_bind c (fun x => k))
  (at level 100, c at next level, right associativity) : pablo_scope.

Open Scope pablo_scope.

Create HintDb pablo.

Lemma res_bind_Ok_inv {A B E} (r : result A E) (f : A -> result B E) b :
  res_bind r f = Ok b -> exists a, r = Ok a /\ f a = Ok b.
Proof. destruct r; simpl; [eauto | discriminate]. Qed.

(** A [for] loop whose body may raise: [None] is the exception. *)
Fixpoint foldlM {A B} (f : B -> A -> option B) (b : B) (l : list A) : option B :=
  match l with
  | [] => Some b
  | x :: l' => b' ← f b x; foldlM f b' l'
  end.

(** [enumerate(xs, 1)] *)
Definition enumerate1 {A} (xs : list A) : list (Z * A) := zip (map Z.of_nat (seq 1 (length xs))) xs.

(** Case analysis on the option binds and conditionals of a hypothesis
    [H : (x ← m; k) = Some v], dropping the branches that fail. *)
Ltac inv_obind H :=
  repeat match type of H with
  | (?m ≫= _) = Some _ =>
      let E := fresh "Hb" in destruct m eqn:E; simpl in H; [|discriminate H]
  | (if ?b then _ else _) = Some _ =>
      let E := fresh "Hc" in destruct b eqn:E
  end.

Example res_test : (x <- Ok 1%nat ;; Ok (S x) : result nat unit) = Ok 2%nat.
Proof. reflexivity. Qed.

(** ** Loops as folds *)

(** An invariant of the body of [for x in l] is one of the loop. *)
Lemma foldl_inv {A B} (P : B -> Prop) (f : B -> A -> B) (l : list A) (b : B) :
  (forall acc x, x ∈ l -> P acc -> P (f acc x)) -> P b -> P (foldl f b l).
Proof.
  revert b. induction l as [|x l IH]; intros b Hf Hb; simpl; [done|].
  apply IH; [intros; apply Hf; [by apply elem_of_cons; right|done]|].
  apply Hf; [apply elem_of_cons; by left|done].
Qed.

(** ** [len()] as a [Z] *)

Lemma Zlength_app {A} (l1 l2 : list A) : Zlength (l1 ++ l2) = (Zlength l1 + Zlength l2)%Z.
Proof. rewrite !Zlength_correct, length_app. lia. Qed.

Lemma Zlength_snoc {A} (l : list A) x : Zlength (l ++ [x]) = (Zlength l + 1)%Z.
Proof. rewrite Zlength_app. done. Qed.

(** ** Association lists updated in place

    A Python [dict] keeps its keys in insertion order, and [d[k] = v]
    replaces the value of an existing key where it stands or appends the
    key.  [alist_find] and [alist_set] are that lookup and that
    assignment; the JSON objects and the file system of the components
    are instances. *)

Section Alist.
Context {K V : Type} `{EqDecision K}.

Definition alist_find (l : list (K * V)) (k : K) : option V :=
  snd <$> List.find (fun e => bool_decide (e.1 = k)) l.

Definition alist_set (l : list (K * V)) (k : K) (v : V) : list (K * V) :=
  if existsb (fun e => bool_decide (e.1 = k)) l
  then map (fun e => if bool_decide (e.1 = k) then (k, v) else e) l
  else l ++ [(k, v)].

Lemma alist_has_find l k :
  existsb (fun e => bool_decide (e.1 = k)) l = false -> alist_find l k = None.
Proof.
  unfold alist_find. induction l as [|[k1 v1] l IH]; simpl; [done|].
  intros [E1 E2]%orb_false_iff. rewrite E1. by apply IH.
Qed.

Lemma alist_find_set_same l k v : alist_find (alist_set l k v) k = Some v.
Proof.
  unfold alist_find, alist_set. destruct (existsb _ l) eqn:E.
  - induction l as [|[k1 v1] l IH]; simpl in *; [congruence|].
    repeat (case_bool_decide; simpl in *); subst; try congruence. by apply IH.
  - induction l as [|[k1 v1] l IH]; simpl in *; [by rewrite bool_decide_eq_true_2|].
    apply orb_false_iff in E as [E1 E2]. rewrite E1. by apply IH.
Qed.

Lemma alist_find_set_ne l k k' v : k' <> k -> alist_find (alist_set l k v) k' = alist_find l k'.
Proof.
  intros Hne. unfold alist_find, alist_set. f_equal. destruct (existsb _ l).
  - induction l as [|[k1 v1] l IH]; simpl; [done|].
    repeat (case_bool_decide; simpl in *); subst; congruence.
  - induction l as [|[k1 v1] l IH]; simpl; [by rewrite bool_decide_eq_false_2|].
    destruct (bool_decide (k1 = k')); [done|exact IH].
Qed.

Lemma alist_set_has l k v : existsb (fun e => bool_decide (e.1 = k)) (alist_set l k v) = true.
Proof.
  apply existsb_exists. exists (k, v). split; [|by rewrite bool_decide_eq_true_2].
  unfold alist_set. destruct (existsb _ l) eqn:E.
  - apply existsb_exists in E as ([k1 v1] & Hin & Hk). apply in_map_iff. exists (k1, v1).
    cbn in *. by rewrite Hk.
  - apply in_or_app. right. by left.
Qed.

(** Assigning the value a key already has changes nothing. *)
Lemma alist_set_set l k v : alist_set (alist_set l k v) k v = alist_set l k v.
Proof.
  unfold alist_set at 1. rewrite alist_set_has. unfold alist_set.
  destruct (existsb _ l) eqn:E.
  - rewrite map_map. apply List.map_ext. intros [k1 v1]. simpl.
    by repeat (case_bool_decide; simpl in *; subst).
  - rewrite map_app. simpl. rewrite bool_decide_eq_true_2 by done. f_equal.
    rewrite <-(List.map_id l) at 2. apply List.map_ext_in. intros [k1 v1] Hin. simpl.
    case_bool_decide; [|done]. subst. exfalso.
    assert (existsb (fun e => bool_decide (e.1 = k)) l = true) as E'.
    { apply existsb_exists. exists (k, v1). split; [done|]. by rewrite bool_decide_eq_true_2. }
    congruence.
Qed.

Lemma alist_set_keys l k v :
  k ∈ map fst l -> map fst (alist_set l k v) = map fst l.
Proof.
  intros Hk. unfold alist_set.
  replace (existsb _ l) with true.
  2:{ symmetry. apply list_elem_of_fmap in Hk as ([k1 v1] & -> & Hin). apply existsb_exists.
      exists (k1, v1). split; [by apply list_elem_of_In|by rewrite bool_decide_eq_true_2]. }
  rewrite map_map. apply List.map_ext. intros [k1 v1]. simpl. by case_bool_decide.
Qed.

End Alist.

(** A [for] loop raises when some item's body raises whatever the
    accumulator. *)
Lemma foldlM_None_elem {A B} (f : B -> A -> option B) (b : B) (l : list A) x :
  x ∈ l -> (forall acc, f acc x = None) -> foldlM f b l = None.
Proof.
  revert b. induction l as [|y l IH]; intros b Hx Hf; [by apply not_elem_of_nil in Hx|].
  simpl. apply elem_of_cons in Hx as [->|Hx].
  - by rewrite Hf.
  - destruct (f b y); simpl; [by apply IH|done].
Qed.

(** An invariant of every successful body of a [for] loop that may
    raise is one of the loop. *)
Lemma foldlM_inv {A B} (P : B -> Prop) (f : B -> A -> option B) (l : list A) (b r : B) :
  foldlM f b l = Some r -> P b -> (forall acc x acc', x ∈ l -> P acc -> f acc x = Some acc' -> P acc') -> P r.
Proof.
  revert b. induction l as [|x l IH]; intros b Hl Hb Hf; simpl in Hl; [by injection Hl as <-|].
  destruct (f b x) as [b'|] eqn:E; simpl in Hl; [|done].
  apply (IH b'); [done| |].
  - apply (Hf b x); [by left|done|done].
  - intros acc y acc' Hy. apply Hf. by right.
Qed.

Lemma foldl_ext_in {A B} (f g : B -> A -> B) (l : list A) (b : B) :
  (forall acc x, x ∈ l -> f acc x = g acc x) -> foldl f b l = foldl g b l.
Proof.
  revert b. induction l as [|x l IH]; intros b H; simpl; [done|].
  rewrite H by (by left). apply IH. intros acc y Hy. apply H. by right.
Qed.
