(* ===== verification/Text.v ===== *)
(** * Text: Python [str] values as lists of codepoints

    A Python string is a sequence of Unicode codepoints; offsets in the
    tokenizer are codepoint indices.  Here a string is a [list Z] of
    codepoints.  The character classes the code uses come in two kinds:
    - the ASCII ranges written in the regular expressions of
      [src/brain/language/tokenizer.py] and [morph.py] ([A-Za-z0-9] ...),
      which are plain definitions below;
    - Python's Unicode-aware predicates [str.isdigit], [str.isalpha],
      [str.isupper] and [str.lower], which depend on the Unicode database.
      They are the operations of the class [UnicodeDB]; the laws
      [UnicodeDB_ascii] say that on ASCII they are the ASCII predicates,
      which is all the proofs use.  The instance [ascii_db] is exact on
      ASCII and classifies every other codepoint as neither digit, letter
      nor upper case.
    Whitespace ([\s] and [str.isspace]) is a fixed finite table, written
    out in full as [py_isspace]. *)

From S2P Require Import Prelude.

Open Scope Z_scope.

(** ** String literals *)

(** An ASCII Rocq string literal as a list of codepoints. *)
Definition str (s : string) : list Z :=
  map (fun a => Z.of_nat (Ascii.nat_of_ascii a)) (String.list_ascii_of_string s).

(** Non-ASCII codepoints that occur in the source. *)
Definition U_LSQUO : Z := 0x2018.   (* ‘ *)
Definition U_RSQUO : Z := 0x2019.   (* ’ *)
Definition U_LDQUO : Z := 0x201C.   (* “ *)
Definition U_RDQUO : Z := 0x201D.   (* ” *)
Definition U_EMDASH : Z := 0x2014.  (* — *)
Definition U_ENDASH : Z := 0x2013.  (* – *)
Definition U_HELLIP : Z := 0x2026.  (* … *)
Definition U_RAQUO : Z := 0xBB.     (* » *)

(** ** ASCII classes, as written in the regular expressions *)

Definition in_range (lo hi c : Z) : bool := (lo <=? c) && (c <=? hi).

Definition ascii_upper (c : Z) : bool := in_range 65 90 c.
Definition ascii_lower_p (c : Z) : bool := in_range 97 122 c.
Definition ascii_digit (c : Z) : bool := in_range 48 57 c.
Definition ascii_alpha (c : Z) : bool := ascii_upper c || ascii_lower_p c.
(** [[A-Za-z0-9]] *)
Definition ascii_alnum (c : Z) : bool := ascii_alpha c || ascii_digit c.
(** [[A-Za-z0-9_]] *)
Definition ascii_word (c : Z) : bool := ascii_alnum c || (c =? 95).

Definition is_ascii (c : Z) : bool := in_range 0 127 c.

(** ASCII lower-casing of one codepoint. *)
Definition ascii_to_lower (c : Z) : Z := if ascii_upper c then c + 32 else c.
Definition ascii_to_upper (c : Z) : Z := if ascii_lower_p c then c - 32 else c.

(** [str.isspace] and the regex class [\s] on [str] patterns: the
    complete table of Python's whitespace codepoints. *)
Definition py_space_table : list Z :=
  [0x9; 0xA; 0xB; 0xC; 0xD; 0x1C; 0x1D; 0x1E; 0x1F; 0x20; 0x85; 0xA0;
   0x1680; 0x2000; 0x2001; 0x2002; 0x2003; 0x2004; 0x2005; 0x2006; 0x2007;
   0x2008; 0x2009; 0x200A; 0x2028; 0x2029; 0x202F; 0x205F; 0x3000].

Definition py_isspace (c : Z) : bool := bool_decide (c ∈ py_space_table).

(** Membership of a codepoint in a finite set written as a list. *)
Definition memZ (c : Z) (l : list Z) : bool := bool_decide (c ∈ l).

(** Membership of a string in a finite set of strings. *)
Definition mem_str (s : list Z) (l : list (list Z)) : bool := bool_decide (s ∈ l).

(** ** The Unicode database *)

Class UnicodeDB := {
  uc_isdigit : Z -> bool;
  uc_isalpha : Z -> bool;
  uc_isupper : Z -> bool;
  uc_isalnum : Z -> bool;
  uc_lower : list Z -> list Z;
  uc_upper : list Z -> list Z
}.

(** On ASCII input the Unicode operations are the ASCII ones. *)
Class UnicodeDB_ascii `{UnicodeDB} := {
  uc_isdigit_ascii c : is_ascii c = true -> uc_isdigit c = ascii_digit c;
  uc_isalpha_ascii c : is_ascii c = true -> uc_isalpha c = ascii_alpha c;
  uc_isupper_ascii c : is_ascii c = true -> uc_isupper c = ascii_upper c;
  uc_isalnum_ascii c : is_ascii c = true -> uc_isalnum c = ascii_alnum c;
  uc_lower_ascii s : forallb is_ascii s = true -> uc_lower s = map ascii_to_lower s;
  uc_upper_ascii s : forallb is_ascii s = true -> uc_upper s = map ascii_to_upper s
}.

#[export] Instance ascii_db : UnicodeDB := {
  uc_isdigit := ascii_digit;
  uc_isalpha := ascii_alpha;
  uc_isupper := ascii_upper;
  uc_isalnum := ascii_alnum;
  uc_lower := map ascii_to_lower;
  uc_upper := map ascii_to_upper
}.

#[export] Instance ascii_db_ok : @UnicodeDB_ascii ascii_db.
Proof. split; reflexivity. Qed.

(** ** Generic list-of-codepoint helpers *)

(** Length of the longest prefix whose codepoints satisfy [f]
    (a greedy [X*] in a regular expression). *)
Fixpoint span_while (f : Z -> bool) (s : list Z) : nat :=
  match s with
  | c :: s' => if f c then S (span_while f s') else O
  | [] => O
  end.

(** [s.startswith(p)] *)
Fixpoint starts_with (p s : list Z) : bool :=
  match p, s with
  | [], _ => true
  | c :: p', d :: s' => (c =? d) && starts_with p' s'
  | _ :: _, [] => false
  end.

(** [s.endswith(p)] *)
Definition ends_with (p s : list Z) : bool := starts_with (rev p) (rev s).

(** [s.lstrip()], [s.rstrip()] and [s.strip()] with no argument. *)
Definition py_lstrip (s : list Z) : list Z := drop (span_while py_isspace s) s.
Definition py_rstrip (s : list Z) : list Z := rev (py_lstrip (rev s)).
Definition py_strip (s : list Z) : list Z := py_rstrip (py_lstrip s).

(** [\w] of a [str] pattern: [c.isalnum()] or the underscore. *)
Definition py_word_char `{UnicodeDB} (c : Z) : bool := uc_isalnum c || (c =? 95).

(** [s.replace(a, b)] for single codepoints. *)
Definition replace_cp (a b : Z) (s : list Z) : list Z :=
  map (fun c => if c =? a then b else c) s.

Lemma span_while_le f s : (span_while f s <= length s)%nat.
Proof. induction s as [|c s IH]; simpl; [lia|]. destruct (f c); simpl; lia. Qed.

Lemma span_while_all f s k c :
  (k < span_while f s)%nat -> s !! k = Some c -> f c = true.
Proof.
  revert k. induction s as [|d s IH]; intros k Hk Hl; simpl in *; [lia|].
  destruct (f d) eqn:Hd; [|lia].
  destruct k as [|k]; simpl in Hl; [congruence|]. apply (IH k); [lia|done].
Qed.

Lemma span_while_stop f s c :
  s !! span_while f s = Some c -> f c = false.
Proof.
  induction s as [|d s IH]; simpl; [discriminate|].
  destruct (f d) eqn:Hd; simpl; [apply IH|congruence].
Qed.

Lemma starts_with_app p s : starts_with p (p ++ s) = true.
Proof. induction p; simpl; [done|]. rewrite Z.eqb_refl. done. Qed.

Lemma starts_with_spec p s : starts_with p s = true <-> exists r, s = p ++ r.
Proof.
  revert s. induction p as [|c p IH]; intros s; simpl.
  - split; eauto.
  - destruct s as [|d s]; simpl.
    + split; [discriminate|]. intros [r Hr]; discriminate.
    + rewrite andb_true_iff, Z.eqb_eq, IH. split.
      * intros [-> [r ->]]. eauto.
      * intros [r Hr]. injection Hr as -> ->. eauto.
Qed.

(** ** Stripping *)

(** [s] does not start with whitespace. *)
Definition no_lead_space (s : list Z) : Prop :=
  match s with c :: _ => py_isspace c = false | [] => True end.

Lemma py_lstrip_id s : no_lead_space s -> py_lstrip s = s.
Proof. destruct s as [|c s]; [done|]. simpl. unfold py_lstrip. simpl. intros ->. done. Qed.

Lemma py_lstrip_no_lead s : no_lead_space (py_lstrip s).
Proof.
  unfold py_lstrip. induction s as [|c s IH]; [done|]. simpl.
  destruct (py_isspace c) eqn:E; [exact IH|exact E].
Qed.

Lemma py_lstrip_idem s : py_lstrip (py_lstrip s) = py_lstrip s.
Proof. apply py_lstrip_id, py_lstrip_no_lead. Qed.

Lemma py_lstrip_suffix s : exists k, py_lstrip s = drop k s.
Proof. unfold py_lstrip. eauto. Qed.

Lemma py_rstrip_take s :
  py_rstrip s = take (length s - span_while py_isspace (rev s)) s.
Proof. unfold py_rstrip, py_lstrip. rewrite skipn_rev, rev_involutive. reflexivity. Qed.

(** [s] does not end with whitespace. *)
Definition no_trail_space (s : list Z) : Prop := no_lead_space (rev s).

Lemma py_rstrip_id s : no_trail_space s -> py_rstrip s = s.
Proof. intros H. unfold py_rstrip. rewrite (py_lstrip_id _ H). apply rev_involutive. Qed.

Lemma py_rstrip_no_trail s : no_trail_space (py_rstrip s).
Proof. unfold no_trail_space, py_rstrip. rewrite rev_involutive. apply py_lstrip_no_lead. Qed.

Lemma no_lead_space_take s k : no_lead_space s -> no_lead_space (take k s).
Proof. destruct s, k; simpl; done. Qed.

Lemma py_strip_lead s : no_lead_space (py_strip s).
Proof. unfold py_strip. rewrite py_rstrip_take. apply no_lead_space_take, py_lstrip_no_lead. Qed.

Lemma py_strip_idem s : py_strip (py_strip s) = py_strip s.
Proof.
  unfold py_strip at 1. rewrite (py_lstrip_id _ (py_strip_lead s)).
  apply py_rstrip_id. apply py_rstrip_no_trail.
Qed.

Lemma py_strip_lstrip s : py_strip (py_lstrip s) = py_strip s.
Proof. unfold py_strip. by rewrite py_lstrip_idem. Qed.

Lemma span_while_app_all f t rest :
  forallb f t = true -> span_while f (t ++ rest) = (length t + span_while f rest)%nat.
Proof.
  induction t as [|c t IH]; simpl; [done|]. intros [-> Ht]%andb_true_iff. by rewrite IH.
Qed.
