(* ===== verification/Regex.v ===== *)
(** * Regex: the matching of Python's [re] as backtracking

    Python's [re] engine is a backtracking matcher: an alternation tries
    its branches left to right, a greedy [X?], [X*] or [X+] tries one more
    iteration before fewer, and a match is the first way through the
    pattern, in that order, that the rest of the pattern accepts.  This
    file writes that semantics once, for the constructs the repository's
    patterns use: character classes ([[...]], [\s], [\S]), literals,
    concatenation, alternation and the greedy quantifiers.  [bm r s k]
    matches [r] at the start of [s] and passes the unread rest to the
    continuation [k], which accepts ([Some]) or makes the matcher
    backtrack ([None]).  A star stops iterating when an iteration reads
    nothing, as [sre] does, so every call ends; its fuel, the length of
    the text, is never exhausted ([star_go_fuel]).  The lemmas compute
    the greedy runs of a character class, with and without
    backtracking. *)

From S2P Require Import Prelude Text.

Open Scope Z_scope.

(** ** Syntax *)

(** An item of a character class [[...]]: a range [a-z] or one
    codepoint. *)
Inductive cls_item := CRange (lo hi : Z) | CChar (c : Z).

Definition in_cls (items : list cls_item) (c : Z) : bool :=
  existsb (fun it => match it with CRange lo hi => in_range lo hi c | CChar d => c =? d end) items.

Inductive re :=
| RSet (items : list cls_item)   (** [[...]] *)
| RSpace                         (** [\s] *)
| RNonSpace                      (** [\S] *)
| RLit (l : list Z)              (** a literal text *)
| RSeq (r1 r2 : re)              (** [r1 r2] *)
| RAlt (r1 r2 : re)              (** [r1|r2] *)
| ROpt (r : re)                  (** [r?] *)
| RStar (r : re).                (** [r*] *)

(** [r+] is [r r*]. *)
Definition RPlus (r : re) : re := RSeq r (RStar r).

(** ** The matcher *)

Section Star.
Context {A : Type}.

(** The greedy star: one more iteration of the body [m] that reads
    something, else none; [f] is fuel. *)
Definition star_go (m : list Z -> (list Z -> option A) -> option A) (k : list Z -> option A) :
    nat -> list Z -> option A :=
  fix star f s :=
    match f with
    | O => k s
    | S f' =>
        match m s (fun s' => if (length s' <? length s)%nat then star f' s' else None) with
        | Some a => Some a
        | None => k s
        end
    end.

End Star.

Fixpoint bm {A} (r : re) (s : list Z) (k : list Z -> option A) : option A :=
  match r with
  | RSet items => match s with c :: s' => if in_cls items c then k s' else None | [] => None end
  | RSpace => match s with c :: s' => if py_isspace c then k s' else None | [] => None end
  | RNonSpace => match s with c :: s' => if negb (py_isspace c) then k s' else None | [] => None end
  | RLit l => if starts_with l s then k (drop (length l) s) else None
  | RSeq r1 r2 => bm r1 s (fun s' => bm r2 s' k)
  | RAlt r1 r2 => match bm r1 s k with Some a => Some a | None => bm r2 s k end
  | ROpt r1 => match bm r1 s k with Some a => Some a | None => k s end
  | RStar r1 => star_go (bm r1) k (length s) s
  end.

(** [pattern.match(s)]: the length of the match at the start of [s]. *)
Definition re_match (r : re) (s : list Z) : option nat :=
  bm r s (fun s' => Some (length s - length s')%nat).

(** The first of [g n], [g (n-1)], ..., [g 0] that accepts: the
    backtracking of a greedy run of [n] codepoints. *)
Fixpoint first_some_desc {A} (g : nat -> option A) (n : nat) : option A :=
  match n with
  | O => g O
  | S n' => match g (S n') with Some a => Some a | None => first_some_desc g n' end
  end.

(** ** Lemmas *)

Lemma star_go_S {A} (m : list Z -> (list Z -> option A) -> option A) k f s :
  star_go m k (S f) s =
  match m s (fun s' => if (length s' <? length s)%nat then star_go m k f s' else None) with
  | Some a => Some a
  | None => k s
  end.
Proof. reflexivity. Qed.

(** The matcher only passes suffixes of the text to its continuation. *)
Lemma bm_ext {A} r s (k1 k2 : list Z -> option A) :
  (forall s', (length s' <= length s)%nat -> k1 s' = k2 s') -> bm r s k1 = bm r s k2.
Proof.
  revert s k1 k2. induction r as [items| | |l|r1 IH1 r2 IH2|r1 IH1 r2 IH2|r IH|r IH];
    intros s k1 k2 Hk; cbn [bm].
  - destruct s as [|c s]; [done|]. destruct (in_cls _ _); [apply Hk; simpl; lia|done].
  - destruct s as [|c s]; [done|]. destruct (py_isspace _); [apply Hk; simpl; lia|done].
  - destruct s as [|c s]; [done|]. destruct (negb _); [apply Hk; simpl; lia|done].
  - destruct (starts_with l s); [apply Hk; rewrite length_drop; lia|done].
  - apply IH1. intros s' Hs'. apply IH2. intros s'' Hs''. apply Hk. lia.
  - rewrite (IH1 s k1 k2 Hk), (IH2 s k1 k2 Hk). done.
  - rewrite (IH s k1 k2 Hk), Hk by lia. done.
  - generalize (length s) as f. intros f. revert s Hk. induction f as [|f IHf]; intros s Hk; cbn [star_go].
    + by apply Hk.
    + erewrite IH; [rewrite Hk by lia; reflexivity|]. intros s' Hs'.
      cbv beta. destruct (Nat.ltb_spec (length s') (length s)); [|done]. apply IHf. intros s'' ?. apply Hk. lia.
Qed.

(** A continuation that rejects everything makes the match fail. *)
Lemma bm_reject {A} r s (k : list Z -> option A) : (forall s', k s' = None) -> bm r s k = None.
Proof.
  revert s k. induction r as [items| | |l|r1 IH1 r2 IH2|r1 IH1 r2 IH2|r IH|r IH]; intros s k Hk; cbn [bm];
    try (destruct s as [|c s]; [done|]; case_match; [apply Hk|done]).
  - case_match; [apply Hk|done].
  - apply IH1. intros s'. by apply IH2.
  - by rewrite IH1, IH2.
  - by rewrite IH, Hk.
  - generalize (length s) as f. intros f. revert s. induction f as [|f IHf]; intros s; cbn [star_go]; [apply Hk|].
    rewrite IH; [apply Hk|]. intros s'. by destruct (_ <? _)%nat.
Qed.

Lemma star_go_nil {A} r (k : list Z -> option A) f : star_go (bm r) k f [] = k [].
Proof.
  destruct f as [|f]; [done|]. rewrite star_go_S. rewrite bm_reject; [done|].
  intros s'. by destruct (Nat.ltb_spec (length s') 0); [simpl in *; lia|].
Qed.

(** Enough fuel: the star with any fuel at least the length of the text
    gives the same result. *)
Lemma star_go_fuel {A} r (k : list Z -> option A) f g s :
  (length s <= f)%nat -> (length s <= g)%nat -> star_go (bm r) k f s = star_go (bm r) k g s.
Proof.
  revert g s. induction f as [|f IH]; intros g s Hf Hg.
  - destruct s; [|simpl in Hf; lia]. by rewrite !star_go_nil.
  - destruct g as [|g]; [destruct s; [by rewrite !star_go_nil|simpl in Hg; lia]|].
    rewrite !star_go_S. erewrite bm_ext; [reflexivity|]. intros s' Hs'.
    cbv beta. destruct (Nat.ltb_spec (length s') (length s)); [apply IH; lia|done].
Qed.

(** The star of [bm] at any text, with its own length as fuel. *)
Lemma bm_star {A} r s (k : list Z -> option A) : bm (RStar r) s k = star_go (bm r) k (length s) s.
Proof. reflexivity. Qed.

(** One unfolding of the star, the recursive call being the star itself. *)
Lemma bm_star_unfold {A} r s (k : list Z -> option A) :
  bm (RStar r) s k =
  match bm r s (fun s' => if (length s' <? length s)%nat then bm (RStar r) s' k else None) with
  | Some a => Some a
  | None => k s
  end.
Proof.
  rewrite bm_star. destruct s as [|c s].
  - rewrite star_go_nil, bm_reject; [done|]. intros s'. by destruct (Nat.ltb_spec (length s') 0); [simpl in *; lia|].
  - cbn [length]. rewrite star_go_S. erewrite bm_ext; [reflexivity|]. intros s' Hs'.
    cbv beta. cbn [length]. destruct (Nat.ltb_spec (length s') (S (length s))); [|done].
    rewrite bm_star. apply star_go_fuel; lia.
Qed.

(** ** Character classes *)

(** [r] reads one codepoint satisfying [p]. *)
Definition char_re (r : re) (p : Z -> bool) : Prop :=
  forall A s (k : list Z -> option A),
    bm r s k = match s with c :: s' => if p c then k s' else None | [] => None end.

Lemma char_re_set items : char_re (RSet items) (in_cls items).
Proof. intros A s k. reflexivity. Qed.

Lemma char_re_space : char_re RSpace py_isspace.
Proof. intros A s k. reflexivity. Qed.

Lemma char_re_nonspace : char_re RNonSpace (fun c => negb (py_isspace c)).
Proof. intros A s k. reflexivity. Qed.

Lemma first_some_desc_S {A} (g : nat -> option A) n :
  first_some_desc g (S n) = match first_some_desc (fun j => g (S j)) n with Some a => Some a | None => g O end.
Proof.
  induction n as [|n IH]; simpl; [by destruct (g 1%nat)|].
  destruct (g (S (S n))); [done|]. exact IH.
Qed.

Section Class.
Variables (r : re) (p : Z -> bool).
Hypothesis Hr : char_re r p.

(** [X*] over a class backtracks from the longest run to the empty one. *)
Lemma star_char {A} s (k : list Z -> option A) :
  bm (RStar r) s k = first_some_desc (fun j => k (drop j s)) (span_while p s).
Proof.
  induction s as [|c s IH]; [by rewrite bm_star_unfold, Hr|].
  rewrite bm_star_unfold, Hr. cbn [span_while]. destruct (p c).
  - cbn [length]. replace (length s <? S (length s))%nat with true by (symmetry; apply Nat.ltb_lt; lia). rewrite IH, first_some_desc_S. done.
  - done.
Qed.

(** [X+] over a class: the runs of one codepoint or more. *)
Lemma plus_char {A} s (k : list Z -> option A) :
  bm (RPlus r) s k =
  match s with
  | c :: s' => if p c then first_some_desc (fun j => k (drop j s')) (span_while p s') else None
  | [] => None
  end.
Proof. unfold RPlus. cbn [bm]. rewrite Hr. destruct s as [|c s]; [done|]. destruct (p c); [apply star_char|done]. Qed.

(** With a continuation that accepts everything there is no
    backtracking: the run is the longest. *)
Lemma plus_char_total {A} s (k : list Z -> option A) :
  (forall s', is_Some (k s')) ->
  bm (RPlus r) s k = match s with c :: s' => if p c then k (drop (span_while p s') s') else None | [] => None end.
Proof.
  intros Hk. rewrite plus_char. destruct s as [|c s]; [done|]. destruct (p c); [|done].
  destruct (span_while p s) as [|n]; [done|]. simpl. by destruct (Hk (drop (S n) s)) as [a ->].
Qed.

End Class.

Lemma first_some_desc_last {A} (g : nat -> option A) n :
  (forall j, (j < n)%nat -> g j = None) -> first_some_desc g n = g n.
Proof.
  destruct n as [|n]; [done|]. intros Hg. simpl. destruct (g (S n)); [done|].
  clear -Hg. induction n as [|n IH]; simpl; [apply Hg; lia|].
  rewrite Hg by lia. apply IH. intros j ?. apply Hg. lia.
Qed.

(** The length matched by [X+] over a class from offset [j] of a text. *)
Lemma plus_char_from r p j s0 :
  char_re r p ->
  bm (RPlus r) (drop j s0) (fun s' => Some (length s0 - length s')%nat) =
  let n := span_while p (drop j s0) in if (n =? 0)%nat then None else Some (j + n)%nat.
Proof.
  intros Hr. rewrite (plus_char_total r p Hr) by (intros; eexists; reflexivity).
  destruct (drop j s0) as [|c t] eqn:E; [done|]. cbn [span_while]. destruct (p c); [|done].
  cbv zeta. cbn [Nat.eqb]. f_equal.
  assert (Hl : length (drop j s0) = S (length t)) by (rewrite E; reflexivity).
  rewrite length_drop in Hl. rewrite length_drop. pose proof (span_while_le p t). lia.
Qed.

Lemma starts_with_app_and l1 l2 s :
  starts_with (l1 ++ l2) s = starts_with l1 s && starts_with l2 (drop (length l1) s).
Proof.
  revert s. induction l1 as [|c l1 IH]; intros [|d s]; simpl; [done|done| |].
  - by destruct l2.
  - rewrite IH. by rewrite andb_assoc.
Qed.

Lemma in_cls_app a b c : in_cls (a ++ b) c = in_cls a c || in_cls b c.
Proof. apply existsb_app. Qed.

Lemma in_cls_chars l c : in_cls (map CChar l) c = memZ c l.
Proof.
  unfold in_cls, memZ. induction l as [|d l IH]; simpl; [done|].
  rewrite IH. apply Bool.eq_iff_eq_true. rewrite orb_true_iff, !bool_decide_eq_true, elem_of_cons, Z.eqb_eq.
  done.
Qed.

Lemma plus_char_acc r p s0 :
  char_re r p ->
  bm (RPlus r) s0 (fun s' => Some (length s0 - length s')%nat) =
  let n := span_while p s0 in if (n =? 0)%nat then None else Some n.
Proof. intros Hr. pose proof (plus_char_from r p 0 s0 Hr) as H. by rewrite drop_0 in H. Qed.

Lemma span_while_ext (f g : Z -> bool) s : (forall c, f c = g c) -> span_while f s = span_while g s.
Proof. intros Hfg. induction s as [|c s IH]; simpl; [done|]. by rewrite Hfg, IH. Qed.

Lemma first_some_desc_top {A} (g : nat -> option A) n : is_Some (g n) -> first_some_desc g n = g n.
Proof. destruct n as [|n]; [done|]. intros [a Ha]. simpl. by rewrite Ha. Qed.

Lemma bm_seq {A} r1 r2 s (k : list Z -> option A) : bm (RSeq r1 r2) s k = bm r1 s (fun s' => bm r2 s' k).
Proof. reflexivity. Qed.

Lemma bm_lit {A} l s (k : list Z -> option A) :
  bm (RLit l) s k = if starts_with l s then k (drop (length l) s) else None.
Proof. reflexivity. Qed.

Lemma first_some_desc_ext {A} (g1 g2 : nat -> option A) n :
  (forall j, g1 j = g2 j) -> first_some_desc g1 n = first_some_desc g2 n.
Proof. intros H. induction n as [|n IH]; simpl; [apply H|]. by rewrite H, IH. Qed.
