(* ===== verification/Varint.v ===== *)
(** * Varint: the byte reader and the unsigned base-128 varint codec

    Models [_uvarint_encode] and [_uvarint_decode] of
    [src/brain/language/graph_builder.py] and the primitive reads that
    [decode_pgraph] performs on its buffer: [buf[i]] (one byte) and
    [int.from_bytes(buf[i:i+2], "little")] (the 16-bit flag fields).

    A byte buffer is a [list Z] whose elements are in [0, 256).  The
    decoder threads an index [i] through the buffer and reads forward
    only; it is modelled by a parser over the unread suffix
    ([parser A := list Z -> result (A * list Z) codec_error]), the index
    being [length buf - length suffix].  Every Python exception a read can
    raise is a constructor of [codec_error]. *)

From S2P Require Import Prelude.
From coqutil Require Import Z.bitblast Z.prove_Zeq_bitwise.
From Stdlib Require Import Btauto.

Open Scope Z_scope.

(** ** Errors of the codec *)
Inductive codec_error :=
| NegativeVarint      (** [_uvarint_encode]: [ValueError("uvarint cannot encode negative values")] *)
| VarintTruncated     (** [_uvarint_decode]: [ValueError("uvarint: truncated input")] *)
| VarintTooLarge      (** [_uvarint_decode]: [ValueError("uvarint: value too large")] *)
| IndexOutOfRange     (** [buf[i]] past the end: [IndexError] *)
| InvalidMagic        (** [decode_pgraph]: [ValueError("Invalid magic ...")] *)
| TruncatedFeatures.  (** [decode_pgraph]: [ValueError("Truncated g_features")] *)

#[export] Instance codec_error_eq_dec : EqDecision codec_error.
Proof. solve_decision. Qed.

(** ** The parser monad *)
Definition parser (A : Type) : Type := list Z -> result (A * list Z) codec_error.

Definition p_ret {A} (a : A) : parser A := fun s => Ok (a, s).
Definition p_bind {A B} (m : parser A) (k : A -> parser B) : parser B :=
  fun s => match m s with Ok (a, s') => k a s' | Err e => Err e end.
Definition p_fail {A} (e : codec_error) : parser A := fun _ => Err e.

Notation "x <-- m ;;; k" := (p_bind m (fun x => k))
  (at level 100, m at next level, right associativity) : pablo_scope.

(** [buf[i]; i += 1] *)
Definition read_byte : parser Z := fun s =>
  match s with
  | b :: s' => Ok (b, s')
  | [] => Err IndexOutOfRange
  end.

(** [int.from_bytes(buf[i:i+2], "little"); i += 2]: a slice past the end
    is silently shorter, and the index moves by 2 regardless. *)
Fixpoint le_value (bs : list Z) : Z :=
  match bs with
  | [] => 0
  | b :: bs' => b + 256 * le_value bs'
  end.

Definition read_u16le : parser Z := fun s => Ok (le_value (take 2 s), drop 2 s).

(** [(x & 0xFFFF).to_bytes(2, "little")] *)
Definition u16le_bytes (x : Z) : list Z :=
  let y := Z.land x 0xFFFF in [Z.land y 0xFF; Z.shiftr y 8].

(** ** Varint encoding *)

(** One iteration of the [while True] loop per 7-bit group; [fuel]
    bounds the number of groups and [uvarint_fuel] gives enough. *)
Fixpoint uvarint_groups (fuel : nat) (value : Z) : list Z :=
  match fuel with
  | O => []
  | S fuel' =>
      let b := Z.land value 0x7F in
      let value' := Z.shiftr value 7 in
      if value' =? 0 then [b] else Z.lor b 0x80 :: uvarint_groups fuel' value'
  end.

Definition uvarint_fuel (value : Z) : nat := S (Z.to_nat (Z.log2 value)).

Definition _uvarint_encode (value : Z) : result (list Z) codec_error :=
  if value <? 0 then Err NegativeVarint
  else Ok (uvarint_groups (uvarint_fuel value) value).

(** ** Varint decoding *)

(** The loop body of [_uvarint_decode], with [shift] and [value] as
    accumulators; the buffer suffix is the read position. *)
Fixpoint uvarint_loop (shift value : Z) (s : list Z) : result (Z * list Z) codec_error :=
  match s with
  | [] => Err VarintTruncated
  | b :: s' =>
      let value' := Z.lor value (Z.shiftl (Z.land b 0x7F) shift) in
      if Z.land b 0x80 =? 0 then Ok (value', s')
      else if 63 <? shift + 7 then Err VarintTooLarge
      else uvarint_loop (shift + 7) value' s'
  end.

Definition _uvarint_decode : parser Z := uvarint_loop 0 0.

(** ** Bit-level helper lemmas *)

Lemma testbit_127 i : 0 <= i -> Z.testbit 127 i = (i <? 7).
Proof.
  intros. change 127 with (Z.ones 7). rewrite Z.testbit_ones by lia.
  destruct (Z.leb_spec 0 i); [reflexivity|lia].
Qed.

Lemma testbit_128 i : 0 <= i -> Z.testbit 128 i = (i =? 7).
Proof.
  intros. change 128 with (2^7). rewrite Z.pow2_bits_eqb by lia. apply Z.eqb_sym.
Qed.

Ltac bits :=
  prove_Zeq_bitwise; rewrite ?testbit_127, ?testbit_128 by lia;
  repeat match goal with
  | |- context [?a <? ?b] => destruct (Z.ltb_spec a b)
  | |- context [?a =? ?b] => destruct (Z.eqb_spec a b)
  end; try lia; rewrite ?Z.sub_add;
  repeat match goal with |- context [Z.testbit ?x ?y] => destruct (Z.testbit x y) end;
  simpl; try reflexivity; try lia.

Lemma split7 v : Z.lor (Z.land v 127) (Z.shiftl (Z.shiftr v 7) 7) = v.
Proof. bits. Qed.

Lemma land_cont_set v : Z.land (Z.lor (Z.land v 127) 128) 128 = 128.
Proof. bits. Qed.

Lemma land_cont_payload v : Z.land (Z.lor (Z.land v 127) 128) 127 = Z.land v 127.
Proof. bits. Qed.

Lemma land_last_clear v : Z.land (Z.land v 127) 128 = 0.
Proof. bits. Qed.

Lemma land_127_idem v : Z.land (Z.land v 127) 127 = Z.land v 127.
Proof. rewrite <- Z.land_assoc. reflexivity. Qed.

Lemma lor_shift_step a v s : 0 <= s ->
  Z.lor (Z.lor a (Z.shiftl (Z.land v 127) s)) (Z.shiftl (Z.shiftr v 7) (s + 7)) =
  Z.lor a (Z.shiftl v s).
Proof.
  intros Hs. rewrite <- Z.lor_assoc. f_equal.
  rewrite (Z.add_comm s 7), <- Z.shiftl_shiftl by lia.
  rewrite <- Z.shiftl_lor, split7. reflexivity.
Qed.

Lemma land_127_range v : 0 <= Z.land v 127 < 128.
Proof.
  change 127 with (Z.ones 7). rewrite Z.land_ones by lia.
  apply Z.mod_pos_bound. lia.
Qed.

Lemma lor_lt_pow2 a b n :
  0 <= a < 2 ^ n -> 0 <= b < 2 ^ n -> 0 <= Z.lor a b < 2 ^ n.
Proof.
  intros Ha Hb. destruct (Z.lt_ge_cases n 0) as [Hn|Hn].
  { rewrite Z.pow_neg_r in Ha by lia. lia. }
  split; [apply Z.lor_nonneg; lia|].
  assert (Hz : forall x, 0 <= x < 2 ^ n -> Z.shiftr x n = 0).
  { intros x Hx. destruct (Z.eq_dec x 0) as [->|]; [apply Z.shiftr_0_l|].
    apply Z.shiftr_eq_0; [lia|]. apply Z.log2_lt_pow2; lia. }
  assert (Hl : Z.shiftr (Z.lor a b) n = 0).
  { rewrite Z.shiftr_lor, (Hz a), (Hz b) by lia. reflexivity. }
  apply Z.shiftr_eq_0_iff in Hl as [Hl|[Hp Hl]]; [rewrite Hl; apply Z.pow_pos_nonneg; lia|].
  apply Z.log2_lt_pow2; lia.
Qed.

Lemma shiftl_lt_pow2 b s m :
  0 <= s -> 0 <= b < 2 ^ m -> 0 <= Z.shiftl b s < 2 ^ (m + s).
Proof.
  intros Hs Hb. rewrite Z.shiftl_mul_pow2 by lia.
  destruct (Z.lt_ge_cases m 0) as [Hm|Hm]; [rewrite Z.pow_neg_r in Hb by lia; lia|].
  rewrite Z.pow_add_r by lia. pose proof (Z.pow_pos_nonneg 2 s). nia.
Qed.

(** The bytes [_uvarint_encode] writes for a non-negative value. *)
Definition uvarint_bytes (v : Z) : list Z := uvarint_groups (uvarint_fuel v) v.

Lemma pow2_7mul n : 2 ^ (7 * Z.of_nat (S n)) = 128 * 2 ^ (7 * Z.of_nat n).
Proof.
  rewrite Nat2Z.inj_succ, Z.mul_succ_r, Z.pow_add_r by lia. lia.
Qed.

Lemma shiftr7_bound v n :
  0 <= v < 2 ^ (7 * Z.of_nat (S n)) -> 0 <= Z.shiftr v 7 < 2 ^ (7 * Z.of_nat n).
Proof.
  rewrite pow2_7mul, Z.shiftr_div_pow2 by lia. intros Hv.
  pose proof (Z.pow_pos_nonneg 2 (7 * Z.of_nat n)).
  split; [apply Z.div_pos; lia|]. apply Z.div_lt_upper_bound; lia.
Qed.

Lemma shiftr7_nonzero v : 0 <= v -> Z.shiftr v 7 <> 0 -> 128 <= v.
Proof.
  intros Hv Hne. rewrite Z.shiftr_div_pow2 in Hne by lia.
  destruct (Z.lt_ge_cases v 128); [|lia].
  rewrite Z.div_small in Hne; lia.
Qed.

Lemma shiftr7_zero v : Z.shiftr v 7 = 0 -> Z.land v 127 = v.
Proof. intros H. rewrite <- (split7 v) at 2. rewrite H. simpl. rewrite Z.lor_0_r. reflexivity. Qed.

Lemma uvarint_fuel_enough v : 0 <= v -> v < 2 ^ (7 * Z.of_nat (uvarint_fuel v)).
Proof.
  intros Hv. unfold uvarint_fuel. rewrite pow2_7mul.
  destruct (Z.eq_dec v 0) as [->|Hne]; [pose proof (Z.pow_pos_nonneg 2 (7 * Z.of_nat (Z.to_nat (Z.log2 0)))); lia|].
  pose proof (Z.log2_spec v ltac:(lia)) as [_ Hlt].
  pose proof (Z.log2_nonneg v).
  rewrite Z2Nat.id by lia.
  assert (2 ^ Z.succ (Z.log2 v) <= 128 * 2 ^ (7 * Z.log2 v)); [|lia].
  rewrite <- Z.add_1_r, Z.pow_add_r by lia. change (2 ^ 1) with 2.
  assert (2 ^ Z.log2 v <= 2 ^ (7 * Z.log2 v)) by (apply Z.pow_le_mono_r; lia). lia.
Qed.

Lemma uvarint_loop_groups f k v acc rest :
  (k <= 9)%nat -> f <> O ->
  0 <= v < 2 ^ (7 * Z.of_nat f) -> v < 2 ^ (7 * Z.of_nat (10 - k)) ->
  uvarint_loop (7 * Z.of_nat k) acc (uvarint_groups f v ++ rest) =
  Ok (Z.lor acc (Z.shiftl v (7 * Z.of_nat k)), rest).
Proof.
  revert k v acc. induction f as [|f IH]; intros k v acc Hk Hf Hv Hv10; [done|].
  simpl uvarint_groups. destruct (Z.eqb_spec (Z.shiftr v 7) 0) as [Hz|Hnz].
  - simpl. rewrite land_last_clear, Z.eqb_refl, land_127_idem, (shiftr7_zero v Hz). done.
  - simpl. rewrite land_cont_set, land_cont_payload. simpl.
    pose proof (shiftr7_nonzero v ltac:(lia) Hnz) as H128.
    assert (k <> 9%nat) by (intros ->; simpl in Hv10; lia).
    destruct (Z.ltb_spec 63 (7 * Z.of_nat k + 7)); [lia|].
    replace (7 * Z.of_nat k + 7) with (7 * Z.of_nat (S k)) by lia.
    rewrite IH.
    + rewrite Nat2Z.inj_succ, <- Z.add_1_r, Z.mul_add_distr_l, Z.mul_1_r.
      rewrite lor_shift_step by lia. reflexivity.
    + lia.
    + intros ->. pose proof (shiftr7_bound v O Hv). simpl in *. lia.
    + apply shiftr7_bound. exact Hv.
    + replace (10 - k)%nat with (S (10 - S k)) in Hv10 by lia.
      apply shiftr7_bound. lia.
Qed.


Lemma shiftr7_lower v n :
  2 ^ (7 * Z.of_nat (S n)) <= v -> 2 ^ (7 * Z.of_nat n) <= Z.shiftr v 7.
Proof.
  rewrite pow2_7mul, Z.shiftr_div_pow2 by lia. intros Hv.
  apply Z.div_le_lower_bound; lia.
Qed.

Lemma uvarint_loop_groups_large f k v acc rest :
  (k <= 9)%nat -> f <> O ->
  0 <= v < 2 ^ (7 * Z.of_nat f) -> 2 ^ (7 * Z.of_nat (10 - k)) <= v ->
  uvarint_loop (7 * Z.of_nat k) acc (uvarint_groups f v ++ rest) = Err VarintTooLarge.
Proof.
  revert k v acc. induction f as [|f IH]; intros k v acc Hk Hf Hv Hv10; [done|].
  assert (H128 : 128 <= v).
  { assert (2 ^ 7 <= 2 ^ (7 * Z.of_nat (10 - k))) by (apply Z.pow_le_mono_r; lia). lia. }
  simpl uvarint_groups. destruct (Z.eqb_spec (Z.shiftr v 7) 0) as [Hz|Hnz].
  { rewrite Z.shiftr_div_pow2, Z.div_small_iff in Hz by lia. lia. }
  simpl. rewrite land_cont_set, land_cont_payload. simpl.
  destruct (Z.ltb_spec 63 (7 * Z.of_nat k + 7)); [reflexivity|].
  replace (7 * Z.of_nat k + 7) with (7 * Z.of_nat (S k)) by lia.
  apply IH; [lia| | |].
  - intros ->. pose proof (shiftr7_bound v O Hv). simpl in *. lia.
  - apply shiftr7_bound. exact Hv.
  - replace (10 - k)%nat with (S (10 - S k)) in Hv10 by lia.
    apply shiftr7_lower. exact Hv10.
Qed.

Lemma uvarint_loop_bound s : forall shift value v r,
  0 <= shift <= 63 -> 0 <= value < 2 ^ shift ->
  uvarint_loop shift value s = Ok (v, r) -> 0 <= v < 2 ^ 70.
Proof.
  induction s as [|b s IH]; intros shift value v r Hs Hval H; simpl in H; [discriminate|].
  assert (Hv' : 0 <= Z.lor value (Z.shiftl (Z.land b 127) shift) < 2 ^ (shift + 7)).
  { apply lor_lt_pow2.
    - assert (2 ^ shift <= 2 ^ (shift + 7)) by (apply Z.pow_le_mono_r; lia). lia.
    - rewrite Z.add_comm. apply shiftl_lt_pow2; [lia|]. pose proof (land_127_range b). done. }
  destruct (Z.land b 128 =? 0).
  - injection H as <- <-.
    assert (2 ^ (shift + 7) <= 2 ^ 70) by (apply Z.pow_le_mono_r; lia). lia.
  - destruct (Z.ltb_spec 63 (shift + 7)); [discriminate|].
    eapply IH; [|exact Hv'|exact H]. lia.
Qed.

Lemma uvarint_groups_bytes f v : Forall (fun b => 0 <= b < 256) (uvarint_groups f v).
Proof.
  revert v. induction f as [|f IH]; intros v; simpl; [constructor|].
  pose proof (land_127_range v).
  destruct (Z.shiftr v 7 =? 0); repeat constructor; try apply IH; try lia.
  - apply Z.lor_nonneg; lia.
  - change 256 with (2 ^ 8). apply lor_lt_pow2; change (2 ^ 8) with 256; lia.
Qed.

(** ** Properties of the varint codec *)

(** Decoding the groups of an in-range value gives it back. *)
Lemma uvarint_decode_groups v rest :
  0 <= v < 2 ^ 70 -> _uvarint_decode (uvarint_groups (uvarint_fuel v) v ++ rest) = Ok (v, rest).
Proof.
  intros Hv. pose proof (uvarint_loop_groups (uvarint_fuel v) 0 v 0 rest) as Hl.
  cbn [Z.of_nat Z.mul Nat.sub] in Hl. rewrite Z.shiftl_0_r in Hl.
  apply Hl; [lia|unfold uvarint_fuel; lia|split; [lia|apply uvarint_fuel_enough; lia]|lia].
Qed.

(** C7: Round trip.  Every integer in [0, 2^70) is encoded without
    error, and decoding its bytes, followed by anything, gives the integer
    back and stops exactly after them. *)
Theorem uvarint_roundtrip v rest :
  0 <= v < 2 ^ 70 ->
  res_bind (_uvarint_encode v) (fun bs => _uvarint_decode (bs ++ rest)) = Ok (v, rest).
Proof.
  intros Hv. unfold _uvarint_encode. destruct (Z.ltb_spec v 0); [lia|]. cbn [res_bind].
  by apply uvarint_decode_groups.
Qed.

(** C12: Encoder and decoder disagree on the range.  [_uvarint_encode]
    accepts every non-negative integer, but for any value of 2^70 or more
    the decoder rejects the bytes the encoder wrote with
    [VarintTooLarge]: the shift guard allows ten groups of seven bits. *)
Theorem uvarint_oversize_rejected v rest :
  2 ^ 70 <= v ->
  res_bind (_uvarint_encode v) (fun bs => _uvarint_decode (bs ++ rest)) = Err VarintTooLarge.
Proof.
  intros Hv. unfold _uvarint_encode. destruct (Z.ltb_spec v 0); [lia|]. cbn [res_bind].
  pose proof (uvarint_loop_groups_large (uvarint_fuel v) 0 v 0 rest) as Hl.
  cbn [Z.of_nat Z.mul Nat.sub] in Hl.
  apply Hl; [lia|unfold uvarint_fuel; lia|split; [lia|apply uvarint_fuel_enough; lia]|lia].
Qed.

(** Every value the decoder returns, whatever the input bytes, lies
    in [0, 2^70): the decoded integer is bounded by ten 7-bit groups,
    not by 64 bits. *)
Theorem uvarint_decode_bound s v r :
  _uvarint_decode s = Ok (v, r) -> 0 <= v < 2 ^ 70.
Proof. apply uvarint_loop_bound; lia. Qed.

(** The encoder emits only bytes, at least one, and rejects exactly
    the negative integers. *)
Theorem uvarint_encode_spec v :
  (v < 0 /\ _uvarint_encode v = Err NegativeVarint) \/
  (0 <= v /\ exists bs, _uvarint_encode v = Ok bs /\ bs <> [] /\
                        Forall (fun b => 0 <= b < 256) bs).
Proof.
  unfold _uvarint_encode. destruct (Z.ltb_spec v 0); [left; done|right].
  split; [lia|]. eexists; split; [reflexivity|]. split; [|apply uvarint_groups_bytes].
  unfold uvarint_fuel. simpl. destruct (_ =? 0); discriminate.
Qed.

(** ** Witnesses on concrete values *)

Example uvarint_300 : _uvarint_encode 300 = Ok [0xAC; 0x02].
Proof. reflexivity. Qed.

Lemma uvarint_roundtrip_witness :
  (0 <= 300 < 2 ^ 70) /\
  res_bind (_uvarint_encode 300) (fun bs => _uvarint_decode (bs ++ [7])) = Ok (300, [7]).
Proof. split; [lia|apply uvarint_roundtrip; lia]. Defined.

Lemma uvarint_oversize_rejected_witness :
  (2 ^ 70 <= 2 ^ 70) /\
  res_bind (_uvarint_encode (2 ^ 70)) (fun bs => _uvarint_decode (bs ++ [])) = Err VarintTooLarge.
Proof. split; [lia|apply uvarint_oversize_rejected; lia]. Defined.

Lemma uvarint_decode_bound_witness :
  _uvarint_decode [0xAC; 0x02] = Ok (300, []) /\ 0 <= 300 < 2 ^ 70.
Proof. split; [reflexivity|apply (uvarint_decode_bound [0xAC; 0x02] 300 []); reflexivity]. Defined.
