(* ===== verification/Graph.v ===== *)
(** * Graph: the data shapes and the [GraphBuilder] of graph_builder.py

    Models the enumerations ([GraphType], [SchemaID], [NodeType],
    [EdgeType]), the flag constants, the dataclasses [Node], [Edge] and
    [Graph], and the class [GraphBuilder] of
    [src/brain/language/graph_builder.py].  Python integers are [Z]; the
    dataclass fields hold whatever integer the caller passed ([int(x)]),
    so the records hold [Z] and the enumerations are separate inductive
    types with their wire codes.  The builder is a record of its slots;
    each method is a function from the builder to the new builder (and
    the method's return value); [set_thumbnail] is fallible.  The builder
    is also given as a step relation over its operations, and the
    invariant of its reachable states (dense node ids, valid thumbnail)
    is proved by rule induction. *)

From S2P Require Import Prelude.

Open Scope Z_scope.

(** ** Enumerations and their wire codes *)

Inductive GraphType := SIMPLE | MULTI | TREE | DAG | HETERO | TEMPORAL.
Inductive SchemaID := WRITING.
Inductive NodeType :=
| TOKEN | ENTITY | PREDICATE | EVENT | PHRASE | EDU | DISCOURSE_REL
| NEGATION | MODALITY | QUANTIFIER | TIME_EXPR | PLACE | KG_ENTITY | KG_CONCEPT.
Inductive EdgeType :=
| DEP | ROLE | COREF | DISCOURSE | SCOPES_OVER | HAPPENS_AT | LOCATED_IN
| SAME_AS | NEXT | PUNCT_EDGE | ARG_OF.

Definition GraphType_code (t : GraphType) : Z :=
  match t with SIMPLE => 1 | MULTI => 2 | TREE => 3 | DAG => 4 | HETERO => 5 | TEMPORAL => 6 end.
Definition SchemaID_code (s : SchemaID) : Z := match s with WRITING => 1 end.
Definition NodeType_code (t : NodeType) : Z :=
  match t with
  | TOKEN => 1 | ENTITY => 2 | PREDICATE => 3 | EVENT => 4 | PHRASE => 5 | EDU => 6
  | DISCOURSE_REL => 7 | NEGATION => 8 | MODALITY => 9 | QUANTIFIER => 10
  | TIME_EXPR => 11 | PLACE => 12 | KG_ENTITY => 13 | KG_CONCEPT => 14
  end.
Definition EdgeType_code (t : EdgeType) : Z :=
  match t with
  | DEP => 1 | ROLE => 2 | COREF => 3 | DISCOURSE => 4 | SCOPES_OVER => 5
  | HAPPENS_AT => 6 | LOCATED_IN => 7 | SAME_AS => 8 | NEXT => 9 | PUNCT_EDGE => 10
  | ARG_OF => 11
  end.

(** [NodeType(x)] and the like: the member with a given value, if any. *)
Definition all_NodeTypes : list NodeType :=
  [TOKEN; ENTITY; PREDICATE; EVENT; PHRASE; EDU; DISCOURSE_REL; NEGATION;
   MODALITY; QUANTIFIER; TIME_EXPR; PLACE; KG_ENTITY; KG_CONCEPT].
Definition all_EdgeTypes : list EdgeType :=
  [DEP; ROLE; COREF; DISCOURSE; SCOPES_OVER; HAPPENS_AT; LOCATED_IN; SAME_AS;
   NEXT; PUNCT_EDGE; ARG_OF].
Definition all_GraphTypes : list GraphType := [SIMPLE; MULTI; TREE; DAG; HETERO; TEMPORAL].

Definition NodeType_of_code (z : Z) : option NodeType :=
  List.find (fun t => NodeType_code t =? z) all_NodeTypes.
Definition EdgeType_of_code (z : Z) : option EdgeType :=
  List.find (fun t => EdgeType_code t =? z) all_EdgeTypes.
Definition GraphType_of_code (z : Z) : option GraphType :=
  List.find (fun t => GraphType_code t =? z) all_GraphTypes.

(** ** Flags (bit positions are part of the wire contract) *)

Definition NF_IS_ROOT : Z := Z.shiftl 1 0.
Definition NF_IS_STOP : Z := Z.shiftl 1 1.
Definition NF_IS_CAPITALIZED : Z := Z.shiftl 1 2.
Definition NF_IS_PUNCT : Z := Z.shiftl 1 3.
Definition NF_PROPOSED : Z := Z.shiftl 1 4.
Definition NF_IS_HEAD : Z := Z.shiftl 1 5.
Definition NF_SENT_END_STRONG : Z := Z.shiftl 1 6.
Definition NF_SENT_END_WEAK : Z := Z.shiftl 1 7.

Definition EF_DIRECTED : Z := Z.shiftl 1 0.
Definition EF_PROPOSED : Z := Z.shiftl 1 1.
Definition EF_SYMMETRIC : Z := Z.shiftl 1 2.
Definition EF_CROSS_SENT : Z := Z.shiftl 1 3.
Definition EF_NEGATED : Z := Z.shiftl 1 4.
Definition EF_INFERRED : Z := Z.shiftl 1 5.

(** ** Data shapes *)

Record Node := mkNode {
  node_id : Z;
  n_type : Z;
  sub_type : Z;
  features_ref : Z;
  span : Z * Z;
  n_flags : Z;
  n_confidence : Z;
  label_id : Z
}.

Record Edge := mkEdge {
  src_id : Z;
  dst_id : Z;
  e_type : Z;
  weight : Z;
  time : Z;
  e_flags : Z;
  e_confidence : Z;
  attr_ref : Z
}.

Record Graph := mkGraph {
  graph_id : Z;
  graph_type : Z;
  num_nodes : Z;
  num_edges : Z;
  g_features : option (list Z);
  source_id : Z;
  version : Z;
  schema_id : Z;
  nodes : list Node;
  edges : list Edge
}.

#[export] Instance Node_eq_dec : EqDecision Node.
Proof. solve_decision. Defined.
#[export] Instance Edge_eq_dec : EqDecision Edge.
Proof. solve_decision. Defined.
#[export] Instance Graph_eq_dec : EqDecision Graph.
Proof. solve_decision. Defined.

(** ** The builder *)

Record GraphBuilder := mkBuilder {
  gb_graph_id : Z;
  gb_graph_type : Z;
  gb_source_id : Z;
  gb_version : Z;
  gb_schema_id : Z;
  gb_nodes : list Node;
  gb_edges : list Edge;
  gb_features : option (list Z)
}.

(** [GraphBuilder.__init__]: note that [g_features] is stored without
    the length check that [set_thumbnail] performs. *)
Definition GraphBuilder_init (graph_id schema_id graph_type source_id version : Z)
    (g_features : option (list Z)) : GraphBuilder :=
  {| gb_graph_id := graph_id; gb_schema_id := schema_id; gb_graph_type := graph_type;
     gb_source_id := source_id; gb_version := version; gb_features := g_features;
     gb_nodes := []; gb_edges := [] |}.

(** The defaults of the keyword arguments. *)
Definition GraphBuilder_default (graph_id : Z) : GraphBuilder :=
  GraphBuilder_init graph_id (SchemaID_code WRITING) (GraphType_code HETERO) 0 1 None.

Definition with_nodes (gb : GraphBuilder) (ns : list Node) : GraphBuilder :=
  {| gb_graph_id := gb_graph_id gb; gb_graph_type := gb_graph_type gb;
     gb_source_id := gb_source_id gb; gb_version := gb_version gb;
     gb_schema_id := gb_schema_id gb; gb_nodes := ns; gb_edges := gb_edges gb;
     gb_features := gb_features gb |}.

Definition with_edges (gb : GraphBuilder) (es : list Edge) : GraphBuilder :=
  {| gb_graph_id := gb_graph_id gb; gb_graph_type := gb_graph_type gb;
     gb_source_id := gb_source_id gb; gb_version := gb_version gb;
     gb_schema_id := gb_schema_id gb; gb_nodes := gb_nodes gb; gb_edges := es;
     gb_features := gb_features gb |}.

Definition with_features (gb : GraphBuilder) (f : option (list Z)) : GraphBuilder :=
  {| gb_graph_id := gb_graph_id gb; gb_graph_type := gb_graph_type gb;
     gb_source_id := gb_source_id gb; gb_version := gb_version gb;
     gb_schema_id := gb_schema_id gb; gb_nodes := gb_nodes gb; gb_edges := gb_edges gb;
     gb_features := f |}.

(** [add_node]: the new id is the current node count; returns it. *)
Definition add_node (gb : GraphBuilder) (n_type sub_type label_id : Z) (span : Z * Z)
    (flags confidence features_ref : Z) : GraphBuilder * Z :=
  let node_id := Z.of_nat (length (gb_nodes gb)) in
  (with_nodes gb (gb_nodes gb ++
     [{| node_id := node_id; n_type := n_type; sub_type := sub_type;
         features_ref := features_ref; span := span; n_flags := flags;
         n_confidence := confidence; label_id := label_id |}]),
   node_id).

(** [add_edge]: endpoints are not checked against the node count;
    returns the index of the new edge. *)
Definition add_edge (gb : GraphBuilder) (src dst e_ty wt tm flags confidence attr : Z)
    : GraphBuilder * Z :=
  let gb' := with_edges gb (gb_edges gb ++
     [{| src_id := src; dst_id := dst; e_type := e_ty; weight := wt; time := tm;
         e_flags := flags; e_confidence := confidence; attr_ref := attr |}]) in
  (gb', Z.of_nat (length (gb_edges gb')) - 1).

Inductive builder_error := InvalidThumbnailLength.

(** [set_thumbnail]: [None] or a 64- or 128-byte value. *)
Definition set_thumbnail (gb : GraphBuilder) (features : option (list Z))
    : result GraphBuilder builder_error :=
  match features with
  | Some f => if negb ((length f =? 64)%nat || (length f =? 128)%nat)
              then Err InvalidThumbnailLength
              else Ok (with_features gb features)
  | None => Ok (with_features gb features)
  end.

(** [finalize]: a snapshot, counts derived from the lists. *)
Definition finalize (gb : GraphBuilder) : Graph :=
  {| graph_id := gb_graph_id gb; graph_type := gb_graph_type gb;
     num_nodes := Z.of_nat (length (gb_nodes gb));
     num_edges := Z.of_nat (length (gb_edges gb));
     g_features := gb_features gb; source_id := gb_source_id gb;
     version := gb_version gb; schema_id := gb_schema_id gb;
     nodes := gb_nodes gb; edges := gb_edges gb |}.

(** ** The builder as a state machine *)

(** One call on the builder. *)
Inductive builder_op :=
| OpAddNode (n_type sub_type label_id : Z) (span : Z * Z) (flags confidence features_ref : Z)
| OpAddEdge (src dst e_ty wt tm flags confidence attr : Z)
| OpSetThumbnail (features : option (list Z)).

Definition exec_op (gb : GraphBuilder) (op : builder_op) : result GraphBuilder builder_error :=
  match op with
  | OpAddNode t st l sp fl c fr => Ok (add_node gb t st l sp fl c fr).1
  | OpAddEdge s d t w tm fl c a => Ok (add_edge gb s d t w tm fl c a).1
  | OpSetThumbnail f => set_thumbnail gb f
  end.

(** A script of calls; the first exception ends it. *)
Fixpoint run_ops (gb : GraphBuilder) (ops : list builder_op) : result GraphBuilder builder_error :=
  match ops with
  | [] => Ok gb
  | op :: ops' => res_bind (exec_op gb op) (fun gb' => run_ops gb' ops')
  end.

Inductive bstep : GraphBuilder -> GraphBuilder -> Prop :=
| bstep_op gb op gb' : exec_op gb op = Ok gb' -> bstep gb gb'.

Inductive reachable (gb0 : GraphBuilder) : GraphBuilder -> Prop :=
| reach_init : reachable gb0 gb0
| reach_step gb gb' : reachable gb0 gb -> bstep gb gb' -> reachable gb0 gb'.

(** A thumbnail the code accepts in [set_thumbnail]. *)
Definition thumb_ok (f : option (list Z)) : Prop :=
  match f with
  | None => True
  | Some l => length l = 64%nat \/ length l = 128%nat
  end.

(** Node ids are the dense sequence 0, 1, ... in insertion order. *)
Definition dense_ids (ns : list Node) : Prop :=
  forall i n, ns !! i = Some n -> node_id n = Z.of_nat i.

Definition builder_inv (gb : GraphBuilder) : Prop :=
  dense_ids (gb_nodes gb) /\ thumb_ok (gb_features gb).

Lemma dense_ids_snoc ns n :
  dense_ids ns -> node_id n = Z.of_nat (length ns) -> dense_ids (ns ++ [n]).
Proof.
  intros Hd Hn i m Hi. apply lookup_app_Some in Hi as [Hi|[Hge Hi]]; [by apply Hd|].
  apply list_lookup_singleton_Some in Hi as [Hi ->]. rewrite Hn. f_equal. lia.
Qed.

Lemma set_thumbnail_ok gb f gb' :
  set_thumbnail gb f = Ok gb' -> thumb_ok f /\ gb' = with_features gb f.
Proof.
  destruct f as [l|]; simpl; [|intros [=]; done].
  destruct (length l =? 64)%nat eqn:E1, (length l =? 128)%nat eqn:E2; simpl;
    intros H; inversion H; subst; split; try done;
    rewrite ?Nat.eqb_eq in *; auto.
Qed.

Lemma exec_op_inv gb op gb' :
  builder_inv gb -> exec_op gb op = Ok gb' -> builder_inv gb'.
Proof.
  intros [Hd Ht] H. destruct op; simpl in H.
  - injection H as <-. split; [|done]. apply dense_ids_snoc; [done|reflexivity].
  - injection H as <-. split; done.
  - apply set_thumbnail_ok in H as [Hf ->]. split; done.
Qed.

Lemma run_ops_reachable gb ops gb' : run_ops gb ops = Ok gb' -> reachable gb gb'.
Proof.
  assert (Hgen : forall gb0 gb, reachable gb0 gb -> run_ops gb ops = Ok gb' -> reachable gb0 gb').
  { induction ops as [|op ops IH]; intros gb0 g Hr H; simpl in H; [by injection H as <-|].
    apply res_bind_Ok_inv in H as [g1 [H1 H2]]. eapply IH; [|exact H2].
    eapply reach_step; [exact Hr|]. econstructor. exact H1. }
  intros H. eapply Hgen; [constructor|exact H].
Qed.

Lemma init_inv graph_id schema_id graph_type source_id version f0 :
  thumb_ok f0 -> builder_inv (GraphBuilder_init graph_id schema_id graph_type source_id version f0).
Proof. intros Hf. split; [intros i n Hi; simpl in Hi; rewrite lookup_nil in Hi; discriminate|exact Hf]. Qed.

(** [builder_inv] is an invariant of the step relation. *)
Lemma reachable_preserves_inv gb0 gb : builder_inv gb0 -> reachable gb0 gb -> builder_inv gb.
Proof.
  intros H0 Hr. induction Hr as [|g g' Hr IH Hs]; [exact H0|].
  inversion Hs; subst. eapply exec_op_inv; eauto.
Qed.

(** C8: Builder invariant.  From a freshly constructed builder whose
    initial thumbnail is one [set_thumbnail] would accept, every state
    reached by any sequence of successful calls has dense node ids
    (the i-th node has id i) and an accepted thumbnail. *)
Theorem builder_reachable_inv graph_id schema_id graph_type source_id version f0 gb :
  thumb_ok f0 ->
  reachable (GraphBuilder_init graph_id schema_id graph_type source_id version f0) gb ->
  builder_inv gb.
Proof.
  intros Hf Hr. exact (reachable_preserves_inv _ _ (init_inv _ _ _ _ _ _ Hf) Hr).
Qed.

(** [finalize] of any reachable builder (started from an accepted
    thumbnail) is a graph whose node and edge counts are the lengths of
    its lists, whose node ids are dense, and whose thumbnail is [None] or
    has 64 or 128 bytes. *)
Theorem finalize_wf graph_id schema_id graph_type source_id version f0 gb :
  thumb_ok f0 ->
  reachable (GraphBuilder_init graph_id schema_id graph_type source_id version f0) gb ->
  let g := finalize gb in
  num_nodes g = Z.of_nat (length (nodes g)) /\ num_edges g = Z.of_nat (length (edges g)) /\
  dense_ids (nodes g) /\ thumb_ok (g_features g).
Proof.
  intros Hf Hr. destruct (reachable_preserves_inv _ _ (init_inv _ _ _ _ _ _ Hf) Hr) as [Hd Ht].
  simpl. auto.
Qed.

(** C15: [set_thumbnail] succeeds exactly on [None] and on 64- or
    128-byte values, and then only replaces the thumbnail; in particular
    an empty byte string (length 0) is rejected. *)
Theorem set_thumbnail_spec gb f :
  (thumb_ok f -> set_thumbnail gb f = Ok (with_features gb f)) /\
  (~ thumb_ok f -> set_thumbnail gb f = Err InvalidThumbnailLength).
Proof.
  destruct f as [l|]; simpl; [|split; [done|tauto]].
  destruct (Nat.eqb_spec (length l) 64), (Nat.eqb_spec (length l) 128); simpl;
    split; intros H; try done; try tauto; lia.
Qed.

(** ** Witnesses *)

Definition sample_ops : list builder_op :=
  [OpAddNode (NodeType_code TOKEN) 0 123 (0, 1) NF_IS_CAPITALIZED 240 0;
   OpAddNode (NodeType_code TOKEN) 0 456 (1, 2) 0 255 0;
   OpAddEdge 0 1 (EdgeType_code NEXT) 255 0 EF_DIRECTED 255 0;
   OpSetThumbnail (Some (repeat 0 64))].

Definition sample_builder : GraphBuilder :=
  match run_ops (GraphBuilder_default 1) sample_ops with Ok gb => gb | Err _ => GraphBuilder_default 1 end.

Lemma sample_builder_reachable : reachable (GraphBuilder_default 1) sample_builder.
Proof. apply (run_ops_reachable _ sample_ops). reflexivity. Qed.

Lemma builder_reachable_inv_witness :
  thumb_ok None /\ builder_inv sample_builder.
Proof.
  split; [exact I|].
  apply (builder_reachable_inv 1 (SchemaID_code WRITING) (GraphType_code HETERO) 0 1 None);
    [exact I|apply sample_builder_reachable].
Defined.

Lemma finalize_wf_witness :
  thumb_ok None /\ num_nodes (finalize sample_builder) = 2.
Proof.
  split; [exact I|].
  destruct (finalize_wf 1 (SchemaID_code WRITING) (GraphType_code HETERO) 0 1 None sample_builder
              I sample_builder_reachable) as [Hn _].
  rewrite Hn. reflexivity.
Defined.
