(* ===== verification/Codec.v ===== *)
(** * Codec: the .pgraph single-graph wire format

    Models [encode_pgraph] and [decode_pgraph] of
    [src/brain/language/graph_builder.py].  The encoder appends to a
    [bytearray] field by field; a negative varint field raises, and then
    no bytes are returned at all: [encode_pgraph] returns
    [result (list Z) codec_error], built by [e_cat], which concatenates
    the field encodings in order and stops at the first error.  The
    decoder is a [parser] (see [Varint]); the two [for _ in range(n)]
    loops are [dec_records], which bounds its recursion by the length of
    the unread buffer (each record consumes at least one byte) and is
    proved equal to the unbounded repetition [repeat_nat].

    The interface [Codec] states what a record codec promises (decoding
    what was encoded, followed by anything, returns the value and the
    rest); nodes, edges and graphs are instances, and the graph round
    trip is proved from the node and edge instances. *)

From S2P Require Import Prelude Varint Graph Text.

Open Scope Z_scope.

(** ** Field ranges *)

Definition varint_ok (v : Z) : Prop := 0 <= v < 2 ^ 70.
Definition byte_ok (x : Z) : Prop := 0 <= x < 256.
Definition u16_ok (x : Z) : Prop := 0 <= x < 65536.

(** ** Encoding combinators *)

(** [out.append(x & 0xFF)] *)
Definition e_byte (x : Z) : result (list Z) codec_error := Ok [Z.land x 0xFF].
(** [out += (x & 0xFFFF).to_bytes(2, "little")] *)
Definition e_u16 (x : Z) : result (list Z) codec_error := Ok (u16le_bytes x).

(** The pieces of the output in order; the first exception wins. *)
Fixpoint e_cat (rs : list (result (list Z) codec_error)) : result (list Z) codec_error :=
  match rs with
  | [] => Ok []
  | r :: rs' => res_bind r (fun b => res_bind (e_cat rs') (fun bs => Ok (b ++ bs)))
  end.

(** ** The encoder *)

(** [b"PGRA"] *)
Definition _PG_MAGIC : list Z := [0x50; 0x47; 0x52; 0x41].

(** Body of [for n in g.nodes]. *)
Definition enc_node (n : Node) : result (list Z) codec_error :=
  e_cat [_uvarint_encode (node_id n); e_byte (n_type n); e_byte (sub_type n);
         _uvarint_encode (features_ref n); _uvarint_encode (span n).1;
         _uvarint_encode (span n).2; e_u16 (n_flags n); e_byte (n_confidence n);
         _uvarint_encode (label_id n)].

(** Body of [for e in g.edges]. *)
Definition enc_edge (e : Edge) : result (list Z) codec_error :=
  e_cat [_uvarint_encode (src_id e); _uvarint_encode (dst_id e); e_byte (e_type e);
         e_byte (weight e); _uvarint_encode (time e); e_u16 (e_flags e);
         e_byte (e_confidence e); _uvarint_encode (attr_ref e)].

(** [feat = g.g_features or b""]: an empty thumbnail is falsy too. *)
Definition feat_bytes (f : option (list Z)) : list Z :=
  match f with Some l => l | None => [] end.

Definition encode_pgraph (g : Graph) : result (list Z) codec_error :=
  e_cat ([Ok _PG_MAGIC; _uvarint_encode (graph_id g); e_byte (graph_type g);
          _uvarint_encode (num_nodes g); _uvarint_encode (num_edges g);
          _uvarint_encode (source_id g); _uvarint_encode (version g);
          e_byte (schema_id g)]
         ++ map enc_node (nodes g) ++ map enc_edge (edges g)
         ++ [_uvarint_encode (Z.of_nat (length (feat_bytes (g_features g))));
             Ok (feat_bytes (g_features g))]).

(** ** The decoder *)

Definition dec_node : parser Node :=
  node_id <-- _uvarint_decode ;;;
  n_type <-- read_byte ;;;
  sub_type <-- read_byte ;;;
  features_ref <-- _uvarint_decode ;;;
  span0 <-- _uvarint_decode ;;;
  span1 <-- _uvarint_decode ;;;
  flags <-- read_u16le ;;;
  confidence <-- read_byte ;;;
  label_id <-- _uvarint_decode ;;;
  p_ret {| node_id := node_id; n_type := n_type; sub_type := sub_type;
           features_ref := features_ref; span := (span0, span1); n_flags := flags;
           n_confidence := confidence; label_id := label_id |}.

Definition dec_edge : parser Edge :=
  src_id <-- _uvarint_decode ;;;
  dst_id <-- _uvarint_decode ;;;
  e_type <-- read_byte ;;;
  weight <-- read_byte ;;;
  time <-- _uvarint_decode ;;;
  flags <-- read_u16le ;;;
  confidence <-- read_byte ;;;
  attr_ref <-- _uvarint_decode ;;;
  p_ret {| src_id := src_id; dst_id := dst_id; e_type := e_type; weight := weight;
           time := time; e_flags := flags; e_confidence := confidence;
           attr_ref := attr_ref |}.

(** [for _ in range(count)]: read [count] records.  [fuel] bounds the
    recursion; [dec_records] gives one more than the bytes left. *)
Fixpoint dec_repeat {A} (p : parser A) (fuel : nat) (count : Z) : parser (list A) :=
  fun s =>
    if count <=? 0 then Ok ([], s) else
    match fuel with
    | O => Err VarintTruncated
    | S fuel' =>
        match p s with
        | Ok (a, s') =>
            match dec_repeat p fuel' (count - 1) s' with
            | Ok (l, s'') => Ok (a :: l, s'')
            | Err e => Err e
            end
        | Err e => Err e
        end
    end.

Definition dec_records {A} (p : parser A) (count : Z) : parser (list A) :=
  fun s => dec_repeat p (S (length s)) count s.

(** The thumbnail adjunct: [feat_len] bytes if nonzero, else [None]. *)
Definition read_features (feat_len : Z) : parser (option (list Z)) := fun s =>
  if feat_len =? 0 then Ok (None, s)
  else if Z.of_nat (length s) <? feat_len then Err TruncatedFeatures
  else Ok (Some (take (Z.to_nat feat_len) s), drop (Z.to_nat feat_len) s).

Definition decode_body : parser Graph :=
  graph_id <-- _uvarint_decode ;;;
  graph_type <-- read_byte ;;;
  num_nodes <-- _uvarint_decode ;;;
  num_edges <-- _uvarint_decode ;;;
  source_id <-- _uvarint_decode ;;;
  version <-- _uvarint_decode ;;;
  schema_id <-- read_byte ;;;
  nodes <-- dec_records dec_node num_nodes ;;;
  edges <-- dec_records dec_edge num_edges ;;;
  feat_len <-- _uvarint_decode ;;;
  g_features <-- read_features feat_len ;;;
  p_ret {| graph_id := graph_id; graph_type := graph_type;
           num_nodes := Z.of_nat (length nodes); num_edges := Z.of_nat (length edges);
           g_features := g_features; source_id := source_id; version := version;
           schema_id := schema_id; nodes := nodes; edges := edges |}.

(** The magic check followed by the body. *)
Definition pgraph_parser : parser Graph := fun buf =>
  if bool_decide (take 4 buf = _PG_MAGIC) then decode_body (drop 4 buf)
  else Err InvalidMagic.

(** [decode_pgraph]: bytes after the thumbnail are not looked at. *)
Definition decode_pgraph (buf : list Z) : result Graph codec_error :=
  match pgraph_parser buf with
  | Ok (g, _) => Ok g
  | Err e => Err e
  end.

Example decode_self_check :
  let gb := GraphBuilder_default 1 in
  let '(gb, t1) := add_node gb (NodeType_code TOKEN) 0 123 (0, 1) NF_IS_CAPITALIZED 240 0 in
  let '(gb, t2) := add_node gb (NodeType_code TOKEN) 0 456 (1, 2) 0 255 0 in
  let '(gb, _) := add_edge gb t1 t2 (EdgeType_code NEXT) 255 0 EF_DIRECTED 255 0 in
  let g := finalize gb in
  res_bind (encode_pgraph g) decode_pgraph = Ok g.
Proof. vm_compute. reflexivity. Qed.

(** ** Field-level round trips *)

#[local] Arguments e_byte : simpl never.
#[local] Arguments e_u16 : simpl never.
#[local] Arguments _PG_MAGIC : simpl never.

Lemma varint_field v :
  varint_ok v -> exists bs, _uvarint_encode v = Ok bs /\
    forall s, _uvarint_decode (bs ++ s) = Ok (v, s).
Proof.
  intros Hv. unfold varint_ok in Hv. exists (uvarint_groups (uvarint_fuel v) v). split.
  - unfold _uvarint_encode. destruct (Z.ltb_spec v 0); [lia|done].
  - intros s. by apply uvarint_decode_groups.
Qed.

Lemma byte_land_id x : byte_ok x -> Z.land x 255 = x.
Proof.
  intros Hx. change 255 with (Z.ones 8). rewrite Z.land_ones by lia.
  apply Z.mod_small. unfold byte_ok in Hx. lia.
Qed.

Lemma byte_field x :
  byte_ok x -> exists bs, e_byte x = Ok bs /\ forall s, read_byte (bs ++ s) = Ok (x, s).
Proof. intros Hx. eexists; split; [reflexivity|]. intros s. simpl. rewrite byte_land_id; done. Qed.

Lemma u16_field x :
  u16_ok x -> exists bs, e_u16 x = Ok bs /\ forall s, read_u16le (bs ++ s) = Ok (x, s).
Proof.
  intros Hx. eexists; split; [reflexivity|]. intros s. unfold read_u16le, u16le_bytes.
  assert (Hy : Z.land x 65535 = x).
  { change 65535 with (Z.ones 16). rewrite Z.land_ones by lia. apply Z.mod_small. unfold u16_ok in Hx. lia. }
  rewrite Hy. simpl. f_equal. f_equal.
  change 255 with (Z.ones 8). rewrite Z.land_ones, Z.shiftr_div_pow2 by lia.
  pose proof (Z.div_mod x (2 ^ 8) ltac:(lia)). change (2 ^ 8) with 256 in *. lia.
Qed.

(** Decoding a field and continuing. *)
Lemma p_bind_field {A B} (p : parser A) a bs (k : A -> parser B) s :
  (forall s, p (bs ++ s) = Ok (a, s)) -> p_bind p k (bs ++ s) = k a s.
Proof. intros Hp. unfold p_bind. rewrite Hp. reflexivity. Qed.

Lemma e_cat_app l1 l2 :
  e_cat (l1 ++ l2) = res_bind (e_cat l1) (fun a => res_bind (e_cat l2) (fun b => Ok (a ++ b))).
Proof.
  induction l1 as [|r l1 IH]; simpl.
  - destruct (e_cat l2); reflexivity.
  - destruct r as [b|e]; simpl; [|reflexivity]. rewrite IH.
    destruct (e_cat l1) as [a|e]; simpl; [|reflexivity].
    destruct (e_cat l2) as [c|e]; simpl; [by rewrite app_assoc|reflexivity].
Qed.

(** ** The codec interface *)

Class Codec (A : Type) := {
  c_encode : A -> result (list Z) codec_error;
  c_decode : parser A;
  c_ok : A -> Prop
}.

Class CodecLaws (A : Type) `{Codec A} := {
  c_total a : c_ok a -> exists bs, c_encode a = Ok bs;
  c_roundtrip a bs rest : c_ok a -> c_encode a = Ok bs -> c_decode (bs ++ rest) = Ok (a, rest);
  c_consumes s a s' : c_decode s = Ok (a, s') -> (length s' < length s)%nat
}.

(** Reads that never move backwards, and reads that always move forward. *)
Definition no_grow {A} (p : parser A) : Prop :=
  forall s a s', p s = Ok (a, s') -> (length s' <= length s)%nat.
Definition consumes {A} (p : parser A) : Prop :=
  forall s a s', p s = Ok (a, s') -> (length s' < length s)%nat.

Lemma p_bind_no_grow {A B} (m : parser A) (k : A -> parser B) :
  no_grow m -> (forall a, no_grow (k a)) -> no_grow (p_bind m k).
Proof.
  intros Hm Hk s b s'' H. unfold p_bind in H. destruct (m s) as [[a s']|e] eqn:E; [|discriminate].
  pose proof (Hm _ _ _ E). pose proof (Hk a _ _ _ H). lia.
Qed.

Lemma p_bind_consumes {A B} (m : parser A) (k : A -> parser B) :
  consumes m -> (forall a, no_grow (k a)) -> consumes (p_bind m k).
Proof.
  intros Hm Hk s b s'' H. unfold p_bind in H. destruct (m s) as [[a s']|e] eqn:E; [|discriminate].
  pose proof (Hm _ _ _ E). pose proof (Hk a _ _ _ H). lia.
Qed.

Lemma uvarint_loop_consumes sh v : consumes (uvarint_loop sh v).
Proof.
  intros s. revert sh v. induction s as [|b s IH]; intros sh v a s' H; simpl in H; [discriminate|].
  destruct (Z.land b 128 =? 0); [injection H as _ <-; simpl; lia|].
  destruct (63 <? sh + 7); [discriminate|]. apply IH in H. simpl. lia.
Qed.

Lemma read_byte_consumes : consumes read_byte.
Proof. intros [|b s] a s' H; simpl in H; [discriminate|]. injection H as _ <-. simpl. lia. Qed.

Lemma read_u16le_no_grow : no_grow read_u16le.
Proof. intros s a s' H. injection H as _ <-. rewrite length_drop. lia. Qed.

Lemma p_ret_no_grow {A} (a : A) : no_grow (p_ret a).
Proof. intros s b s' H. injection H as _ <-. lia. Qed.

Lemma consumes_no_grow {A} (p : parser A) : consumes p -> no_grow p.
Proof. intros H s a s' E. apply H in E. lia. Qed.

#[export] Hint Resolve p_bind_no_grow p_bind_consumes uvarint_loop_consumes read_byte_consumes
  read_u16le_no_grow p_ret_no_grow consumes_no_grow : pablo.


(** Turn the range hypotheses into field encodings and decodings. *)
Ltac field_facts :=
  repeat match goal with
  | H : varint_ok ?v |- _ =>
      let b := fresh "b" in let E := fresh "E" in let D := fresh "D" in
      destruct (varint_field v H) as (b & E & D); clear H
  | H : byte_ok ?v |- _ =>
      let b := fresh "b" in let E := fresh "E" in let D := fresh "D" in
      destruct (byte_field v H) as (b & E & D); clear H
  | H : u16_ok ?v |- _ =>
      let b := fresh "b" in let E := fresh "E" in let D := fresh "D" in
      destruct (u16_field v H) as (b & E & D); clear H
  end.

Ltac rewrite_encodings :=
  repeat match goal with
  | E : _uvarint_encode _ = Ok _ |- _ => rewrite E; clear E
  | E : e_byte _ = Ok _ |- _ => rewrite E; clear E
  | E : e_u16 _ = Ok _ |- _ => rewrite E; clear E
  end.

(** Step a decoder through fields whose bytes are at the front. *)
Ltac decode_fields :=
  rewrite ?app_nil_r, <- ?app_assoc;
  repeat match goal with
  | D : forall s, ?p (?b ++ s) = Ok _ |- context [p_bind ?p _ (?b ++ _)] =>
      rewrite (p_bind_field _ _ _ _ _ D); cbv beta
  | D : forall s, ?p (?b ++ s) = Ok _ |- context [p_bind ?p _ ?b] =>
      rewrite <- (app_nil_r b), (p_bind_field _ _ _ _ _ D); cbv beta
  end.

Definition node_ok (n : Node) : Prop :=
  varint_ok (node_id n) /\ byte_ok (n_type n) /\ byte_ok (sub_type n) /\
  varint_ok (features_ref n) /\ varint_ok (span n).1 /\ varint_ok (span n).2 /\
  u16_ok (n_flags n) /\ byte_ok (n_confidence n) /\ varint_ok (label_id n).

Definition edge_ok (e : Edge) : Prop :=
  varint_ok (src_id e) /\ varint_ok (dst_id e) /\ byte_ok (e_type e) /\
  byte_ok (weight e) /\ varint_ok (time e) /\ u16_ok (e_flags e) /\
  byte_ok (e_confidence e) /\ varint_ok (attr_ref e).

#[export] Instance Node_codec : Codec Node :=
  { c_encode := enc_node; c_decode := dec_node; c_ok := node_ok }.
#[export] Instance Edge_codec : Codec Edge :=
  { c_encode := enc_edge; c_decode := dec_edge; c_ok := edge_ok }.

Lemma dec_node_consumes : consumes dec_node.
Proof.
  unfold dec_node, _uvarint_decode.
  apply p_bind_consumes; [apply uvarint_loop_consumes|intros ?].
  repeat (apply p_bind_no_grow; [auto with pablo|intros ?]). apply p_ret_no_grow.
Qed.

Lemma dec_edge_consumes : consumes dec_edge.
Proof.
  unfold dec_edge, _uvarint_decode.
  apply p_bind_consumes; [apply uvarint_loop_consumes|intros ?].
  repeat (apply p_bind_no_grow; [auto with pablo|intros ?]). apply p_ret_no_grow.
Qed.

#[export] Instance Node_codec_laws : CodecLaws Node.
Proof.
  split; simpl.
  - intros n Hn. unfold node_ok in Hn. destruct_and!. field_facts.
    unfold enc_node. rewrite_encodings. simpl. eauto.
  - intros n bs rest Hn He. unfold node_ok in Hn. destruct_and!. field_facts.
    unfold enc_node in He. revert He. rewrite_encodings. simpl. intros He. injection He as <-.
    unfold dec_node. decode_fields. destruct n as [? ? ? ? [? ?] ? ? ?]. reflexivity.
  - apply dec_node_consumes.
Qed.

#[export] Instance Edge_codec_laws : CodecLaws Edge.
Proof.
  split; simpl.
  - intros e He. unfold edge_ok in He. destruct_and!. field_facts.
    unfold enc_edge. rewrite_encodings. simpl. eauto.
  - intros e bs rest He Hb. unfold edge_ok in He. destruct_and!. field_facts.
    unfold enc_edge in Hb. revert Hb. rewrite_encodings. simpl. intros Hb. injection Hb as <-.
    unfold dec_edge. decode_fields. destruct e. reflexivity.
  - apply dec_edge_consumes.
Qed.

(** ** Repeated records *)

(** The unbounded reading of [for _ in range(n)]. *)
Fixpoint repeat_nat {A} (p : parser A) (n : nat) : parser (list A) := fun s =>
  match n with
  | O => Ok ([], s)
  | S n' =>
      match p s with
      | Ok (a, s') =>
          match repeat_nat p n' s' with
          | Ok (l, s'') => Ok (a :: l, s'')
          | Err e => Err e
          end
      | Err e => Err e
      end
  end.

Lemma dec_repeat_repeat_nat {A} (p : parser A) fuel count s :
  consumes p -> (length s < fuel)%nat ->
  dec_repeat p fuel count s = repeat_nat p (Z.to_nat count) s.
Proof.
  intros Hp. revert count s. induction fuel as [|fuel IH]; intros count s Hf; [lia|].
  simpl. destruct (Z.leb_spec count 0) as [Hc|Hc].
  - replace (Z.to_nat count) with O by lia. reflexivity.
  - replace (Z.to_nat count) with (S (Z.to_nat (count - 1))) by lia. simpl.
    destruct (p s) as [[a s']|e] eqn:E; [|reflexivity].
    rewrite IH; [reflexivity|]. apply Hp in E. lia.
Qed.

Lemma c_encode_nonempty `{CodecLaws A} a bs : c_ok a -> c_encode a = Ok bs -> bs <> [].
Proof.
  intros Ha He ->. pose proof (c_roundtrip a [] [] Ha He) as D.
  apply c_consumes in D. simpl in D. lia.
Qed.

Lemma records_total `{CodecLaws A} (l : list A) :
  Forall c_ok l -> exists bs, e_cat (map c_encode l) = Ok bs /\ (length l <= length bs)%nat.
Proof.
  induction 1 as [|a l Ha Hl IH]; simpl; [exists []; split; [done|simpl; lia]|].
  destruct (c_total a Ha) as [b Hb]. destruct IH as [bs [Hbs Hlen]].
  rewrite Hb, Hbs. simpl. eexists; split; [reflexivity|].
  pose proof (c_encode_nonempty a b Ha Hb). destruct b; [done|]. simpl. rewrite length_app. lia.
Qed.

Lemma records_roundtrip `{CodecLaws A} (l : list A) bs rest fuel :
  Forall c_ok l -> e_cat (map c_encode l) = Ok bs -> (length l < fuel)%nat ->
  dec_repeat c_decode fuel (Z.of_nat (length l)) (bs ++ rest) = Ok (l, rest).
Proof.
  intros Hl. revert bs fuel. induction Hl as [|a l Ha Hl IH]; intros bs fuel He Hf.
  - simpl in He. injection He as <-. destruct fuel; reflexivity.
  - simpl in He. destruct (c_encode a) as [b|e] eqn:Hb; [|discriminate]. simpl in He.
    destruct (e_cat (map c_encode l)) as [bs'|e] eqn:Hbs; [|discriminate]. simpl in He.
    injection He as <-. destruct fuel as [|fuel]; [simpl in Hf; lia|]. simpl.
    destruct (Z.leb_spec (Z.pos (Pos.of_succ_nat (length l))) 0); [lia|].
    rewrite <- app_assoc, (c_roundtrip a b (bs' ++ rest) Ha Hb).
    replace (Z.of_nat (S (length l)) - 1) with (Z.of_nat (length l)) by lia.
    rewrite (IH bs' fuel); [reflexivity|reflexivity|simpl in Hf; lia].
Qed.

Lemma records_field `{CodecLaws A} (l : list A) bs :
  Forall c_ok l -> e_cat (map c_encode l) = Ok bs ->
  forall s, dec_records c_decode (Z.of_nat (length l)) (bs ++ s) = Ok (l, s).
Proof.
  intros Hl He s. unfold dec_records. apply records_roundtrip; [done|done|].
  destruct (records_total l Hl) as [bs' [Hbs' Hlen]]. rewrite He in Hbs'. injection Hbs' as <-.
  rewrite length_app. lia.
Qed.

(** ** The graph codec *)

(** A thumbnail the wire format carries faithfully: absent, or
    non-empty (an empty one is written as length 0 and read back as
    [None]). *)
Definition feat_ok (f : option (list Z)) : Prop :=
  match f with
  | None => True
  | Some l => l <> [] /\ varint_ok (Z.of_nat (length l))
  end.

(** Every field within its declared range, and the counts equal to the
    list lengths. *)
Definition graph_ok (g : Graph) : Prop :=
  varint_ok (graph_id g) /\ byte_ok (graph_type g) /\ varint_ok (num_nodes g) /\
  varint_ok (num_edges g) /\ varint_ok (source_id g) /\ varint_ok (version g) /\
  byte_ok (schema_id g) /\
  num_nodes g = Z.of_nat (length (nodes g)) /\ num_edges g = Z.of_nat (length (edges g)) /\
  Forall node_ok (nodes g) /\ Forall edge_ok (edges g) /\ feat_ok (g_features g).

#[export] Instance Graph_codec : Codec Graph :=
  { c_encode := encode_pgraph; c_decode := pgraph_parser; c_ok := graph_ok }.

Lemma take_magic s : take 4 (_PG_MAGIC ++ s) = _PG_MAGIC.
Proof. reflexivity. Qed.

Lemma drop_magic s : drop 4 (_PG_MAGIC ++ s) = s.
Proof. reflexivity. Qed.

Lemma feat_field f :
  feat_ok f -> exists b, _uvarint_encode (Z.of_nat (length (feat_bytes f))) = Ok b /\
    forall B (k : option (list Z) -> parser B) s,
      p_bind _uvarint_decode (fun x => p_bind (read_features x) k) (b ++ feat_bytes f ++ s) = k f s.
Proof.
  destruct f as [l|]; simpl.
  - intros [Hne Hv]. destruct (varint_field _ Hv) as (b & E & D). exists b. split; [done|].
    intros B k s. rewrite (p_bind_field _ _ _ _ _ D). unfold p_bind, read_features.
    destruct l as [|c l]; [done|]. rewrite length_app.
    destruct (Z.eqb_spec (Z.of_nat (length (c :: l))) 0); [simpl in *; lia|].
    destruct (Z.ltb_spec (Z.of_nat (length (c :: l) + length s)) (Z.of_nat (length (c :: l)))); [lia|].
    rewrite Nat2Z.id, take_app_length, drop_app_length. reflexivity.
  - intros _. exists [0]. split; [reflexivity|]. intros B k s. reflexivity.
Qed.

Lemma nodes_field ns : Forall node_ok ns ->
  exists bs, e_cat (map enc_node ns) = Ok bs /\
    forall s, dec_records dec_node (Z.of_nat (length ns)) (bs ++ s) = Ok (ns, s).
Proof.
  intros Hn. destruct (@records_total Node Node_codec Node_codec_laws ns Hn) as [bs [E _]].
  exists bs. split; [exact E|]. exact (@records_field Node Node_codec Node_codec_laws ns bs Hn E).
Qed.

Lemma edges_field es : Forall edge_ok es ->
  exists bs, e_cat (map enc_edge es) = Ok bs /\
    forall s, dec_records dec_edge (Z.of_nat (length es)) (bs ++ s) = Ok (es, s).
Proof.
  intros He. destruct (@records_total Edge Edge_codec Edge_codec_laws es He) as [bs [E _]].
  exists bs. split; [exact E|]. exact (@records_field Edge Edge_codec Edge_codec_laws es bs He E).
Qed.

Lemma pgraph_total g : graph_ok g -> exists bs, encode_pgraph g = Ok bs.
Proof.
  intros Hg. unfold graph_ok in Hg. destruct_and!.
  destruct (nodes_field (nodes g) ltac:(assumption)) as [bn [En _]].
  destruct (edges_field (edges g) ltac:(assumption)) as [be [Ee _]].
  destruct (feat_field (g_features g) ltac:(assumption)) as [bf [Ef _]].
  field_facts. unfold encode_pgraph. rewrite !e_cat_app.
  rewrite En, Ee. simpl. rewrite_encodings. simpl. simpl. eauto.
Qed.

Lemma pgraph_roundtrip_body g bs rest :
  graph_ok g -> encode_pgraph g = Ok bs -> pgraph_parser (bs ++ rest) = Ok (g, rest).
Proof.
  intros Hg He. unfold graph_ok in Hg. destruct_and!.
  destruct (nodes_field (nodes g) ltac:(assumption)) as [bn [En Dn]].
  destruct (edges_field (edges g) ltac:(assumption)) as [be [Ee De]].
  destruct (feat_field (g_features g) ltac:(assumption)) as [bf [Ef Df]].
  field_facts. unfold encode_pgraph in He. revert He. rewrite !e_cat_app.
  rewrite En, Ee. rewrite_encodings. cbn [e_cat res_bind]. intros He.
  injection He as <-. unfold pgraph_parser. rewrite <- !app_assoc.
  rewrite bool_decide_eq_true_2 by reflexivity. cbn [drop app].
  rewrite drop_0. unfold decode_body. decode_fields.
  match goal with Hn : num_nodes g = _, Hm : num_edges g = _ |- _ => rewrite Hn, Hm end.
  rewrite (p_bind_field _ _ _ _ _ Dn). cbv beta.
  rewrite (p_bind_field _ _ _ _ _ De). cbv beta.
  rewrite Df. unfold p_ret.
  destruct g; simpl in *; subst. reflexivity.
Qed.

(** C1: Round trip of the .pgraph format.  For every graph whose fields
    are within their declared ranges (bytes below 256, flags below 2^16,
    varint fields in [0, 2^70)), whose counts equal its list lengths and
    whose thumbnail is absent or non-empty, [encode_pgraph] succeeds and
    the parser of [decode_pgraph] reads back the same graph field for
    field, stopping exactly at the end of the encoding: arbitrary bytes
    after it are left unread (and [decode_pgraph] ignores them). *)
Theorem pgraph_roundtrip g rest :
  graph_ok g ->
  res_bind (encode_pgraph g) (fun bs => pgraph_parser (bs ++ rest)) = Ok (g, rest).
Proof.
  intros Hg. destruct (pgraph_total g Hg) as [bs E]. rewrite E. by apply pgraph_roundtrip_body.
Qed.

Lemma dec_repeat_no_grow {A} (p : parser A) fuel count :
  no_grow p -> no_grow (dec_repeat p fuel count).
Proof.
  intros Hp. revert count. induction fuel as [|fuel IH]; intros count s l s'' H; simpl in H;
    (destruct (count <=? 0); [injection H as _ <-; lia|]); [discriminate|].
  destruct (p s) as [[a s']|e] eqn:E; [|discriminate].
  destruct (dec_repeat p fuel (count - 1) s') as [[l' s3]|e] eqn:E'; [|discriminate].
  injection H as _ <-. apply Hp in E. apply IH in E'. lia.
Qed.

Lemma dec_records_no_grow {A} (p : parser A) count : no_grow p -> no_grow (dec_records p count).
Proof. intros Hp s l s' H. exact (dec_repeat_no_grow p _ count Hp s l s' H). Qed.

Lemma read_features_no_grow n : no_grow (read_features n).
Proof.
  intros s f s' H. unfold read_features in H.
  destruct (n =? 0); [injection H as _ <-; lia|].
  destruct (_ <? n); [discriminate|]. injection H as _ <-. rewrite length_drop. lia.
Qed.

#[export] Hint Resolve dec_records_no_grow read_features_no_grow : pablo.

Lemma decode_body_consumes : consumes decode_body.
Proof.
  unfold decode_body, _uvarint_decode.
  apply p_bind_consumes; [apply uvarint_loop_consumes|intros ?].
  repeat (apply p_bind_no_grow; [eauto using dec_node_consumes, dec_edge_consumes with pablo|intros ?]).
  apply p_ret_no_grow.
Qed.

#[export] Instance Graph_codec_laws : CodecLaws Graph.
Proof.
  split; simpl.
  - apply pgraph_total.
  - apply pgraph_roundtrip_body.
  - intros s a s' H. unfold pgraph_parser in H. case_bool_decide as Hm; [|discriminate].
    apply decode_body_consumes in H. rewrite length_drop in H. lia.
Qed.

(** ** Properties of the wire format *)

(** Generic consequence of the interface: the decoded value, re-encoded,
    gives the same bytes. *)
Lemma c_reencode `{CodecLaws A} a :
  c_ok a -> res_bind (c_encode a) (fun bs =>
    match c_decode bs with Ok (a', _) => c_encode a' | Err e => Err e end) = c_encode a.
Proof.
  intros Ha. destruct (c_total a Ha) as [bs Hbs]. rewrite Hbs. simpl.
  rewrite <- (app_nil_r bs), (c_roundtrip a bs [] Ha Hbs), app_nil_r, Hbs. reflexivity.
Qed.

(** Encoding then decoding with a lawful codec gives back the value
    and leaves the bytes after the encoding. *)
Lemma c_encode_decode `{CodecLaws A} a rest :
  c_ok a -> res_bind (c_encode a) (fun bs => c_decode (bs ++ rest)) = Ok (a, rest).
Proof. intros Ha. destruct (c_total a Ha) as [bs Hbs]. rewrite Hbs. by apply c_roundtrip. Qed.

(** [decode_pgraph] inverts [encode_pgraph] on well-formed graphs. *)
Lemma decode_encode_pgraph g rest :
  graph_ok g -> res_bind (encode_pgraph g) (fun bs => decode_pgraph (bs ++ rest)) = Ok g.
Proof.
  intros Hg. pose proof (@c_encode_decode Graph Graph_codec Graph_codec_laws g rest Hg) as D.
  simpl in D. destruct (encode_pgraph g); simpl in *; [|discriminate].
  unfold decode_pgraph. by rewrite D.
Qed.

(** Encoding is stable under a decode/encode cycle:
    [encode(decode(encode(g))) == encode(g)] byte for byte, for every
    graph with in-range fields. *)
Theorem pgraph_reencode g :
  graph_ok g ->
  res_bind (encode_pgraph g) (fun bs => res_bind (decode_pgraph bs) encode_pgraph) = encode_pgraph g.
Proof.
  intros Hg. pose proof (decode_encode_pgraph g [] Hg) as H.
  destruct (encode_pgraph g) as [bs|e] eqn:E; simpl in *; [|done].
  rewrite app_nil_r in H. rewrite H. simpl. exact E.
Qed.

(** The record loops terminate with the right result: reading
    [count] records with the fuel bound of [dec_records] is the same as
    reading them without any bound, for any record parser that consumes
    input when it succeeds (as [dec_node] and [dec_edge] do). *)
Theorem dec_records_adequate {A} (p : parser A) count s :
  consumes p -> dec_records p count s = repeat_nat p (Z.to_nat count) s.
Proof. intros Hp. unfold dec_records. apply dec_repeat_repeat_nat; [exact Hp|lia]. Qed.

Definition with_g_features (g : Graph) (f : option (list Z)) : Graph :=
  {| graph_id := graph_id g; graph_type := graph_type g; num_nodes := num_nodes g;
     num_edges := num_edges g; g_features := f; source_id := source_id g;
     version := version g; schema_id := schema_id g; nodes := nodes g; edges := edges g |}.

(** C14: An empty thumbnail does not survive the round trip: a graph
    whose [g_features] is an empty byte string (which the
    [GraphBuilder] constructor accepts) is encoded with length 0 and
    decoded with [g_features = None]. *)
Theorem pgraph_empty_thumbnail_lost g :
  graph_ok (with_g_features g None) -> g_features g = Some [] ->
  res_bind (encode_pgraph g) decode_pgraph = Ok (with_g_features g None).
Proof.
  intros Hg Hf.
  assert (He : encode_pgraph g = encode_pgraph (with_g_features g None)).
  { unfold encode_pgraph. rewrite Hf. reflexivity. }
  rewrite He.
  pose proof (decode_encode_pgraph _ [] Hg) as H.
  destruct (encode_pgraph (with_g_features g None)); simpl in *; [|done].
  rewrite app_nil_r in H. exact H.
Qed.

(** ** Witnesses *)

Definition sample_graph : Graph := finalize sample_builder.

Ltac solve_ok :=
  unfold graph_ok, node_ok, edge_ok, feat_ok, varint_ok, byte_ok, u16_ok; simpl;
  repeat (split || constructor); try lia; try discriminate.

Lemma sample_graph_ok : graph_ok sample_graph.
Proof. let g := eval vm_compute in sample_graph in change sample_graph with g. solve_ok. Qed.

Lemma pgraph_roundtrip_witness :
  graph_ok sample_graph /\
  res_bind (encode_pgraph sample_graph) (fun bs => pgraph_parser (bs ++ [1; 2; 3]))
  = Ok (sample_graph, [1; 2; 3]).
Proof. split; [apply sample_graph_ok|apply pgraph_roundtrip; apply sample_graph_ok]. Defined.

Lemma pgraph_reencode_witness :
  graph_ok sample_graph /\
  res_bind (encode_pgraph sample_graph) (fun bs => res_bind (decode_pgraph bs) encode_pgraph)
  = encode_pgraph sample_graph.
Proof. split; [apply sample_graph_ok|apply pgraph_reencode; apply sample_graph_ok]. Defined.

Lemma dec_records_adequate_witness :
  consumes dec_node /\
  dec_records dec_node 0 [1; 2] = repeat_nat dec_node (Z.to_nat 0) [1; 2].
Proof. split; [apply dec_node_consumes|apply dec_records_adequate; apply dec_node_consumes]. Defined.

Definition sample_graph_empty_thumb : Graph := with_g_features sample_graph (Some []).

Lemma pgraph_empty_thumbnail_lost_witness :
  graph_ok (with_g_features sample_graph_empty_thumb None) /\
  g_features sample_graph_empty_thumb = Some [] /\
  res_bind (encode_pgraph sample_graph_empty_thumb) decode_pgraph =
    Ok (with_g_features sample_graph_empty_thumb None).
Proof.
  assert (H : graph_ok (with_g_features sample_graph_empty_thumb None))
    by (let g := eval vm_compute in (with_g_features sample_graph_empty_thumb None) in
        change (with_g_features sample_graph_empty_thumb None) with g; solve_ok).
  split; [exact H|split; [reflexivity|]].
  apply pgraph_empty_thumbnail_lost; [exact H|reflexivity].
Defined.
