(* ===== verification/Tokenizer.v ===== *)
(** * Tokenizer: [tokenize] of src/brain/language/tokenizer.py

    The master regular expression is an ordered alternation
    [URL | EMAIL | HANDLE | ELLIPSIS | WORD | PUNCT | WS].  At a position
    Python's [re] tries the alternatives in order and takes the first that
    matches (with that alternative's greedy, backtracking semantics); it is
    not a longest match.  Each alternative is a function [match_*] from the
    unread text to the length it matches, written so that the greedy and
    backtracking behaviour of its sub-pattern is explicit:
    - [\S+] and the other [X+] runs are [span_while];
    - the e-mail domain [[A-Za-z0-9.\-]+\.[A-Za-z]{2,}] backtracks from the
      longest domain run to the last dot followed by two letters
      ([tld_search]);
    - the word pattern [[A-Za-z0-9]+(?:[’'\-][A-Za-z0-9]+)*] extends over a
      joiner only when an alphanumeric follows ([wordish_tail]).
    [re.finditer] scans left to right: a match at the current position is
    reported and the scan resumes at its end; a position where nothing
    matches is skipped.  This is [scan], with fuel the text length (each
    step consumes a codepoint), proved to implement the relational
    reading [finds] of the scan; [MasterRegex] proves [match_at] equal
    to the regex semantics of [_MASTER].

    [tokenize] then builds the tokens (skipping whitespace matches), adds
    the fallback token for an unmatched tail, and runs the sentence-cue
    post-pass ([postpass]) over the list, in place, as the [for k in
    range(n)] loop does. *)

From S2P Require Import Prelude Text.
From AAC_tactics Require Import AAC.

Open Scope Z_scope.

(** ** Token shape and flags *)

Record Token := mkToken {
  tok_idx : nat;
  tok_text : list Z;
  tok_start : nat;
  tok_end : nat;
  tok_flags : Z
}.

Definition TF_CAP : Z := Z.shiftl 1 0.
Definition TF_PUNCT : Z := Z.shiftl 1 1.
Definition TF_NUM : Z := Z.shiftl 1 2.
Definition TF_SENT_END_STRONG : Z := Z.shiftl 1 3.
Definition TF_SENT_END_WEAK : Z := Z.shiftl 1 4.

(** The named groups of [_MASTER]. *)
Inductive kind := URL | EMAIL | HANDLE | ELLIPSIS | WORD | PUNCT | WS.

#[export] Instance kind_eq_dec : EqDecision kind.
Proof. solve_decision. Defined.

(** ** The alternatives of [_MASTER] *)

(** [\S+] starting [k] codepoints in: the end of the match, if the run
    is not empty. *)
Definition nonspace_run_from (k : nat) (s : list Z) : option nat :=
  let r := span_while (fun c => negb (py_isspace c)) (drop k s) in
  if (r =? 0)%nat then None else Some (k + r)%nat.

(** [_URL = (?:https?://\S+|www\.\S+)] *)
Definition match_url (s : list Z) : option nat :=
  match (if starts_with (str "https://") s then nonspace_run_from 8 s else None) with
  | Some n => Some n
  | None =>
      match (if starts_with (str "http://") s then nonspace_run_from 7 s else None) with
      | Some n => Some n
      | None => if starts_with (str "www.") s then nonspace_run_from 4 s else None
      end
  end.

(** [[A-Za-z0-9._%+\-]] and [[A-Za-z0-9.\-]] *)
Definition email_local (c : Z) : bool := ascii_alnum c || memZ c (str "._%+-").
Definition email_domain (c : Z) : bool := ascii_alnum c || memZ c (str ".-").

(** Backtracking of [[A-Za-z0-9.\-]+] before [\.[A-Za-z]{2,}]: the
    candidate dot positions [k], [k-1], ..., [1] of the domain text [d],
    largest first; the end of the match after the greedy letter run. *)
Fixpoint tld_search (d : list Z) (k : nat) : option nat :=
  match k with
  | O => None
  | S k' =>
      let r := span_while ascii_alpha (drop (S k) d) in
      if (nth k d 0 =? 46) && (2 <=? r)%nat then Some (S k + r)%nat
      else tld_search d k'
  end.

(** [_EMAIL = [A-Za-z0-9._%+\-]+@[A-Za-z0-9.\-]+\.[A-Za-z]{2,}] *)
Definition match_email (s : list Z) : option nat :=
  let l := span_while email_local s in
  if (l =? 0)%nat then None else
  match nth_error s l with
  | Some c =>
      if c =? 64 then
        let d := drop (S l) s in
        match tld_search d (span_while email_domain d - 1) with
        | Some e => Some (S l + e)%nat
        | None => None
        end
      else None
  | None => None
  end.

(** [_HANDLE = [@#][A-Za-z0-9_]+] *)
Definition match_handle (s : list Z) : option nat :=
  match s with
  | c :: s' =>
      if (c =? 64) || (c =? 35) then
        let r := span_while ascii_word s' in
        if (r =? 0)%nat then None else Some (S r)
      else None
  | [] => None
  end.

(** [_ELLIPSIS = (?:…|\.{3})] *)
Definition match_ellipsis (s : list Z) : option nat :=
  match s with
  | c :: _ =>
      if c =? U_HELLIP then Some 1%nat
      else if starts_with (str "...") s then Some 3%nat else None
  | [] => None
  end.

(** [[’'\-]] *)
Definition is_joiner (c : Z) : bool := (c =? U_RSQUO) || (c =? 39) || (c =? 45).

(** After an alphanumeric: more alphanumerics, or a joiner followed by
    an alphanumeric. *)
Fixpoint wordish_tail (s : list Z) : nat :=
  match s with
  | c :: s' =>
      if ascii_alnum c then S (wordish_tail s')
      else if is_joiner c then
        match s' with
        | c2 :: s'' => if ascii_alnum c2 then S (S (wordish_tail s'')) else O
        | [] => O
        end
      else O
  | [] => O
  end.

(** [_WORDISH = [A-Za-z0-9]+(?:[’'\-][A-Za-z0-9]+)*] *)
Definition match_word (s : list Z) : option nat :=
  match s with
  | c :: s' => if ascii_alnum c then Some (S (wordish_tail s')) else None
  | [] => None
  end.

(** [_PUNCT = [.,?!;:()\[\]{}“”‘’—–\-]] plus the ASCII double quote (34). *)
Definition punct_chars : list Z :=
  str ".,?!;:()[]{}" ++ [34; U_LDQUO; U_RDQUO; U_LSQUO; U_RSQUO; U_EMDASH; U_ENDASH; 45].

Definition match_punct (s : list Z) : option nat :=
  match s with
  | c :: _ => if memZ c punct_chars then Some 1%nat else None
  | [] => None
  end.

(** [_WS = \s+] *)
Definition match_ws (s : list Z) : option nat :=
  let r := span_while py_isspace s in if (r =? 0)%nat then None else Some r.

(** [_MASTER.match] at one position: the first alternative that matches. *)
Definition match_at (s : list Z) : option (kind * nat) :=
  match match_url s with Some n => Some (URL, n) | None =>
  match match_email s with Some n => Some (EMAIL, n) | None =>
  match match_handle s with Some n => Some (HANDLE, n) | None =>
  match match_ellipsis s with Some n => Some (ELLIPSIS, n) | None =>
  match match_word s with Some n => Some (WORD, n) | None =>
  match match_punct s with Some n => Some (PUNCT, n) | None =>
  match match_ws s with Some n => Some (WS, n) | None => None
  end end end end end end end.

(** ** [finditer] *)

(** A match: its group and its span [m.span()]. *)
Record rmatch := mkMatch { m_kind : kind; m_start : nat; m_end : nat }.

(** The scan from position [p], [s] being the text from [p] on. *)
Fixpoint scan (fuel p : nat) (s : list Z) : list rmatch :=
  match fuel with
  | O => []
  | S fuel' =>
      match s with
      | [] => []
      | _ :: s' =>
          match match_at s with
          | Some (k, n) => mkMatch k p (p + n) :: scan fuel' (p + n) (drop n s)
          | None => scan fuel' (S p) s'
          end
      end
  end.

Definition finditer (text : list Z) : list rmatch := scan (length text) 0 text.

(** ** Building the tokens *)

Definition has_digit `{UnicodeDB} (piece : list Z) : bool := existsb uc_isdigit piece.

(** [any(ch.isalpha() for ch in piece) and piece[0].isupper()] *)
Definition cap_shape `{UnicodeDB} (piece : list Z) : bool :=
  existsb uc_isalpha piece && match piece with c :: _ => uc_isupper c | [] => false end.

(** The flags of a matched piece, as the loop body sets them. *)
Definition match_flags `{UnicodeDB} (k : kind) (piece : list Z) : Z :=
  let f0 := if bool_decide (k = PUNCT \/ k = ELLIPSIS) then TF_PUNCT else 0 in
  let f1 := if bool_decide (k = WORD) then
              Z.lor (Z.lor f0 (if has_digit piece then TF_NUM else 0))
                    (if cap_shape piece then TF_CAP else 0)
            else f0 in
  if bool_decide (k = URL \/ k = EMAIL \/ k = HANDLE) then
    Z.lor f1 (if has_digit piece then TF_NUM else 0)
  else f1.

(** [text[s:e]] *)
Definition slice (text : list Z) (s e : nat) : list Z := take (e - s) (drop s text).

(** The [for m in _MASTER.finditer(text)] loop: tokens, their kinds, and
    the final [i] (end of the last match, whitespace included). *)
Fixpoint build_tokens `{UnicodeDB} (text : list Z) (ms : list rmatch) (idx i : nat)
    : list Token * list kind * nat :=
  match ms with
  | [] => ([], [], i)
  | m :: ms' =>
      if bool_decide (m_kind m = WS) then build_tokens text ms' idx (m_end m)
      else
        let piece := slice text (m_start m) (m_end m) in
        let t := mkToken idx piece (m_start m) (m_end m) (match_flags (m_kind m) piece) in
        let '(ts, ks, i') := build_tokens text ms' (S idx) (m_end m) in
        (t :: ts, m_kind m :: ks, i')
  end.

(** [if i < len(text)]: the unmatched tail as one token of kind WORD. *)
Definition fallback `{UnicodeDB} (text : list Z) (ts : list Token) (ks : list kind) (i : nat)
    : list Token * list kind :=
  if (i <? length text)%nat then
    let piece := drop i text in
    let flags := Z.lor (if has_digit piece then TF_NUM else 0)
                       (if cap_shape piece then TF_CAP else 0) in
    (ts ++ [mkToken (length ts) piece i (length text) flags], ks ++ [WORD])
  else (ts, ks).

(** ** The sentence-cue post-pass *)

Definition _TERMINATORS_STRONG : list (list Z) := [str "."; str "?"; str "!"].
Definition _TERMINATORS_WEAK : list (list Z) := [[U_HELLIP]; str "..."].
Definition _CLOSERS : list (list Z) :=
  [[34]; [U_RDQUO]; [U_RSQUO]; [39]; [41]; [93]; [125]; [U_RAQUO]].

Definition set_flag (f : Z) (t : Token) : Token :=
  mkToken (tok_idx t) (tok_text t) (tok_start t) (tok_end t) (Z.lor (tok_flags t) f).

(** [while j < n and tokens[j].text in _CLOSERS]: flag the closers that
    immediately follow, in order. *)
Fixpoint mark_closers (ts : list Token) : list Token :=
  match ts with
  | t :: ts' =>
      if mem_str (tok_text t) _CLOSERS then set_flag TF_SENT_END_WEAK t :: mark_closers ts'
      else ts
  | [] => []
  end.

Definition is_punct_kind (k : kind) : bool := bool_decide (k = PUNCT \/ k = ELLIPSIS).

(** The body of [for k in range(n)], on the current token list. *)
Definition postpass_step (ks : list kind) (ts : list Token) (k : nat) : list Token :=
  match ts !! k, ks !! k with
  | Some t, Some kd =>
      if is_punct_kind kd then
        if mem_str (tok_text t) _TERMINATORS_STRONG then
          let ts1 := <[k := set_flag TF_SENT_END_STRONG t]> ts in
          take (S k) ts1 ++ mark_closers (drop (S k) ts1)
        else if mem_str (tok_text t) _TERMINATORS_WEAK then
          <[k := set_flag TF_SENT_END_WEAK t]> ts
        else ts
      else ts
  | _, _ => ts
  end.

Definition postpass (ks : list kind) (ts : list Token) : list Token :=
  fold_left (postpass_step ks) (seq 0 (length ts)) ts.

(** [tokenize(text)] *)
Definition tokenize `{UnicodeDB} (text : list Z) : list Token :=
  let '(ts, ks, i) := build_tokens text (finditer text) 0 0 in
  let '(ts, ks) := fallback text ts ks i in
  postpass ks ts.

Definition texts (ts : list Token) : list (list Z) := map tok_text ts.
Definition flags_of (ts : list Token) : list Z := map tok_flags ts.

Example tokenize_are_you_okay :
  texts (tokenize (str "Are you okay?")) = [str "Are"; str "you"; str "okay"; str "?"] /\
  flags_of (tokenize (str "Are you okay?")) = [1; 0; 0; 10].
Proof. vm_compute. split; reflexivity. Qed.

Example tokenize_email :
  texts (tokenize (str "Email me at a.b@x.co.uk, thanks...")) =
  [str "Email"; str "me"; str "at"; str "a.b@x.co.uk"; str ","; str "thanks"; str "..."].
Proof. vm_compute. reflexivity. Qed.

Definition he_said : list Z :=
  str "He said, " ++ [U_LDQUO] ++ str "Don" ++ [U_RSQUO] ++ str "t move." ++ [U_RDQUO].

Example tokenize_he_said :
  texts (tokenize he_said) =
    [str "He"; str "said"; str ","; [U_LDQUO]; str "Don" ++ [U_RSQUO] ++ str "t";
     str "move"; str "."; [U_RDQUO]] /\
  flags_of (tokenize he_said) = [1; 0; 2; 2; 1; 0; 10; 18].
Proof. vm_compute. split; reflexivity. Qed.

Example tokenize_okay_ellipsis :
  texts (tokenize (str "Okay... I guess")) = [str "Okay"; str "..."; str "I"; str "guess"] /\
  flags_of (tokenize (str "Okay... I guess")) = [1; 18; 1; 0].
Proof. vm_compute. split; reflexivity. Qed.

Example tokenize_drops_unmatched :
  texts (tokenize (str "a & b")) = [str "a"; str "b"].
Proof. vm_compute. reflexivity. Qed.

Example tokenize_drops_apostrophe :
  texts (tokenize (str "hi. 'x")) = [str "hi"; str "."; str "x"].
Proof. vm_compute. reflexivity. Qed.

Example tokenize_fallback_tail :
  texts (tokenize (str "Stop.'")) = [str "Stop"; str "."; str "'"] /\
  flags_of (tokenize (str "Stop.'")) = [1; 10; 16].
Proof. vm_compute. split; reflexivity. Qed.

(** ** Every alternative matches a non-empty prefix *)

Lemma span_while_drop_le f k s :
  (span_while f (drop k s) <= length s - k)%nat.
Proof. pose proof (span_while_le f (drop k s)). rewrite length_drop in H. exact H. Qed.

Lemma span_while_drop_pos f k s :
  (0 < span_while f (drop k s))%nat -> (k < length s)%nat.
Proof.
  intros H. destruct (decide (k < length s)%nat) as [|Hge]; [done|].
  rewrite drop_ge in H by lia. simpl in H. lia.
Qed.

Lemma nonspace_run_from_len k s n :
  nonspace_run_from k s = Some n -> (1 <= n <= length s)%nat.
Proof.
  unfold nonspace_run_from.
  destruct (Nat.eqb_spec (span_while (fun c => negb (py_isspace c)) (drop k s)) 0) as [|Hr];
    [discriminate|].
  intros [= <-]. pose proof (span_while_drop_le (fun c => negb (py_isspace c)) k s).
  pose proof (span_while_drop_pos (fun c => negb (py_isspace c)) k s ltac:(lia)). lia.
Qed.

Lemma tld_search_len d k e : tld_search d k = Some e -> (1 <= e <= length d)%nat.
Proof.
  induction k as [|k IH]; cbn [tld_search]; [discriminate|].
  destruct (_ && _) eqn:E; [|apply IH]. intros [= <-].
  apply andb_true_iff in E as [_ E]. apply Nat.leb_le in E.
  pose proof (span_while_drop_le ascii_alpha (S (S k)) d).
  pose proof (span_while_drop_pos ascii_alpha (S (S k)) d ltac:(lia)). lia.
Qed.

Lemma wordish_tail_le s : (wordish_tail s <= length s)%nat.
Proof.
  remember (length s) as n eqn:Hn. revert s Hn.
  induction n as [n IH] using lt_wf_ind. intros [|c s] Hn; simpl; [lia|].
  simpl in Hn. destruct (ascii_alnum c).
  { specialize (IH (length s) ltac:(lia) s eq_refl). lia. }
  destruct (is_joiner c); [|lia]. destruct s as [|c2 s]; [lia|].
  destruct (ascii_alnum c2); [|lia].
  specialize (IH (length s) ltac:(simpl in Hn; lia) s eq_refl). simpl in Hn. lia.
Qed.

Lemma starts_with_length p s : starts_with p s = true -> (length p <= length s)%nat.
Proof. intros H. apply starts_with_spec in H as [r ->]. rewrite length_app. lia. Qed.

Lemma match_url_len s n : match_url s = Some n -> (1 <= n <= length s)%nat.
Proof.
  unfold match_url.
  destruct (starts_with (str "https://") s); [destruct (nonspace_run_from 8 s) eqn:E1;
    [intros [= <-]; eauto using nonspace_run_from_len|]|];
  (destruct (starts_with (str "http://") s); [destruct (nonspace_run_from 7 s) eqn:E2;
    [intros [= <-]; eauto using nonspace_run_from_len|]|]);
  (destruct (starts_with (str "www.") s); [|discriminate]); apply nonspace_run_from_len.
Qed.

Lemma match_email_len s n : match_email s = Some n -> (1 <= n <= length s)%nat.
Proof.
  unfold match_email. destruct (Nat.eqb_spec (span_while email_local s) 0); [discriminate|].
  destruct (nth_error s _) as [c|] eqn:Hn; [|discriminate].
  destruct (c =? 64); [|discriminate].
  destruct (tld_search _ _) as [e|] eqn:Ht; [|discriminate]. intros [= <-].
  apply tld_search_len in Ht. rewrite length_drop in Ht.
  assert (Hlt : (span_while email_local s < length s)%nat) by (apply nth_error_Some; congruence). lia.
Qed.

Lemma match_handle_len s n : match_handle s = Some n -> (1 <= n <= length s)%nat.
Proof.
  unfold match_handle. destruct s as [|c s]; [discriminate|].
  destruct (_ || _); [|discriminate].
  destruct (Nat.eqb_spec (span_while ascii_word s) 0); [discriminate|].
  intros [= <-]. pose proof (span_while_le ascii_word s). simpl. lia.
Qed.

Lemma match_ellipsis_len s n : match_ellipsis s = Some n -> (1 <= n <= length s)%nat.
Proof.
  unfold match_ellipsis. destruct s as [|c s]; [discriminate|].
  destruct (c =? U_HELLIP); [intros [= <-]; simpl; lia|].
  destruct (starts_with _ _) eqn:E; [|discriminate]. intros [= <-].
  apply starts_with_length in E. simpl in E |- *. lia.
Qed.

Lemma match_word_len s n : match_word s = Some n -> (1 <= n <= length s)%nat.
Proof.
  unfold match_word. destruct s as [|c s]; [discriminate|].
  destruct (ascii_alnum c); [|discriminate]. intros [= <-].
  pose proof (wordish_tail_le s). simpl. lia.
Qed.

Lemma match_punct_len s n : match_punct s = Some n -> (1 <= n <= length s)%nat.
Proof.
  unfold match_punct. destruct s as [|c s]; [discriminate|].
  destruct (memZ c punct_chars); [|discriminate]. intros [= <-]. simpl. lia.
Qed.

Lemma match_ws_len s n : match_ws s = Some n -> (1 <= n <= length s)%nat.
Proof.
  unfold match_ws. destruct (Nat.eqb_spec (span_while py_isspace s) 0); [discriminate|].
  intros [= <-]. pose proof (span_while_le py_isspace s). lia.
Qed.

#[export] Hint Resolve match_url_len match_email_len match_handle_len match_ellipsis_len
  match_word_len match_punct_len match_ws_len : pablo.

Lemma match_at_len s k n : match_at s = Some (k, n) -> (1 <= n <= length s)%nat.
Proof.
  unfold match_at.
  repeat match goal with
  | |- match ?m with Some _ => _ | None => _ end = _ -> _ =>
      let E := fresh "E" in destruct m eqn:E; [intros [= _ <-]; eauto with pablo|]
  end; discriminate.
Qed.

(** ** The scan as a relation *)

(** [finds m p s ms]: scanning the text [s], which starts at offset
    [p], with the matcher [m] of one position, reports the matches
    [ms]: a match is reported and the scan resumes at its end, a
    position where nothing matches is skipped. *)
Inductive finds (m : list Z -> option (kind * nat)) : nat -> list Z -> list rmatch -> Prop :=
| finds_end p : finds m p [] []
| finds_match p s k n ms :
    m s = Some (k, n) -> finds m (p + n) (drop n s) ms ->
    finds m p s (mkMatch k p (p + n) :: ms)
| finds_skip p c s ms :
    m (c :: s) = None -> finds m (S p) s ms -> finds m p (c :: s) ms.

Lemma match_at_nil : match_at [] = None.
Proof. reflexivity. Qed.

Lemma scan_finds fuel p s : (length s <= fuel)%nat -> finds match_at p s (scan fuel p s).
Proof.
  revert p s. induction fuel as [|fuel IH]; intros p s Hf.
  - destruct s; [constructor|simpl in Hf; lia].
  - destruct s as [|c s]; [constructor|]. cbn [scan].
    destruct (match_at (c :: s)) as [[k n]|] eqn:E.
    + pose proof (match_at_len _ _ _ E) as Hn. constructor; [exact E|].
      apply IH. rewrite length_drop. simpl in *. lia.
    + apply finds_skip; [exact E|]. apply IH. simpl in Hf. lia.
Qed.

Lemma finds_functional m p s ms1 ms2 : m [] = None -> finds m p s ms1 -> finds m p s ms2 -> ms1 = ms2.
Proof.
  intros Hnil H1. revert ms2. induction H1 as [p|p s k n ms E H IH|p c s ms E H IH]; intros ms2 H2.
  - inversion H2; [done|]. subst. congruence.
  - inversion H2 as [|? ? k' n' ms' E' H'|? c' s' ms' E' H']; subst.
    + congruence.
    + rewrite E in E'. injection E' as <- <-. f_equal. apply IH. exact H'.
    + congruence.
  - inversion H2 as [|? ? k' n' ms' E' H'|? c' s' ms' E' H']; subst.
    + congruence.
    + apply IH. exact H'.
Qed.

(** Two matchers that agree at every position scan alike. *)
Lemma finds_ext (m1 m2 : list Z -> option (kind * nat)) p s ms :
  (forall t, m1 t = m2 t) -> finds m1 p s ms -> finds m2 p s ms.
Proof.
  intros Hm H. induction H as [p|p s k n ms E H IH|p c s ms E H IH].
  - constructor.
  - constructor; [by rewrite <-Hm|exact IH].
  - apply finds_skip; [by rewrite <-Hm|exact IH].
Qed.

(** Matches are reported left to right, non-empty and non-overlapping. *)
Fixpoint ordered (p : nat) (ms : list rmatch) : Prop :=
  match ms with
  | [] => True
  | m :: ms' => (p <= m_start m < m_end m)%nat /\ ordered (m_end m) ms'
  end.

Lemma ordered_weaken p q ms : (q <= p)%nat -> ordered p ms -> ordered q ms.
Proof. destruct ms as [|m ms]; simpl; [done|]. intros ? [? ?]. split; [lia|done]. Qed.

Lemma ordered_start p ms : ordered p ms -> Forall (fun m => (p <= m_start m)%nat) ms.
Proof.
  revert p. induction ms as [|m ms IH]; intros p H; simpl in H; constructor; [lia|].
  destruct H as [Hm Hr]. eapply Forall_impl; [apply (IH _ Hr)|]. simpl. lia.
Qed.

(** Each reported match is what [_MASTER.match] finds at its start. *)
Definition match_in (text : list Z) (m : rmatch) : Prop :=
  (m_end m <= length text)%nat /\
  match_at (drop (m_start m) text) = Some (m_kind m, m_end m - m_start m)%nat.

Lemma finds_sound text p s ms :
  s = drop p text -> finds match_at p s ms -> ordered p ms /\ Forall (match_in text) ms.
Proof.
  intros Hs H. revert Hs. induction H as [p|p s k n ms E H IH|p c s ms E H IH]; intros Hs.
  - done.
  - pose proof (match_at_len _ _ _ E) as Hn.
    destruct IH as [Ho Hf]; [rewrite Hs, drop_drop; reflexivity|].
    split; [simpl; split; [lia|done]|]. constructor; [|done].
    unfold match_in; simpl. rewrite <- Hs, E.
    assert (length s = length text - p)%nat by (rewrite Hs, length_drop; reflexivity).
    split; [lia|]. do 2 f_equal. lia.
  - destruct IH as [Ho Hf].
    { replace (S p) with (p + 1)%nat by lia. rewrite <- drop_drop, <- Hs. reflexivity. }
    split; [|done]. eapply ordered_weaken; [|exact Ho]. lia.
Qed.

Lemma finditer_sound text :
  ordered 0 (finditer text) /\ Forall (match_in text) (finditer text).
Proof. apply (finds_sound text 0 text); [reflexivity|]. exact (scan_finds (length text) 0 text ltac:(lia)).
Qed.

(** ** Token offsets *)

(** Everything of a token but its flags. *)
Definition tok_shape (t : Token) : nat * list Z * nat * nat :=
  (tok_idx t, tok_text t, tok_start t, tok_end t).

(** A token is the slice of the text between its offsets. *)
Definition tok_in (text : list Z) (t : Token) : Prop :=
  (tok_start t < tok_end t <= length text)%nat /\
  tok_text t = slice text (tok_start t) (tok_end t).

(** Tokens are in text order and do not overlap. *)
Fixpoint tok_chain (p : nat) (ts : list Token) : Prop :=
  match ts with
  | [] => True
  | t :: ts' => (p <= tok_start t)%nat /\ tok_chain (tok_end t) ts'
  end.

Definition idx_dense (base : nat) (ts : list Token) : Prop :=
  forall j t, ts !! j = Some t -> tok_idx t = (base + j)%nat.

Lemma tok_chain_weaken p q ts : (q <= p)%nat -> tok_chain p ts -> tok_chain q ts.
Proof. destruct ts as [|t ts]; simpl; [done|]. intros ? [? ?]. split; [lia|done]. Qed.

Lemma tok_chain_snoc p q ts t :
  tok_chain p ts -> Forall (fun u => (tok_end u <= q)%nat) ts -> (p <= q)%nat ->
  (q <= tok_start t)%nat -> tok_chain p (ts ++ [t]).
Proof.
  revert p. induction ts as [|u ts IH]; intros p Hc Hf Hpq Hq; simpl in *; [split; [lia|done]|].
  destruct Hc as [Hu Hc]. inversion Hf as [|? ? Hu' Hf']; subst.
  split; [done|]. apply IH; [done|done|lia|done].
Qed.

Lemma tok_chain_shape p ts1 ts2 :
  map tok_shape ts1 = map tok_shape ts2 -> tok_chain p ts1 -> tok_chain p ts2.
Proof.
  revert p ts2. induction ts1 as [|t1 ts1 IH]; intros p [|t2 ts2] Hm Hc; try discriminate; [done|].
  destruct t1, t2. cbn in Hm. injection Hm as <- <- <- <- Hm.
  destruct Hc as [H1 H2]. split; [done|]. apply IH; done.
Qed.

Lemma build_tokens_spec `{UnicodeDB} text ms : forall idx i p,
  (p <= i)%nat -> ordered p ms -> Forall (match_in text) ms ->
  let r := build_tokens text ms idx i in
  length r.1.2 = length r.1.1 /\ idx_dense idx r.1.1 /\ tok_chain p r.1.1 /\
  Forall (tok_in text) r.1.1 /\ Forall (fun t => (tok_end t <= r.2)%nat) r.1.1 /\ (p <= r.2)%nat.
Proof.
  induction ms as [|m ms IH]; intros idx i p Hpi Ho Hf; simpl.
  - repeat split; try constructor; try lia. intros j t Hj. rewrite lookup_nil in Hj. discriminate.
  - destruct Ho as [Hm Ho]. inversion Hf as [|? ? [Hme Hma] Hf']; subst.
    case_bool_decide.
    + destruct (IH idx (m_end m) (m_end m) ltac:(lia) Ho Hf') as (Hl & Hd & Hc & Hi & He & Hp).
      repeat split; try done; [eapply tok_chain_weaken; [|exact Hc]; lia|lia].
    + destruct (build_tokens text ms (S idx) (m_end m)) as [[ts ks] i'] eqn:E.
      destruct (IH (S idx) (m_end m) (m_end m) ltac:(lia) Ho Hf') as (Hl & Hd & Hc & Hi & He & Hp).
      rewrite E in Hl, Hd, Hc, Hi, He, Hp. simpl in *.
      repeat split.
      * lia.
      * intros [|j] t Hj; simpl in Hj; [injection Hj as <-; simpl; lia|].
        rewrite (Hd j t Hj). lia.
      * lia.
      * done.
      * constructor; [|done]. unfold tok_in. simpl. split; [lia|reflexivity].
      * constructor; [simpl; lia|done].
      * lia.
Qed.

Lemma map_insert {A B} (f : A -> B) (l : list A) k x :
  map f (<[k := x]> l) = <[k := f x]> (map f l).
Proof. revert k. induction l as [|a l IH]; intros [|k]; simpl; try done. by rewrite IH. Qed.

Lemma lookup_map_Some {A B} (f : A -> B) (l : list A) k x :
  l !! k = Some x -> map f l !! k = Some (f x).
Proof. revert k. induction l as [|a l IH]; intros [|k] H; simpl in *; try done. by injection H as ->. by apply IH. Qed.

Lemma mark_closers_shape ts : map tok_shape (mark_closers ts) = map tok_shape ts.
Proof. induction ts as [|t ts IH]; simpl; [done|]. destruct (mem_str _ _); simpl; [by rewrite IH|done]. Qed.

Lemma insert_flag_shape f ts k t :
  ts !! k = Some t -> map tok_shape (<[k := set_flag f t]> ts) = map tok_shape ts.
Proof.
  intros Hk. rewrite map_insert. apply list_insert_id.
  exact (lookup_map_Some tok_shape ts k t Hk).
Qed.

Lemma postpass_step_shape ks ts k : map tok_shape (postpass_step ks ts k) = map tok_shape ts.
Proof.
  unfold postpass_step. destruct (ts !! k) as [t|] eqn:Ht; [|done]. destruct (ks !! k); [|done].
  destruct (is_punct_kind _); [|done].
  destruct (mem_str _ _TERMINATORS_STRONG).
  - rewrite map_app, mark_closers_shape, <- map_app, take_drop. by apply insert_flag_shape.
  - destruct (mem_str _ _); [by apply insert_flag_shape|done].
Qed.

Lemma postpass_shape ks ts : map tok_shape (postpass ks ts) = map tok_shape ts.
Proof.
  unfold postpass. generalize (seq 0 (length ts)). intros l. revert ts.
  induction l as [|k l IH]; intros ts; simpl; [done|]. by rewrite IH, postpass_step_shape.
Qed.

Lemma shape_lookup ts1 ts2 j t :
  map tok_shape ts1 = map tok_shape ts2 -> ts1 !! j = Some t ->
  exists t', ts2 !! j = Some t' /\ tok_shape t' = tok_shape t.
Proof.
  intros Hm Hj. pose proof (lookup_map_Some tok_shape _ _ _ Hj) as H. rewrite Hm in H.
  destruct (ts2 !! j) as [t'|] eqn:E; [exists t'; split; [done|]|].
  - apply (lookup_map_Some tok_shape) in E. congruence.
  - apply lookup_ge_None in E. apply lookup_lt_Some in H. rewrite length_map in H. lia.
Qed.

Definition toks_wf (text : list Z) (ts : list Token) : Prop :=
  (forall j t, ts !! j = Some t -> tok_idx t = j /\ tok_in text t) /\ tok_chain 0 ts.

Lemma toks_wf_shape text ts1 ts2 :
  map tok_shape ts1 = map tok_shape ts2 -> toks_wf text ts2 -> toks_wf text ts1.
Proof.
  intros Hm [Hl Hc]. split; [|eapply tok_chain_shape; [symmetry; exact Hm|exact Hc]].
  intros j t Hj. destruct (shape_lookup _ _ _ _ Hm Hj) as [t' [Ht' Hs]].
  destruct (Hl j t' Ht') as [Hi Hin]. destruct t, t'. cbn in Hs. injection Hs as -> -> -> ->.
  exact (conj Hi Hin).
Qed.

Lemma fallback_wf `{UnicodeDB} text ts ks i :
  idx_dense 0 ts -> tok_chain 0 ts -> Forall (tok_in text) ts ->
  Forall (fun t => (tok_end t <= i)%nat) ts ->
  toks_wf text (fallback text ts ks i).1.
Proof.
  intros Hd Hc Hin He. unfold fallback.
  assert (Hbase : forall j t, ts !! j = Some t -> tok_idx t = j /\ tok_in text t).
  { intros j t Hj. split; [apply (Hd j t Hj)|]. rewrite Forall_lookup in Hin. exact (Hin j t Hj). }
  destruct (Nat.ltb_spec i (length text)) as [Hlt|]; simpl; [|split; done].
  split.
  - intros j t Hj. apply lookup_app_Some in Hj as [Hj|[Hge Hj]]; [by apply Hbase|].
    apply list_lookup_singleton_Some in Hj as [Hj <-]. simpl. split; [lia|].
    unfold tok_in, slice. simpl. split; [lia|]. rewrite take_ge; [done|]. rewrite length_drop. lia.
  - apply (tok_chain_snoc 0 i); [done|done|lia|simpl; lia].
Qed.

(** The tokens of [tokenize] are well formed for the text. *)
Lemma tokenize_wf `{UnicodeDB} text : toks_wf text (tokenize text).
Proof.
  unfold tokenize.
  destruct (finditer_sound text) as [Ho Hf].
  pose proof (build_tokens_spec text (finditer text) 0 0 0 ltac:(lia) Ho Hf) as Hb.
  destruct (build_tokens text (finditer text) 0 0) as [[ts ks] i]. simpl in Hb.
  destruct Hb as (_ & Hd & Hc & Hin & He & _).
  pose proof (fallback_wf text ts ks i Hd Hc Hin He) as Hw.
  destruct (fallback text ts ks i) as [ts2 ks2]. simpl in Hw.
  eapply toks_wf_shape; [apply postpass_shape|exact Hw].
Qed.

Lemma tok_chain_next p ts j t t' :
  tok_chain p ts -> ts !! j = Some t -> ts !! S j = Some t' -> (tok_end t <= tok_start t')%nat.
Proof.
  revert p j. induction ts as [|u ts IH]; intros p j Hc Hj Hj'; [done|].
  destruct Hc as [_ Hc]. destruct j as [|j]; simpl in *.
  - injection Hj as <-. destruct ts as [|u' ts]; [done|]. injection Hj' as <-. apply Hc.
  - exact (IH _ j Hc Hj Hj').
Qed.

(** C3: Token offsets.  For every text, the j-th token of [tokenize]
    has index j, a non-empty span [start < end <= len(text)], and as
    text exactly the slice [text[start:end]]; the next token starts at
    or after its end, so tokens come in text order and do not overlap. *)
Theorem tokenize_offsets `{UnicodeDB} text j t :
  tokenize text !! j = Some t ->
  tok_idx t = j /\ (tok_start t < tok_end t <= length text)%nat /\
  tok_text t = slice text (tok_start t) (tok_end t) /\
  (forall t', tokenize text !! S j = Some t' -> (tok_end t <= tok_start t')%nat).
Proof.
  intros Hj. destruct (tokenize_wf text) as [Hl Hc].
  destruct (Hl j t Hj) as [Hi [Hr Ht]]. split; [done|]. split; [done|]. split; [done|].
  intros t' Hj'. exact (tok_chain_next _ _ _ _ _ Hc Hj Hj').
Qed.

Example tokenize_offsets_witness :
  tokenize (str "Are you okay?") !! 1%nat = Some (mkToken 1 (str "you") 4 7 0) /\
  (4 < 7 <= length (str "Are you okay?"))%nat.
Proof.
  split; [vm_compute; reflexivity|].
  exact (proj1 (proj2 (@tokenize_offsets ascii_db (str "Are you okay?") 1 (mkToken 1 (str "you") 4 7 0)
    ltac:(vm_compute; reflexivity)))).
Defined.

(** ** The sentence cues, declaratively *)

Abbreviation shape := (nat * list Z * nat * nat)%type.

Definition shape_text (s : shape) : list Z := s.1.1.2.

(** Token [k] is punctuation (or an ellipsis) whose text is [.], [?] or
    [!]. *)
Definition strong_cue (ks : list kind) (sh : list shape) (k : nat) : bool :=
  match sh !! k, ks !! k with
  | Some s, Some kd => is_punct_kind kd && mem_str (shape_text s) _TERMINATORS_STRONG
  | _, _ => false
  end.

(** Token [k] is an ellipsis text ([…] or [...]) of punctuation kind. *)
Definition ellipsis_cue (ks : list kind) (sh : list shape) (k : nat) : bool :=
  match sh !! k, ks !! k with
  | Some s, Some kd =>
      is_punct_kind kd && negb (mem_str (shape_text s) _TERMINATORS_STRONG)
      && mem_str (shape_text s) _TERMINATORS_WEAK
  | _, _ => false
  end.

Definition is_closer_shape (s : shape) : bool := mem_str (shape_text s) _CLOSERS.

(** Tokens [k+1 .. j] are all closers. *)
Definition closers_between (sh : list shape) (k j : nat) : bool :=
  forallb is_closer_shape (take (j - k) (drop (S k) sh)).

(** Token [j] is in the run of closers right after a strong terminator. *)
Definition weak_closer (ks : list kind) (sh : list shape) (j : nat) : bool :=
  existsb (fun m => strong_cue ks sh m && closers_between sh m j) (seq 0 j).

(** The flags the post-pass adds to token [j]. *)
Definition cue_flags (ks : list kind) (sh : list shape) (j : nat) : Z :=
  Z.lor (if strong_cue ks sh j then TF_SENT_END_STRONG else 0)
        (if ellipsis_cue ks sh j || weak_closer ks sh j then TF_SENT_END_WEAK else 0).

(** What iteration [k] of the loop adds to token [j]. *)
Definition step_flags (ks : list kind) (sh : list shape) (k j : nat) : Z :=
  Z.lor (if strong_cue ks sh k && (j =? k)%nat then TF_SENT_END_STRONG else 0)
        (if (strong_cue ks sh k && (k <? j)%nat && closers_between sh k j)
            || (ellipsis_cue ks sh k && (j =? k)%nat)
         then TF_SENT_END_WEAK else 0).

Lemma set_flag_0 t : set_flag 0 t = t.
Proof. destruct t. unfold set_flag. simpl. rewrite Z.lor_0_r. reflexivity. Qed.

Lemma set_flag_set_flag a b t : set_flag b (set_flag a t) = set_flag (Z.lor a b) t.
Proof. destruct t. unfold set_flag. simpl. rewrite Z.lor_assoc. reflexivity. Qed.

Lemma mark_closers_lookup l i :
  mark_closers l !! i =
  (fun t => set_flag (if forallb is_closer_shape (take (S i) (map tok_shape l))
                      then TF_SENT_END_WEAK else 0) t) <$> l !! i.
Proof.
  revert i. induction l as [|t l IH]; intros i; [done|]. simpl.
  unfold is_closer_shape at 1. unfold shape_text, tok_shape. simpl.
  destruct (mem_str (tok_text t) _CLOSERS) eqn:Ec.
  - destruct i as [|i]; simpl; [done|]. rewrite IH. reflexivity.
  - destruct i as [|i]; simpl; [by rewrite set_flag_0|].
    destruct (l !! i); simpl; [by rewrite set_flag_0|done].
Qed.

Lemma lookup_map_None {A B} (f : A -> B) (l : list A) k :
  l !! k = None -> map f l !! k = None.
Proof. intros H. apply lookup_ge_None in H. apply lookup_ge_None. rewrite length_map. lia. Qed.

Lemma set_flag_fmap_0 (o : option Token) : set_flag 0 <$> o = o.
Proof. destruct o; simpl; [by rewrite set_flag_0|done]. Qed.

Ltac nat_cases :=
  repeat match goal with
  | |- context [(?a =? ?b)%nat] => destruct (Nat.eqb_spec a b); try lia
  | |- context [(?a <? ?b)%nat] => destruct (Nat.ltb_spec a b); try lia
  end.

Lemma postpass_step_lookup ks ts k j :
  postpass_step ks ts k !! j = set_flag (step_flags ks (map tok_shape ts) k j) <$> ts !! j.
Proof.
  unfold postpass_step, step_flags, strong_cue, ellipsis_cue.
  destruct (ts !! k) as [t|] eqn:Ht; [|rewrite (lookup_map_None _ _ _ Ht); simpl; by rewrite set_flag_fmap_0].
  rewrite (lookup_map_Some tok_shape _ _ _ Ht).
  destruct (ks !! k) as [kd|]; [|by rewrite set_flag_fmap_0].
  change (shape_text (tok_shape t)) with (tok_text t).
  assert (Hk : (k < length ts)%nat) by (apply lookup_lt_Some in Ht; done).
  destruct (is_punct_kind kd); simpl; [|by rewrite set_flag_fmap_0].
  destruct (mem_str (tok_text t) _TERMINATORS_STRONG) eqn:Es; simpl.
  - assert (Hlen : length (take (S k) (<[k:=set_flag TF_SENT_END_STRONG t]> ts)) = S k)
      by (rewrite length_take, length_insert; lia).
    destruct (Nat.lt_ge_cases j (S k)) as [Hj|Hj].
    + rewrite lookup_app_l by lia. rewrite lookup_take_lt by lia.
      destruct (Nat.eq_dec j k) as [->|Hne].
      * rewrite list_lookup_insert_eq by done. nat_cases. rewrite Ht. reflexivity.
      * rewrite list_lookup_insert_ne by done. nat_cases. by rewrite set_flag_fmap_0.
    + rewrite lookup_app_r by lia. rewrite Hlen, mark_closers_lookup, lookup_drop.
      replace (S k + (j - S k))%nat with j by lia.
      rewrite list_lookup_insert_ne by lia.
      rewrite <- skipn_map, (insert_flag_shape _ _ _ _ Ht).
      unfold closers_between. replace (S (j - S k)) with (j - k)%nat by lia.
      nat_cases. simpl. destruct (forallb _ _); reflexivity.
  - destruct (mem_str (tok_text t) _TERMINATORS_WEAK); simpl; [|by rewrite set_flag_fmap_0].
    destruct (Nat.eq_dec j k) as [->|Hne].
    + rewrite list_lookup_insert_eq by done. nat_cases. rewrite Ht. reflexivity.
    + rewrite list_lookup_insert_ne by done. nat_cases. simpl. rewrite ?andb_false_r. by rewrite set_flag_fmap_0.
Qed.

#[local] Instance aac_lor_assoc : Associative eq Z.lor := Z.lor_assoc.
#[local] Instance aac_lor_comm : Commutative eq Z.lor := Z.lor_comm.
(** stdpp hides the lifting of [eq] to itself from AAC; give it. *)
#[local] Instance aac_lor_lift : AAC_lift (@eq Z) (@eq Z) := {}.

Lemma lor_if_orb (b1 b2 : bool) (a : Z) :
  (if b1 || b2 then a else 0) = Z.lor (if b1 then a else 0) (if b2 then a else 0).
Proof. destruct b1, b2; simpl; rewrite ?Z.lor_diag, ?Z.lor_0_l, ?Z.lor_0_r; reflexivity. Qed.

(** Or-ing two conditional bits over a loop is testing whether some
    iteration sets each of them. *)
Lemma fold_lor_existsb (f g : nat -> bool) (a b acc : Z) l :
  fold_left (fun acc k => Z.lor acc (Z.lor (if f k then a else 0) (if g k then b else 0))) l acc
  = Z.lor acc (Z.lor (if existsb f l then a else 0) (if existsb g l then b else 0)).
Proof.
  revert acc. induction l as [|k l IH]; intros acc; simpl.
  - by rewrite Z.lor_0_l, Z.lor_0_r.
  - rewrite IH, (lor_if_orb (f k)), (lor_if_orb (g k)). aac_reflexivity.
Qed.

Lemma existsb_seq_iff (f : nat -> bool) n :
  existsb f (seq 0 n) = true <-> exists k, (k < n)%nat /\ f k = true.
Proof.
  rewrite existsb_exists. split.
  - intros [k [Hk Hf]]. apply in_seq in Hk. exists k. split; [lia|done].
  - intros [k [Hk Hf]]. exists k. split; [apply in_seq; lia|done].
Qed.

Lemma existsb_seq_at (f : nat -> bool) n j :
  (j < n)%nat -> existsb (fun k => f k && (j =? k)%nat) (seq 0 n) = f j.
Proof.
  intros Hj. apply Bool.eq_iff_eq_true. rewrite existsb_seq_iff. split.
  - intros [k [_ Hk]]. apply andb_true_iff in Hk as [Hf Heq]. apply Nat.eqb_eq in Heq. by subst.
  - intros Hf. exists j. rewrite Nat.eqb_refl, andb_true_r. done.
Qed.

Lemma fold_step_flags ks sh l j acc :
  fold_left (fun acc k => Z.lor acc (step_flags ks sh k j)) l acc
  = Z.lor acc (Z.lor
      (if existsb (fun k => strong_cue ks sh k && (j =? k)%nat) l then TF_SENT_END_STRONG else 0)
      (if existsb (fun k => (strong_cue ks sh k && (k <? j)%nat && closers_between sh k j)
                            || (ellipsis_cue ks sh k && (j =? k)%nat)) l
       then TF_SENT_END_WEAK else 0)).
Proof. apply fold_lor_existsb. Qed.

Lemma postpass_fold ks sh l j ts t0 acc :
  map tok_shape ts = sh -> ts !! j = set_flag acc <$> t0 ->
  fold_left (postpass_step ks) l ts !! j
  = set_flag (fold_left (fun acc k => Z.lor acc (step_flags ks sh k j)) l acc) <$> t0.
Proof.
  revert ts acc. induction l as [|k l IH]; intros ts acc Hsh Hj; simpl; [done|].
  apply IH; [by rewrite postpass_step_shape|].
  rewrite postpass_step_lookup, Hsh, Hj. destruct t0; simpl; [|done].
  by rewrite set_flag_set_flag.
Qed.

Lemma existsb_weak_part ks sh n j :
  (j < n)%nat ->
  existsb (fun k => (strong_cue ks sh k && (k <? j)%nat && closers_between sh k j)
                    || (ellipsis_cue ks sh k && (j =? k)%nat)) (seq 0 n)
  = ellipsis_cue ks sh j || weak_closer ks sh j.
Proof.
  intros Hj. unfold weak_closer. apply Bool.eq_iff_eq_true.
  rewrite orb_true_iff, !existsb_seq_iff. split.
  - intros [k [Hk [Hs | He]%orb_true_iff]].
    + apply andb_true_iff in Hs as [[Hs Hlt]%andb_true_iff Hc]. apply Nat.ltb_lt in Hlt.
      right. exists k. rewrite Hs, Hc. split; [lia|done].
    + apply andb_true_iff in He as [He Heq]. apply Nat.eqb_eq in Heq. subst. by left.
  - intros [He | [k [Hk Hs]]].
    + exists j. rewrite Nat.eqb_refl, He, orb_true_r. split; [lia|done].
    + exists k. apply Nat.ltb_lt in Hk as Hlt. rewrite Hlt, andb_true_r, Hs.
      split; [lia|done].
Qed.

(** C4: The in-place post-pass of [tokenize] (the loop over [k] that
    flags strong terminators, ellipses and the closers after a strong
    terminator) adds to each token exactly the flags [cue_flags] of a
    declarative description: token [j] gets SENT_END_STRONG iff it is a
    [.], [?] or [!] punctuation token, and SENT_END_WEAK iff it is an
    ellipsis punctuation token or every token between the nearest such
    terminator before it and itself is a closer. *)
Theorem postpass_flags ks ts j :
  postpass ks ts !! j = set_flag (cue_flags ks (map tok_shape ts) j) <$> ts !! j.
Proof.
  unfold postpass.
  rewrite (postpass_fold ks (map tok_shape ts) _ j ts (ts !! j) 0); [|done|by rewrite set_flag_fmap_0].
  destruct (ts !! j) eqn:Hj; [|done]. apply lookup_lt_Some in Hj.
  rewrite fold_step_flags, Z.lor_0_l, existsb_seq_at, existsb_weak_part by done.
  reflexivity.
Qed.
