(* ===== verification/MasterRegex.v ===== *)
(** * MasterRegex: [_MASTER] of src/brain/language/tokenizer.py as a pattern

    The master regular expression of the tokenizer, written as the
    syntax of [Regex] from the pattern strings [_URL], [_EMAIL],
    [_HANDLE], [_ELLIPSIS], [_WORDISH], [_PUNCT] and [_WS] and their
    named alternation, and matched with the backtracking semantics of
    Python's [re].  The reference [match_at] of [Tokenizer], written
    with explicit greedy runs and backtracking, computes the same match
    at every position ([match_at_master]); hence [finditer] is the scan
    of [_MASTER.finditer] under the regex semantics. *)

From S2P Require Import Prelude Text Regex Tokenizer.

Open Scope Z_scope.

(** ** [_MASTER] as a pattern

    The source's patterns as syntax, for the semantics of [Regex]: the
    reference [match_at] is proved against ([match_at_master]). *)

Definition cls_alpha : list cls_item := [CRange 65 90; CRange 97 122].                 (* A-Za-z *)
Definition cls_alnum : list cls_item := cls_alpha ++ [CRange 48 57].                  (* A-Za-z0-9 *)

(** [(?:https?://\S+|www\.\S+)] *)
Definition _URL : re :=
  RAlt (RSeq (RLit (str "http")) (RSeq (ROpt (RLit (str "s"))) (RSeq (RLit (str "://")) (RPlus RNonSpace))))
       (RSeq (RLit (str "www.")) (RPlus RNonSpace)).

(** [[A-Za-z0-9._%+\-]+@[A-Za-z0-9.\-]+\.[A-Za-z]{2,}] *)
Definition _EMAIL : re :=
  RSeq (RPlus (RSet (cls_alnum ++ map CChar (str "._%+-"))))
   (RSeq (RLit (str "@"))
    (RSeq (RPlus (RSet (cls_alnum ++ map CChar (str ".-"))))
     (RSeq (RLit (str "."))
      (RSeq (RSet cls_alpha) (RPlus (RSet cls_alpha)))))).

(** [[@#][A-Za-z0-9_]+] *)
Definition _HANDLE : re := RSeq (RSet (map CChar (str "@#"))) (RPlus (RSet (cls_alnum ++ [CChar 95]))).

(** [(?:\u2026|\.{3})] *)
Definition _ELLIPSIS : re := RAlt (RLit [U_HELLIP]) (RSeq (RLit (str ".")) (RSeq (RLit (str ".")) (RLit (str ".")))).

(** [[A-Za-z0-9]+(?:[’'\-][A-Za-z0-9]+)*] *)
Definition _WORDISH : re :=
  RSeq (RPlus (RSet cls_alnum)) (RStar (RSeq (RSet (map CChar [U_RSQUO; 39; 45])) (RPlus (RSet cls_alnum)))).

(** [[.,?!;:()\[\]{}“”‘’—–\-]] with the ASCII double quote (34) *)
Definition _PUNCT : re :=
  RSet (map CChar (str ".,?!;:()[]{}" ++ [34; U_LDQUO; U_RDQUO; U_LSQUO; U_RSQUO; U_EMDASH; U_ENDASH; 45])).

(** [\s+] *)
Definition _WS : re := RPlus RSpace.

(** [(?P<URL>...)|(?P<EMAIL>...)|...|(?P<WS>...)] *)
Definition _MASTER : list (kind * re) :=
  [(URL, _URL); (EMAIL, _EMAIL); (HANDLE, _HANDLE); (ELLIPSIS, _ELLIPSIS); (WORD, _WORDISH);
   (PUNCT, _PUNCT); (WS, _WS)].

(** [_MASTER.match(s)] and [m.lastgroup]: the first group that matches,
    the accepting continuation leaving no branch to backtrack into. *)
Fixpoint master_go (alts : list (kind * re)) (s : list Z) : option (kind * nat) :=
  match alts with
  | [] => None
  | (k, r) :: alts' => match re_match r s with Some n => Some (k, n) | None => master_go alts' s end
  end.

Definition master_match (s : list Z) : option (kind * nat) := master_go _MASTER s.

(** ** The classes *)

Lemma in_cls_alpha c : in_cls cls_alpha c = ascii_alpha c.
Proof. unfold in_cls, cls_alpha, ascii_alpha, ascii_upper, ascii_lower_p. simpl. by rewrite orb_false_r. Qed.

Lemma in_cls_alnum c : in_cls cls_alnum c = ascii_alnum c.
Proof.
  unfold cls_alnum. rewrite in_cls_app, in_cls_alpha. unfold ascii_alnum, ascii_digit. simpl. by rewrite orb_false_r.
Qed.

Lemma in_cls_email_local c : in_cls (cls_alnum ++ map CChar (str "._%+-")) c = email_local c.
Proof. by rewrite in_cls_app, in_cls_alnum, in_cls_chars. Qed.

Lemma in_cls_email_domain c : in_cls (cls_alnum ++ map CChar (str ".-")) c = email_domain c.
Proof. by rewrite in_cls_app, in_cls_alnum, in_cls_chars. Qed.

Lemma in_cls_word c : in_cls (cls_alnum ++ [CChar 95]) c = ascii_word c.
Proof. rewrite in_cls_app, in_cls_alnum. unfold ascii_word. simpl. by rewrite orb_false_r. Qed.

Lemma in_cls_joiner c : in_cls (map CChar [U_RSQUO; 39; 45]) c = is_joiner c.
Proof. unfold in_cls, is_joiner, U_RSQUO. simpl. by destruct (c =? 8217), (c =? 39), (c =? 45). Qed.

(** ** The simple alternatives *)

Lemma match_ws_master s : match_ws s = re_match _WS s.
Proof.
  unfold re_match, _WS, match_ws. by rewrite (plus_char_acc _ _ s char_re_space).
Qed.

Lemma match_punct_master s : match_punct s = re_match _PUNCT s.
Proof.
  unfold re_match, _PUNCT, match_punct. destruct s as [|c s]; [done|]. cbn [bm]. rewrite in_cls_chars. destruct (memZ c _); [|done]. simpl. f_equal. lia.
Qed.

Lemma match_handle_master s : match_handle s = re_match _HANDLE s.
Proof.
  unfold re_match, _HANDLE, match_handle. destruct s as [|c s]; [done|]. cbn [bm]. rewrite in_cls_chars.
  assert (E : memZ c (str "@#") = (c =? 64) || (c =? 35)).
  { unfold memZ. apply Bool.eq_iff_eq_true. rewrite bool_decide_eq_true, orb_true_iff, !Z.eqb_eq.
    cbn. rewrite !elem_of_cons, elem_of_nil. naive_solver. }
  rewrite E. destruct (_ || _); [|done].
  change (bm (A := nat) (RPlus (RSet (cls_alnum ++ [CChar 95]))) s)
    with (bm (A := nat) (RPlus (RSet (cls_alnum ++ [CChar 95]))) (drop 1 (c :: s))).
  rewrite (plus_char_from _ _ 1 (c :: s) (char_re_set _)). cbn [drop]. rewrite drop_0.
  by rewrite (span_while_ext _ _ s in_cls_word).
Qed.

Lemma match_ellipsis_master s : match_ellipsis s = re_match _ELLIPSIS s.
Proof.
  unfold re_match, _ELLIPSIS, match_ellipsis, U_HELLIP. change (str "...") with [46;46;46]. change (str ".") with [46].
  destruct s as [|c [|c2 [|c3 s]]]; cbn [bm starts_with drop length andb];
    rewrite ?(Z.eqb_sym 8230), ?(Z.eqb_sym 46), ?andb_true_r;
    repeat destruct (_ =? _); cbn [andb length]; try done; f_equal; rewrite ?drop_0; lia.
Qed.

(** ** URLs *)

Lemma plus_nonspace_from j s :
  bm (RPlus RNonSpace) (drop j s) (fun s' => Some (length s - length s')%nat) = nonspace_run_from j s.
Proof. by rewrite (plus_char_from _ _ j s char_re_nonspace). Qed.

(** Two literals that both start a text start with the same codepoint. *)
Lemma starts_with_head_eq a b l1 l2 s :
  starts_with (a :: l1) s = true -> starts_with (b :: l2) s = true -> a = b.
Proof.
  destruct s as [|c s]; [done|]. cbn. rewrite !andb_true_iff, !Z.eqb_eq. intros [-> _] [-> _]. done.
Qed.

Lemma match_url_master s : match_url s = re_match _URL s.
Proof.
  unfold re_match, _URL, match_url. cbn [bm].
  change (length (str "http")) with 4%nat. change (length (str "s")) with 1%nat.
  change (length (str "://")) with 3%nat. change (length (str "www.")) with 4%nat.
  rewrite !drop_drop, !plus_nonspace_from. cbn [Nat.add].
  change (str "https://") with (str "http" ++ str "s" ++ str "://").
  change (str "http://") with (str "http" ++ str "://").
  rewrite !starts_with_app_and. change (length (str "http")) with 4%nat. change (length (str "s")) with 1%nat.
  rewrite drop_drop. cbn [Nat.add].
  assert (Hsw : starts_with (str "s") (drop 4 s) = true -> starts_with (str "://") (drop 4 s) = true -> False)
    by (intros H1 H2; pose proof (starts_with_head_eq _ _ _ _ _ H1 H2); discriminate).
  assert (Hhw : starts_with (str "http") s = true -> starts_with (str "www.") s = true -> False)
    by (intros H1 H2; pose proof (starts_with_head_eq _ _ _ _ _ H1 H2); discriminate).
  destruct (starts_with (str "http") s), (starts_with (str "s") (drop 4 s)), (starts_with (str "://") (drop 5 s)),
    (starts_with (str "://") (drop 4 s)), (starts_with (str "www.") s);
    cbn [andb]; try (exfalso; auto; fail);
    destruct (nonspace_run_from 8 s), (nonspace_run_from 7 s), (nonspace_run_from 4 s); done.
Qed.

(** ** Words *)

(** What a joiner and an alphanumeric add after a run of alphanumerics. *)
Definition joiner_tail (s : list Z) : nat :=
  match s with
  | j :: c :: t => if is_joiner j && ascii_alnum c then S (S (wordish_tail t)) else O
  | _ => O
  end.

Lemma wordish_tail_split s :
  wordish_tail s = (span_while ascii_alnum s + joiner_tail (drop (span_while ascii_alnum s) s))%nat.
Proof.
  induction s as [|c s IH]; [done|]. cbn [wordish_tail span_while]. destruct (ascii_alnum c) eqn:Ec.
  - rewrite IH. done.
  - cbn [drop Nat.add joiner_tail]. destruct s as [|c2 s]; [by destruct (is_joiner c)|].
    by destruct (is_joiner c), (ascii_alnum c2).
Qed.

Definition word_joined : re := RSeq (RSet (map CChar [U_RSQUO; 39; 45])) (RPlus (RSet cls_alnum)).

(** [(?:[’'\-][A-Za-z0-9]+)*] under a continuation that accepts
    everything reads what [wordish_tail] counts after the first run. *)
Lemma star_joined {A} s (k : list Z -> option A) :
  (forall s', is_Some (k s')) -> bm (RStar word_joined) s k = k (drop (joiner_tail s) s).
Proof.
  intros Hk. remember (length s) as m eqn:Hm. revert s Hm.
  induction m as [m IH] using lt_wf_ind. intros s Hm.
  rewrite bm_star_unfold. unfold word_joined at 1. rewrite bm_seq, (char_re_set _ A).
  destruct s as [|j [|c t]]; [done|by destruct (in_cls _ j)|].
  rewrite in_cls_joiner. cbn [joiner_tail]. destruct (is_joiner j); [|done].
  rewrite (plus_char (RSet cls_alnum) (in_cls cls_alnum) (char_re_set _)). rewrite in_cls_alnum.
  cbn [andb]. destruct (ascii_alnum c); [|done].
  rewrite first_some_desc_top.
  - cbv beta. rewrite length_drop. cbn [length] in *.
    replace (length t - span_while (in_cls cls_alnum) t <? S (S (length t)))%nat with true
      by (symmetry; apply Nat.ltb_lt; lia).
    rewrite (IH (length (drop (span_while (in_cls cls_alnum) t) t))); [| rewrite length_drop; lia|done].
    rewrite (span_while_ext _ _ t in_cls_alnum), drop_drop, <-wordish_tail_split.
    destruct (Hk (drop (wordish_tail t) t)) as [a Ha]. rewrite Ha. done.
  - cbv beta. rewrite length_drop. cbn [length] in *.
    replace (length t - span_while (in_cls cls_alnum) t <? S (S (length t)))%nat with true
      by (symmetry; apply Nat.ltb_lt; lia).
    rewrite (IH (length (drop (span_while (in_cls cls_alnum) t) t))); [apply Hk| rewrite length_drop; lia|done].
Qed.

Lemma match_word_master s : match_word s = re_match _WORDISH s.
Proof.
  unfold re_match, _WORDISH, match_word.
  change (RStar (RSeq (RSet (map CChar [U_RSQUO; 39; 45])) (RPlus (RSet cls_alnum)))) with (RStar word_joined).
  rewrite bm_seq. destruct s as [|c t]; [done|].
  rewrite (plus_char (RSet cls_alnum) (in_cls cls_alnum) (char_re_set _)), in_cls_alnum.
  destruct (ascii_alnum c); [|done].
  assert (Hk : forall s' : list Z, is_Some (Some (length (c :: t) - length s')%nat)) by (intros; eexists; reflexivity).
  rewrite first_some_desc_top; [|cbv beta; rewrite star_joined by exact Hk; apply Hk].
  cbv beta. rewrite star_joined by exact Hk.
  rewrite (span_while_ext _ _ t in_cls_alnum), drop_drop, <-wordish_tail_split.
  f_equal. rewrite length_drop. cbn [length]. pose proof (wordish_tail_le t). lia.
Qed.

(** ** E-mail addresses *)

Lemma starts_with_one_drop (x : Z) k d : x <> 0 -> starts_with [x] (drop k d) = (nth k d 0 =? x).
Proof.
  intros Hx. revert d. induction k as [|k IH]; intros [|c d]; cbn [drop nth starts_with].
  - symmetry. apply Z.eqb_neq. congruence.
  - rewrite andb_true_r. apply Z.eqb_sym.
  - symmetry. apply Z.eqb_neq. congruence.
  - exact (IH d).
Qed.

Section Email.
Variable s0 : list Z.

(** [[A-Za-z]{2,}] and the accepting continuation. *)
Lemma email_tld_tail u :
  bm (RSeq (RSet cls_alpha) (RPlus (RSet cls_alpha))) u (fun s' => Some (length s0 - length s')%nat) =
  let r := span_while ascii_alpha u in
  if (2 <=? r)%nat then Some (length s0 - length (drop r u))%nat else None.
Proof.
  rewrite bm_seq, (char_re_set _ nat). destruct u as [|a u]; [done|]. rewrite in_cls_alpha.
  cbn [span_while]. destruct (ascii_alpha a); [|done].
  rewrite (plus_char_total _ _ (char_re_set _)) by (intros; eexists; reflexivity).
  destruct u as [|b u]; [done|]. rewrite in_cls_alpha. cbn [span_while]. destruct (ascii_alpha b); [|done].
  by rewrite (span_while_ext _ _ u in_cls_alpha).
Qed.

(** The dot and the top-level domain at position [k] of the domain text. *)
Definition tld_at (d : list Z) (k : nat) : option nat :=
  let r := span_while ascii_alpha (drop (S k) d) in
  if (nth k d 0 =? 46) && (2 <=? r)%nat then Some (length s0 - length (drop (S k + r) d))%nat else None.

Lemma email_dot_at d k :
  bm (RSeq (RLit (str ".")) (RSeq (RSet cls_alpha) (RPlus (RSet cls_alpha)))) (drop k d)
     (fun s' => Some (length s0 - length s')%nat) = tld_at d k.
Proof.
  rewrite bm_seq, bm_lit. change (str ".") with [46]. rewrite starts_with_one_drop by lia.
  unfold tld_at. destruct (nth k d 0 =? 46); [|done]. cbn [andb length].
  rewrite drop_drop, email_tld_tail. cbv zeta. rewrite drop_drop. by replace (k + 1)%nat with (S k) by lia.
Qed.

(** Backtracking over the domain run tries the dots from the right. *)
Lemma first_tld_at d m :
  first_some_desc (fun j => tld_at d (S j)) m =
  (fun e => length s0 - length (drop e d))%nat <$> tld_search d (S m).
Proof.
  induction m as [|m IH].
  - cbn [first_some_desc tld_search]. unfold tld_at. cbv zeta.
    destruct (_ && _); [done|]. done.
  - cbn [first_some_desc]. rewrite IH. cbn [tld_search]. unfold tld_at. cbv zeta.
    destruct (_ && _); [|done]. done.
Qed.

(** [[A-Za-z0-9.\-]+] before the dot: the model's [tld_search] from the
    codepoint before the end of the run. *)
Lemma email_domain_run d :
  bm (RPlus (RSet (cls_alnum ++ map CChar (str ".-")))) d
     (fun s' => bm (RSeq (RLit (str ".")) (RSeq (RSet cls_alpha) (RPlus (RSet cls_alpha)))) s'
                   (fun s'' => Some (length s0 - length s'')%nat)) =
  (fun e => length s0 - length (drop e d))%nat <$> tld_search d (span_while email_domain d - 1).
Proof.
  rewrite (plus_char _ _ (char_re_set _)). destruct d as [|c d]; [done|].
  rewrite in_cls_email_domain. cbn [span_while]. destruct (email_domain c) eqn:Ec; [|done].
  rewrite (first_some_desc_ext _ (fun j => tld_at (c :: d) (S j)))
    by (intros j; exact (email_dot_at (c :: d) (S j))).
  rewrite first_tld_at, (span_while_ext _ _ d in_cls_email_domain). f_equal.
  replace (S (span_while email_domain d) - 1)%nat with (span_while email_domain d) by lia.
  cbn [tld_search nth]. set (n := span_while email_domain d).
  assert (Hn : nth n d 0 =? 46 = false).
  { rewrite nth_lookup. destruct (d !! n) as [x|] eqn:E; [|done]. cbn [default id].
    apply Z.eqb_neq. intros ->. pose proof (span_while_stop _ _ _ E) as Hs. by vm_compute in Hs. }
  by rewrite Hn.
Qed.

End Email.

Lemma nth_error_as_lookup {A} (l : list A) i : nth_error l i = l !! i.
Proof. revert i. induction l as [|x l IH]; intros [|i]; simpl; auto. Qed.

Lemma match_email_master s : match_email s = re_match _EMAIL s.
Proof.
  unfold re_match, _EMAIL, match_email. rewrite bm_seq, (plus_char _ _ (char_re_set _)).
  destruct s as [|c t]; [done|]. rewrite in_cls_email_local. cbn [span_while].
  destruct (email_local c) eqn:Ec; [|done]. cbn [Nat.eqb nth_error].
  rewrite (span_while_ext _ _ t in_cls_email_local). set (n := span_while email_local t).
  rewrite first_some_desc_last.
  2:{ intros j Hj. cbv beta. rewrite bm_seq, bm_lit. change (str "@") with [64].
      rewrite starts_with_one_drop by lia. rewrite nth_lookup.
      destruct (t !! j) as [x|] eqn:E; [|done]. cbn [default id].
      pose proof (span_while_all _ _ _ _ Hj E) as Hx.
      destruct (Z.eqb_spec x 64) as [->|]; [by vm_compute in Hx|done]. }
  cbv beta. rewrite bm_seq, bm_lit. change (str "@") with [64]. rewrite starts_with_one_drop by lia.
  rewrite nth_lookup, <-nth_error_as_lookup. destruct (nth_error t n) as [x|] eqn:E; cbn [default id]; [|done].
  destruct (x =? 64); [|done]. rewrite bm_seq. change (length [64]) with 1%nat. rewrite drop_drop, email_domain_run.
  replace (n + 1)%nat with (S n) by lia.
  assert (Hlt : (n < length t)%nat) by (apply nth_error_Some; congruence).
  destruct (tld_search _ _) as [e|] eqn:Et; [|done]. cbn [fmap option_fmap option_map]. f_equal.
  apply tld_search_len in Et. rewrite !length_drop in *. cbn [length] in *. lia.
Qed.

(** ** The alternation and the scan *)

(** The reference matcher of the tokenizer is [_MASTER.match] under the
    semantics of [re]. *)
Lemma match_at_master s : match_at s = master_match s.
Proof.
  unfold match_at, master_match, _MASTER. cbn [master_go].
  rewrite <-match_url_master, <-match_email_master, <-match_handle_master, <-match_ellipsis_master,
    <-match_word_master, <-match_punct_master, <-match_ws_master.
  reflexivity.
Qed.

(** C11: [finditer] is [_MASTER.finditer]: with the fuel it is given (the
    text length) the scan completes, and it reports exactly the matches
    of the left-to-right scan in which each position is matched by the
    backtracking semantics of Python's [re] on the pattern [_MASTER], as
    written in the source; no other list of matches is such a scan. *)
Theorem finditer_spec text ms :
  finds master_match 0 text (finditer text) /\ (finds master_match 0 text ms -> ms = finditer text).
Proof.
  assert (H : finds master_match 0 text (finditer text)).
  { apply (finds_ext match_at); [apply match_at_master|]. apply scan_finds. lia. }
  split; [exact H|]. intros H'. exact (finds_functional _ _ _ _ _ eq_refl H' H).
Qed.

(** The policy of the module docstring, on the regex semantics:
    contractions, hyphenated compounds, URLs, e-mails, handles and the
    ellipsis are one match each; a decimal point is not part of a word. *)
Example master_match_samples :
  master_match (str "don't stop") = Some (WORD, 5%nat) /\
  master_match (str "state-of-the-art.") = Some (WORD, 16%nat) /\
  master_match (str "https://x.io/a b") = Some (URL, 14%nat) /\
  master_match (str "ann.lee@mail.example.org,") = Some (EMAIL, 24%nat) /\
  master_match (str "#tag!") = Some (HANDLE, 4%nat) /\
  master_match (str "...") = Some (ELLIPSIS, 3%nat) /\
  master_match (str "3.5") = Some (WORD, 1%nat).
Proof. vm_compute. repeat split. Qed.
