(* ===== verification/Pipeline.v ===== *)
(** * Pipeline: [tokens_to_graph] in [src/brain/language/tokenizer.py]

    The graph hookup of the tokenizer: one [TOKEN] node per token, in
    order, with the token's span and its flags mapped to node flags, and
    a [NEXT] edge from each token's node to the next one's.  It is the
    composition of [tokenize] (Tokenizer.v) with the builder calls of
    Graph.v, written the way the code makes them: a loop of [add_node]
    that collects the returned ids, then a loop of [add_edge] over
    [zip(node_ids, node_ids[1:])], then [finalize].

    The theorems say which graph this is (a declarative description of
    the nodes and edges) and that it survives the PGraph codec for every
    text of fewer than 2^70 codepoints. *)

From S2P Require Import Prelude Text Varint Graph Codec Tokenizer.
From coqutil Require Import Z.bitblast Z.prove_Zeq_bitwise.

Open Scope Z_scope.

(** The four [if t.flags & TF_X: nflags |= NF_Y] lines. *)
Definition node_flags_of (tf : Z) : Z :=
  let f := if Z.land tf TF_PUNCT =? 0 then 0 else NF_IS_PUNCT in
  let f := if Z.land tf TF_CAP =? 0 then f else Z.lor f NF_IS_CAPITALIZED in
  let f := if Z.land tf TF_SENT_END_STRONG =? 0 then f else Z.lor f NF_SENT_END_STRONG in
  if Z.land tf TF_SENT_END_WEAK =? 0 then f else Z.lor f NF_SENT_END_WEAK.

(** [for t in toks: node_id = gb.add_node(...); node_ids.append(node_id)] *)
Fixpoint add_token_nodes (gb : GraphBuilder) (ts : list Token) (node_ids : list Z)
    : GraphBuilder * list Z :=
  match ts with
  | [] => (gb, node_ids)
  | t :: ts' =>
      let '(gb', node_id) :=
        add_node gb (NodeType_code TOKEN) 0 0 (Z.of_nat (tok_start t), Z.of_nat (tok_end t))
                 (node_flags_of (tok_flags t)) 255 0 in
      add_token_nodes gb' ts' (node_ids ++ [node_id])
  end.

(** [for a, b in zip(node_ids, node_ids[1:]): gb.add_edge(a, b, EdgeType.NEXT)],
    with the keyword defaults of [add_edge]. *)
Fixpoint add_next_edges (gb : GraphBuilder) (pairs : list (Z * Z)) : GraphBuilder :=
  match pairs with
  | [] => gb
  | (a, b) :: ps =>
      add_next_edges (add_edge gb a b (EdgeType_code NEXT) 255 0 EF_DIRECTED 255 0).1 ps
  end.

(** [tokens_to_graph(text, graph_id=..., source_id=..., version=...)] *)
Definition tokens_to_graph `{UnicodeDB} (text : list Z) (graph_id source_id version : Z) : Graph :=
  let gb := GraphBuilder_init graph_id (SchemaID_code WRITING) (GraphType_code HETERO)
                              source_id version None in
  let '(gb, node_ids) := add_token_nodes gb (tokenize text) [] in
  finalize (add_next_edges gb (zip node_ids (tail node_ids))).

(** ** The graph, described declaratively *)

Definition token_node (i : nat) (t : Token) : Node :=
  {| node_id := Z.of_nat i; n_type := NodeType_code TOKEN; sub_type := 0; features_ref := 0;
     span := (Z.of_nat (tok_start t), Z.of_nat (tok_end t));
     n_flags := node_flags_of (tok_flags t); n_confidence := 255; label_id := 0 |}.

Definition next_edge (i : nat) : Edge :=
  {| src_id := Z.of_nat i; dst_id := Z.of_nat (S i); e_type := EdgeType_code NEXT;
     weight := 255; time := 0; e_flags := EF_DIRECTED; e_confidence := 255; attr_ref := 0 |}.

Example tokens_to_graph_okay :
  map n_flags (nodes (tokens_to_graph (str "Are you okay?") 0 0 1)) = [4; 0; 0; 72] /\
  edges (tokens_to_graph (str "Are you okay?") 0 0 1) = map next_edge [0; 1; 2]%nat.
Proof. vm_compute. split; reflexivity. Qed.

(** ** Lemmas *)

Lemma land_bit_eqb tf k : 0 <= k -> (Z.land tf (Z.shiftl 1 k) =? 0) = negb (Z.testbit tf k).
Proof.
  intros Hk. rewrite Z.shiftl_1_l. destruct (Z.testbit tf k) eqn:E; simpl.
  - apply Z.eqb_neq. intros H. apply (f_equal (fun x => Z.testbit x k)) in H.
    rewrite Z.land_spec, Z.pow2_bits_true, E, Z.bits_0 in H by done. discriminate.
  - apply Z.eqb_eq. apply Z.bits_inj'. intros n Hn. rewrite Z.land_spec, Z.pow2_bits_eqb, Z.bits_0 by done.
    destruct (Z.eqb_spec k n) as [<-|Hne]; [by rewrite E|].
    apply andb_false_r.
Qed.

(** Evaluate the subtractions of constants in the goal. *)
Ltac const_sub :=
  repeat match goal with
  | |- context [?a - ?b] => let c := eval vm_compute in (a - b) in change (a - b) with c
  end.

Lemma testbit_above c m i : 0 <= c < 2 ^ m -> m <= i -> Z.testbit c i = false.
Proof.
  intros Hc Hi. destruct (Z.eq_dec c 0) as [->|Hne]; [apply Z.bits_0|].
  apply Z.bits_above_log2; [lia|]. apply Z.log2_lt_pow2; [lia|].
  apply (Z.lt_le_trans _ (2 ^ m)); [lia|]. apply Z.pow_le_mono_r; lia.
Qed.

(** Node flags of a token.  [tokens_to_graph] sends the token flag
    bits CAP (0) and PUNCT (1) to the node flag bits IS_CAPITALIZED (2)
    and IS_PUNCT (3), and SENT_END_STRONG (3) and SENT_END_WEAK (4) to
    SENT_END_STRONG (6) and SENT_END_WEAK (7); no other bit is set. *)
Theorem node_flags_of_bits tf :
  node_flags_of tf = Z.lor (Z.shiftl (Z.land tf 3) 2) (Z.shiftl (Z.land tf 24) 3).
Proof.
  unfold node_flags_of, TF_PUNCT, TF_CAP, TF_SENT_END_STRONG, TF_SENT_END_WEAK.
  rewrite !land_bit_eqb by lia.
  unfold NF_IS_PUNCT, NF_IS_CAPITALIZED, NF_SENT_END_STRONG, NF_SENT_END_WEAK.
  destruct (Z.testbit tf 0) eqn:E0, (Z.testbit tf 1) eqn:E1, (Z.testbit tf 3) eqn:E3,
    (Z.testbit tf 4) eqn:E4; cbn [negb];
  apply Z.bits_inj'; intros i Hi; rewrite ?Z.lor_spec, ?Z.shiftl_spec, ?Z.land_spec, ?Z.bits_0 by lia;
  (destruct (Z.lt_ge_cases i 8) as [Hlt|Hge];
   [assert (i = 0 \/ i = 1 \/ i = 2 \/ i = 3 \/ i = 4 \/ i = 5 \/ i = 6 \/ i = 7) as Hc by lia;
    destruct_or! Hc; subst; const_sub;
    rewrite ?(Z.testbit_neg_r tf) by lia; rewrite ?E0, ?E1, ?E3, ?E4;
    repeat match goal with |- context [Z.testbit tf ?j] => destruct (Z.testbit tf j) end;
    reflexivity
   |rewrite ?(testbit_above 1 1 (i - _)), ?(testbit_above 3 2 (i - 2)),
      ?(testbit_above 24 5 (i - 3)) by lia; rewrite ?andb_false_r; reflexivity]).
Qed.

Lemma add_token_nodes_spec gb ts node_ids :
  add_token_nodes gb ts node_ids =
  (with_nodes gb (gb_nodes gb ++ zip_with token_node (seq (length (gb_nodes gb)) (length ts)) ts),
   node_ids ++ map Z.of_nat (seq (length (gb_nodes gb)) (length ts))).
Proof.
  revert gb node_ids. induction ts as [|t ts IH]; intros gb node_ids; simpl.
  - rewrite !app_nil_r. by destruct gb.
  - rewrite IH. cbn [gb_nodes with_nodes]. rewrite length_app, Nat.add_1_r, <- !app_assoc.
    by destruct gb.
Qed.

(** The [NEXT] edge between two node ids. *)
Definition next_edge_of (ab : Z * Z) : Edge :=
  {| src_id := ab.1; dst_id := ab.2; e_type := EdgeType_code NEXT; weight := 255; time := 0;
     e_flags := EF_DIRECTED; e_confidence := 255; attr_ref := 0 |}.

Lemma add_next_edges_spec gb pairs :
  add_next_edges gb pairs = with_edges gb (gb_edges gb ++ map next_edge_of pairs).
Proof.
  revert gb. induction pairs as [|[a b] ps IH]; intros gb; simpl.
  - rewrite app_nil_r. by destruct gb.
  - rewrite IH. cbn [gb_edges with_edges]. rewrite <- app_assoc. by destruct gb.
Qed.

Lemma zip_seq_next k n :
  zip (map Z.of_nat (seq k n)) (map Z.of_nat (seq (S k) (n - 1))) =
  map (fun i => (Z.of_nat i, Z.of_nat (S i))) (seq k (n - 1)).
Proof.
  revert k. induction n as [|[|n] IH]; intros k; [done|done|].
  replace (S (S n) - 1)%nat with (S n) by lia.
  specialize (IH (S k)). replace (S n - 1)%nat with n in IH by lia.
  cbn [seq map] in *. rewrite <- IH. reflexivity.
Qed.

Lemma tail_map_seq k n : tail (map Z.of_nat (seq k n)) = map Z.of_nat (seq (S k) (n - 1)).
Proof. destruct n; simpl; [done|]. by rewrite Nat.sub_0_r. Qed.


(** The graph [tokens_to_graph] builds, as one term. *)
Lemma tokens_to_graph_eq `{UnicodeDB} text graph_id source_id version :
  let ts := tokenize text in
  tokens_to_graph text graph_id source_id version =
  {| graph_id := graph_id; graph_type := GraphType_code HETERO;
     num_nodes := Z.of_nat (length ts); num_edges := Z.of_nat (length ts - 1);
     g_features := None; source_id := source_id; version := version;
     schema_id := SchemaID_code WRITING;
     nodes := zip_with token_node (seq 0 (length ts)) ts;
     edges := map next_edge (seq 0 (length ts - 1)) |}.
Proof.
  intros ts. unfold tokens_to_graph. fold ts. rewrite add_token_nodes_spec.
  cbn [gb_nodes GraphBuilder_init length app]. rewrite add_next_edges_spec.
  unfold finalize. cbn. rewrite tail_map_seq, zip_seq_next, map_map, length_zip_with, length_seq,
    Nat.min_id, length_map, length_seq. reflexivity.
Qed.

Lemma lookup_next_edges n i :
  map next_edge (seq 0 (n - 1)) !! i = if (S i <? n)%nat then Some (next_edge i) else None.
Proof.
  rewrite list_lookup_fmap. destruct (Nat.ltb_spec (S i) n).
  - rewrite lookup_seq_lt by lia. reflexivity.
  - rewrite lookup_seq_ge by lia. reflexivity.
Qed.

(** C10: The graph of [tokens_to_graph text]: node [i] exists exactly
    when token [i] does and is the TOKEN node with id [i], the token's
    span and its mapped flags; edge [i] exists exactly when tokens [i]
    and [i+1] do and is the NEXT edge [i -> i+1]; the header counts are
    the number of tokens and that number minus one (zero for no
    tokens). *)
Theorem tokens_to_graph_spec `{UnicodeDB} text graph_id source_id version i :
  let g := tokens_to_graph text graph_id source_id version in
  let ts := tokenize text in
  nodes g !! i = token_node i <$> ts !! i /\
  edges g !! i = (if (S i <? length ts)%nat then Some (next_edge i) else None) /\
  num_nodes g = Z.of_nat (length ts) /\ num_edges g = Z.of_nat (length ts - 1).
Proof.
  intros g ts. subst g ts. rewrite tokens_to_graph_eq. cbn -[seq].
  split; [|split; [apply lookup_next_edges|done]].
  rewrite lookup_zip_with. destruct (tokenize text !! i) eqn:E.
  - apply lookup_lt_Some in E as Hlt. rewrite lookup_seq_lt by done. reflexivity.
  - apply lookup_ge_None in E. rewrite lookup_seq_ge by lia. reflexivity.
Qed.

(** ** The graph of a text survives the PGraph codec *)

Lemma node_flags_of_range tf : 0 <= node_flags_of tf < 256.
Proof.
  unfold node_flags_of, NF_IS_PUNCT, NF_IS_CAPITALIZED, NF_SENT_END_STRONG, NF_SENT_END_WEAK.
  repeat match goal with |- context [Z.land tf ?m =? 0] => destruct (Z.land tf m =? 0) end;
  vm_compute; split; congruence.
Qed.

Lemma tok_chain_length text p ts :
  tok_chain p ts -> Forall (tok_in text) ts -> (length ts <= length text - p)%nat.
Proof.
  revert p. induction ts as [|t ts IH]; intros p Hc Hin; simpl; [lia|].
  destruct Hc as [Hp Hc]. inversion Hin as [|? ? [Ht _] Hin']; subst.
  specialize (IH _ Hc Hin'). lia.
Qed.

Lemma toks_wf_length text ts : toks_wf text ts -> (length ts <= length text)%nat.
Proof.
  intros [Hl Hc]. pose proof (tok_chain_length text 0 ts Hc) as H.
  rewrite Nat.sub_0_r in H. apply H, Forall_lookup_2. intros j t Hj. apply (Hl j t Hj).
Qed.

Lemma tokens_to_graph_ok `{UnicodeDB} text graph_id source_id version :
  Z.of_nat (length text) < 2 ^ 70 ->
  varint_ok graph_id -> varint_ok source_id -> varint_ok version ->
  graph_ok (tokens_to_graph text graph_id source_id version).
Proof.
  intros HL Hg Hs Hv. rewrite tokens_to_graph_eq.
  pose proof (tokenize_wf text) as Hw. pose proof (toks_wf_length _ _ Hw) as Hn.
  destruct Hw as [Hl _]. set (ts := tokenize text) in *.
  unfold graph_ok, varint_ok, byte_ok in *; cbn -[seq].
  rewrite length_zip_with, length_seq, Nat.min_id, length_map, length_seq.
  repeat split; try lia.
  - apply Forall_lookup_2. intros i n Hi.
    rewrite lookup_zip_with in Hi. destruct (ts !! i) as [t|] eqn:E; [|by rewrite option_bind_None in Hi ||
      (destruct (seq 0 (length ts) !! i); discriminate)].
    apply lookup_lt_Some in E as Hlt. rewrite lookup_seq_lt in Hi by done. simpl in Hi.
    injection Hi as <-. destruct (Hl i t E) as [_ [Hr _]].
    pose proof (node_flags_of_range (tok_flags t)).
    unfold node_ok, token_node, varint_ok, byte_ok, u16_ok; simpl. repeat split; lia.
  - apply Forall_lookup_2. intros i e Hi. rewrite lookup_next_edges in Hi.
    destruct (Nat.ltb_spec (S i) (length ts)); [|discriminate]. injection Hi as <-.
    unfold edge_ok, next_edge, EF_DIRECTED, varint_ok, byte_ok, u16_ok; simpl; rewrite Z.shiftl_0_r. repeat split; lia.
Qed.

(** End to end, the graph [tokens_to_graph] builds for any text of
    fewer than 2^70 codepoints, with header ids in the varint range, is
    decoded by [decode_pgraph] from its [encode_pgraph] bytes, followed
    by any bytes, as the same graph. *)
Theorem tokens_to_graph_roundtrip `{UnicodeDB} text graph_id source_id version rest :
  Z.of_nat (length text) < 2 ^ 70 ->
  varint_ok graph_id -> varint_ok source_id -> varint_ok version ->
  let g := tokens_to_graph text graph_id source_id version in
  res_bind (encode_pgraph g) (fun bs => decode_pgraph (bs ++ rest)) = Ok g.
Proof.
  intros HL Hg Hs Hv g. apply decode_encode_pgraph. by apply tokens_to_graph_ok.
Qed.

Lemma tokens_to_graph_roundtrip_witness :
  Z.of_nat (length (str "Are you okay?")) < 2 ^ 70 /\
  res_bind (encode_pgraph (tokens_to_graph (str "Are you okay?") 7 0 1))
           (fun bs => decode_pgraph (bs ++ [])) = Ok (tokens_to_graph (str "Are you okay?") 7 0 1).
Proof.
  split; [vm_compute; reflexivity|].
  apply (@tokens_to_graph_roundtrip ascii_db); unfold varint_ok; vm_compute; split; congruence.
Defined.
