(* ===== verification/Sentences.v ===== *)
(** * Sentences: [src/brain/language/sentences.py]

    [segment_tokens] walks the flagged tokens of [tokenize] once, with
    the sentence start [s] and the cursor [k] of the code, and cuts a
    sentence
    - after a token flagged SENT_END_STRONG, extended over the run of
      tokens flagged SENT_END_WEAK right after it (the closers);
    - after an ellipsis token ([…] or [...]) flagged SENT_END_WEAK when,
      skipping the weak and punctuation tokens after it, the text ends or
      the next token is capitalised;
    and closes a last sentence over the trailing tokens.  The outer
    [while k < n] loop is [seg_loop] with fuel; each turn moves [k]
    forward, so [n - k] turns are enough ([seg_loop_fuel]).  The inner
    [while] loops count a run of tokens from [k + 1] ([count_while]).
    [segment] maps the token spans to character spans. *)

From S2P Require Import Prelude Text Varint Graph Codec Tokenizer Pipeline.

Open Scope Z_scope.

(** [tok.flags & f] is non-zero. *)
Definition has_flag (t : Token) (f : Z) : bool := negb (Z.land (tok_flags t) f =? 0).

(** The number of leading elements satisfying [f]: a [while] loop that
    advances an index over them. *)
Fixpoint count_while {A} (f : A -> bool) (l : list A) : nat :=
  match l with
  | x :: l' => if f x then S (count_while f l') else O
  | [] => O
  end.

(** [t.text in ("…", "...")] *)
Definition is_ellipsis_text (s : list Z) : bool := mem_str s [[U_HELLIP]; str "..."].

Definition weak_tok (t : Token) : bool := has_flag t TF_SENT_END_WEAK.
Definition weak_or_punct (t : Token) : bool :=
  has_flag t TF_SENT_END_WEAK || has_flag t TF_PUNCT.

(** One turn of [while k < n] per unit of fuel; the state is the list
    of spans so far, the sentence start [s] and the cursor [k]. *)
Fixpoint seg_loop (tokens : list Token) (fuel : nat) (spans : list (nat * nat)) (s k : nat)
    : list (nat * nat) * nat :=
  match fuel with
  | O => (spans, s)
  | S fuel' =>
      match tokens !! k with
      | None => (spans, s)
      | Some t =>
          if has_flag t TF_SENT_END_STRONG then
            let end_ := (k + count_while weak_tok (drop (S k) tokens))%nat in
            seg_loop tokens fuel' (spans ++ [(s, S end_)]) (S end_) (S end_)
          else if has_flag t TF_SENT_END_WEAK && is_ellipsis_text (tok_text t) then
            let j := (S k + count_while weak_or_punct (drop (S k) tokens))%nat in
            let ends := match tokens !! j with
                        | None => true
                        | Some u => has_flag u TF_CAP
                        end in
            if ends then seg_loop tokens fuel' (spans ++ [(s, S k)]) (S k) (S k)
            else seg_loop tokens fuel' spans s (S k)
          else seg_loop tokens fuel' spans s (S k)
      end
  end.

(** [segment_tokens(tokens)] *)
Definition segment_tokens (tokens : list Token) : list (nat * nat) :=
  let n := length tokens in
  if (n =? 0)%nat then []
  else
    let '(spans, s) := seg_loop tokens n [] 0 0 in
    if (s <? n)%nat then spans ++ [(s, n)] else spans.

(** [segment(text)]: character spans, skipping empty token spans. *)
Definition segment `{UnicodeDB} (text : list Z) : list (nat * nat) :=
  let toks := tokenize text in
  flat_map (fun '(a, b) =>
              if (b <=? a)%nat then []
              else match toks !! a, toks !! (b - 1)%nat with
                   | Some ta, Some tb => [(tok_start ta, tok_end tb)]
                   | _, _ => []
                   end) (segment_tokens toks).

(** [segment_to_graph(text)] *)
Definition segment_to_graph `{UnicodeDB} (text : list Z) : Graph * list (nat * nat) :=
  (tokens_to_graph text 0 0 1, segment_tokens (tokenize text)).

Example segment_are_you_okay : segment (str "Are you okay?") = [(0, 13)]%nat.
Proof. vm_compute. reflexivity. Qed.

Example segment_okay_ellipsis : segment (str "Okay... I guess") = [(0, 7); (8, 15)]%nat.
Proof. vm_compute. reflexivity. Qed.

Example segment_he_said : segment he_said = [(0, 22)]%nat.
Proof. vm_compute. reflexivity. Qed.

(** ** The loop needs at most [n - k] turns *)

Lemma seg_loop_fuel tokens f1 f2 spans s k :
  (length tokens - k <= f1)%nat -> (length tokens - k <= f2)%nat ->
  seg_loop tokens f1 spans s k = seg_loop tokens f2 spans s k.
Proof.
  revert f2 spans s k. induction f1 as [|f1 IH]; intros [|f2] spans s k H1 H2; simpl; try done.
  - rewrite lookup_ge_None_2 by lia. done.
  - rewrite lookup_ge_None_2 by lia. done.
  - destruct (tokens !! k) as [t|] eqn:E; [|done]. apply lookup_lt_Some in E.
    repeat case_match; apply IH; lia.
Qed.

(** ** The spans tile the tokens *)

(** [l] is a list of non-empty spans [(a, b)], each starting where the
    previous one ended, from [p] to [n]. *)
Fixpoint tiles (p : nat) (l : list (nat * nat)) (n : nat) : bool :=
  match l with
  | [] => (p =? n)%nat
  | (a, b) :: l' => (a =? p)%nat && (a <? b)%nat && tiles b l' n
  end.

Lemma tiles_snoc p l a b n :
  tiles p l a = true -> (a < b)%nat -> (b = n)%nat -> tiles p (l ++ [(a, b)]) n = true.
Proof.
  revert p. induction l as [|[c d] l IH]; intros p Hl Hab Hbn; simpl in *.
  - apply Nat.eqb_eq in Hl. subst. rewrite !Nat.eqb_refl. apply Nat.ltb_lt in Hab. by rewrite Hab.
  - apply andb_true_iff in Hl as [Hcd Hl]. rewrite Hcd. by apply IH.
Qed.

Lemma count_while_le {A} (f : A -> bool) l : (count_while f l <= length l)%nat.
Proof. induction l as [|x l IH]; simpl; [lia|]. destruct (f x); simpl; lia. Qed.

Lemma count_while_prefix {A} (f : A -> bool) l i x :
  (i < count_while f l)%nat -> l !! i = Some x -> f x = true.
Proof.
  revert i. induction l as [|y l IH]; intros i Hi Hx; simpl in *; [lia|].
  destruct (f y) eqn:Ey; [|lia]. destruct i as [|i]; simpl in Hx; [congruence|].
  apply (IH i); [lia|done].
Qed.

Lemma strong_end_bound tokens k t :
  tokens !! k = Some t ->
  (k + count_while weak_tok (drop (S k) tokens) < length tokens)%nat.
Proof.
  intros E. apply lookup_lt_Some in E.
  pose proof (count_while_le weak_tok (drop (S k) tokens)). rewrite length_drop in H. lia.
Qed.

Lemma seg_loop_tiles tokens fuel spans s k :
  tiles 0 spans s = true -> (s <= k)%nat -> (s <= length tokens)%nat ->
  let r := seg_loop tokens fuel spans s k in
  tiles 0 r.1 r.2 = true /\ (r.2 <= length tokens)%nat.
Proof.
  revert spans s k. induction fuel as [|fuel IH]; intros spans s k Ht Hsk Hs; simpl; [done|].
  destruct (tokens !! k) as [t|] eqn:E; [|done].
  pose proof (strong_end_bound _ _ _ E). apply lookup_lt_Some in E as Hk.
  repeat case_match; (apply IH; [try (apply tiles_snoc; [done|lia|done]); done|lia|lia]).
Qed.

(** C5: Sentence spans partition the tokens.  For every token list,
    the spans of [segment_tokens] are non-empty, the first starts at 0,
    each starts where the previous one ends, and the last ends at
    [len(tokens)]; so every token is in exactly one sentence, and an
    empty list has no sentence. *)
Theorem segment_tokens_tiles tokens : tiles 0 (segment_tokens tokens) (length tokens) = true.
Proof.
  unfold segment_tokens. destruct (Nat.eqb_spec (length tokens) 0) as [->|Hn]; [done|].
  pose proof (seg_loop_tiles tokens (length tokens) [] 0 0 eq_refl (le_n 0) ltac:(lia)) as [Ht Hs].
  destruct (seg_loop tokens (length tokens) [] 0 0) as [spans s]. simpl in *.
  destruct (Nat.ltb_spec s (length tokens)).
  - by apply tiles_snoc.
  - by replace (length tokens) with s by lia.
Qed.

(** ** Where sentences end *)

Lemma count_while_stop {A} (f : A -> bool) l x :
  l !! count_while f l = Some x -> f x = false.
Proof.
  induction l as [|y l IH]; simpl; [discriminate|].
  destruct (f y) eqn:Ey; simpl; [apply IH|congruence].
Qed.

(** The tokens after [q] up to [b] are flagged weak and token [b], if
    any, is not: the closers a strong terminator at [q] carries. *)
Definition weak_run (tokens : list Token) (q b : nat) : Prop :=
  (forall j, (q < j < b)%nat -> exists u, tokens !! j = Some u /\ weak_tok u = true) /\
  (forall u, tokens !! b = Some u -> weak_tok u = false).

Lemma strong_run tokens k q :
  (k <= q <= k + count_while weak_tok (drop (S k) tokens))%nat ->
  (k + count_while weak_tok (drop (S k) tokens) < length tokens)%nat ->
  weak_run tokens q (S (k + count_while weak_tok (drop (S k) tokens))).
Proof.
  set (c := count_while weak_tok (drop (S k) tokens)). intros Hq Hlt. split.
  - intros j Hj. destruct (tokens !! j) as [u|] eqn:Eu; [|apply lookup_ge_None in Eu; lia].
    exists u. split; [done|]. apply (count_while_prefix weak_tok (drop (S k) tokens) (j - S k)).
    + subst c. lia.
    + rewrite lookup_drop. by replace (S k + (j - S k))%nat with j by lia.
  - intros u Hu. apply (count_while_stop weak_tok (drop (S k) tokens)).
    rewrite lookup_drop. fold c. by replace (S k + c)%nat with (S (k + c)) by lia.
Qed.

(** Every strong token before [k] is in a span of [spans] that ends
    after its closers. *)
Definition strong_closed (tokens : list Token) (spans : list (nat * nat)) (k : nat) : Prop :=
  forall q t, (q < k)%nat -> tokens !! q = Some t -> has_flag t TF_SENT_END_STRONG = true ->
  exists a b, (a, b) ∈ spans /\ (a <= q < b)%nat /\ weak_run tokens q b.

Lemma strong_closed_app tokens spans sp k k' :
  strong_closed tokens spans k -> (k' <= k)%nat -> strong_closed tokens (spans ++ sp) k'.
Proof.
  intros H Hk q t Hq Ht Hs. destruct (H q t ltac:(lia) Ht Hs) as (a & b & Hin & Hr).
  exists a, b. split; [apply elem_of_app; by left|done].
Qed.

Lemma seg_loop_strong_closed tokens fuel spans s k :
  (length tokens - k <= fuel)%nat -> (s <= k)%nat -> strong_closed tokens spans k ->
  strong_closed tokens (seg_loop tokens fuel spans s k).1 (length tokens).
Proof.
  revert spans s k. induction fuel as [|fuel IH]; intros spans s k Hf Hsk Hc; simpl.
  { intros q t Hq. apply Hc. lia. }
  destruct (tokens !! k) as [t|] eqn:E.
  2: { apply lookup_ge_None in E. intros q u Hq. apply Hc. lia. }
  pose proof (strong_end_bound _ _ _ E) as Hb. apply lookup_lt_Some in E as Hk.
  destruct (has_flag t TF_SENT_END_STRONG) eqn:Es.
  - apply IH; [lia|lia|]. intros q u Hq Hu Hus.
    destruct (Nat.lt_ge_cases q k) as [Hqk|Hqk].
    + exact (strong_closed_app _ _ _ k k Hc (le_n k) q u Hqk Hu Hus).
    + exists s, (S (k + count_while weak_tok (drop (S k) tokens))).
      split; [set_solver|]. split; [lia|]. apply strong_run; lia.
  - assert (Hc' : strong_closed tokens spans (S k)).
    { intros q u Hq Hu Hus. destruct (Nat.eq_dec q k) as [->|Hne]; [congruence|].
      apply (Hc q u); [lia|done|done]. }
    repeat case_match; apply IH; try lia; try done; by apply (strong_closed_app _ _ _ (S k)).
Qed.

(** C6: A strong terminator always ends its sentence, after its closers.
    For every token [q] flagged SENT_END_STRONG, [segment_tokens] has a
    sentence [(a, b)] with [a <= q < b] such that the tokens after [q]
    in it are all flagged SENT_END_WEAK and the token at [b], if any, is
    not: the boundary is right after the maximal run of closers. *)
Theorem strong_terminator_closes tokens q t :
  tokens !! q = Some t -> has_flag t TF_SENT_END_STRONG = true ->
  exists a b, (a, b) ∈ segment_tokens tokens /\ (a <= q < b)%nat /\ weak_run tokens q b.
Proof.
  intros Hq Hs. apply lookup_lt_Some in Hq as Hlt.
  pose proof (seg_loop_strong_closed tokens (length tokens) [] 0 0 ltac:(lia) (le_n 0)
                ltac:(intros ? ? ?; lia) q t Hlt Hq Hs) as (a & b & Hin & Hr).
  exists a, b. split; [|done]. unfold segment_tokens.
  destruct (Nat.eqb_spec (length tokens) 0); [lia|].
  destruct (seg_loop tokens (length tokens) [] 0 0) as [spans s]. simpl in Hin.
  destruct (_ <? _)%nat; [apply elem_of_app; by left|done].
Qed.

Definition strong_witness_tokens : list Token := tokenize he_said.

Lemma strong_terminator_closes_witness :
  strong_witness_tokens !! 6%nat = Some (mkToken 6 (str ".") 20 21 10) /\
  exists a b, (a, b) ∈ segment_tokens strong_witness_tokens /\ (a <= 6 < b)%nat /\
              weak_run strong_witness_tokens 6 b.
Proof.
  split; [vm_compute; reflexivity|].
  apply (strong_terminator_closes strong_witness_tokens 6 (mkToken 6 (str ".") 20 21 10));
    vm_compute; reflexivity.
Defined.

(** The last token of span [sp] is flagged as a sentence end. *)
Definition ends_flagged (tokens : list Token) (sp : nat * nat) : Prop :=
  exists t, tokens !! (sp.2 - 1)%nat = Some t /\
            (has_flag t TF_SENT_END_STRONG || has_flag t TF_SENT_END_WEAK) = true.

Lemma strong_end_flagged tokens k t s :
  tokens !! k = Some t -> has_flag t TF_SENT_END_STRONG = true ->
  ends_flagged tokens (s, S (k + count_while weak_tok (drop (S k) tokens))).
Proof.
  intros E Hs. unfold ends_flagged. cbn [snd]. rewrite Nat.sub_1_r, Nat.pred_succ.
  destruct (count_while weak_tok (drop (S k) tokens)) as [|c] eqn:Ec.
  - exists t. rewrite Nat.add_0_r, E, Hs. done.
  - pose proof (strong_end_bound _ _ _ E) as Hb. rewrite Ec in Hb.
    destruct (tokens !! (k + S c)%nat) as [u|] eqn:Eu; [|apply lookup_ge_None in Eu; lia].
    exists u. split; [done|]. apply orb_true_iff. right.
    apply (count_while_prefix weak_tok (drop (S k) tokens) c); [lia|].
    rewrite lookup_drop. by replace (S k + c)%nat with (k + S c)%nat by lia.
Qed.

Lemma seg_loop_ends_flagged tokens fuel spans s k :
  Forall (ends_flagged tokens) spans ->
  Forall (ends_flagged tokens) (seg_loop tokens fuel spans s k).1.
Proof.
  revert spans s k. induction fuel as [|fuel IH]; intros spans s k Hf; simpl; [done|].
  destruct (tokens !! k) as [t|] eqn:E; [|done].
  destruct (has_flag t TF_SENT_END_STRONG) eqn:Es.
  - apply IH, Forall_app. split; [done|]. apply Forall_singleton. by apply (strong_end_flagged _ _ t).
  - destruct (has_flag t TF_SENT_END_WEAK) eqn:Ew; simpl; [|by apply IH].
    repeat case_match; apply IH; try done;
      (apply Forall_app; split; [done|]; apply Forall_singleton; exists t; cbn [snd];
       rewrite Nat.sub_1_r, Nat.pred_succ, E, Ew, orb_true_r; done).
Qed.

(** Sentences end only at cues.  Every sentence of
    [segment_tokens] except one ending at the last token ends at a token
    flagged SENT_END_STRONG or SENT_END_WEAK (a terminator, a closer
    after one, or an ellipsis). *)
Theorem sentence_ends_at_cue tokens a b :
  (a, b) ∈ segment_tokens tokens -> b <> length tokens -> ends_flagged tokens (a, b).
Proof.
  intros Hin Hb. unfold segment_tokens in Hin.
  destruct (Nat.eqb_spec (length tokens) 0); [by apply not_elem_of_nil in Hin|].
  pose proof (seg_loop_ends_flagged tokens (length tokens) [] 0 0 (Forall_nil_2 _)) as Hf.
  destruct (seg_loop tokens (length tokens) [] 0 0) as [spans s]. simpl in Hf.
  rewrite Forall_forall in Hf.
  destruct (_ <? _)%nat; [|by apply Hf].
  apply elem_of_app in Hin as [Hin|Hin]; [by apply Hf|].
  apply list_elem_of_singleton in Hin. injection Hin as _ ->. done.
Qed.

Lemma sentence_ends_at_cue_witness :
  (0, 2)%nat ∈ segment_tokens (tokenize (str "Hi. Bye")) /\ (2 <> length (tokenize (str "Hi. Bye")))%nat /\
  ends_flagged (tokenize (str "Hi. Bye")) (0, 2)%nat.
Proof.
  assert (H1 : (0, 2)%nat ∈ segment_tokens (tokenize (str "Hi. Bye"))).
  { vm_compute. left. }
  assert (H2 : (2 <> length (tokenize (str "Hi. Bye")))%nat) by (vm_compute; discriminate).
  split; [exact H1|]. split; [exact H2|]. exact (sentence_ends_at_cue _ _ _ H1 H2).
Defined.
