(* ===== verification/Morph.v ===== *)
(** * Morph: [src/brain/language/morph.py]

    The rule-based tagger: per token a coarse part of speech, a lemma,
    the lemma's id in a run-scoped vocabulary, a packed 16-bit morph
    field and a stop-word bit; and [annotate_graph], which writes them
    into the nodes of a token graph.

    - [POS] and [pack_bits] are the enum and the bit packing.
    - [Vocab] is the class [Vocab]: the dict [_tok2id] as a [gmap] from
      strings to ids and the list [_id2tok]; [get_id] returns the new
      vocabulary with the id (state passing for the mutation of the one
      vocabulary object the caller owns), [get_str] reads it.
    - The word sets are lists of strings tested with [mem_str]; the dict
      [_AUX_MAP] is an association list.
    - [analyze_token] is the body of the loop in [analyze_tokens], the
      rule cascade with its early [continue]s as nested [if]s;
      [analyze_tokens] threads the vocabulary through the tokens.
    - [annotate_graph] overwrites the node fields of the common prefix;
      it returns the graph with the updated nodes. *)

From S2P Require Import Prelude Text Varint Graph Codec Tokenizer Pipeline.
From coqutil Require Import Z.bitblast Z.prove_Zeq_bitwise.

Open Scope Z_scope.

(** ** Parts of speech and the morph bit field *)

Inductive POS :=
| X | NOUN | VERB | ADJ | ADV | PRON | DET | ADP | CCONJ | SCONJ | PUNCT_POS | NUM_POS | PROPN | AUX.

#[export] Instance POS_eq_dec : EqDecision POS.
Proof. solve_decision. Defined.

Definition POS_code (p : POS) : Z :=
  match p with
  | X => 0 | NOUN => 1 | VERB => 2 | ADJ => 3 | ADV => 4 | PRON => 5 | DET => 6 | ADP => 7
  | CCONJ => 8 | SCONJ => 9 | PUNCT_POS => 10 | NUM_POS => 11 | PROPN => 12 | AUX => 13
  end.

Definition TENSE_NONE : Z := 0.
Definition TENSE_PRES : Z := 1.
Definition TENSE_PAST : Z := 2.
Definition NUM_NONE : Z := 0.
Definition NUM_SING : Z := 1.
Definition NUM_PLUR : Z := 2.
Definition PER_NONE : Z := 0.
Definition PER_1 : Z := 1.
Definition PER_2 : Z := 2.
Definition PER_3 : Z := 3.

(** [pack_bits(pos, tense, num, per)] *)
Definition pack_bits (pos tense num per : Z) : Z :=
  Z.lor (Z.lor (Z.lor (Z.land pos 0xF) (Z.shiftl (Z.land tense 0x3) 4))
               (Z.shiftl (Z.land num 0x3) 6))
        (Z.shiftl (Z.land per 0x3) 8).

(** ** The vocabulary *)

Record Vocab := mkVocab {
  tok2id : gmap (list Z) Z;
  id2tok : list (list Z)
}.

(** [Vocab()] *)
Definition Vocab_init : Vocab := {| tok2id := ∅; id2tok := [] |}.

(** [get_id(s)]: the id of [s], interning it on first sight. *)
Definition get_id (v : Vocab) (s : list Z) : Vocab * Z :=
  match tok2id v !! s with
  | Some i => (v, i)
  | None =>
      let idx := Z.of_nat (length (id2tok v)) + 1 in
      ({| tok2id := <[s := idx]> (tok2id v); id2tok := id2tok v ++ [s] |}, idx)
  end.

(** [get_str(i)]: the string of id [i], [""] when [i] is out of range. *)
Definition get_str (v : Vocab) (i : Z) : list Z :=
  if (i <=? 0) || (Z.of_nat (length (id2tok v)) <? i) then []
  else default [] (id2tok v !! Z.to_nat (i - 1)).

(** ** Word lists *)

Definition strs (l : list string) : list (list Z) := map str l.

Definition _STOP : list (list Z) := strs
  ["the";"a";"an";"and";"or";"but";"if";"because";"that";"which";"who";"whom";"whose";
   "to";"of";"in";"on";"at";"by";"for";"with";"from";"as";"than";"then";"so";"yet";
   "is";"are";"was";"were";"be";"been";"being";"do";"does";"did";"have";"has";"had";
   "not";"no";"yes";"it";"i";"you";"he";"she";"we";"they";"me";"him";"her";"us";"them";
   "this";"that";"these";"those"].

Definition _PRON : list (list Z) := strs
  ["i";"you";"he";"she";"it";"we";"they";"me";"him";"her";"us";"them";"my";"your";"his";
   "her";"our";"their"].
Definition _DET : list (list Z) := strs ["the";"a";"an";"this";"that";"these";"those"].
Definition _ADP : list (list Z) := strs
  ["of";"to";"in";"on";"at";"by";"for";"with";"from";"as";"into";"onto";"over";"under";
   "between";"through"].
Definition _CCONJ : list (list Z) := strs ["and";"or";"but";"nor";"yet";"so"].
Definition _SCONJ : list (list Z) := strs
  ["because";"if";"that";"although";"though";"when";"while";"since";"unless"].

(** [_AUX_MAP]: surface form to (lemma, tense, number, person). *)
Definition _AUX_MAP : list (list Z * (list Z * Z * Z * Z)) :=
  map (fun '(k, (l, te, nu, pe)) => (str k, (str l, te, nu, pe)))
  [("am", ("be", TENSE_PRES, NUM_SING, PER_1));
   ("are", ("be", TENSE_PRES, 0, 0));
   ("is", ("be", TENSE_PRES, NUM_SING, PER_3));
   ("was", ("be", TENSE_PAST, NUM_SING, PER_1));
   ("were", ("be", TENSE_PAST, 0, 0));
   ("be", ("be", 0, 0, 0));
   ("been", ("be", 0, 0, 0));
   ("being", ("be", 0, 0, 0));
   ("have", ("have", TENSE_PRES, 0, 0));
   ("has", ("have", TENSE_PRES, NUM_SING, PER_3));
   ("had", ("have", TENSE_PAST, 0, 0));
   ("do", ("do", TENSE_PRES, 0, 0));
   ("does", ("do", TENSE_PRES, NUM_SING, PER_3));
   ("did", ("do", TENSE_PAST, 0, 0));
   ("can", ("can", 0, 0, 0)); ("could", ("could", 0, 0, 0));
   ("may", ("may", 0, 0, 0)); ("might", ("might", 0, 0, 0));
   ("must", ("must", 0, 0, 0)); ("should", ("should", 0, 0, 0));
   ("would", ("would", 0, 0, 0)); ("will", ("will", 0, 0, 0)); ("shall", ("shall", 0, 0, 0))].

(** [_AUX_MAP[lower]] when [lower in _AUX_MAP]. *)
Definition aux_lookup (s : list Z) : option (list Z * Z * Z * Z) :=
  snd <$> List.find (fun kv => bool_decide (kv.1 = s)) _AUX_MAP.

(** [_RE_INITIAL_CAP.match(raw)] for [^[A-Z][A-Za-z]+$]: [$] also
    matches before a newline that ends the string. *)
Definition re_initial_cap (raw : list Z) : bool :=
  match raw with
  | c :: rest =>
      let body := if ends_with [10] rest then removelast rest else rest in
      ascii_upper c && negb (bool_decide (body = [])) && forallb ascii_alpha body
  | [] => false
  end.

(** ** String helpers *)

(** [_norm_apostrophes(s)] *)
Definition _norm_apostrophes (s : list Z) : list Z :=
  replace_cp U_LSQUO 39 (replace_cp U_RSQUO 39 s).

(** [s[:-k]] for [k <= len(s)] *)
Definition drop_last (k : nat) (s : list Z) : list Z := take (length s - k) s.

(** [_strip_possessive(s)] *)
Definition _strip_possessive (s : list Z) : list Z :=
  let s2 := _norm_apostrophes s in
  if ends_with (str "'s") s2 then drop_last 2 s2
  else if ends_with (str "'") s2 then drop_last 1 s2
  else s2.

(** [_lemma_guess(lower)] *)
Definition _lemma_guess (lower : list Z) : list Z :=
  if ends_with (str "ing") lower && (4 <? length lower)%nat then drop_last 3 lower
  else if ends_with (str "ed") lower && (3 <? length lower)%nat then drop_last 2 lower
  else if ends_with (str "s") lower && (3 <? length lower)%nat && negb (ends_with (str "ss") lower)
  then drop_last 1 lower
  else lower.

(** ** The analyser *)

Record MorphInfo := mkMorph {
  mi_lemma : list Z;
  mi_lemma_id : Z;
  mi_pos : POS;
  mi_bits : Z;
  mi_is_stop : bool
}.

(** [out.append(MorphInfo(lemma, vocab.get_id(lemma), pos, bits, stop))] *)
Definition emit (v : Vocab) (lemma : list Z) (pos : POS) (bits : Z) (stop : bool)
    : Vocab * MorphInfo :=
  let '(v', i) := get_id v lemma in (v', mkMorph lemma i pos bits stop).

(** One turn of the loop of [analyze_tokens]. *)
Definition analyze_token `{UnicodeDB} (v : Vocab) (t : Token) : Vocab * MorphInfo :=
  let raw := tok_text t in
  let norm := _strip_possessive (_norm_apostrophes raw) in
  let lower := uc_lower norm in
  if negb (Z.land (tok_flags t) TF_PUNCT =? 0) then
    emit v norm PUNCT_POS (pack_bits (POS_code PUNCT_POS) 0 0 0) false
  else if negb (Z.land (tok_flags t) TF_NUM =? 0) then
    emit v lower NUM_POS (pack_bits (POS_code NUM_POS) 0 0 0) false
  else if mem_str lower _PRON then
    emit v lower PRON (pack_bits (POS_code PRON) 0 0 0) true
  else if mem_str lower _DET then
    emit v lower DET (pack_bits (POS_code DET) 0 0 0) true
  else if mem_str lower _ADP then
    emit v lower ADP (pack_bits (POS_code ADP) 0 0 0) true
  else if mem_str lower _CCONJ then
    emit v lower CCONJ (pack_bits (POS_code CCONJ) 0 0 0) true
  else if mem_str lower _SCONJ then
    emit v lower SCONJ (pack_bits (POS_code SCONJ) 0 0 0) true
  else match aux_lookup lower with
  | Some (lemma, tense, num, per) =>
      emit v lemma AUX (pack_bits (POS_code AUX) tense num per) (mem_str lower _STOP)
  | None =>
      if re_initial_cap raw then
        emit v raw PROPN (pack_bits (POS_code PROPN) 0 0 0) false
      else
        let guess := _lemma_guess lower in
        emit v guess NOUN (pack_bits (POS_code NOUN) 0 0 0) (mem_str lower _STOP)
  end.

(** [analyze_tokens(tokens, vocab)]: the results, and the vocabulary
    after the calls. *)
Fixpoint analyze_tokens `{UnicodeDB} (tokens : list Token) (v : Vocab)
    : list MorphInfo * Vocab :=
  match tokens with
  | [] => ([], v)
  | t :: ts =>
      let '(v1, mi) := analyze_token v t in
      let '(out, v2) := analyze_tokens ts v1 in
      (mi :: out, v2)
  end.

(** ** Graph annotation *)

(** The assignments of one turn of the loop of [annotate_graph]. *)
Definition annotate_node (nd : Node) (mi : MorphInfo) : Node :=
  {| node_id := node_id nd; n_type := n_type nd; sub_type := POS_code (mi_pos mi);
     features_ref := features_ref nd; span := span nd;
     n_flags := if mi_is_stop mi then Z.lor (n_flags nd) NF_IS_STOP else n_flags nd;
     n_confidence := n_confidence nd; label_id := mi_lemma_id mi |}.

(** [for i in range(n)]: node [i] updated for [i < n]. *)
Fixpoint annotate_nodes (n : nat) (nds : list Node) (morphs : list MorphInfo) : list Node :=
  match n, nds, morphs with
  | S n', nd :: nds', mi :: ms' => annotate_node nd mi :: annotate_nodes n' nds' ms'
  | _, _, _ => nds
  end.

(** [annotate_graph(g, tokens, morphs)]: [g] with its nodes updated in
    place. *)
Definition annotate_graph (g : Graph) (tokens : list Token) (morphs : list MorphInfo) : Graph :=
  let n := Nat.min (length (nodes g)) (Nat.min (length tokens) (length morphs)) in
  {| graph_id := graph_id g; graph_type := graph_type g; num_nodes := num_nodes g;
     num_edges := num_edges g; g_features := g_features g; source_id := source_id g;
     version := version g; schema_id := schema_id g;
     nodes := annotate_nodes n (nodes g) morphs; edges := edges g |}.

Definition lemmas_of (ms : list MorphInfo) : list (list Z) := map mi_lemma ms.
Definition pos_of (ms : list MorphInfo) : list POS := map mi_pos ms.

Example analyze_main_sample :
  let toks := tokenize (he_said ++ str " Are you okay?") in
  let '(ms, v) := analyze_tokens toks Vocab_init in
  lemmas_of ms = [str "he"; str "said"; str ","; [U_LDQUO]; str "don't"; str "move"; str ".";
                  [U_RDQUO]; str "be"; str "you"; str "okay"; str "?"] /\
  pos_of ms = [PRON; NOUN; PUNCT_POS; PUNCT_POS; NOUN; NOUN; PUNCT_POS; PUNCT_POS; AUX; PRON;
               NOUN; PUNCT_POS] /\
  map mi_lemma_id ms = [1; 2; 3; 4; 5; 6; 7; 8; 9; 10; 11; 12].
Proof. vm_compute. repeat split; reflexivity. Qed.

Example lemma_guess_running :
  _lemma_guess (str "running") = str "runn" /\ _lemma_guess (str "glass") = str "glass" /\
  _lemma_guess (str "cats") = str "cat".
Proof. vm_compute. repeat split; reflexivity. Qed.

(** ** The vocabulary is a bijection between its strings and [1..n] *)

(** [_tok2id[s] == i] exactly when [_id2tok[i - 1] == s], and no string
    is listed twice. *)
Definition vocab_inv (v : Vocab) : Prop :=
  NoDup (id2tok v) /\
  forall s i, tok2id v !! s = Some i <-> exists k, id2tok v !! k = Some s /\ i = Z.of_nat k + 1.

Lemma vocab_inv_init : vocab_inv Vocab_init.
Proof.
  split; [constructor|]. intros s i. cbn [tok2id id2tok Vocab_init]. rewrite lookup_empty. split; [discriminate|].
  intros [k [Hk _]]. done.
Qed.

Lemma get_id_inv v s : vocab_inv v -> vocab_inv (get_id v s).1.
Proof.
  intros [Hnd Hiff]. unfold get_id. destruct (tok2id v !! s) as [i|] eqn:E; [done|].
  assert (Hnot : s ∉ id2tok v).
  { intros Hin. apply list_elem_of_lookup in Hin as [k Hk].
    assert (tok2id v !! s = Some (Z.of_nat k + 1)) by (apply Hiff; eauto). congruence. }
  split; simpl.
  - apply NoDup_app. split; [done|]. split; [|apply NoDup_singleton].
    intros x Hx Hy. apply list_elem_of_singleton in Hy. subst. done.
  - intros s' i'. destruct (decide (s' = s)) as [->|Hne].
    + rewrite lookup_insert_eq. split.
      * intros [= <-]. exists (length (id2tok v)). rewrite lookup_app_r, Nat.sub_diag by lia.
        done.
      * intros [k [Hk ->]]. apply lookup_app_Some in Hk as [Hk|[Hge Hk]].
        { destruct Hnot. by eapply list_elem_of_lookup_2. }
        apply list_lookup_singleton_Some in Hk as [Hk _]. f_equal. lia.
    + rewrite lookup_insert_ne by congruence. rewrite Hiff. split.
      * intros [k [Hk ->]]. exists k. split; [by apply lookup_app_l_Some|done].
      * intros [k [Hk ->]]. exists k. split; [|done].
        apply lookup_app_Some in Hk as [Hk|[Hge Hk]]; [done|].
        apply list_lookup_singleton_Some in Hk as [_ Hk]. congruence.
Qed.

Lemma get_id_spec v s v' i :
  vocab_inv v -> get_id v s = (v', i) ->
  tok2id v' !! s = Some i /\ id2tok v' !! Z.to_nat (i - 1) = Some s /\ 1 <= i /\
  id2tok v `prefix_of` id2tok v'.
Proof.
  intros Hinv Hg. pose proof (get_id_inv v s Hinv) as Hinv'. rewrite Hg in Hinv'.
  unfold get_id in Hg. destruct (tok2id v !! s) as [j|] eqn:E.
  - injection Hg as <- <-. destruct Hinv as [_ Hiff]. apply Hiff in E as Ek.
    destruct Ek as [k [Hk ->]]. rewrite Z.add_simpl_r, Nat2Z.id. repeat split; [done|done|lia|].
    done.
  - injection Hg as <- <-. simpl. rewrite lookup_insert_eq, Z.add_simpl_r, Nat2Z.id.
    rewrite lookup_app_r, Nat.sub_diag by lia. repeat split; [lia|]. by eexists.
Qed.

Lemma get_str_lookup v i s :
  1 <= i -> id2tok v !! Z.to_nat (i - 1) = Some s -> get_str v i = s.
Proof.
  intros Hi Hk. unfold get_str. apply lookup_lt_Some in Hk as Hlt.
  destruct (Z.leb_spec i 0); [lia|]. destruct (Z.ltb_spec (Z.of_nat (length (id2tok v))) i); [lia|].
  simpl. by rewrite Hk.
Qed.

Lemma prefix_lookup {A} (l1 l2 : list A) k x :
  l1 `prefix_of` l2 -> l1 !! k = Some x -> l2 !! k = Some x.
Proof. intros [r ->] Hk. by apply lookup_app_l_Some. Qed.

Lemma get_id_found v s i : tok2id v !! s = Some i -> get_id v s = (v, i).
Proof. intros E. unfold get_id. by rewrite E. Qed.

(** Interning round trip.  In a well-formed vocabulary, [get_id]
    returns an id [i >= 1] such that [get_str i] gives back the string,
    and interning the same string again returns the same id and leaves
    the vocabulary unchanged. *)
Theorem get_id_roundtrip v s v' i :
  vocab_inv v -> get_id v s = (v', i) ->
  1 <= i /\ get_str v' i = s /\ get_id v' s = (v', i).
Proof.
  intros Hinv Hg. destruct (get_id_spec v s v' i Hinv Hg) as (Ht & Hk & Hi & _).
  split; [done|]. split; [by apply get_str_lookup|]. by apply get_id_found.
Qed.

Lemma get_id_roundtrip_witness :
  vocab_inv Vocab_init /\ get_id Vocab_init (str "be") = (fst (get_id Vocab_init (str "be")), 1) /\
  get_str (fst (get_id Vocab_init (str "be"))) 1 = str "be".
Proof.
  assert (H : get_id Vocab_init (str "be") = (fst (get_id Vocab_init (str "be")), 1))
    by reflexivity.
  split; [exact vocab_inv_init|]. split; [exact H|].
  exact (proj1 (proj2 (get_id_roundtrip _ _ _ _ vocab_inv_init H))).
Defined.

(** No two strings share an id.  Interning [s1] and then [s2]
    gives the same id exactly when [s1 = s2]. *)
Theorem get_id_injective v s1 s2 v1 v2 i1 i2 :
  vocab_inv v -> get_id v s1 = (v1, i1) -> get_id v1 s2 = (v2, i2) -> (i1 = i2 <-> s1 = s2).
Proof.
  intros Hinv H1 H2. pose proof (get_id_inv v s1 Hinv) as Hinv1. rewrite H1 in Hinv1.
  destruct (get_id_spec v s1 v1 i1 Hinv H1) as (Ht1 & Hk1 & _).
  destruct (get_id_spec v1 s2 v2 i2 Hinv1 H2) as (_ & Hk2 & _ & Hp).
  split.
  - intros <-. apply (prefix_lookup _ _ _ _ Hp) in Hk1. congruence.
  - intros <-. rewrite (get_id_found _ _ _ Ht1) in H2. congruence.
Qed.

Lemma get_id_injective_witness :
  let '(v1, i1) := get_id Vocab_init (str "be") in
  let '(v2, i2) := get_id v1 (str "do") in i1 <> i2.
Proof.
  destruct (get_id Vocab_init (str "be")) as [v1 i1] eqn:E1.
  destruct (get_id v1 (str "do")) as [v2 i2] eqn:E2.
  intros Heq. apply (get_id_injective _ _ _ _ _ _ _ vocab_inv_init E1 E2) in Heq.
  discriminate.
Defined.

(** The lemma of [mi] is listed under its id in [v]. *)
Definition lemma_listed (v : Vocab) (mi : MorphInfo) : Prop :=
  1 <= mi_lemma_id mi /\ id2tok v !! Z.to_nat (mi_lemma_id mi - 1) = Some (mi_lemma mi).

Lemma emit_spec v l p b st v' mi :
  vocab_inv v -> emit v l p b st = (v', mi) ->
  vocab_inv v' /\ id2tok v `prefix_of` id2tok v' /\ lemma_listed v' mi /\
  mi_lemma mi = l /\ mi_pos mi = p /\ mi_bits mi = b /\ mi_is_stop mi = st.
Proof.
  intros Hinv He. unfold emit in He. destruct (get_id v l) as [v1 i] eqn:E.
  injection He as <- <-. pose proof (get_id_inv v l Hinv) as Hi. rewrite E in Hi.
  destruct (get_id_spec v l v1 i Hinv E) as (_ & Hk & Hge & Hp). split; [exact Hi|]. split; [done|]. split; [split; done|]. done.
Qed.

Lemma analyze_token_spec `{UnicodeDB} v t v' mi :
  vocab_inv v -> analyze_token v t = (v', mi) ->
  vocab_inv v' /\ id2tok v `prefix_of` id2tok v' /\ lemma_listed v' mi.
Proof.
  intros Hinv Ha. unfold analyze_token in Ha.
  repeat case_match; destruct (emit_spec _ _ _ _ _ _ _ Hinv Ha) as (? & ? & ? & _); by split.
Qed.

Lemma lemma_listed_prefix v v' mi :
  id2tok v `prefix_of` id2tok v' -> lemma_listed v mi -> lemma_listed v' mi.
Proof. intros Hp [Hi Hk]. split; [done|]. by apply (prefix_lookup _ _ _ _ Hp). Qed.

Lemma analyze_tokens_listed `{UnicodeDB} ts v ms v' :
  vocab_inv v -> analyze_tokens ts v = (ms, v') ->
  vocab_inv v' /\ id2tok v `prefix_of` id2tok v' /\ length ms = length ts /\
  Forall (lemma_listed v') ms.
Proof.
  revert v ms. induction ts as [|t ts IH]; intros v ms Hinv Ha; simpl in Ha.
  - injection Ha as <- <-. split; [done|]. split; [done|]. split; [done|]. constructor.
  - destruct (analyze_token v t) as [v1 mi] eqn:E1.
    destruct (analyze_tokens ts v1) as [out v2] eqn:E2. injection Ha as <- <-.
    destruct (analyze_token_spec v t v1 mi Hinv E1) as (Hinv1 & Hp1 & Hl1).
    destruct (IH v1 out Hinv1 E2) as (Hinv2 & Hp2 & Hlen & Hf).
    split; [done|]. split; [by transitivity (id2tok v1)|]. split; [simpl; by f_equal|].
    constructor; [|done]. by apply (lemma_listed_prefix v1).
Qed.

(** C9: Lemma ids of a run.  Analysing a token list with a well-formed
    vocabulary gives one result per token, only appends to the
    vocabulary (ids given earlier keep their strings), and every
    result's lemma id is at least 1 and is mapped back to its lemma by
    [get_str] of the final vocabulary. *)
Theorem analyze_tokens_lemma_ids `{UnicodeDB} ts v ms v' :
  vocab_inv v -> analyze_tokens ts v = (ms, v') ->
  length ms = length ts /\ id2tok v `prefix_of` id2tok v' /\
  Forall (fun mi => 1 <= mi_lemma_id mi /\ get_str v' (mi_lemma_id mi) = mi_lemma mi) ms.
Proof.
  intros Hinv Ha. destruct (analyze_tokens_listed ts v ms v' Hinv Ha) as (_ & Hp & Hlen & Hf).
  split; [done|]. split; [done|]. eapply Forall_impl; [exact Hf|].
  intros mi [Hi Hk]. split; [done|]. by apply get_str_lookup.
Qed.

Lemma analyze_tokens_lemma_ids_witness :
  let '(ms, v') := analyze_tokens (tokenize (str "Are you okay?")) Vocab_init in
  length ms = 4%nat /\
  Forall (fun mi => 1 <= mi_lemma_id mi /\ get_str v' (mi_lemma_id mi) = mi_lemma mi) ms.
Proof.
  destruct (analyze_tokens (tokenize (str "Are you okay?")) Vocab_init) as [ms v'] eqn:E.
  pose proof (@analyze_tokens_lemma_ids ascii_db _ _ _ _ vocab_inv_init E) as (Hl & _ & Hf).
  split; [|exact Hf]. rewrite Hl. vm_compute. reflexivity.
Defined.

(** ** The morph bit field *)

Lemma land_ones_small x n : 0 <= n -> 0 <= x < 2 ^ n -> Z.land x (Z.ones n) = x.
Proof. intros Hn Hx. rewrite Z.land_ones by done. by apply Z.mod_small. Qed.

Lemma land_ones_range x n : 0 <= n -> 0 <= Z.land x (Z.ones n) < 2 ^ n.
Proof. intros Hn. rewrite Z.land_ones by done. apply Z.mod_pos_bound. lia. Qed.

Lemma field_lt_mono x w m : w <= m -> 0 <= x < 2 ^ w -> 0 <= x < 2 ^ m.
Proof.
  intros Hw Hx. split; [lia|]. apply (Z.lt_le_trans _ (2 ^ w)); [lia|].
  apply Z.pow_le_mono_r; lia.
Qed.

Lemma shiftl_field_lt x w s m :
  0 <= s -> w + s <= m -> 0 <= x < 2 ^ w -> 0 <= Z.shiftl x s < 2 ^ m.
Proof.
  intros Hs Hm Hx. apply (field_lt_mono _ (w + s)); [lia|]. apply shiftl_lt_pow2; lia.
Qed.

(** The morph field packs and unpacks.  [pack_bits] is below 2^10
    (bits 10..15 of the 16-bit field are zero) for all arguments, and
    for a POS below 16 and tense, number and person below 4 the fields
    read back from bits 0-3, 4-5, 6-7 and 8-9 are the arguments. *)
Theorem pack_bits_fields pos tense num per :
  0 <= pack_bits pos tense num per < 2 ^ 10 /\
  (0 <= pos < 16 -> 0 <= tense < 4 -> 0 <= num < 4 -> 0 <= per < 4 ->
   let p := pack_bits pos tense num per in
   Z.land p 15 = pos /\ Z.land (Z.shiftr p 4) 3 = tense /\
   Z.land (Z.shiftr p 6) 3 = num /\ Z.land (Z.shiftr p 8) 3 = per).
Proof.
  unfold pack_bits. split.
  - change 0xF with (Z.ones 4). change 0x3 with (Z.ones 2).
    repeat apply lor_lt_pow2; try (apply shiftl_field_lt with 2; [lia|lia|]);
      try (apply land_ones_range; lia).
    apply (field_lt_mono _ 4); [lia|]. apply land_ones_range; lia.
  - intros Hp Ht Hn Hr. cbv zeta.
    rewrite <- (land_ones_small pos 4), <- (land_ones_small tense 2),
      <- (land_ones_small num 2), <- (land_ones_small per 2) by (simpl; lia).
    change 0xF with (Z.ones 4). change 0x3 with (Z.ones 2).
    change 15 with (Z.ones 4). change 3 with (Z.ones 2).
    repeat split; prove_Zeq_bitwise.
Qed.

Lemma pack_bits_fields_witness :
  0 <= 13 < 16 /\ Z.land (Z.shiftr (pack_bits 13 1 1 3) 8) 3 = 3.
Proof.
  split; [lia|].
  exact (proj2 (proj2 (proj2 (proj2 (pack_bits_fields 13 1 1 3) ltac:(lia) ltac:(lia)
    ltac:(lia) ltac:(lia))))).
Defined.

(** ** What the analyser produces *)

Lemma emit_out v l p b st : (emit v l p b st).2 = mkMorph l (get_id v l).2 p b st.
Proof. unfold emit. by destruct (get_id v l). Qed.

Lemma pack_bits_low pos tense num per : Z.land (pack_bits pos tense num per) 15 = Z.land pos 15.
Proof. unfold pack_bits. change 15 with (Z.ones 4). change 3 with (Z.ones 2). prove_Zeq_bitwise. Qed.

Lemma POS_code_range p : 0 <= POS_code p < 16.
Proof. destruct p; simpl; lia. Qed.

(** C13: The cascade never yields [X], and the morph field carries the
    POS: for every token and vocabulary, the result's part of speech is
    one of the thirteen others (the module comment says an unknown word
    gets [X]; the code makes it a [NOUN]), and bits 0-3 of its morph
    field are its POS code. *)
Theorem analyze_token_pos `{UnicodeDB} v t :
  let mi := (analyze_token v t).2 in
  mi_pos mi <> X /\ Z.land (mi_bits mi) 15 = POS_code (mi_pos mi).
Proof.
  unfold analyze_token.
  repeat case_match; rewrite emit_out; cbn [mi_pos mi_bits];
    (split; [discriminate|]); rewrite pack_bits_low;
    apply land_ones_small with (n := 4); lia || apply POS_code_range.
Qed.

(** ** Annotation *)

Lemma annotate_nodes_length n nds ms : length (annotate_nodes n nds ms) = length nds.
Proof.
  revert nds ms. induction n as [|n IH]; intros [|nd nds] [|mi ms]; simpl; try done. by rewrite IH.
Qed.

Lemma annotate_nodes_lookup_lt n nds ms i nd mi :
  (i < n)%nat -> nds !! i = Some nd -> ms !! i = Some mi ->
  annotate_nodes n nds ms !! i = Some (annotate_node nd mi).
Proof.
  revert n nds ms. induction i as [|i IH]; intros [|n] [|nd' nds] [|mi' ms] Hi Hn Hm;
    simpl in *; try lia; try discriminate.
  - congruence.
  - apply IH; [lia|done|done].
Qed.

Lemma annotate_nodes_lookup_ge n nds ms i :
  (n <= i)%nat -> annotate_nodes n nds ms !! i = nds !! i.
Proof.
  revert n nds ms. induction i as [|i IH]; intros [|n] [|nd nds] [|mi ms] Hi; simpl; try done; try lia.
  apply IH. lia.
Qed.

(** [annotate_graph] overwrites exactly the common prefix.  With
    [n = min(len(nodes), len(tokens), len(morphs))], node [i < n] gets
    the POS code as subtype, the lemma id as label and the STOP flag
    when the analysis marked a stop word, every other field kept; the
    nodes from [n] on, the edges and the header are unchanged. *)
Theorem annotate_graph_spec g tokens morphs i :
  let n := Nat.min (length (nodes g)) (Nat.min (length tokens) (length morphs)) in
  let g' := annotate_graph g tokens morphs in
  ((i < n)%nat -> exists nd mi, nodes g !! i = Some nd /\ morphs !! i = Some mi /\
     nodes g' !! i = Some (annotate_node nd mi)) /\
  ((n <= i)%nat -> nodes g' !! i = nodes g !! i) /\
  length (nodes g') = length (nodes g) /\ edges g' = edges g /\
  num_nodes g' = num_nodes g /\ num_edges g' = num_edges g /\ g_features g' = g_features g.
Proof.
  intros n g'. subst g'. unfold annotate_graph. cbn [nodes edges num_nodes num_edges g_features].
  split; [|split; [by apply annotate_nodes_lookup_ge|split; [apply annotate_nodes_length|done]]].
  intros Hi. subst n.
  destruct (nodes g !! i) as [nd|] eqn:En; [|apply lookup_ge_None in En; lia].
  destruct (morphs !! i) as [mi|] eqn:Em; [|apply lookup_ge_None in Em; lia].
  exists nd, mi. split; [done|]. split; [done|]. by apply annotate_nodes_lookup_lt.
Qed.

Lemma annotate_graph_spec_witness :
  let toks := tokenize (str "Are you okay?") in
  let g := tokens_to_graph (str "Are you okay?") 0 0 1 in
  let ms := (analyze_tokens toks Vocab_init).1 in
  (1 < Nat.min (length (nodes g)) (Nat.min (length toks) (length ms)))%nat /\
  exists nd mi, nodes g !! 1%nat = Some nd /\ ms !! 1%nat = Some mi /\
    nodes (annotate_graph g toks ms) !! 1%nat = Some (annotate_node nd mi).
Proof.
  cbv zeta. split; [vm_compute; lia|].
  apply (annotate_graph_spec _ _ _ 1). vm_compute. lia.
Defined.

(** ** The annotated graph of a text survives the codec *)

Lemma get_id_size v s : (length (id2tok (get_id v s).1) <= S (length (id2tok v)))%nat.
Proof. unfold get_id. destruct (tok2id v !! s); simpl; [lia|]. rewrite length_app. simpl. lia. Qed.

Lemma analyze_tokens_size `{UnicodeDB} ts v :
  (length (id2tok (analyze_tokens ts v).2) <= length (id2tok v) + length ts)%nat.
Proof.
  revert v. induction ts as [|t ts IH]; intros v; simpl; [lia|].
  destruct (analyze_token v t) as [v1 mi] eqn:E.
  assert (Hv1 : (length (id2tok v1) <= S (length (id2tok v)))%nat).
  { unfold analyze_token in E. repeat case_match; unfold emit in E;
      destruct (get_id v _) as [v2 i] eqn:Eg; injection E as <- _;
      match goal with Eg : get_id v ?s = _ |- _ =>
        pose proof (get_id_size v s) as Hs; rewrite Eg in Hs; exact Hs end. }
  specialize (IH v1). destruct (analyze_tokens ts v1) as [out v2]. simpl in *. lia.
Qed.

Lemma lemma_listed_bound v mi : lemma_listed v mi -> mi_lemma_id mi <= Z.of_nat (length (id2tok v)).
Proof. intros [Hi Hk]. apply lookup_lt_Some in Hk. lia. Qed.

Lemma annotate_node_ok nd mi :
  node_ok nd -> varint_ok (mi_lemma_id mi) -> node_ok (annotate_node nd mi).
Proof.
  unfold node_ok, annotate_node, byte_ok, u16_ok. cbn.
  intros (? & ? & ? & ? & ? & ? & Hf & ? & ?) Hl. pose proof (POS_code_range (mi_pos mi)).
  assert (0 <= (if mi_is_stop mi then Z.lor (n_flags nd) NF_IS_STOP else n_flags nd) < 65536).
  { destruct (mi_is_stop mi); [|done]. unfold NF_IS_STOP. change 65536 with (2 ^ 16).
    apply lor_lt_pow2; [done|change (Z.shiftl 1 1) with 2; lia]. }
  split_and!; try done; lia.
Qed.

Lemma annotate_graph_ok g tokens morphs :
  graph_ok g -> Forall (fun mi => varint_ok (mi_lemma_id mi)) morphs ->
  graph_ok (annotate_graph g tokens morphs).
Proof.
  unfold graph_ok. intros (H1 & H2 & H3 & H4 & H5 & H6 & H7 & Hn & He & Hns & Hes & Hf) Hm.
  cbn [annotate_graph graph_id graph_type num_nodes num_edges source_id version schema_id
       nodes edges g_features].
  rewrite annotate_nodes_length. repeat (split; [done|]). split; [|done].
  apply Forall_lookup_2. intros i nd' Hi.
  set (n := Nat.min (length (nodes g)) (Nat.min (length tokens) (length morphs))) in Hi.
  destruct (Nat.lt_ge_cases i n) as [Hlt|Hge].
  - destruct (nodes g !! i) as [nd|] eqn:En; [|apply lookup_ge_None in En; lia].
    destruct (morphs !! i) as [mi|] eqn:Em; [|apply lookup_ge_None in Em; lia].
    rewrite (annotate_nodes_lookup_lt _ _ _ _ nd mi Hlt En Em) in Hi. injection Hi as <-.
    apply annotate_node_ok; [exact (proj1 (Forall_lookup _ _) Hns i nd En)|].
    exact (proj1 (Forall_lookup _ _) Hm i mi Em).
  - rewrite annotate_nodes_lookup_ge in Hi by done. exact (proj1 (Forall_lookup _ _) Hns i nd' Hi).
Qed.

(** The pipeline of the module's manual check: the token graph of
    [text], annotated with the analysis of its tokens by a fresh
    vocabulary. *)
Definition annotated_graph `{UnicodeDB} (text : list Z) (graph_id source_id version : Z) : Graph :=
  let toks := tokenize text in
  let g := tokens_to_graph text graph_id source_id version in
  annotate_graph g toks (analyze_tokens toks Vocab_init).1.

(** C2: End to end with morphology.  For every text of fewer than 2^70
    codepoints and header ids in the varint range, the annotated token
    graph of the text is decoded by [decode_pgraph] from its
    [encode_pgraph] bytes (followed by any bytes) as the same graph. *)
Theorem annotated_graph_roundtrip `{UnicodeDB} text graph_id source_id version rest :
  Z.of_nat (length text) < 2 ^ 70 ->
  varint_ok graph_id -> varint_ok source_id -> varint_ok version ->
  let g := annotated_graph text graph_id source_id version in
  res_bind (encode_pgraph g) (fun bs => decode_pgraph (bs ++ rest)) = Ok g.
Proof.
  intros HL Hg Hs Hv g.
  assert (Hok : graph_ok g).
  { unfold g, annotated_graph. apply annotate_graph_ok; [by apply tokens_to_graph_ok|].
    pose proof (toks_wf_length _ _ (tokenize_wf text)) as Hn.
    pose proof (analyze_tokens_size (tokenize text) Vocab_init) as Hsz.
    destruct (analyze_tokens (tokenize text) Vocab_init) as [ms v'] eqn:E. simpl in *.
    destruct (analyze_tokens_listed _ _ _ _ vocab_inv_init E) as (_ & _ & _ & Hf).
    eapply Forall_impl; [exact Hf|]. intros mi Hl.
    pose proof (lemma_listed_bound _ _ Hl). destruct Hl as [Hi _]. unfold varint_ok. lia. }
  by apply decode_encode_pgraph.
Qed.

Lemma annotated_graph_roundtrip_witness :
  Z.of_nat (length he_said) < 2 ^ 70 /\
  res_bind (encode_pgraph (annotated_graph he_said 1 2 3))
           (fun bs => decode_pgraph (bs ++ [0; 0])) = Ok (annotated_graph he_said 1 2 3).
Proof.
  split; [vm_compute; reflexivity|].
  apply (@annotated_graph_roundtrip ascii_db); unfold varint_ok; vm_compute; split; congruence.
Defined.
