(* ===== verification/Json.v ===== *)
(** * Json: the values [json.load] returns, and Python's dict operations

    The dictionary tools under [src/memory/adapters/] read and rewrite
    JSON files.  A JSON value is [json]: [None], booleans, integers,
    strings (lists of codepoints), lists, and objects.  An object is the
    Python [dict] [json.load] builds: an association list in insertion
    order (its keys are distinct; [obj_set] keeps them so).  Numbers are
    integers: the files hold no floats.

    - [py_truthy] is Python's truth value, used by [x or default] and
      [if x:];
    - [obj_get]/[obj_set] are [d.get(k)] and [d[k] = v] (an existing key
      keeps its place, a new one is appended);
    - [py_iter] is what a [for] loop over a value visits ([None] is the
      [TypeError] of a non-iterable);
    - [canon] is the value [json.dumps(..., sort_keys=True)] prints: two
      values have the same dump exactly when their [canon]s are equal;
    - [str_dict] is a [dict[str, str]] with [setdefault]. *)

From S2P Require Import Prelude Text.

Open Scope Z_scope.

#[local] Set Warnings "-register-all".

Inductive json :=
| JNull
| JBool (b : bool)
| JNum (n : Z)
| JStr (s : list Z)
| JArr (l : list json)
| JObj (fs : list (list Z * json)).

(** Induction through the lists of arrays and objects. *)
Section json_ind.
Variable P : json -> Prop.
Hypothesis HNull : P JNull.
Hypothesis HBool : forall b, P (JBool b).
Hypothesis HNum : forall n, P (JNum n).
Hypothesis HStr : forall s, P (JStr s).
Hypothesis HArr : forall l, Forall P l -> P (JArr l).
Hypothesis HObj : forall fs, Forall (fun kv => P kv.2) fs -> P (JObj fs).

Fixpoint json_ind' (j : json) : P j :=
  match j with
  | JNull => HNull
  | JBool b => HBool b
  | JNum n => HNum n
  | JStr s => HStr s
  | JArr l => HArr l ((fix go (l : list json) : Forall P l :=
                        match l with
                        | [] => Forall_nil_2 _
                        | x :: xs => Forall_cons_2 _ _ _ (json_ind' x) (go xs)
                        end) l)
  | JObj fs => HObj fs ((fix go (fs : list (list Z * json)) : Forall (fun kv => P kv.2) fs :=
                          match fs with
                          | [] => Forall_nil_2 _
                          | kv :: fs' => Forall_cons_2 _ _ _ (json_ind' kv.2) (go fs')
                          end) fs)
  end.
End json_ind.

Fixpoint json_eqb (a b : json) : bool :=
  match a, b with
  | JNull, JNull => true
  | JBool x, JBool y => Bool.eqb x y
  | JNum x, JNum y => x =? y
  | JStr x, JStr y => bool_decide (x = y)
  | JArr l1, JArr l2 =>
      (fix go (l1 l2 : list json) : bool :=
         match l1, l2 with
         | [], [] => true
         | x :: xs, y :: ys => json_eqb x y && go xs ys
         | _, _ => false
         end) l1 l2
  | JObj f1, JObj f2 =>
      (fix go (f1 f2 : list (list Z * json)) : bool :=
         match f1, f2 with
         | [], [] => true
         | (k1, x) :: xs, (k2, y) :: ys => bool_decide (k1 = k2) && json_eqb x y && go xs ys
         | _, _ => false
         end) f1 f2
  | _, _ => false
  end.

Lemma json_eqb_eq a b : json_eqb a b = true <-> a = b.
Proof.
  revert b. induction a as [| | | |l IH|fs IH] using json_ind'; intros [| | | |l2|f2];
    simpl; try (split; congruence).
  - rewrite Bool.eqb_true_iff. split; congruence.
  - rewrite Z.eqb_eq. split; congruence.
  - rewrite bool_decide_eq_true. split; congruence.
  - revert l2. induction IH as [|x xs Hx Hxs IHxs]; intros [|y ys]; try (split; congruence).
    rewrite andb_true_iff, Hx, IHxs. split; [intros [-> [= ->]]|intros [= -> ->]]; done.
  - revert f2. induction IH as [|[k x] xs Hx Hxs IHxs]; intros [|[k2 y] ys]; try (split; congruence).
    simpl in Hx. rewrite !andb_true_iff, bool_decide_eq_true, Hx, IHxs.
    split; [intros [[-> ->] [= ->]]|intros [= -> -> ->]]; done.
Qed.

#[export] Instance json_eq_dec : EqDecision json.
Proof.
  intros a b. destruct (json_eqb a b) eqn:E.
  - left. by apply json_eqb_eq.
  - right. intros H. apply json_eqb_eq in H. congruence.
Defined.

(** ** Python operations on values *)

(** [bool(x)] *)
Definition py_truthy (j : json) : bool :=
  match j with
  | JNull => false
  | JBool b => b
  | JNum n => negb (n =? 0)
  | JStr s => negb (bool_decide (s = []))
  | JArr l => negb (bool_decide (l = []))
  | JObj fs => negb (bool_decide (fs = []))
  end.

(** [x or y] *)
Definition py_or (x y : json) : json := if py_truthy x then x else y.

(** [d.get(k)]: [JNull] stands for the [None] of a missing key. *)
Definition obj_get (fs : list (list Z * json)) (k : list Z) : json :=
  default JNull (snd <$> List.find (fun kv => bool_decide (kv.1 = k)) fs).

(** [d[k] = v] *)
Definition obj_set (fs : list (list Z * json)) (k : list Z) (v : json) : list (list Z * json) :=
  if existsb (fun kv => bool_decide (kv.1 = k)) fs
  then map (fun kv => if bool_decide (kv.1 = k) then (k, v) else kv) fs
  else fs ++ [(k, v)].

(** [for x in v]: lists give their items, strings their characters and
    dicts their keys; anything else raises [TypeError] ([None]). *)
Definition py_iter (v : json) : option (list json) :=
  match v with
  | JArr l => Some l
  | JStr s => Some (map (fun c => JStr [c]) s)
  | JObj fs => Some (map (fun kv => JStr kv.1) fs)
  | _ => None
  end.

(** ** The dump with [sort_keys=True] *)

(** Python's [str] order: lexicographic on codepoints. *)
Fixpoint str_ltb (a b : list Z) : bool :=
  match a, b with
  | [], [] => false
  | [], _ :: _ => true
  | _ :: _, [] => false
  | x :: a', y :: b' => (x <? y) || ((x =? y) && str_ltb a' b')
  end.

Fixpoint insert_field (kv : list Z * json) (fs : list (list Z * json)) : list (list Z * json) :=
  match fs with
  | [] => [kv]
  | kv' :: fs' => if str_ltb kv'.1 kv.1 then kv' :: insert_field kv fs' else kv :: fs
  end.

Definition sort_fields (fs : list (list Z * json)) : list (list Z * json) :=
  foldr insert_field [] fs.

Fixpoint canon (j : json) : json :=
  match j with
  | JArr l => JArr (map canon l)
  | JObj fs => JObj (sort_fields (map (fun kv => (kv.1, canon kv.2)) fs))
  | _ => j
  end.

(** [json.dumps(a, sort_keys=True) == json.dumps(b, sort_keys=True)] *)
Definition dumps_eq (a b : json) : bool := bool_decide (canon a = canon b).

(** Nesting depth, the fuel of the recursive walks. *)
Fixpoint json_depth (j : json) : nat :=
  match j with
  | JArr l => S (foldr (fun x m => Nat.max (json_depth x) m) O l)
  | JObj fs => S (foldr (fun kv m => Nat.max (json_depth kv.2) m) O fs)
  | _ => O
  end.

(** ** [dict[str, str]] with [setdefault] *)

Definition str_dict := list (list Z * list Z).

(** [out.setdefault(k, v)] *)
Definition setdefault (d : str_dict) (k v : list Z) : str_dict :=
  if existsb (fun kv => bool_decide (kv.1 = k)) d then d else d ++ [(k, v)].

(** ** The [str] order *)

Lemma str_ltb_irrefl a : str_ltb a a = false.
Proof. induction a as [|x a IH]; simpl; [done|]. rewrite Z.ltb_irrefl, Z.eqb_refl. done. Qed.

Lemma str_ltb_trans a b c : str_ltb a b = true -> str_ltb b c = true -> str_ltb a c = true.
Proof.
  revert b c. induction a as [|x a IH]; intros [|y b] [|z c]; simpl; try done.
  rewrite !orb_true_iff, !andb_true_iff, !Z.ltb_lt, !Z.eqb_eq.
  intros [?|[-> ?]] [?|[-> ?]]; eauto with lia.
Qed.

Lemma str_ltb_total a b : a <> b -> str_ltb a b = false -> str_ltb b a = true.
Proof.
  revert b. induction a as [|x a IH]; intros [|y b]; simpl; try done.
  rewrite !orb_false_iff, !andb_false_iff, !orb_true_iff, !andb_true_iff, !Z.ltb_lt,
    Z.ltb_ge, !Z.eqb_eq, Z.eqb_neq.
  intros Hne [? [?|?]]; [lia|].
  destruct (decide (x = y)) as [->|]; [|lia].
  right. split; [done|]. apply IH; congruence.
Qed.

(** [a <= b] and [b < c] give [a < c], as [not (b < a)] is [a <= b]. *)
Lemma str_le_lt_trans a b c : str_ltb b a = false -> str_ltb b c = true -> str_ltb a c = true.
Proof.
  intros Hba Hbc. destruct (decide (a = b)) as [->|Hne]; [done|].
  destruct (str_ltb a b) eqn:Hab.
  - eauto using str_ltb_trans.
  - by pose proof (str_ltb_total a b Hne Hab) as E; rewrite E in Hba.
Qed.

Lemma str_lt_le_trans a b c : str_ltb a b = true -> str_ltb c b = false -> str_ltb a c = true.
Proof.
  intros Hab Hcb. destruct (decide (b = c)) as [->|Hne]; [done|].
  destruct (str_ltb b c) eqn:Hbc.
  - eauto using str_ltb_trans.
  - by pose proof (str_ltb_total b c Hne Hbc) as E; rewrite E in Hcb.
Qed.

Lemma str_le_trans a b c : str_ltb b a = false -> str_ltb c b = false -> str_ltb c a = false.
Proof.
  intros Hba Hcb. destruct (str_ltb c a) eqn:Hca; [|done].
  pose proof (str_lt_le_trans c a b Hca Hba) as E. by rewrite E in Hcb.
Qed.

Lemma str_ltb_asym a b : str_ltb a b = true -> str_ltb b a = false.
Proof.
  intros Hab. destruct (str_ltb b a) eqn:Hba; [|done].
  pose proof (str_ltb_trans _ _ _ Hab Hba) as Haa. by rewrite str_ltb_irrefl in Haa.
Qed.

(** ** [setdefault] *)

Lemma setdefault_elem d k v kv : kv ∈ setdefault d k v -> kv ∈ d \/ kv = (k, v).
Proof.
  unfold setdefault. destruct (existsb _ d); [by left|].
  intros [|Hin%list_elem_of_singleton]%elem_of_app; auto.
Qed.

Lemma setdefault_keys d k v : NoDup (map fst d) -> NoDup (map fst (setdefault d k v)).
Proof.
  unfold setdefault. destruct (existsb _ d) eqn:E; [done|]. intros Hnd.
  rewrite map_app. apply NoDup_app. split_and!; [done| |apply NoDup_singleton].
  intros x Hx Hx2. apply list_elem_of_singleton in Hx2. simpl in Hx2. subst x.
  apply list_elem_of_fmap in Hx as ([k' v'] & -> & Hin). simpl in *.
  assert (existsb (fun kv => bool_decide (kv.1 = k')) d = true) as E'.
  { apply existsb_exists. exists (k', v'). split; [by apply list_elem_of_In|].
    by rewrite bool_decide_eq_true_2. }
  congruence.
Qed.

Lemma setdefault_key_in d k v : k ∈ map fst (setdefault d k v).
Proof.
  unfold setdefault. destruct (existsb _ d) eqn:E.
  - apply existsb_exists in E as ([k' v'] & Hin & Hk). case_bool_decide; [|done]. simpl in *. subst.
    apply list_elem_of_fmap. exists (k, v'). split; [done|]. by apply list_elem_of_In.
  - rewrite map_app. apply elem_of_app. right. apply list_elem_of_singleton. done.
Qed.

Lemma setdefault_mono d k v : map fst d `prefix_of` map fst (setdefault d k v).
Proof.
  unfold setdefault. destruct (existsb _ d); [done|]. rewrite map_app. by apply prefix_app_r.
Qed.

(** ** [d[k] = v] and [d.get(k)] as association-list operations *)

Lemma obj_get_set_same fs k v : obj_get (obj_set fs k v) k = v.
Proof.
  change (default JNull (alist_find (alist_set fs k v) k) = v).
  by rewrite alist_find_set_same.
Qed.

Lemma obj_get_set_ne fs k k' v : k' <> k -> obj_get (obj_set fs k v) k' = obj_get fs k'.
Proof.
  intros Hne. change (default JNull (alist_find (alist_set fs k v) k') = default JNull (alist_find fs k')).
  by rewrite alist_find_set_ne.
Qed.

Lemma obj_set_set fs k v : obj_set (obj_set fs k v) k v = obj_set fs k v.
Proof. apply (alist_set_set (V:=json)). Qed.

(** ** Nesting depth *)

Lemma json_depth_arr x l : x ∈ l -> (json_depth x < json_depth (JArr l))%nat.
Proof.
  induction l as [|y l IH]; intros Hx; [by apply not_elem_of_nil in Hx|]. simpl in *.
  apply elem_of_cons in Hx as [->|Hx]; [lia|]. specialize (IH Hx). lia.
Qed.

Lemma json_depth_obj k v fs : (k, v) ∈ fs -> (json_depth v < json_depth (JObj fs))%nat.
Proof.
  induction fs as [|[k' v'] fs IH]; intros Hx; [by apply not_elem_of_nil in Hx|]. simpl in *.
  apply elem_of_cons in Hx as [Heq|Hx]; [simplify_eq; lia|]. specialize (IH Hx). lia.
Qed.
