(* ===== verification/Labels.v ===== *)
(** * Labels: the flat-label extraction of the dictionary tools

    Three files carry the same label enrichment of dictionary
    definitions:
    - [src/memory/adapters/language/dictionary_label_enricher.py]
      ([_enrich_def_obj_in_place], with the [overwrite] switch and a
      single group stored as a string),
    - [src/memory/adapters/wiktionary_to_db.py] and
    - [src/memory/adapters/wiktionary_scraper.py] (both
      [_enrich_def_inplace]).
    Their three regular expressions are written out as functions with
    the engine's behaviour: [lead_paren] is [_LEAD_PAREN_RE.match],
    [trail_search] is [_TRAIL_BRACKET_RE.search] (the leftmost start
    whose match reaches the end), [split_at]/[re_split] is
    [_SPLIT_RE.split].  The helper functions are the same text in the
    three files and are modelled once; the [_enrich_*] functions differ
    and are modelled each.  The walks into [subdefinitions] recurse
    with fuel, the nesting depth of the value. *)

From S2P Require Import Prelude Text Json.

Open Scope Z_scope.

Definition c_lpar : Z := 40.   (* ( *)
Definition c_rpar : Z := 41.   (* ) *)
Definition c_lbrk : Z := 91.   (* [ *)
Definition c_rbrk : Z := 93.   (* ] *)

(** ** [_LEAD_PAREN_RE = ^\(\s*([^)]*?)\s*\)\s*] *)

(** The match at the start of [s]: the group and the text after the
    match.  The greedy [\s*] takes the spaces after [(]; the lazy group
    stops at the first [)], leaving its trailing spaces to [\s*]. *)
Definition lead_paren (s : list Z) : option (list Z * list Z) :=
  match s with
  | c :: r =>
      if c =? c_lpar then
        let r1 := py_lstrip r in
        let content := take (span_while (fun x => negb (x =? c_rpar)) r1) r1 in
        match drop (length content) r1 with
        | d :: r2 => if d =? c_rpar then Some (py_rstrip content, py_lstrip r2) else None
        | [] => None
        end
      else None
  | [] => None
  end.

(** [while True: m = _LEAD_PAREN_RE.match(rest); ...] with fuel. *)
Fixpoint lead_groups (fuel : nat) (rest : list Z) (groups : list (list Z)) : list Z * list (list Z) :=
  match fuel with
  | O => (rest, groups)
  | S f =>
      match lead_paren rest with
      | None => (rest, groups)
      | Some (g, rest') => lead_groups f rest' (groups ++ [g])
      end
  end.

(** [_extract_leading_groups(text)] *)
Definition _extract_leading_groups (text : list Z) : list Z * list (list Z) :=
  let rest := py_strip text in lead_groups (length rest) rest [].

(** ** [_TRAIL_BRACKET_RE = \s*\[([^\]]+)\]\s*$] *)

(** A match starting at the head of [s], as its group.  [[^\]]+] is
    the maximal run before the next [\]]; [\s*$] asks that only
    whitespace follows. *)
Definition trail_at (s : list Z) : option (list Z) :=
  match py_lstrip s with
  | c :: r =>
      if c =? c_lbrk then
        let g := take (span_while (fun x => negb (x =? c_rbrk)) r) r in
        match drop (length g) r with
        | d :: r2 =>
            if (d =? c_rbrk) && negb (bool_decide (g = [])) && forallb py_isspace r2
            then Some g else None
        | [] => None
        end
      else None
  | [] => None
  end.

(** [search]: the leftmost start [p] with a match, and its group. *)
Fixpoint trail_search (p : nat) (s : list Z) : option (nat * list Z) :=
  match trail_at s with
  | Some g => Some (p, g)
  | None => match s with [] => None | _ :: s' => trail_search (S p) s' end
  end.

(** [_extract_trailing_bracket(text)] *)
Definition _extract_trailing_bracket (text : list Z) : list Z * option (list Z) :=
  match trail_search 0 text with
  | None => (text, None)
  | Some (p, g) => (py_rstrip (take p text), Some (py_strip g))
  end.

(** ** [_SPLIT_RE = \s*(?:,|;|/|\band\b)\s*] with [re.IGNORECASE] *)

Definition is_sep_char (c : Z) : bool := (c =? 44) || (c =? 59) || (c =? 47).

(** [and] in any case. *)
Definition is_and (a n d : Z) : bool :=
  ((a =? 97) || (a =? 65)) && ((n =? 110) || (n =? 78)) && ((d =? 100) || (d =? 68)).

(** The length of a match at the head of [s]; [prev] is the character
    before it, for the [\b] in front of [and]. *)
Definition split_at `{UnicodeDB} (prev : option Z) (s : list Z) : option nat :=
  let ws := span_while py_isspace s in
  let r := drop ws s in
  let before := match ws with
                | O => match prev with Some c => py_word_char c | None => false end
                | S _ => false
                end in
  let sep := match r with
             | c :: r' =>
                 if is_sep_char c then Some 1%nat
                 else match r' with
                      | n :: d :: r'' =>
                          if is_and c n d && negb before &&
                             negb (match r'' with e :: _ => py_word_char e | [] => false end)
                          then Some 3%nat else None
                      | _ => None
                      end
             | [] => None
             end in
  match sep with
  | Some k => Some (ws + k + span_while py_isspace (drop k r))%nat
  | None => None
  end.

(** [_SPLIT_RE.split(g)], scanning left to right; [cur] is the piece
    being read. *)
Fixpoint split_go `{UnicodeDB} (fuel : nat) (prev : option Z) (s cur : list Z) : list (list Z) :=
  match fuel with
  | O => [cur ++ s]
  | S f =>
      match s with
      | [] => [cur]
      | c :: s' =>
          match split_at prev s with
          | Some n => cur :: split_go f (last (take n s)) (drop n s) []
          | None => split_go f (Some c) s' (cur ++ [c])
          end
      end
  end.

Definition re_split `{UnicodeDB} (g : list Z) : list (list Z) := split_go (S (length g)) None g [].

(** [_tokenize_groups(groups)] *)
Definition _tokenize_groups `{UnicodeDB} (groups : list (list Z)) : list (list Z) :=
  flat_map (fun g =>
    let parts := map py_strip (filter (fun p => negb (bool_decide (py_strip p = []))) (re_split g)) in
    if bool_decide (parts = []) then [py_strip g] else parts) groups.

Example label_helpers :
  _extract_leading_groups (str "  (transitive, obsolete) (rare)  To praise. [mid 16th c.] ") =
    (str "To praise. [mid 16th c.]", [str "transitive, obsolete"; str "rare"]) /\
  _extract_trailing_bracket (str "To praise. [mid 16th c.]") =
    (str "To praise.", Some (str "mid 16th c.")) /\
  _tokenize_groups [str "transitive, obsolete"; str "Britain and Ireland/US"; str " , "] =
    [str "transitive"; str "obsolete"; str "Britain"; str "Ireland"; str "US"; str ","].
Proof. vm_compute. repeat split; reflexivity. Qed.

(** ** The enrichment of one definition object *)

Definition k_definition := str "definition".
Definition k_subdefinitions := str "subdefinitions".
Definition k_labels := str "labels".
Definition k_label_groups := str "label_groups".
Definition k_dating_raw := str "dating_raw".

(** [[f(x) for x in xs]] where [f] may raise. *)
Fixpoint opt_mapM {A B} (f : A -> option B) (xs : list A) : option (list B) :=
  match xs with
  | [] => Some []
  | x :: xs' => y ← f x; ys ← opt_mapM f xs'; Some (y :: ys)
  end.

(** [(d.get("definition") or "").strip()]: a non-string raises. *)
Definition raw_definition (fs : list (list Z * json)) : option (list Z) :=
  match py_or (obj_get fs k_definition) (JStr []) with
  | JStr s => Some (py_strip s)
  | _ => None
  end.

(** [if d.get("subdefinitions"): d["subdefinitions"] = [f(sd) for sd in d["subdefinitions"]]] *)
Definition recurse_subdefs (f : json -> option json) (fs : list (list Z * json))
    : option (list (list Z * json)) :=
  let v := obj_get fs k_subdefinitions in
  if py_truthy v then
    sds ← py_iter v; sds' ← opt_mapM f sds; Some (obj_set fs k_subdefinitions (JArr sds'))
  else Some fs.

(** The fields a non-empty [raw] gives in [wiktionary_to_db.py] and
    [wiktionary_scraper.py]: [labels], [label_groups] (always a list),
    [dating_raw], and the stripped gloss. *)
Definition label_fields `{UnicodeDB} (remove_from_gloss : bool) (raw : list Z)
    (fs : list (list Z * json)) : list (list Z * json) :=
  let '(after_groups, groups) := _extract_leading_groups raw in
  let '(after_bracket, dating_raw) := _extract_trailing_bracket after_groups in
  let tokens := _tokenize_groups groups in
  let fs := if bool_decide (tokens = []) then fs else obj_set fs k_labels (JArr (map JStr tokens)) in
  let fs := if bool_decide (groups = []) then fs else obj_set fs k_label_groups (JArr (map JStr groups)) in
  let dating_truthy := match dating_raw with Some s => negb (bool_decide (s = [])) | None => false end in
  let fs := match dating_raw with
            | Some s => if dating_truthy then obj_set fs k_dating_raw (JStr s) else fs
            | None => fs
            end in
  if remove_from_gloss && (negb (bool_decide (groups = [])) || dating_truthy)
  then obj_set fs k_definition (JStr after_bracket) else fs.

(** [_enrich_def_inplace] of [wiktionary_to_db.py]: an early return
    when [raw] is empty. *)
Fixpoint enrich_def_todb `{UnicodeDB} (fuel : nat) (remove_from_gloss : bool) (d : json) : option json :=
  match fuel with
  | O => None
  | S f =>
      match d with
      | JObj fs =>
          raw ← raw_definition fs;
          if bool_decide (raw = []) then
            JObj <$> recurse_subdefs (enrich_def_todb f remove_from_gloss) fs
          else
            JObj <$> recurse_subdefs (enrich_def_todb f remove_from_gloss)
                                     (label_fields remove_from_gloss raw fs)
      | _ => Some d
      end
  end.

(** [_enrich_def_inplace] of [wiktionary_scraper.py]: the labels under
    [if raw:], then the recursion in every case. *)
Fixpoint enrich_def_scraper `{UnicodeDB} (fuel : nat) (remove_from_gloss : bool) (d : json) : option json :=
  match fuel with
  | O => None
  | S f =>
      match d with
      | JObj fs =>
          raw ← raw_definition fs;
          let fs := if negb (bool_decide (raw = [])) then label_fields remove_from_gloss raw fs else fs in
          JObj <$> recurse_subdefs (enrich_def_scraper f remove_from_gloss) fs
      | _ => Some d
      end
  end.

(** The fields of [dictionary_label_enricher.py]: [label_groups] only
    with labels, and a single group as a string. *)
Definition label_fields_l0 `{UnicodeDB} (remove_from_gloss : bool) (raw : list Z)
    (fs : list (list Z * json)) : list (list Z * json) :=
  let '(after_groups, groups) := _extract_leading_groups raw in
  let '(after_bracket, dating_raw) := _extract_trailing_bracket after_groups in
  let tokens := _tokenize_groups groups in
  let fs := if bool_decide (tokens = []) then fs
            else obj_set (obj_set fs k_labels (JArr (map JStr tokens))) k_label_groups
                   (match groups with
                    | [g] => JStr g
                    | [] => JNull
                    | _ => JArr (map JStr groups)
                    end) in
  let dating_truthy := match dating_raw with Some s => negb (bool_decide (s = [])) | None => false end in
  let fs := match dating_raw with
            | Some s => if dating_truthy then obj_set fs k_dating_raw (JStr s) else fs
            | None => fs
            end in
  if remove_from_gloss && (negb (bool_decide (groups = [])) || dating_truthy)
  then obj_set fs k_definition (JStr after_bracket) else fs.

(** [_enrich_def_obj_in_place(d, remove_from_gloss, overwrite)]: no
    [isinstance] check, so a non-dict raises [AttributeError]. *)
Fixpoint enrich_def_l0 `{UnicodeDB} (fuel : nat) (remove_from_gloss overwrite : bool) (d : json)
    : option json :=
  match fuel with
  | O => None
  | S f =>
      match d with
      | JObj fs =>
          let already_list := match obj_get fs k_labels with JArr _ => true | _ => false end in
          if already_list && negb overwrite then
            JObj <$> recurse_subdefs (enrich_def_l0 f remove_from_gloss overwrite) fs
          else
            raw ← raw_definition fs;
            if bool_decide (raw = []) then
              JObj <$> recurse_subdefs (enrich_def_l0 f remove_from_gloss overwrite) fs
            else
              JObj <$> recurse_subdefs (enrich_def_l0 f remove_from_gloss overwrite)
                                       (label_fields_l0 remove_from_gloss raw fs)
      | _ => None
      end
  end.

(** The functions with enough fuel. *)
Definition _enrich_def_inplace_todb `{UnicodeDB} (d : json) (remove_from_gloss : bool) : option json :=
  enrich_def_todb (S (json_depth d)) remove_from_gloss d.
Definition _enrich_def_inplace_scraper `{UnicodeDB} (d : json) (remove_from_gloss : bool) : option json :=
  enrich_def_scraper (S (json_depth d)) remove_from_gloss d.
Definition _enrich_def_obj_in_place `{UnicodeDB} (d : json) (remove_from_gloss overwrite : bool)
    : option json :=
  enrich_def_l0 (S (json_depth d)) remove_from_gloss overwrite d.

Definition sample_def : json :=
  JObj [(k_definition, JStr (str "(transitive, obsolete) To praise. [mid 16th c.]"));
        (k_subdefinitions, JArr [JObj [(k_definition, JStr (str "(rare) Of a crowd."))]])].

Example enrich_sample :
  _enrich_def_inplace_todb sample_def true =
  Some (JObj [(k_definition, JStr (str "To praise."));
              (k_subdefinitions, JArr [JObj [(k_definition, JStr (str "Of a crowd."));
                                             (k_labels, JArr [JStr (str "rare")]);
                                             (k_label_groups, JArr [JStr (str "rare")])]]);
              (k_labels, JArr [JStr (str "transitive"); JStr (str "obsolete")]);
              (k_label_groups, JArr [JStr (str "transitive, obsolete")]);
              (k_dating_raw, JStr (str "mid 16th c."))]).
Proof. vm_compute. reflexivity. Qed.

(** ** Lemmas on the regular expressions *)

Lemma take_span_all (f : Z -> bool) l x : x ∈ take (span_while f l) l -> f x = true.
Proof.
  induction l as [|y l IH]; simpl; [intros H; by apply not_elem_of_nil in H|].
  destruct (f y) eqn:E; simpl; [|intros H; by apply not_elem_of_nil in H].
  intros [->|H]%elem_of_cons; [done|]. by apply IH.
Qed.

Lemma elem_of_take {A} (l : list A) k x : x ∈ take k l -> x ∈ l.
Proof. intros H. rewrite <- (take_drop k l). apply elem_of_app. by left. Qed.

Lemma py_lstrip_length s : (length (py_lstrip s) <= length s)%nat.
Proof. unfold py_lstrip. rewrite length_drop. lia. Qed.

Lemma py_rstrip_idem s : py_rstrip (py_rstrip s) = py_rstrip s.
Proof. apply py_rstrip_id, py_rstrip_no_trail. Qed.

Lemma lead_paren_len s g r : lead_paren s = Some (g, r) -> (length r + 2 <= length s)%nat.
Proof.
  destruct s as [|c s]; [discriminate|]. simpl. destruct (c =? c_lpar); [|discriminate].
  set (r1 := py_lstrip s). set (content := take _ r1).
  destruct (drop (length content) r1) as [|d r2] eqn:E; [discriminate|].
  destruct (d =? c_rpar); [|discriminate]. intros [= _ <-].
  pose proof (f_equal length E) as L. rewrite length_drop in L. simpl in L.
  pose proof (py_lstrip_length r2). pose proof (py_lstrip_length s). subst r1. lia.
Qed.

(** A group holds no [)] and is stripped. *)
Definition group_ok (g : list Z) : Prop := (c_rpar ∉ g) /\ py_strip g = g.

Lemma lead_paren_group s g r : lead_paren s = Some (g, r) -> group_ok g.
Proof.
  destruct s as [|c s]; [discriminate|]. simpl. destruct (c =? c_lpar); [|discriminate].
  set (r1 := py_lstrip s). set (content := take _ r1).
  destruct (drop (length content) r1) as [|d r2]; [discriminate|].
  destruct (d =? c_rpar); [|discriminate]. intros [= <- _]. split.
  - rewrite py_rstrip_take. intros Hin. apply elem_of_take, take_span_all in Hin.
    rewrite Z.eqb_refl in Hin. discriminate.
  - unfold py_strip. rewrite py_lstrip_id; [apply py_rstrip_idem|].
    rewrite py_rstrip_take. apply no_lead_space_take, no_lead_space_take, py_lstrip_no_lead.
Qed.

Lemma lead_groups_max f rest gs :
  (length rest <= f)%nat -> lead_paren (lead_groups f rest gs).1 = None.
Proof.
  revert rest gs. induction f as [|f IH]; intros rest gs Hl; simpl.
  - by destruct rest; [|simpl in Hl; lia].
  - destruct (lead_paren rest) as [[g r]|] eqn:E; [|done].
    apply IH. apply lead_paren_len in E. lia.
Qed.

Lemma lead_groups_ok f rest gs :
  Forall group_ok gs -> Forall group_ok (lead_groups f rest gs).2.
Proof.
  revert rest gs. induction f as [|f IH]; intros rest gs Hg; simpl; [done|].
  destruct (lead_paren rest) as [[g r]|] eqn:E; [|done].
  apply IH, Forall_app. split; [done|]. apply Forall_singleton. by eapply lead_paren_group.
Qed.

Lemma lead_paren_suffix s g r : lead_paren s = Some (g, r) -> exists k, r = drop k s.
Proof.
  destruct s as [|c s]; [discriminate|]. simpl. destruct (c =? c_lpar); [|discriminate].
  destruct (py_lstrip_suffix s) as [k1 ->]. set (content := take _ _).
  destruct (drop (length content) (drop k1 s)) as [|d r2] eqn:E; [discriminate|].
  destruct (d =? c_rpar); [|discriminate]. intros [= _ <-].
  destruct (py_lstrip_suffix r2) as [k2 ->]. rewrite drop_drop in E.
  exists (S (k1 + length content + S k2)). simpl.
  rewrite <- drop_drop, E. reflexivity.
Qed.

Lemma lead_groups_suffix f rest gs : exists k, (lead_groups f rest gs).1 = drop k rest.
Proof.
  revert rest gs. induction f as [|f IH]; intros rest gs; simpl; [by exists O|].
  destruct (lead_paren rest) as [[g r]|] eqn:E; [|by exists O].
  destruct (lead_paren_suffix _ _ _ E) as [k1 ->]. destruct (IH (drop k1 rest) (gs ++ [g])) as [k2 ->].
  exists (k1 + k2)%nat. by rewrite drop_drop.
Qed.

(** Leading label groups.  [_extract_leading_groups(text)] strips
    every leading [( ... )] group: what it returns as the rest is a
    suffix of [text.strip()] that no longer starts with a group, and
    each group is the text between a [(] and the first [)] after it,
    without [)] and stripped of surrounding whitespace. *)
Theorem extract_leading_groups_spec text :
  let '(rest, groups) := _extract_leading_groups text in
  lead_paren rest = None /\ (exists k, rest = drop k (py_strip text)) /\ Forall group_ok groups.
Proof.
  unfold _extract_leading_groups.
  pose proof (lead_groups_max (length (py_strip text)) (py_strip text) [] (le_n _)) as H1.
  pose proof (lead_groups_suffix (length (py_strip text)) (py_strip text) []) as H2.
  pose proof (lead_groups_ok (length (py_strip text)) (py_strip text) [] (Forall_nil_2 _)) as H3.
  destruct (lead_groups _ _ _) as [rest groups]. simpl in *. auto.
Qed.

(** ** The trailing bracket *)

(** [t] ends with [ws1 [g] ws2] after [pre]: a match of
    [\s*\[([^\]]+)\]\s*$] starting right after [pre]. *)
Definition trail_decomp (t pre g : list Z) : Prop :=
  exists ws1 ws2, t = pre ++ ws1 ++ [c_lbrk] ++ g ++ [c_rbrk] ++ ws2 /\
    Forall (fun c => py_isspace c = true) ws1 /\ Forall (fun c => py_isspace c = true) ws2 /\
    g <> [] /\ c_rbrk ∉ g.

Lemma py_lstrip_spaces ws t :
  Forall (fun c => py_isspace c = true) ws -> py_lstrip (ws ++ t) = py_lstrip t.
Proof.
  induction 1 as [|c ws Hc _ IH]; [done|]. unfold py_lstrip in *. simpl. by rewrite Hc.
Qed.

Lemma span_while_app_stop (f : Z -> bool) l c t :
  Forall (fun x => f x = true) l -> f c = false -> span_while f (l ++ c :: t) = length l.
Proof. induction 1 as [|x l Hx _ IH]; simpl; [by intros ->|intros Hc; by rewrite Hx, IH]. Qed.

Lemma not_in_span g : c_rbrk ∉ g -> Forall (fun x => negb (x =? c_rbrk) = true) g.
Proof.
  intros H. apply Forall_forall. intros x Hx. apply negb_true_iff, Z.eqb_neq.
  intros ->. apply H. by apply list_elem_of_In.
Qed.

Lemma trail_at_complete ws1 g ws2 :
  Forall (fun c => py_isspace c = true) ws1 -> Forall (fun c => py_isspace c = true) ws2 ->
  g <> [] -> c_rbrk ∉ g -> trail_at (ws1 ++ [c_lbrk] ++ g ++ [c_rbrk] ++ ws2) = Some g.
Proof.
  intros H1 H2 Hg Hn. unfold trail_at. rewrite py_lstrip_spaces by done.
  rewrite py_lstrip_id by reflexivity. cbn [app]. rewrite Z.eqb_refl.
  rewrite (span_while_app_stop _ g c_rbrk ws2 (not_in_span g Hn)) by reflexivity.
  rewrite take_app_length, drop_app_length, Z.eqb_refl.
  rewrite bool_decide_eq_false_2 by done. simpl.
  replace (forallb py_isspace ws2) with true; [done|]. symmetry. apply forallb_forall. by apply List.Forall_forall.
Qed.

Lemma take_span_forall (f : Z -> bool) l : Forall (fun x => f x = true) (take (span_while f l) l).
Proof. apply Forall_forall. intros x Hx. by apply (take_span_all f l). Qed.

Lemma take_length_self {A} (l : list A) n : take (length (take n l)) l = take n l.
Proof.
  rewrite length_take. destruct (Nat.le_ge_cases n (length l)).
  - by rewrite Nat.min_l.
  - rewrite Nat.min_r by done. rewrite !take_ge by lia. done.
Qed.

Lemma trail_at_sound s g :
  trail_at s = Some g ->
  exists ws1 ws2, s = ws1 ++ [c_lbrk] ++ g ++ [c_rbrk] ++ ws2 /\
    Forall (fun c => py_isspace c = true) ws1 /\ Forall (fun c => py_isspace c = true) ws2 /\
    g <> [] /\ c_rbrk ∉ g.
Proof.
  unfold trail_at, py_lstrip. set (k := span_while py_isspace s).
  destruct (drop k s) as [|c r] eqn:Ed; [discriminate|].
  destruct (Z.eqb_spec c c_lbrk) as [->|]; [|discriminate].
  set (g0 := take _ r). destruct (drop (length g0) r) as [|d r2] eqn:Er; [discriminate|].
  destruct (Z.eqb_spec d c_rbrk) as [->|]; [|discriminate].
  destruct (bool_decide (g0 = [])) eqn:Eg; [discriminate|].
  destruct (forallb py_isspace r2) eqn:Ew; [|discriminate]. intros [= <-].
  exists (take k s), r2. split_and!.
  - rewrite <- (take_drop k s) at 1. rewrite Ed. f_equal. cbn [app]. f_equal.
    rewrite <- (take_drop (length g0) r) at 1. rewrite Er. unfold g0.
    rewrite take_length_self. reflexivity.
  - apply take_span_forall.
  - apply List.Forall_forall. intros x Hx. apply forallb_forall with (x := x) in Ew; [done|exact Hx].
  - by apply bool_decide_eq_false in Eg.
  - intros Hin. apply take_span_all in Hin. rewrite Z.eqb_refl in Hin. discriminate.
Qed.

Lemma trail_search_some p s q g :
  trail_search p s = Some (q, g) ->
  exists k, q = (p + k)%nat /\ trail_at (drop k s) = Some g /\
            forall j, (j < k)%nat -> trail_at (drop j s) = None.
Proof.
  revert p. induction s as [|c s IH]; intros p; cbn [trail_search].
  - destruct (trail_at []) eqn:E; [|discriminate]. intros [= <- <-].
    exists O. split; [lia|]. split; [done|]. intros; lia.
  - destruct (trail_at (c :: s)) eqn:E.
    + intros [= <- <-]. exists O. split; [lia|]. split; [done|]. intros; lia.
    + intros H. destruct (IH _ H) as (k & -> & Hk & Hlt). exists (S k). split; [lia|].
      split; [done|]. intros [|j] Hj; [done|]. apply Hlt. lia.
Qed.

Lemma trail_search_none p s : trail_search p s = None -> forall k, trail_at (drop k s) = None.
Proof.
  revert p. induction s as [|c s IH]; intros p; cbn [trail_search].
  - destruct (trail_at []) eqn:E; [discriminate|]. intros _ k. by rewrite drop_nil.
  - destruct (trail_at (c :: s)) eqn:E; [discriminate|]. intros H [|k]; [done|]. exact (IH _ H k).
Qed.

(** The trailing bracket.  [_extract_trailing_bracket(text)] finds
    a dating note exactly when the text ends with [[g]] (and only
    whitespace after it) for a non-empty [g] without [\]]; it then takes
    the leftmost such match, returns [g.strip()], and keeps the text
    before the match with trailing whitespace removed; otherwise it
    returns the text unchanged and no note. *)
Theorem extract_trailing_bracket_spec text :
  match _extract_trailing_bracket text with
  | (rest, Some d) =>
      exists pre g, trail_decomp text pre g /\ rest = py_rstrip pre /\ d = py_strip g /\
        forall pre' g', trail_decomp text pre' g' -> (length pre <= length pre')%nat
  | (rest, None) => rest = text /\ forall pre g, ~ trail_decomp text pre g
  end.
Proof.
  unfold _extract_trailing_bracket.
  destruct (trail_search 0 text) as [[q g]|] eqn:E.
  - destruct (trail_search_some _ _ _ _ E) as (k & -> & Hk & Hlt). simpl.
    destruct (trail_at_sound _ _ Hk) as (ws1 & ws2 & Hs & H1 & H2 & Hg & Hn).
    assert (Hkl : (k <= length text)%nat).
    { destruct (Nat.le_gt_cases k (length text)) as [|Hgt]; [done|].
      rewrite drop_ge in Hs by lia. destruct ws1; discriminate. }
    exists (take k text), g. split_and!; [|done|done|].
    + exists ws1, ws2. split_and!; try done. by rewrite <- Hs, take_drop.
    + intros pre' g' (ws1' & ws2' & Ht & H1' & H2' & Hg' & Hn').
      rewrite length_take. destruct (Nat.lt_ge_cases (length pre') k) as [Hlt'|]; [|lia].
      specialize (Hlt _ Hlt'). rewrite Ht, drop_app_length, trail_at_complete in Hlt by done.
      discriminate.
  - split; [done|]. intros pre g (ws1 & ws2 & Ht & H1 & H2 & Hg & Hn).
    pose proof (trail_search_none _ _ E (length pre)) as H.
    rewrite Ht, drop_app_length, trail_at_complete in H by done. discriminate.
Qed.

(** ** The enrichment functions *)

Lemma opt_mapM_ext {A B} (f g : A -> option B) xs :
  (forall x, x ∈ xs -> f x = g x) -> opt_mapM f xs = opt_mapM g xs.
Proof.
  induction xs as [|x xs IH]; intros H; simpl; [done|].
  rewrite (H x) by (apply elem_of_cons; by left).
  rewrite IH; [done|]. intros y Hy. apply H, elem_of_cons. by right.
Qed.

Lemma recurse_subdefs_ext f g fs :
  (forall x, f x = g x) -> recurse_subdefs f fs = recurse_subdefs g fs.
Proof.
  intros H. unfold recurse_subdefs. destruct (py_truthy _); [|done].
  destruct (py_iter _); [|done]. simpl. by rewrite (opt_mapM_ext f g).
Qed.

(** The two [_enrich_def_inplace] agree on every value. *)
Lemma enrich_todb_scraper_equiv `{UnicodeDB} d remove_from_gloss :
  _enrich_def_inplace_todb d remove_from_gloss = _enrich_def_inplace_scraper d remove_from_gloss.
Proof.
  unfold _enrich_def_inplace_todb, _enrich_def_inplace_scraper.
  generalize (S (json_depth d)) as f. intros f. revert d.
  induction f as [|f IH]; intros d; [done|]. simpl.
  destruct d as [| | | | |fs]; try done.
  destruct (raw_definition fs) as [raw|]; [simpl|done].
  destruct (bool_decide (raw = [])); simpl; f_equal; by apply recurse_subdefs_ext.
Qed.

(** ** Enough fuel *)

Lemma depth_le_max {A} (h : A -> nat) x l : x ∈ l -> (h x <= foldr (fun y m => Nat.max (h y) m) O l)%nat.
Proof.
  induction l as [|y l IH]; simpl; [intros H; by apply not_elem_of_nil in H|].
  intros [->|H]%elem_of_cons; [lia|]. specialize (IH H). lia.
Qed.

Lemma obj_get_depth fs k : (json_depth (obj_get fs k) < json_depth (JObj fs))%nat.
Proof.
  unfold obj_get. destruct (List.find _ fs) as [kv|] eqn:E; simpl; [|lia].
  apply List.find_some in E as [Hin _]. apply list_elem_of_In in Hin.
  pose proof (depth_le_max (fun kv => json_depth kv.2) kv fs Hin). simpl in *. lia.
Qed.

Lemma py_iter_depth v l x : py_iter v = Some l -> x ∈ l -> (json_depth x <= json_depth v)%nat.
Proof.
  destruct v as [| | | s|l'|fs]; simpl; try discriminate; intros [= <-] Hx.
  - apply list_elem_of_fmap in Hx as (c & -> & _). simpl. lia.
  - pose proof (depth_le_max json_depth x l' Hx). lia.
  - apply list_elem_of_fmap in Hx as (kv & -> & _). simpl. lia.
Qed.

Lemma label_fields_subdefs `{UnicodeDB} r raw fs :
  obj_get (label_fields r raw fs) k_subdefinitions = obj_get fs k_subdefinitions.
Proof.
  unfold label_fields. destruct (_extract_leading_groups raw) as [ag groups].
  destruct (_extract_trailing_bracket ag) as [ab dating].
  repeat match goal with
  | |- context [if ?b then _ else _] => destruct b
  | |- context [match dating with _ => _ end] => destruct dating
  end; rewrite ?obj_get_set_ne by (vm_compute; congruence); done.
Qed.

Lemma recurse_subdefs_fuel f g fs fs' :
  obj_get fs' k_subdefinitions = obj_get fs k_subdefinitions ->
  (forall x, (json_depth x < json_depth (JObj fs))%nat -> f x = g x) ->
  recurse_subdefs f fs' = recurse_subdefs g fs'.
Proof.
  intros Hget H. unfold recurse_subdefs. rewrite Hget.
  destruct (py_truthy _); [|done]. destruct (py_iter _) as [l|] eqn:E; [|done]. simpl.
  rewrite (opt_mapM_ext f g); [done|]. intros x Hx. apply H.
  pose proof (py_iter_depth _ _ _ E Hx). pose proof (obj_get_depth fs k_subdefinitions). lia.
Qed.

Lemma enrich_def_todb_fuel `{UnicodeDB} f1 f2 r d :
  (json_depth d < f1)%nat -> (json_depth d < f2)%nat -> enrich_def_todb f1 r d = enrich_def_todb f2 r d.
Proof.
  revert f2 d. induction f1 as [|f1 IH]; intros [|f2] d H1 H2; try lia. simpl.
  destruct d as [| | | | |fs]; try done.
  destruct (raw_definition fs) as [raw|]; [simpl|done].
  assert (Hrec : forall x, (json_depth x < json_depth (JObj fs))%nat ->
                  enrich_def_todb f1 r x = enrich_def_todb f2 r x) by (intros x Hx; apply IH; lia).
  destruct (bool_decide (raw = [])); simpl; f_equal; apply (recurse_subdefs_fuel _ _ fs);
    auto using label_fields_subdefs.
Qed.

(** The recursion into [subdefinitions] ends: [_enrich_def_inplace]
    visits nested objects no deeper than the value itself, so any fuel
    above the nesting depth gives the result of the model. *)
Theorem enrich_todb_terminates `{UnicodeDB} fuel d remove_from_gloss :
  (json_depth d < fuel)%nat ->
  enrich_def_todb fuel remove_from_gloss d = _enrich_def_inplace_todb d remove_from_gloss.
Proof. intros Hf. apply enrich_def_todb_fuel; lia. Qed.

Lemma enrich_todb_terminates_witness :
  (json_depth sample_def < 10)%nat /\
  enrich_def_todb 10 true sample_def = _enrich_def_inplace_todb sample_def true.
Proof. split; [vm_compute; lia|]. apply enrich_todb_terminates. vm_compute. lia. Defined.

(** ** Where the copies and the documentation disagree *)

(** The enricher is not idempotent.  The module comment of
    [dictionary_label_enricher.py] calls a second run a no-op, but a
    definition with two trailing bracket notes and no leading group
    gets no [labels], so a second run processes it again: the first run
    moves the last note to [dating_raw], the second replaces it by the
    one before. *)
Theorem enrich_l0_not_idempotent `{UnicodeDB} :
  let d := JObj [(k_definition, JStr (str "Foo [a] [b]"))] in
  exists d1 d2, _enrich_def_obj_in_place d true false = Some d1 /\
    _enrich_def_obj_in_place d1 true false = Some d2 /\ d2 <> d1.
Proof.
  eexists _, _. split; [reflexivity|]. split; [reflexivity|]. vm_compute. congruence.
Qed.

(** The copies disagree on [label_groups].  The comment in
    [wiktionary_to_db.py] says its enricher has the same logic as
    [dictionary_label_enricher.py]; on a definition with one leading
    group the latter stores [label_groups] as that string, the former
    as a one-element list. *)
Theorem enrich_l0_todb_label_groups `{UnicodeDB} :
  let d := JObj [(k_definition, JStr (str "(rare) Of a crowd."))] in
  _enrich_def_obj_in_place d true true =
    Some (JObj [(k_definition, JStr (str "Of a crowd.")); (k_labels, JArr [JStr (str "rare")]);
                (k_label_groups, JStr (str "rare"))]) /\
  _enrich_def_inplace_todb d true =
    Some (JObj [(k_definition, JStr (str "Of a crowd.")); (k_labels, JArr [JStr (str "rare")]);
                (k_label_groups, JArr [JStr (str "rare")])]).
Proof. split; reflexivity. Qed.

(** ** A whole lemma object *)

Definition k_definitions := str "definitions".
Definition k_entries := str "entries".
Definition k_pos := str "pos".

(** [defs = b.get("definitions") or []; b["definitions"] = [f(d) for d in defs]] *)
Definition enrich_block (f : json -> option json) (b : json) : option json :=
  match b with
  | JObj fs =>
      ds ← py_iter (py_or (obj_get fs k_definitions) (JArr []));
      ds' ← opt_mapM f ds;
      Some (JObj (obj_set fs k_definitions (JArr ds')))
  | _ => None
  end.

(** [for blocks in pos_map.values(): if not isinstance(blocks, list): continue; ...] *)
Definition enrich_blocks (f : json -> option json) (blocks : json) : option json :=
  match blocks with
  | JArr bs => JArr <$> opt_mapM (enrich_block f) bs
  | _ => Some blocks
  end.

(** [pos_map = ent.get("pos") or {}] and its loop; the blocks are
    updated inside [ent]. *)
Definition enrich_entry (f : json -> option json) (ent : json) : option json :=
  match ent with
  | JObj fs =>
      match py_or (obj_get fs k_pos) (JObj []) with
      | JObj pfs =>
          pfs' ← opt_mapM (fun kv => v ← enrich_blocks f kv.2; Some (kv.1, v)) pfs;
          if py_truthy (obj_get fs k_pos) then Some (JObj (obj_set fs k_pos (JObj pfs')))
          else Some ent
      | _ => None
      end
  | _ => None
  end.

(** [_enrich_lemma_inplace(lemma_obj)], given the definition enricher
    it calls. *)
Definition enrich_lemma_with (f : json -> option json) (lemma_obj : json) : option json :=
  match lemma_obj with
  | JObj fs =>
      let es := obj_get fs k_entries in
      if py_truthy es then
        match es with
        | JArr l => l' ← opt_mapM (enrich_entry f) l; Some (JObj (obj_set fs k_entries (JArr l')))
        | _ => None
        end
      else Some lemma_obj
  | _ => None
  end.

Definition _enrich_lemma_inplace_todb `{UnicodeDB} (lemma_obj : json) : option json :=
  enrich_lemma_with (fun d => _enrich_def_inplace_todb d true) lemma_obj.
Definition _enrich_lemma_inplace_scraper `{UnicodeDB} (lemma_obj : json) : option json :=
  enrich_lemma_with (fun d => _enrich_def_inplace_scraper d true) lemma_obj.

Lemma enrich_lemma_with_ext f g lo :
  (forall d, f d = g d) -> enrich_lemma_with f lo = enrich_lemma_with g lo.
Proof.
  intros H. assert (He : forall e, enrich_entry f e = enrich_entry g e).
  { intros [| | | | |fs]; try done. simpl. destruct (py_or _ _) as [| | | | |pfs]; try done.
    rewrite (opt_mapM_ext _ (fun kv => v ← enrich_blocks g kv.2; Some (kv.1, v))); [done|].
    intros [k v] _. simpl. f_equal. destruct v as [| | | |bs|]; try done. simpl.
    f_equal. apply opt_mapM_ext. intros [| | | | |bfs] _; try done. simpl.
    destruct (py_iter _); [|done]. simpl. by rewrite (opt_mapM_ext f g). }
  destruct lo as [| | | | |fs]; try done. simpl.
  destruct (py_truthy _); [|done]. destruct (obj_get fs k_entries); try done.
  by rewrite (opt_mapM_ext _ (enrich_entry g)).
Qed.

(** The scripts enrich a scraped lemma alike.  [_enrich_lemma_inplace]
    of [wiktionary_to_db.py] and of [wiktionary_scraper.py] give the
    same lemma object, or both raise, on every JSON value. *)
Theorem enrich_lemma_copies_agree `{UnicodeDB} lemma_obj :
  _enrich_lemma_inplace_todb lemma_obj = _enrich_lemma_inplace_scraper lemma_obj.
Proof. apply enrich_lemma_with_ext. intros d. apply enrich_todb_scraper_equiv. Qed.

Example enrich_lemma_sample :
  _enrich_lemma_inplace_todb
    (JObj [(k_entries, JArr [JObj [(k_pos, JObj [(str "V", JArr [JObj [(k_definitions, JArr [sample_def])]])])]])])
  = Some (JObj [(k_entries, JArr [JObj [(k_pos, JObj [(str "V", JArr [JObj [(k_definitions,
      JArr [JObj [(k_definition, JStr (str "To praise."));
                  (k_subdefinitions, JArr [JObj [(k_definition, JStr (str "Of a crowd."));
                                                 (k_labels, JArr [JStr (str "rare")]);
                                                 (k_label_groups, JArr [JStr (str "rare")])]]);
                  (k_labels, JArr [JStr (str "transitive"); JStr (str "obsolete")]);
                  (k_label_groups, JArr [JStr (str "transitive, obsolete")]);
                  (k_dating_raw, JStr (str "mid 16th c."))]])]])])]])]).
Proof. vm_compute. reflexivity. Qed.
