(* ===== verification/Enricher.v ===== *)
(** * Enricher: the file loop of [dictionary_label_enricher.py]

    [enrich_dictionary] visits the lemma files in order of their lower-
    cased names from a start index, reads each payload, normalises it to
    a list of entries ([_normalize_payload]), enriches every entry's
    definitions on deep copies ([_enrich_def_obj_in_place], Labels.v),
    and writes the file back when something changed.

    Directory listing and file reading are not modelled: a run is given
    the list of [(stem, path)] items and, per item, the loaded JSON (or a
    read error).  What the loop does with them is modelled as the code
    is written, including the variables [before], [defs], [new_defs] of
    the entry loop, which Python keeps after the loop and across files:
    [after] is computed once per file, after the entry loop, from the
    last [new_defs] bound, and is stored into the last entry.  The
    dumps compared are [json.dumps(..., sort_keys=True)] ([canon]). *)

From S2P Require Import Prelude Text Json Labels.
From stdpp Require Import sorting.

Open Scope Z_scope.

(** ** Payload shapes *)

Definition k_variants := str "variants".

(** [_normalize_payload(obj, path)]: the entries and the function that
    rebuilds the payload from them. *)
Definition _normalize_payload (obj : json) : option (list json * (list json -> json)) :=
  match obj with
  | JArr l => Some (l, fun lst => JArr lst)
  | JObj fs =>
      if existsb (fun kv => bool_decide (kv.1 = k_definitions)) fs &&
         existsb (fun kv => bool_decide (kv.1 = k_pos)) fs
      then Some ([obj], fun lst => match lst with e :: _ => e | [] => obj end)
      else match obj_get fs k_entries with
           | JArr es => Some (es, fun lst => JObj (obj_set fs k_entries (JArr lst)))
           | _ => match obj_get fs k_variants with
                  | JArr vs => Some (vs, fun lst => JObj (obj_set fs k_variants (JArr lst)))
                  | _ => None
                  end
           end
  | _ => None
  end.

(** ** Choosing the files *)

(** [s.lower()] *)
Definition lower_key `{UnicodeDB} (item : list Z * list Z) : list Z := uc_lower item.1.

(** [items.sort(key=lambda t: t[0].lower())]: a stable insertion sort. *)
Fixpoint insert_by {A} (key : A -> list Z) (x : A) (l : list A) : list A :=
  match l with
  | [] => [x]
  | y :: l' => if str_ltb (key x) (key y) then x :: l else y :: insert_by key x l'
  end.

Definition sort_by {A} (key : A -> list Z) (l : list A) : list A :=
  foldr (insert_by key) [] (rev l).

(** An optional [str] argument that is truthy. *)
Definition opt_truthy (o : option (list Z)) : option (list Z) :=
  match o with Some s => if bool_decide (s = []) then None else Some s | None => None end.

(** [_collect_lemmas(pos, word)] on the listed [(stem, path)] items. *)
Definition _collect_lemmas `{UnicodeDB} (items : list (list Z * list Z)) (word : option (list Z))
    : list (list Z * list Z) :=
  let items := match opt_truthy word with
               | Some w => filter (fun it => lower_key it = uc_lower w) items
               | None => items
               end in
  sort_by lower_key items.

(** [bisect_left(a, x)], the binary search of the [bisect] module. *)
Fixpoint bisect_go (fuel : nat) (a : list (list Z)) (x : list Z) (lo hi : nat) : nat :=
  match fuel with
  | O => lo
  | S f =>
      if (lo <? hi)%nat then
        let mid := ((lo + hi) / 2)%nat in
        if str_ltb (default [] (a !! mid)) x then bisect_go f a x (S mid) hi
        else bisect_go f a x lo mid
      else lo
  end.

Definition bisect_left (a : list (list Z)) (x : list Z) : nat :=
  bisect_go (S (length a)) a x 0 (length a).

(** [keys.index(key)]: [None] is the [ValueError]. *)
Fixpoint list_index (a : list (list Z)) (x : list Z) : option nat :=
  match a with
  | [] => None
  | y :: a' => if bool_decide (y = x) then Some O else S <$> list_index a' x
  end.

(** [_find_start_index(items, from_lemma, after_lemma)] *)
Definition _find_start_index `{UnicodeDB} (items : list (list Z * list Z))
    (from_lemma after_lemma : option (list Z)) : nat :=
  if bool_decide (items = []) then O
  else
    let keys := map lower_key items in
    match opt_truthy from_lemma with
    | Some f => let key := uc_lower f in
                match list_index keys key with Some i => i | None => bisect_left keys key end
    | None =>
        match opt_truthy after_lemma with
        | Some a => let key := uc_lower a in
                    match list_index keys key with Some i => S i | None => bisect_left keys key end
        | None => O
        end
    end.

(** ** The file loop *)

Record Stats := mkStats { files_seen : nat; files_changed : nat; defs_changed : nat }.

(** The locals of [enrich_dictionary] that outlive the entry loop:
    [before] (as the value dumped), [defs] and [new_defs]; [None] is an
    unbound name. *)
Record LoopVars := mkLoopVars {
  lv_before : option json;
  lv_defs : option (list json);
  lv_new_defs : option (list json)
}.

Definition LoopVars_init : LoopVars := mkLoopVars None None None.

(** One turn of [for entry in entries]; [None] is an exception. *)
Definition entry_step (enrich : json -> option json) (lv : LoopVars) (entry : json) : option LoopVars :=
  match entry with
  | JObj fs =>
      let defs := py_or (obj_get fs k_definitions) (JArr []) in
      if negb (py_truthy defs) then Some (mkLoopVars (lv_before lv) (Some []) (lv_new_defs lv))
      else
        ds ← py_iter defs;
        new_defs ← opt_mapM enrich ds;
        Some (mkLoopVars (Some defs) (Some ds) (Some new_defs))
  | _ => None
  end.

Fixpoint entries_loop (enrich : json -> option json) (lv : LoopVars) (entries : list json)
    : option LoopVars :=
  match entries with
  | [] => Some lv
  | e :: es => lv' ← entry_step enrich lv e; entries_loop enrich lv' es
  end.

(** [sum(1 for a, b in zip(defs, new_defs) if dumps(a) != dumps(b)) or 1] *)
Definition count_changed (defs new_defs : list json) : nat :=
  match length (filter (fun ab => negb (dumps_eq ab.1 ab.2)) (zip defs new_defs)) with
  | O => 1%nat
  | n => n
  end.

(** [entry["definitions"] = new_defs] on the last entry of the list
    (the loop variable after the loop); with no entries it is an entry
    of an earlier file that changes, which is not written again. *)
Definition set_last_definitions (entries : list json) (new_defs : list json) : list json :=
  match rev entries with
  | JObj fs :: rest => rev rest ++ [JObj (obj_set fs k_definitions (JArr new_defs))]
  | _ => entries
  end.

(** One turn of the file loop on the loaded payload ([None] is the read
    error that is skipped): the new statistics and loop variables, and
    the payload written back, if any.  [None] as a whole is an exception
    that ends the run. *)
Definition file_step (enrich : json -> option json) (write : bool) (st : Stats * LoopVars)
    (data : option json) : option ((Stats * LoopVars) * option json) :=
  let '(stats, lv) := st in
  let stats := mkStats (S (files_seen stats)) (files_changed stats) (defs_changed stats) in
  match data with
  | None => Some ((stats, lv), None)
  | Some obj =>
      match _normalize_payload obj with
      | None => Some ((stats, lv), None)
      | Some (entries, rehydrate) =>
          lv ← entries_loop enrich lv entries;
          new_defs ← lv_new_defs lv;
          before ← lv_before lv;
          defs ← lv_defs lv;
          if dumps_eq (JArr new_defs) before then Some ((stats, lv), None)
          else
            let entries := set_last_definitions entries new_defs in
            let stats := mkStats (files_seen stats) (S (files_changed stats))
                                 (defs_changed stats + count_changed defs new_defs) in
            Some ((stats, lv), if write then Some (rehydrate entries) else None)
      end
  end.

(** [for lemma, jf in items: ...]: the statistics and the [(path,
    payload)] pairs written, in order. *)
Fixpoint files_loop (load : list Z -> option json) (enrich : json -> option json) (write : bool)
    (st : Stats * LoopVars) (items : list (list Z * list Z))
    : option (Stats * list (list Z * json)) :=
  match items with
  | [] => Some (st.1, [])
  | (_, jf) :: items' =>
      r ← file_step enrich write st (load jf);
      let '(st', out) := r in
      res ← files_loop load enrich write st' items';
      Some (res.1, match out with Some p => (jf, p) :: res.2 | None => res.2 end)
  end.

(** [enrich_dictionary(pos, word, from_lemma, after_lemma, write, ...,
    keep_in_gloss, overwrite)] on the [(stem, path)] items listed under
    the selected POS directories, [load] reading a file.  Backups are
    copies of the file before the write and are not modelled. *)
Definition enrich_dictionary `{UnicodeDB} (listed : list (list Z * list Z))
    (load : list Z -> option json) (word from_lemma after_lemma : option (list Z))
    (write keep_in_gloss overwrite : bool) : option (Stats * list (list Z * json)) :=
  let items := _collect_lemmas listed word in
  let start := _find_start_index items from_lemma after_lemma in
  files_loop load (fun d => _enrich_def_obj_in_place d (negb keep_in_gloss) overwrite) write
             (mkStats 0 0 0, LoopVars_init) (drop start items).

(** An entry whose [entry.get("definitions") or []] is falsy. *)
Definition no_defs (e : json) : bool :=
  match e with JObj fs => negb (py_truthy (obj_get fs k_definitions)) | _ => false end.

(** ** Sample files *)

(** The enrichment of the command line's defaults on ASCII text. *)
Definition enrich_ascii (d : json) : option json := @_enrich_def_obj_in_place ascii_db d true false.

Definition sample_entry (gloss : string) : json :=
  JObj [(k_pos, JStr (str "V")); (k_definitions, JArr [JObj [(k_definition, JStr (str gloss))]])].

(** [V/a.json]: two entries; [V/b.json]: one entry with no definitions. *)
Definition sample_file_a : json :=
  JArr [sample_entry "(rare) To praise."; sample_entry "(obsolete) To blame."].

Definition sample_file_b : json :=
  JArr [JObj [(k_pos, JStr (str "V")); (k_definitions, JArr [])]].

Definition sample_listing : list (list Z * list Z) :=
  [(str "b", str "V/b.json"); (str "a", str "V/a.json")].

Definition sample_load (p : list Z) : option json :=
  if bool_decide (p = str "V/a.json") then Some sample_file_a
  else if bool_decide (p = str "V/b.json") then Some sample_file_b else None.

(** The definition of [sample_entry "(obsolete) To blame."] and its
    enrichment. *)
Definition blame_def : json := JObj [(k_definition, JStr (str "(obsolete) To blame."))].

Definition blame_enriched : json :=
  JObj [(k_definition, JStr (str "To blame.")); (k_labels, JArr [JStr (str "obsolete")]);
        (k_label_groups, JStr (str "obsolete"))].

(** ** Lemmas on payloads *)

Lemma obj_get_elem fs k v :
  NoDup (map fst fs) -> (k, v) ∈ fs -> obj_get fs k = v.
Proof.
  unfold obj_get. induction fs as [|[k0 v0] fs IH]; simpl; intros Hnd Hin;
    [by apply not_elem_of_nil in Hin|].
  apply NoDup_cons in Hnd as [Hk0 Hnd]. apply elem_of_cons in Hin as [Heq|Hin].
  - simplify_eq. by rewrite bool_decide_eq_true_2.
  - rewrite bool_decide_eq_false_2; [by apply IH|]. intros ->. apply Hk0.
    apply list_elem_of_fmap. by exists (k, v).
Qed.

Lemma obj_get_some_key fs k :
  obj_get fs k <> JNull -> exists v, (k, v) ∈ fs /\ obj_get fs k = v.
Proof.
  unfold obj_get. induction fs as [|[k0 v0] fs IH]; simpl; [done|].
  case_bool_decide; simplify_eq; simpl.
  - intros _. exists v0. split; [apply list_elem_of_here|done].
  - intros Hne. destruct (IH Hne) as (v & Hin & Hv). exists v. split; [by apply list_elem_of_further|done].
Qed.

Lemma obj_set_same fs k v :
  NoDup (map fst fs) -> (k, v) ∈ fs -> obj_set fs k v = fs.
Proof.
  intros Hnd Hin. unfold obj_set.
  replace (existsb _ fs) with true.
  2:{ symmetry. apply existsb_exists. exists (k, v). split; [by apply list_elem_of_In|].
      by rewrite bool_decide_eq_true_2. }
  induction fs as [|[k0 v0] fs IH]; simpl; [done|].
  apply NoDup_cons in Hnd as [Hk0 Hnd]. apply elem_of_cons in Hin as [Heq|Hin].
  - simplify_eq. rewrite bool_decide_eq_true_2 by done. f_equal.
    rewrite <-(List.map_id fs) at 2. apply List.map_ext_in. intros [k1 v1] Hin1.
    rewrite bool_decide_eq_false_2; [done|]. simpl. intros ->. apply Hk0.
    apply list_elem_of_fmap. exists (k0, v1). split; [done|]. by apply list_elem_of_In.
  - rewrite bool_decide_eq_false_2, IH; [done|done|done|]. intros ->. apply Hk0.
    apply list_elem_of_fmap. by exists (k, v).
Qed.

Lemma obj_set_get fs k :
  NoDup (map fst fs) -> obj_get fs k <> JNull -> obj_set fs k (obj_get fs k) = fs.
Proof.
  intros Hnd Hne. destruct (obj_get_some_key fs k Hne) as (v & Hin & ->).
  by apply obj_set_same.
Qed.

(** ** Lemmas on the entry loop *)

Lemma entries_loop_no_defs enrich b d n entries :
  forallb no_defs entries = true ->
  entries_loop enrich (mkLoopVars b d n) entries =
  Some (mkLoopVars b (match entries with [] => d | _ => Some [] end) n).
Proof.
  revert d. induction entries as [|e es IH]; intros d Hall; [done|].
  simpl in Hall. apply andb_true_iff in Hall as [He Hes].
  destruct e as [| | | | |fs]; try done. simpl in He |- *.
  unfold py_or. apply negb_true_iff in He. rewrite He. simpl.
  rewrite IH by done. by destruct es.
Qed.

Lemma entry_step_defs enrich lv fs ds nds :
  obj_get fs k_definitions = JArr ds -> ds <> [] -> opt_mapM enrich ds = Some nds ->
  entry_step enrich lv (JObj fs) = Some (mkLoopVars (Some (JArr ds)) (Some ds) (Some nds)).
Proof.
  intros Hget Hne Hmap. simpl. rewrite Hget. unfold py_or.
  destruct ds as [|d ds]; [done|]. cbn -[opt_mapM]. by rewrite Hmap.
Qed.

Lemma entries_loop_app enrich lv es1 es2 :
  entries_loop enrich lv (es1 ++ es2) = (lv' ← entries_loop enrich lv es1; entries_loop enrich lv' es2).
Proof.
  revert lv. induction es1 as [|e es1 IH]; intros lv; simpl; [done|].
  destruct (entry_step enrich lv e); simpl; [apply IH|done].
Qed.

Lemma set_last_definitions_spec entries nds :
  length (set_last_definitions entries nds) = length entries /\
  take (length entries - 1) (set_last_definitions entries nds) = take (length entries - 1) entries.
Proof.
  destruct entries as [|e0 es0] using rev_ind; [done|].
  unfold set_last_definitions. rewrite rev_unit.
  rewrite length_app. simpl. replace (length es0 + 1 - 1)%nat with (length es0) by lia.
  destruct e0; rewrite ?rev_involutive, ?take_app_length; split; rewrite ?length_app; done.
Qed.

Lemma file_step_seen enrich write stats lv d st' lv' out :
  file_step enrich write (stats, lv) d = Some ((st', lv'), out) ->
  files_seen st' = S (files_seen stats).
Proof.
  unfold file_step. destruct d as [obj|]; [|intros; by simplify_eq].
  destruct (_normalize_payload obj) as [[es rh]|]; [|intros; by simplify_eq].
  intros Hf. inv_obind Hf; by simplify_eq.
Qed.

Lemma files_loop_seen load enrich write stats lv items stats' outs :
  files_loop load enrich write (stats, lv) items = Some (stats', outs) ->
  files_seen stats' = (files_seen stats + length items)%nat.
Proof.
  revert stats lv outs. induction items as [|[stem jf] items IH]; intros stats lv outs H;
    cbn [files_loop] in H; [simplify_eq; simpl; lia|].
  destruct (file_step _ _ _ _) as [[[st' lv'] out]|] eqn:Hf; simpl in H; [|done].
  destruct (files_loop _ _ _ _ _) as [[s o]|] eqn:Hl; simpl in H; simplify_eq.
  apply IH in Hl. apply file_step_seen in Hf. simpl. lia.
Qed.

(** ** Lemmas on the order of the files *)

(** [a] comes before [b] or is equal to it in [str] order. *)
Definition key_le (a b : list Z) : Prop := str_ltb b a = false.

Lemma key_le_trans a b c : key_le a b -> key_le b c -> key_le a c.
Proof. unfold key_le. intros. eauto using str_le_trans. Qed.

Lemma StronglySorted_lookup {A} (R : A -> A -> Prop) l i j x y :
  StronglySorted R l -> (i < j)%nat -> l !! i = Some x -> l !! j = Some y -> R x y.
Proof.
  intros Hs. revert i j. induction Hs as [|z l Hs IH Hz]; intros i j Hij Hi Hj; [done|].
  destruct i as [|i], j as [|j]; simpl in *; try lia.
  - simplify_eq. apply List.Forall_forall with (x := y) in Hz; [done|].
    by apply list_elem_of_In, list_elem_of_lookup_2 with j.
  - apply (IH i j); [lia|done|done].
Qed.

Lemma insert_by_perm {A} (key : A -> list Z) x l : insert_by key x l ≡ₚ x :: l.
Proof.
  induction l as [|y l IH]; simpl; [done|].
  destruct (str_ltb _ _); [done|]. rewrite IH. apply Permutation_swap.
Qed.

Lemma sort_by_perm {A} (key : A -> list Z) l : sort_by key l ≡ₚ l.
Proof.
  unfold sort_by. rewrite <-(reverse_Permutation l) at 2. unfold reverse. rewrite <-rev_alt.
  induction (rev l) as [|x l' IH]; simpl; [done|]. by rewrite insert_by_perm, IH.
Qed.

Lemma insert_by_sorted {A} (key : A -> list Z) x l :
  StronglySorted (fun a b => key_le (key a) (key b)) l ->
  StronglySorted (fun a b => key_le (key a) (key b)) (insert_by key x l).
Proof.
  unfold key_le. induction 1 as [|y l Hs IH Hy]; simpl; [repeat constructor|].
  destruct (str_ltb (key x) (key y)) eqn:Hxy.
  - assert (str_ltb (key y) (key x) = false) as Hyx.
    { destruct (str_ltb (key y) (key x)) eqn:E; [|done].
      pose proof (str_ltb_trans _ _ _ Hxy E) as Hxx. by rewrite str_ltb_irrefl in Hxx. }
    constructor; [by constructor|]. constructor; [done|].
    eapply List.Forall_impl; [|exact Hy]. intros z Hz. simpl in Hz.
    destruct (str_ltb (key z) (key x)) eqn:E; [|done].
    pose proof (str_ltb_trans _ _ _ E Hxy) as Hzy. by rewrite Hzy in Hz.
  - constructor; [done|]. apply Permutation_Forall with (x :: l); [by rewrite insert_by_perm|].
    by constructor.
Qed.

Lemma sort_by_sorted {A} (key : A -> list Z) l :
  StronglySorted (fun a b => key_le (key a) (key b)) (sort_by key l).
Proof.
  unfold sort_by. induction (rev l); simpl; [constructor|]. by apply insert_by_sorted.
Qed.

Lemma sorted_keys {A} (key : A -> list Z) l :
  StronglySorted (fun a b => key_le (key a) (key b)) l -> StronglySorted key_le (map key l).
Proof.
  intros Hs. change (map key l) with (key <$> l).
  by apply (StronglySorted_fmap key (fun a b => key_le (key a) (key b)) key_le).
Qed.

(** The partition point of [filter P a]: a prefix of elements [P] holds
    of and a suffix it does not hold of. *)
Lemma partition_point_count (P : list Z -> bool) (a : list (list Z)) (r : nat) :
  (r <= length a)%nat ->
  (forall i y, (i < r)%nat -> a !! i = Some y -> P y = true) ->
  (forall i y, (r <= i)%nat -> a !! i = Some y -> P y = false) ->
  r = length (filter P a).
Proof.
  revert r. induction a as [|y a IH]; intros r Hr Hlt Hge; simpl in *; [lia|].
  destruct r as [|r].
  - rewrite filter_cons_False by (rewrite (Hge 0%nat y) by (done || lia); simpl; tauto).
    apply (IH 0%nat); [lia|intros; lia|]. intros i z _ Hz. apply (Hge (S i)); [lia|done].
  - rewrite filter_cons_True by (rewrite (Hlt 0%nat y) by (done || lia); simpl; tauto). simpl.
    f_equal. apply IH; [lia|..]; intros i z Hi Hz; [apply (Hlt (S i))|apply (Hge (S i))]; (done || lia).
Qed.

Section Bisect.
Context (a : list (list Z)) (x : list Z).
Hypothesis Hsorted : StronglySorted key_le a.

(** Every index below [lo] holds a key before [x] and every index from
    [hi] on a key not before [x]. *)
Definition bisect_inv (lo hi : nat) : Prop :=
  (forall i y, (i < lo)%nat -> a !! i = Some y -> str_ltb y x = true) /\
  (forall i y, (hi <= i)%nat -> a !! i = Some y -> str_ltb y x = false).

Lemma bisect_inv_left lo hi mid m :
  bisect_inv lo hi -> a !! mid = Some m -> str_ltb m x = true -> bisect_inv (S mid) hi.
Proof.
  intros [Hlo Hhi] Hm Hmx. split; [|done]. intros i y Hi Hy.
  destruct (decide (i = mid)) as [->|]; [congruence|].
  apply (str_le_lt_trans y m x); [|done].
  apply (StronglySorted_lookup key_le a i mid); [done|lia|done|done].
Qed.

Lemma bisect_inv_right lo hi mid m :
  bisect_inv lo hi -> a !! mid = Some m -> str_ltb m x = false -> bisect_inv lo mid.
Proof.
  intros [Hlo Hhi] Hm Hmx. split; [done|]. intros i y Hi Hy.
  destruct (decide (i = mid)) as [->|]; [congruence|].
  apply (str_le_trans x m y); [done|].
  apply (StronglySorted_lookup key_le a mid i); [done|lia|done|done].
Qed.

#[local] Set Warnings "-deprecated".
Lemma bisect_go_spec fuel lo hi :
  (lo <= hi <= length a)%nat -> (hi - lo < fuel)%nat -> bisect_inv lo hi ->
  (bisect_go fuel a x lo hi <= length a)%nat /\ bisect_inv (bisect_go fuel a x lo hi) (bisect_go fuel a x lo hi).
Proof.
  revert lo hi. induction fuel as [|f IH]; intros lo hi Hr Hf Hinv; [lia|]. cbn [bisect_go].
  destruct (Nat.ltb_spec lo hi) as [Hlt|Hge]; [|split; [lia|]].
  - assert (lo <= (lo + hi) / 2 < hi)%nat as Hmid.
    { split; [apply Nat.div_le_lower_bound|apply Nat.div_lt_upper_bound]; lia. }
    destruct (lookup_lt_is_Some_2 a ((lo + hi) / 2)) as [m Hm]; [lia|]. rewrite Hm. cbn [default]. unfold id.
    destruct (str_ltb m x) eqn:Hmx.
    + apply IH; [lia|lia|]. eauto using bisect_inv_left.
    + apply IH; [lia|lia|]. eauto using bisect_inv_right.
  - replace hi with lo in Hinv by lia. done.
Qed.

End Bisect.

Lemma list_index_Some a x i :
  list_index a x = Some i ->
  a !! i = Some x /\ forall j y, (j < i)%nat -> a !! j = Some y -> y <> x.
Proof.
  revert i. induction a as [|z a IH]; intros i H; simpl in H; [done|].
  case_bool_decide; simplify_eq; [split; [done|intros; lia]|].
  destruct (list_index a x) as [i'|] eqn:E; simpl in H; simplify_eq.
  destruct (IH i' eq_refl) as [Hi Hbefore]. split; [done|].
  intros [|j] y Hj Hy; simpl in Hy; simplify_eq; [done|]. apply (Hbefore j); [lia|done].
Qed.

Lemma list_index_None a x : list_index a x = None -> forall j y, a !! j = Some y -> y <> x.
Proof.
  induction a as [|z a IH]; intros H j y Hy; simpl in H; [done|].
  case_bool_decide; [done|]. destruct (list_index a x) eqn:E; [done|].
  destruct j; simpl in Hy; simplify_eq; [done|]. by apply (IH eq_refl j).
Qed.

Lemma bisect_left_inv a x :
  StronglySorted key_le a ->
  (bisect_left a x <= length a)%nat /\ bisect_inv a x (bisect_left a x) (bisect_left a x).
Proof.
  intros Hs. apply bisect_go_spec; [done|lia|lia|].
  split; intros i y Hi Hy; [lia|]. apply lookup_lt_Some in Hy. lia.
Qed.

(** The [--from] start: [keys.index(key)] or [bisect_left(keys, key)]. *)
Lemma start_from_inv keys key :
  StronglySorted key_le keys ->
  let s := match list_index keys key with Some i => i | None => bisect_left keys key end in
  (s <= length keys)%nat /\ bisect_inv keys key s s.
Proof.
  intros Hs s. subst s. destruct (list_index keys key) as [i|] eqn:E; [|by apply bisect_left_inv].
  destruct (list_index_Some _ _ _ E) as [Hi Hbefore].
  split; [apply lookup_lt_Some in Hi; lia|split].
  - intros j y Hj Hy. apply str_ltb_total; [intros Heq; apply (Hbefore j y); congruence|].
    apply (StronglySorted_lookup key_le keys j i); [done|lia|done|done].
  - intros j y Hj Hy. destruct (decide (j = i)) as [->|]; simplify_eq; [apply str_ltb_irrefl|].
    apply (StronglySorted_lookup key_le keys i j); [done|lia|done|done].
Qed.

(** The [--after] start: [keys.index(key) + 1] or [bisect_left(keys, key)]. *)
Lemma start_after_inv keys key :
  StronglySorted key_le keys ->
  let s := match list_index keys key with Some i => S i | None => bisect_left keys key end in
  (s <= length keys)%nat /\
  (forall j y, (j < s)%nat -> keys !! j = Some y -> str_ltb key y = false) /\
  (forall j y, (s <= j)%nat -> keys !! j = Some y -> str_ltb y key = false).
Proof.
  intros Hs s. subst s. pose proof (start_from_inv keys key Hs) as Hfrom. simpl in Hfrom.
  destruct (list_index keys key) as [i|] eqn:E; destruct Hfrom as [Hle [Hlt Hge]].
  - destruct (list_index_Some _ _ _ E) as [Hi _]. apply lookup_lt_Some in Hi as Hlen.
    split_and!; [lia| |].
    + intros j y Hj Hy. destruct (decide (j = i)) as [->|]; simplify_eq; [apply str_ltb_irrefl|].
      apply str_ltb_asym, (Hlt j); [lia|done].
    + intros j y Hj Hy. apply (Hge j); [lia|done].
  - split_and!; [done| |done]. intros j y Hj Hy. apply str_ltb_asym, (Hlt j); [lia|done].
Qed.

Lemma collect_keys_sorted `{UnicodeDB} listed word :
  StronglySorted key_le (map lower_key (_collect_lemmas listed word)).
Proof. apply sorted_keys, sort_by_sorted. Qed.

Lemma opt_truthy_Some s : s <> [] -> opt_truthy (Some s) = Some s.
Proof. intros. simpl. by rewrite bool_decide_eq_false_2. Qed.

Lemma find_start_nil `{UnicodeDB} from_lemma after_lemma :
  _find_start_index [] from_lemma after_lemma = O.
Proof. reflexivity. Qed.

Lemma find_start_nonempty `{UnicodeDB} items from_lemma after_lemma :
  items <> [] ->
  _find_start_index items from_lemma after_lemma =
  let keys := map lower_key items in
  match opt_truthy from_lemma with
  | Some f => let key := uc_lower f in
              match list_index keys key with Some i => i | None => bisect_left keys key end
  | None =>
      match opt_truthy after_lemma with
      | Some a => let key := uc_lower a in
                  match list_index keys key with Some i => S i | None => bisect_left keys key end
      | None => O
      end
  end.
Proof. intros Hne. unfold _find_start_index. by rewrite bool_decide_eq_false_2. Qed.

(** ** The file loop *)

(** A file of one entry whose [definitions] is a non-empty list is
    processed as intended: its definitions are enriched, the file is
    counted as changed and written back with the enriched list exactly
    when the dumps differ, whatever the earlier files left in the loop
    variables. *)
Theorem enrich_single_entry enrich write stats lv obj fs rh ds nds :
  _normalize_payload obj = Some ([JObj fs], rh) ->
  obj_get fs k_definitions = JArr ds -> ds <> [] ->
  opt_mapM enrich ds = Some nds ->
  file_step enrich write (stats, lv) (Some obj) =
  Some ((if dumps_eq (JArr nds) (JArr ds)
         then mkStats (S (files_seen stats)) (files_changed stats) (defs_changed stats)
         else mkStats (S (files_seen stats)) (S (files_changed stats))
                      (defs_changed stats + count_changed ds nds),
         mkLoopVars (Some (JArr ds)) (Some ds) (Some nds)),
        if dumps_eq (JArr nds) (JArr ds) then None
        else if write then Some (rh [JObj (obj_set fs k_definitions (JArr nds))]) else None).
Proof.
  intros Hn Hget Hne Hmap. unfold file_step. rewrite Hn. cbn [entries_loop].
  rewrite (entry_step_defs enrich lv fs ds nds) by done. simpl. by destruct (dumps_eq _ _).
Qed.

(** C37: Only the last entry of a file is ever written with enriched
    definitions: in the payload written back every entry but the last is
    the entry as read, since the comparison and the assignment sit after
    the [for entry in entries] loop. *)
Theorem enrich_writes_only_last_entry enrich write st obj st' out entries rh :
  file_step enrich write st (Some obj) = Some (st', Some out) ->
  _normalize_payload obj = Some (entries, rh) ->
  exists entries', out = rh entries' /\ length entries' = length entries /\
    take (length entries - 1) entries' = take (length entries - 1) entries.
Proof.
  destruct st as [stats lv]. unfold file_step. intros Hf Hn. rewrite Hn in Hf.
  inv_obind Hf; simplify_eq. destruct write; simplify_eq.
  eexists. split; [done|]. apply set_last_definitions_spec.
Qed.

(** C36: The enriched definitions of one file leak into the next: a file
    whose entries have no definitions, read after a file whose last
    definitions changed, is counted as changed and written back with
    the earlier file's enriched definitions in its last entry. *)
Theorem enrich_carries_defs_across_files enrich stats b d nds obj entries rh :
  dumps_eq (JArr nds) b = false ->
  _normalize_payload obj = Some (entries, rh) ->
  entries <> [] -> forallb no_defs entries = true ->
  file_step enrich true (stats, mkLoopVars (Some b) d (Some nds)) (Some obj) =
  Some ((mkStats (S (files_seen stats)) (S (files_changed stats)) (defs_changed stats + 1),
         mkLoopVars (Some b) (Some []) (Some nds)),
        Some (rh (set_last_definitions entries nds))).
Proof.
  intros Hdiff Hn Hne Hall. unfold file_step. rewrite Hn.
  rewrite entries_loop_no_defs by done. destruct entries; [done|]. simpl.
  by rewrite Hdiff.
Qed.

(** When the first file read has no entry with definitions, the
    names [new_defs] and [before] are unbound after the entry loop and
    [enrich_dictionary] ends with a [NameError]. *)
Theorem enrich_first_file_name_error enrich write stats obj entries rh :
  _normalize_payload obj = Some (entries, rh) ->
  forallb no_defs entries = true ->
  file_step enrich write (stats, LoopVars_init) (Some obj) = None.
Proof.
  intros Hn Hall. unfold file_step, LoopVars_init. rewrite Hn.
  rewrite entries_loop_no_defs by done. done.
Qed.

(** ** Payloads *)

(** [rehydrate(entries)] rebuilds the payload as read: a file whose
    entries are written back unchanged is written back in its original
    shape (a list, a single entry, or a wrapper with [entries] or
    [variants]), given that an object has no duplicate keys, as a
    [dict] from [json.load] has not. *)
Theorem normalize_payload_rehydrate obj entries rehydrate :
  (match obj with JObj fs => NoDup (map fst fs) | _ => True end) ->
  _normalize_payload obj = Some (entries, rehydrate) -> rehydrate entries = obj.
Proof.
  intros Hnd Hn. destruct obj as [| | | | |fs]; simpl in Hn; try done; [by simplify_eq|].
  destruct (_ && _); [by simplify_eq|].
  destruct (obj_get fs k_entries) eqn:He; simplify_eq;
    try (destruct (obj_get fs k_variants) eqn:Hv; simplify_eq;
         rewrite <-Hv, obj_set_get by (done || congruence); done).
  rewrite <-He, obj_set_get by (done || congruence). done.
Qed.

(** ** Choosing the files *)

(** On a list sorted in [str] order, the binary search
    [bisect_left(a, x)] returns the number of elements before [x]: it
    agrees with the linear count. *)
Theorem bisect_left_count a x :
  StronglySorted key_le a -> bisect_left a x = length (filter (fun y => str_ltb y x) a).
Proof.
  intros Hs. destruct (bisect_left_inv a x Hs) as [Hle [Hlt Hge]].
  by apply partition_point_count.
Qed.

(** [_collect_lemmas] returns the listed items (those whose stem
    matches [word] case-insensitively, when [word] is given), each once,
    in [str] order of their lower-cased stems. *)
Theorem collect_lemmas_spec `{UnicodeDB} listed word :
  _collect_lemmas listed word ≡ₚ
    match opt_truthy word with
    | Some w => filter (fun it => lower_key it = uc_lower w) listed
    | None => listed
    end /\
  StronglySorted (fun a b => key_le (lower_key a) (lower_key b)) (_collect_lemmas listed word).
Proof. split; [apply sort_by_perm|apply sort_by_sorted]. Qed.

(** With [--from f], the run starts at the first file whose lower-
    cased stem is not before [f.lower()]: every file skipped comes
    before it and every file visited does not. *)
Theorem find_start_from_spec `{UnicodeDB} listed word f after_lemma :
  f <> [] ->
  let items := _collect_lemmas listed word in
  let start := _find_start_index items (Some f) after_lemma in
  (start <= length items)%nat /\
  (forall i k, (i < start)%nat -> map lower_key items !! i = Some k -> str_ltb k (uc_lower f) = true) /\
  (forall i k, (start <= i)%nat -> map lower_key items !! i = Some k -> str_ltb k (uc_lower f) = false).
Proof.
  intros Hf items start. subst items start.
  destruct (decide (_collect_lemmas listed word = [])) as [->|Hne].
  { rewrite find_start_nil. split_and!; [simpl; lia|..]; intros i k _ Hk; simpl in Hk; by rewrite lookup_nil in Hk. }
  rewrite find_start_nonempty, opt_truthy_Some by done. simpl.
  destruct (start_from_inv _ (uc_lower f) (collect_keys_sorted listed word)) as [Hle Hinv].
  rewrite length_map in Hle. by split.
Qed.

(** With [--after a], every file skipped has a lower-cased stem not
    after [a.lower()] and every file visited one not before it; a file
    whose stem equals [a.lower()] is visited when it follows the first
    such file. *)
Theorem find_start_after_spec `{UnicodeDB} listed word a :
  a <> [] ->
  let items := _collect_lemmas listed word in
  let start := _find_start_index items None (Some a) in
  (start <= length items)%nat /\
  (forall i k, (i < start)%nat -> map lower_key items !! i = Some k -> str_ltb (uc_lower a) k = false) /\
  (forall i k, (start <= i)%nat -> map lower_key items !! i = Some k -> str_ltb k (uc_lower a) = false).
Proof.
  intros Ha items start. subst items start.
  destruct (decide (_collect_lemmas listed word = [])) as [->|Hne].
  { rewrite find_start_nil. split_and!; [simpl; lia|..]; intros i k _ Hk; simpl in Hk; by rewrite lookup_nil in Hk. }
  rewrite find_start_nonempty, opt_truthy_Some by done. simpl.
  pose proof (start_after_inv _ (uc_lower a) (collect_keys_sorted listed word)) as Hs.
  simpl in Hs. rewrite length_map in Hs. exact Hs.
Qed.

(** ** Witnesses *)

Lemma normalize_payload_rehydrate_witness :
  exists rh, _normalize_payload (JObj [(k_entries, JArr [sample_entry "x"]); (k_pos, JStr (str "N"))]) =
               Some ([sample_entry "x"], rh) /\
             rh [sample_entry "x"] = JObj [(k_entries, JArr [sample_entry "x"]); (k_pos, JStr (str "N"))].
Proof.
  eexists. split; [reflexivity|]. eapply normalize_payload_rehydrate; [|reflexivity].
  apply (bool_decide_unpack _). vm_compute. reflexivity.
Defined.

Lemma enrich_single_entry_witness :
  exists r, file_step enrich_ascii true (mkStats 0 0 0, LoopVars_init)
                      (Some (sample_entry "(rare) To praise.")) = Some r.
Proof.
  eexists. eapply enrich_single_entry; [reflexivity|reflexivity|discriminate|reflexivity].
Defined.

Lemma enrich_writes_only_last_entry_witness :
  exists st' out,
    file_step enrich_ascii true (mkStats 0 0 0, LoopVars_init) (Some sample_file_a) = Some (st', Some out) /\
    exists entries', out = JArr entries' /\ length entries' = 2%nat /\
      take 1 entries' = [sample_entry "(rare) To praise."].
Proof.
  do 2 eexists. split; [reflexivity|].
  eapply (enrich_writes_only_last_entry enrich_ascii true (mkStats 0 0 0, LoopVars_init) sample_file_a
           _ _ [sample_entry "(rare) To praise."; sample_entry "(obsolete) To blame."] (fun lst => JArr lst));
    reflexivity.
Defined.

Lemma enrich_carries_defs_across_files_witness :
  file_step enrich_ascii true
    (mkStats 1 1 1, mkLoopVars (Some (JArr [blame_def])) (Some [blame_def]) (Some [blame_enriched]))
    (Some sample_file_b) =
  Some ((mkStats 2 2 2, mkLoopVars (Some (JArr [blame_def])) (Some []) (Some [blame_enriched])),
        Some (JArr [JObj [(k_pos, JStr (str "V")); (k_definitions, JArr [blame_enriched])]])).
Proof.
  apply (enrich_carries_defs_across_files enrich_ascii (mkStats 1 1 1) _ _ _ sample_file_b
           [JObj [(k_pos, JStr (str "V")); (k_definitions, JArr [])]] (fun lst => JArr lst));
    [vm_compute; reflexivity|reflexivity|discriminate|reflexivity].
Defined.

Lemma enrich_first_file_name_error_witness :
  file_step enrich_ascii true (mkStats 0 0 0, LoopVars_init) (Some sample_file_b) = None.
Proof.
  apply (enrich_first_file_name_error enrich_ascii true _ sample_file_b
           [JObj [(k_pos, JStr (str "V")); (k_definitions, JArr [])]] (fun lst => JArr lst));
    reflexivity.
Defined.

(** The whole run on the sample: [a.json] is written with its first
    entry left as read, and [b.json], which has no definitions, is
    written with the enriched definition of [a.json]. *)
Example enrich_dictionary_sample :
  @enrich_dictionary ascii_db sample_listing sample_load None None None true false false =
  Some (mkStats 2 2 2,
        [(str "V/a.json",
          JArr [sample_entry "(rare) To praise.";
                JObj [(k_pos, JStr (str "V")); (k_definitions, JArr [blame_enriched])]]);
         (str "V/b.json", JArr [JObj [(k_pos, JStr (str "V")); (k_definitions, JArr [blame_enriched])]])]).
Proof. vm_compute. reflexivity. Qed.

Lemma bisect_left_count_witness :
  bisect_left [str "able"; str "bill"; str "cart"] (str "bin") =
  length (filter (fun y => str_ltb y (str "bin")) [str "able"; str "bill"; str "cart"]).
Proof. apply bisect_left_count. repeat constructor. Defined.

Lemma find_start_from_spec_witness :
  let items := @_collect_lemmas ascii_db sample_listing None in
  let start := _find_start_index items (Some (str "b")) None in
  (start <= length items)%nat /\
  (forall i k, (i < start)%nat -> map lower_key items !! i = Some k -> str_ltb k (uc_lower (str "b")) = true) /\
  (forall i k, (start <= i)%nat -> map lower_key items !! i = Some k -> str_ltb k (uc_lower (str "b")) = false).
Proof. apply find_start_from_spec. discriminate. Defined.

Lemma find_start_after_spec_witness :
  let items := @_collect_lemmas ascii_db sample_listing None in
  let start := _find_start_index items None (Some (str "a")) in
  (start <= length items)%nat /\
  (forall i k, (i < start)%nat -> map lower_key items !! i = Some k -> str_ltb (uc_lower (str "a")) k = false) /\
  (forall i k, (start <= i)%nat -> map lower_key items !! i = Some k -> str_ltb k (uc_lower (str "a")) = false).
Proof. apply find_start_after_spec. discriminate. Defined.

(** [--after bill] with the files [Bill.json] and [bill.json]: the run
    starts at the second, whose stem is [bill] again. *)
Example find_start_after_duplicate :
  let items := @_collect_lemmas ascii_db [(str "Bill", str "N/Bill.json"); (str "bill", str "N/bill.json")] None in
  _find_start_index items None (Some (str "bill")) = 1%nat /\
  items !! 1%nat = Some (str "bill", str "N/bill.json").
Proof. vm_compute. split; reflexivity. Qed.
