(* ===== verification/WordSync.v ===== *)
(** * WordSync: the word scan of [sync_json_words_to_db.py]

    [src/memory/adapters/sync_json_words_to_db.py] walks the dictionary
    JSON files from a saved index, collects candidate words from each
    file ([collect_words_from_obj] with the regular expression
    [WORD_RE], or [collect_words_from_obj_fast]), keeps those that are
    not in the database, the blacklist or the earlier failures, stops
    at [--target-new] new words, saves the index reached, then scrapes
    the words in batches and merges the failures.

    Modelled here: [WORD_RE.findall] (greedy, leftmost, non-overlapping),
    [is_word_candidate], the three collectors threading the [out] dict
    (an association list in insertion order, [setdefault]), the resume
    logic of the state file, the scan loop with its index as a Python
    [int] (negative indices address the list from its end, as
    [files[idx]] does), [chunks], [scrape_one] with its retries against
    an oracle of scrape outcomes, the batch loop and the failure merge.
    Reading files, the database query and the scraper itself are given
    as functions or sets. *)

From S2P Require Import Prelude Text Json.

Open Scope Z_scope.

(** ** [WORD_RE = re.compile(r"[A-Za-z][A-Za-z'-]{0,63}")] *)

Definition word_head (c : Z) : bool := ascii_alpha c.
Definition word_tail (c : Z) : bool := ascii_alpha c || (c =? 39) || (c =? 45).

(** [WORD_RE.match] at the start of [s]: the word and the rest. *)
Definition word_match (s : list Z) : option (list Z * list Z) :=
  match s with
  | c :: s' =>
      if word_head c then
        let n := Nat.min 63 (span_while word_tail s') in Some (c :: take n s', drop n s')
      else None
  | [] => None
  end.

Fixpoint findall_go (fuel : nat) (s : list Z) : list (list Z) :=
  match fuel with
  | O => []
  | S f =>
      match s with
      | [] => []
      | _ :: s' =>
          match word_match s with
          | Some (w, rest) => w :: findall_go f rest
          | None => findall_go f s'
          end
      end
  end.

(** [WORD_RE.findall(s)]: every step consumes a codepoint, so
    [len(s)] steps are enough. *)
Definition WORD_RE_findall (s : list Z) : list (list Z) := findall_go (length s) s.

Definition STOPWORDS : list (list Z) :=
  map str ["the";"and";"of";"to";"in";"that";"it";"for";"on";"as";"with";"was";"is";"are";"be";
           "by";"an";"at";"from";"or";"this";"which";"but";"not";"have";"has";"had";"were";"their";
           "its";"they";"you";"we";"he";"she";"them";"his";"her";"my";"your";"our";"me";"us"].

(** ** Collectors *)

Section Collect.
Context `{UnicodeDB}.

(** The command line's filter: [min_len], [max_len], the stop words and
    [use_stopwords]. *)
Record WordFilter := mkWordFilter {
  min_len : Z; max_len : Z; stopwords : list (list Z); use_stopwords : bool
}.

Definition is_word_candidate (wf : WordFilter) (s : list Z) : bool :=
  let s := py_strip s in
  if bool_decide (s = []) then false
  else if negb ((1 <=? Zlength s) && (Zlength s <=? max_len wf)) then false
  else if Zlength s <? min_len wf then false
  else negb (use_stopwords wf && mem_str (uc_lower s) (stopwords wf)
             && negb (mem_str s [str "a"; str "I"])).

Definition collect_from_string (wf : WordFilter) (s : list Z) (out : str_dict) : str_dict :=
  foldl (fun out tok => if is_word_candidate wf tok then setdefault out (uc_lower tok) tok else out)
        out (WORD_RE_findall s).

(** [collect_words_from_obj(obj, out, ...)], with the nesting depth as
    fuel.  The loop over a key's [WORD_RE.findall] is the body of
    [collect_from_string]. *)
Fixpoint collect_words_from_obj (fuel : nat) (wf : WordFilter) (obj : json) (out : str_dict)
    : str_dict :=
  match fuel with
  | O => out
  | S f =>
      match obj with
      | JObj fs =>
          foldl (fun out kv =>
                   let out := collect_from_string wf kv.1 out in
                   match kv.2 with
                   | JStr v => collect_from_string wf v out
                   | JArr l => foldl (fun out it => collect_words_from_obj f wf it out) out l
                   | JObj _ => collect_words_from_obj f wf kv.2 out
                   | _ => out
                   end) out fs
      | JArr l => foldl (fun out it => collect_words_from_obj f wf it out) out l
      | JStr s => collect_from_string wf s out
      | _ => out
      end
  end.

(** [isinstance(v, str) and v.strip()] then [out.setdefault(v.lower(), v)] *)
Definition add_nonblank (out : str_dict) (v : json) : str_dict :=
  match v with
  | JStr s => if bool_decide (py_strip s = []) then out else setdefault out (uc_lower s) s
  | _ => out
  end.

Fixpoint collect_words_from_obj_fast (fuel : nat) (obj : json) (out : str_dict) : str_dict :=
  match fuel with
  | O => out
  | S f =>
      match obj with
      | JObj fs =>
          let out := foldl (fun out k => add_nonblank out (obj_get fs k)) out [str "lemma"; str "word"] in
          let out := foldl (fun out k => match obj_get fs k with
                                         | JArr l => foldl add_nonblank out l
                                         | _ => out
                                         end) out
                           [str "variants"; str "forms"; str "alternatives"; str "alt"] in
          foldl (fun out kv =>
                   let out := add_nonblank out (JStr kv.1) in
                   match kv.2 with
                   | JObj _ | JArr _ => collect_words_from_obj_fast f kv.2 out
                   | _ => out
                   end) out fs
      | JArr l => foldl (fun out it => collect_words_from_obj_fast f it out) out l
      | _ => out
      end
  end.

End Collect.

(** ** The resume state *)

(** [files[idx]] on a Python [int]: negative indices count from the
    end; [None] is the [IndexError]. *)
Definition py_index {A} (l : list A) (i : Z) : option A :=
  if i <? 0 then (if i + Zlength l <? 0 then None else l !! Z.to_nat (i + Zlength l))
  else l !! Z.to_nat i.

Definition has_key (fs : list (list Z * json)) (k : list Z) : bool :=
  existsb (fun kv => bool_decide (kv.1 = k)) fs.

(** [state.get(k, d)] *)
Definition get_default (fs : list (list Z * json)) (k : list Z) (d : json) : json :=
  if has_key fs k then obj_get fs k else d.

(** The ASCII decimal digits of [int(s)], with single underscores
    between digits; [seen] is whether the previous codepoint was a
    digit.  Other Unicode decimal digits are not accepted. *)
Fixpoint int_digits (s : list Z) (seen : bool) (acc : Z) : option Z :=
  match s with
  | [] => if seen then Some acc else None
  | c :: s' =>
      if (48 <=? c) && (c <=? 57) then int_digits s' true (acc * 10 + (c - 48))
      else if (c =? 95) && seen then int_digits s' false acc
      else None
  end.

(** [int(s)] of a [str]: surrounding whitespace, an optional sign. *)
Definition py_int_str (s : list Z) : option Z :=
  match py_strip s with
  | 43 :: r => int_digits r false 0
  | 45 :: r => Z.opp <$> int_digits r false 0
  | t => int_digits t false 0
  end.

(** [int(v)] on a value read from JSON; [None] is the exception. *)
Definition py_int (v : json) : option Z :=
  match v with
  | JNum n => Some n
  | JBool b => Some (if b then 1 else 0)
  | JStr s => py_int_str s
  | _ => None
  end.

(** The file list of the state: a list of path strings.  The program
    writes the state file itself, with a list of strings under [files]
    and an [int] under [idx]; other shapes are taken as errors. *)
Definition json_str_list (v : json) : option (list (list Z)) :=
  match v with
  | JArr l => mapM (fun x => match x with JStr s => Some s | _ => None end) l
  | _ => None
  end.

(** Lines 202-216 of [main]: the state and file list to resume from, and
    the start index.  [build] is [build_file_list(root, file_glob)]. *)
Definition resume (refresh : bool) (root : list Z) (file_glob : option (list Z))
    (build : list (list Z)) (state : list (list Z * json))
    : option (list (list Z * json) * list (list Z) * Z) :=
  let glob := default [] file_glob in
  let need_build := refresh || negb (has_key state (str "files"))
                    || negb (bool_decide (obj_get state (str "root") = JStr root))
                    || negb (bool_decide (obj_get state (str "file_glob") = JStr glob)) in
  r ← (if need_build
       then Some ([(str "version", JNum 3); (str "root", JStr root); (str "file_glob", JStr glob);
                   (str "files", JArr (map JStr build)); (str "idx", JNum 0); (str "runs", JNum 0)],
                  build)
       else files ← json_str_list (get_default state (str "files") (JArr [])); Some (state, files));
  let '(state, files) := r in
  idx ← py_int (get_default state (str "idx") (JNum 0));
  if Zlength files <=? idx
  then Some (obj_set (obj_set state (str "files") (JArr (map JStr build))) (str "idx") (JNum 0), build, 0)
  else Some (state, files, idx).

(** ** The scan *)

(** What the scan is given: the sets of [have], [blacklist] and
    [failed_prev_lower], the switches and the reader of a file. *)
Record ScanConfig := mkScanConfig {
  sc_filter : WordFilter;
  sc_fast : bool;
  sc_have : list (list Z);
  sc_blacklist : list (list Z);
  sc_failed : list (list Z);
  sc_target_new : Z;
  sc_limit_scan_files : Z;
  sc_load : list Z -> option json
}.

Record ScanState := mkScanState { idx : Z; visited : Z; found_map : str_dict }.

(** The candidates of one file. *)
Definition file_candidates `{UnicodeDB} (cfg : ScanConfig) (data : json) : str_dict :=
  if sc_fast cfg then collect_words_from_obj_fast (S (json_depth data)) data []
  else collect_words_from_obj (S (json_depth data)) (sc_filter cfg) data [].

(** Lines 250-256: drop the words already known. *)
Definition new_candidates (cfg : ScanConfig) (cand : str_dict) : str_dict :=
  filter (fun lo => negb (mem_str lo.1 (sc_have cfg)) && negb (mem_str lo.1 (sc_blacklist cfg))
                    && negb (mem_str lo.1 (sc_failed cfg))) cand.

(** Lines 258-262: add the new words until [target_new] is reached. *)
Fixpoint add_found (target : Z) (found : str_dict) (cand : str_dict) : str_dict :=
  match cand with
  | [] => found
  | (low, orig) :: cand' =>
      if mem_str low (map fst found) then add_found target found cand'
      else let found := found ++ [(low, orig)] in
           if target <=? Zlength found then found else add_found target found cand'
  end.

(** The [while] loop of lines 235-270 with fuel; [None] is the
    [IndexError] of [files[idx]]. *)
Fixpoint scan_loop `{UnicodeDB} (fuel : nat) (cfg : ScanConfig) (files : list (list Z))
    (st : ScanState) : option ScanState :=
  match fuel with
  | O => Some st
  | S f =>
      if (idx st <? Zlength files) && (Zlength (found_map st) <? sc_target_new cfg) then
        p ← py_index files (idx st);
        match sc_load cfg p with
        | None => scan_loop f cfg files (mkScanState (idx st + 1) (visited st + 1) (found_map st))
        | Some data =>
            let cand := new_candidates cfg (file_candidates cfg data) in
            let found := add_found (sc_target_new cfg) (found_map st) cand in
            let st' := mkScanState (idx st + 1) (visited st + 1) found in
            if negb (sc_limit_scan_files cfg =? 0) && (sc_limit_scan_files cfg <=? visited st')
            then Some st'
            else scan_loop f cfg files st'
        end
      else Some st
  end.

(** Every turn adds one to [idx], so the loop runs at most
    [files_total - idx] times. *)
Definition scan_fuel (files : list (list Z)) (i : Z) : nat := Z.to_nat (Zlength files - i).

(** Lines 202-281: the scan part of [main]: the new words and the state
    saved. *)
Definition sync_scan `{UnicodeDB} (cfg : ScanConfig) (refresh : bool) (root : list Z)
    (file_glob : option (list Z)) (build : list (list Z)) (state : list (list Z * json))
    : option (list (list Z) * list (list Z * json)) :=
  r ← resume refresh root file_glob build state;
  let '(state, files, i) := r in
  st ← scan_loop (scan_fuel files i) cfg files (mkScanState i 0 []);
  runs ← py_int (get_default state (str "runs") (JNum 0));
  Some (map snd (found_map st),
        obj_set (obj_set state (str "idx") (JNum (idx st))) (str "runs") (JNum (runs + 1))).

(** The regular expression's semantics: the matches of [findall] are
    leftmost, greedy up to 63 tail characters, and do not overlap. *)
Inductive findall_rel : list Z -> list (list Z) -> Prop :=
| fr_nil : findall_rel [] []
| fr_skip c s ws : word_head c = false -> findall_rel s ws -> findall_rel (c :: s) ws
| fr_match c t rest ws :
    word_head c = true -> forallb word_tail t = true -> (length t <= 63)%nat ->
    (length t = 63%nat \/ match rest with d :: _ => word_tail d = false | [] => True end) ->
    findall_rel rest ws -> findall_rel (c :: t ++ rest) ((c :: t) :: ws).

(** ** Scraping and the failure lists *)

(** [chunks(seq, n)] *)
Fixpoint chunks_go {A} (fuel : nat) (n : nat) (seq : list A) : list (list A) :=
  match fuel with
  | O => []
  | S f => match seq with [] => [] | _ => take n seq :: chunks_go f n (drop n seq) end
  end.

Definition chunks {A} (seq : list A) (n : Z) : list (list A) :=
  if n <=? 0 then [seq] else chunks_go (length seq) (Z.to_nat n) seq.

(** [scrape_one(w)]: attempt [a] of the scrape, enrichment and upsert of
    [w] succeeds when [outcome w a]; [None] is the [None] returned when
    [range(1, retries + 2)] is empty. *)
Fixpoint scrape_attempts (outcome : list Z -> Z -> bool) (retries : Z) (w : list Z) (a : Z)
    (fuel : nat) : option bool :=
  match fuel with
  | O => None
  | S f =>
      if outcome w a then Some true
      else if a <=? retries then scrape_attempts outcome retries w (a + 1) f
      else Some false
  end.

Definition scrape_one (outcome : list Z -> Z -> bool) (retries : Z) (w : list Z) : option bool :=
  scrape_attempts outcome retries w 1 (Z.to_nat (retries + 1)).

(** [ok = scrape_one(w); if not ok: failed.append(w)] *)
Definition scrape_ok (outcome : list Z -> Z -> bool) (retries : Z) (w : list Z) : bool :=
  match scrape_one outcome retries w with Some true => true | _ => false end.

(** Lines 311-320: the batch loop over the connection [db] (the lemmas
    of [l0_entry]): a word whose [scrape_one] returns [True] has been
    stored by [upsert_lemma] (its [lemma_obj["lemma"]] is the word,
    [scrape_word] sets it so), any other is appended to [failed].  The
    failed words in order and the lemmas at the end. *)
Definition scrape_batches (outcome : list Z -> Z -> bool) (retries batch_size : Z)
    (new_list db : list (list Z)) : list (list Z) * list (list Z) :=
  let n := if batch_size =? 0 then Zlength new_list else batch_size in
  foldl (fun acc batch =>
           foldl (fun '(failed, db) w =>
                    if scrape_ok outcome retries w then (failed, db ++ [w]) else (failed ++ [w], db))
                 acc batch)
        ([], db) (chunks new_list n).

Section Failures.
Context `{UnicodeDB}.

(** [{w.lower(): w for w in prev_failed}]: a later duplicate replaces
    the value and keeps the position. *)
Definition dict_assign (d : str_dict) (k v : list Z) : str_dict :=
  if mem_str k (map fst d) then map (fun kv => if bool_decide (kv.1 = k) then (k, v) else kv) d
  else d ++ [(k, v)].

(** Lines 325-330: the failures merged case-insensitively. *)
Definition merge_failed (prev_failed failed : list (list Z)) : list (list Z) :=
  let m := foldl (fun m w => dict_assign m (uc_lower w) w) [] prev_failed in
  let m := foldl (fun m w => if mem_str (uc_lower w) (map fst m) then m else m ++ [(uc_lower w, w)])
                 m failed in
  map snd m.

(** Lines 336-337: the new words without the failed ones. *)
Definition successes (new_list failed : list (list Z)) : list (list Z) :=
  let failed_now_lower := map uc_lower failed in
  filter (fun w => negb (mem_str (uc_lower w) failed_now_lower)) new_list.

End Failures.

(** ** A sample run *)

(** The defaults of the command line: [--min-len 1], [--max-len 64], the
    stop words on, [--target-new 2], no [--limit-scan-files]. *)
Definition sample_filter : WordFilter := mkWordFilter 1 64 STOPWORDS true.

Definition sample_scan_load (p : list Z) : option json :=
  if bool_decide (p = str "N/x.json") then Some (JObj [(str "definition", JStr (str "alpha beta gamma"))])
  else None.

Definition sample_cfg : ScanConfig :=
  mkScanConfig sample_filter false [str "definition"] [] [] 2 0 sample_scan_load.

Definition sample_files : list (list Z) := [str "N/x.json"].

(** ** Lemmas on [WORD_RE] *)

Lemma take_span_forallb f s : forallb f (take (span_while f s) s) = true.
Proof.
  induction s as [|c s IH]; simpl; [done|]. destruct (f c) eqn:E; simpl; [by rewrite E, IH|done].
Qed.

Lemma drop_span_stop f s :
  match drop (span_while f s) s with d :: _ => f d = false | [] => True end.
Proof.
  induction s as [|c s IH]; simpl; [done|]. by destruct (f c) eqn:E.
Qed.

Lemma word_match_some c s :
  word_head c = true ->
  exists t rest, word_match (c :: s) = Some (c :: t, rest) /\ s = t ++ rest /\
    forallb word_tail t = true /\ (length t <= 63)%nat /\
    (length t = 63%nat \/ match rest with d :: _ => word_tail d = false | [] => True end).
Proof.
  intros Hc. simpl. rewrite Hc. set (n := Nat.min 63 (span_while word_tail s)).
  exists (take n s), (drop n s). split_and!; [done|by rewrite take_drop| | |].
  - assert (take n s = take n (take (span_while word_tail s) s)) as ->.
    { rewrite take_take. f_equal. lia. }
    pose proof (take_span_forallb word_tail s) as Hall.
    rewrite <-(take_drop n (take (span_while word_tail s) s)), forallb_app in Hall.
    by apply andb_true_iff in Hall as [? _].
  - rewrite length_take. lia.
  - rewrite length_take. pose proof (span_while_le word_tail s).
    destruct (decide (63 <= span_while word_tail s)%nat); [left; subst n; lia|right].
    replace n with (span_while word_tail s) by (subst n; lia). apply drop_span_stop.
Qed.

Lemma word_match_unique c t rest :
  word_head c = true -> forallb word_tail t = true -> (length t <= 63)%nat ->
  (length t = 63%nat \/ match rest with d :: _ => word_tail d = false | [] => True end) ->
  word_match (c :: t ++ rest) = Some (c :: t, rest).
Proof.
  intros Hc Ht Hlen Hstop. unfold word_match. rewrite Hc, span_while_app_all by done.
  assert (Nat.min 63 (length t + span_while word_tail rest) = length t) as ->.
  { destruct Hstop as [->|Hstop]; [lia|]. destruct rest as [|d rest]; cbn [span_while]; [lia|].
    rewrite Hstop. lia. }
  by rewrite take_app_length, drop_app_length.
Qed.

Lemma word_match_length s w rest : word_match s = Some (w, rest) -> (length rest < length s)%nat.
Proof.
  destruct s as [|c s]; simpl; [done|]. destruct (word_head c); [|done]. intros [= <- <-].
  rewrite length_drop. lia.
Qed.

Lemma findall_go_fuel f1 f2 s :
  (length s <= f1)%nat -> (length s <= f2)%nat -> findall_go f1 s = findall_go f2 s.
Proof.
  revert f2 s. induction f1 as [|f1 IH]; intros [|f2] s H1 H2;
    destruct s as [|c s]; cbn [findall_go length] in *; try (done || lia).
  destruct (word_match (c :: s)) as [[w rest]|] eqn:E.
  - apply word_match_length in E. cbn [length] in E. f_equal. apply IH; lia.
  - apply IH; lia.
Qed.

Lemma findall_cons_skip c s : word_head c = false -> WORD_RE_findall (c :: s) = WORD_RE_findall s.
Proof. intros Hc. unfold WORD_RE_findall. simpl. by rewrite Hc. Qed.

Lemma findall_cons_match c t rest :
  word_head c = true -> forallb word_tail t = true -> (length t <= 63)%nat ->
  (length t = 63%nat \/ match rest with d :: _ => word_tail d = false | [] => True end) ->
  WORD_RE_findall (c :: t ++ rest) = (c :: t) :: WORD_RE_findall rest.
Proof.
  intros. unfold WORD_RE_findall. cbn [length findall_go]. rewrite word_match_unique by done.
  f_equal. apply findall_go_fuel; rewrite ?length_app; lia.
Qed.

Lemma findall_rel_complete n s : (length s <= n)%nat -> findall_rel s (WORD_RE_findall s).
Proof.
  revert s. induction n as [|n IH]; intros [|c s] Hs; cbn [length] in Hs;
    [constructor|lia|constructor|].
  destruct (word_head c) eqn:Hc.
  - destruct (word_match_some c s Hc) as (t & rest & _ & -> & Ht & Hlen & Hstop).
    rewrite findall_cons_match by done. apply fr_match; try done.
    apply IH. rewrite length_app in Hs. lia.
  - rewrite findall_cons_skip by done. apply fr_skip; [done|]. apply IH. lia.
Qed.

(** ** Lemmas on the collectors *)

Section CollectLemmas.
Context `{UnicodeDB}.

(** What [out] holds after a collector: candidates under their lower-
    cased form, each key once. *)
Definition cand_ok (wf : WordFilter) (d : str_dict) : Prop :=
  Forall (fun kv => is_word_candidate wf kv.2 = true /\ kv.1 = uc_lower kv.2) d /\ NoDup (map fst d).

Lemma cand_ok_setdefault wf d tok :
  is_word_candidate wf tok = true -> cand_ok wf d -> cand_ok wf (setdefault d (uc_lower tok) tok).
Proof.
  intros Htok [Hall Hnd]. split; [|by apply setdefault_keys].
  apply Forall_forall. intros kv [Hin| ->]%setdefault_elem; [|done].
  by eapply Forall_forall in Hall.
Qed.

Lemma collect_from_string_ok wf s out : cand_ok wf out -> cand_ok wf (collect_from_string wf s out).
Proof.
  unfold collect_from_string. apply foldl_inv. intros acc tok _ Hacc.
  destruct (is_word_candidate wf tok) eqn:E; [by apply cand_ok_setdefault|done].
Qed.

Lemma collect_words_from_obj_ok fuel wf obj out :
  cand_ok wf out -> cand_ok wf (collect_words_from_obj fuel wf obj out).
Proof.
  revert obj out. induction fuel as [|f IH]; intros obj out Hout; [done|].
  destruct obj as [| | |s|l|fs]; cbn [collect_words_from_obj]; try done.
  - by apply collect_from_string_ok.
  - apply foldl_inv; [|done]. intros acc x _. apply IH.
  - apply foldl_inv; [|done]. intros acc [k v] _ Hacc. cbn beta iota.
    pose proof (collect_from_string_ok wf k acc Hacc) as Hk.
    destruct v; cbn [fst snd]; try done; [by apply collect_from_string_ok| |by apply IH].
    apply foldl_inv; [|done]. intros acc' x _. apply IH.
Qed.

(** A collected pair: the word under its lower-cased form, not blank. *)
Definition pair_ok (kv : list Z * list Z) : Prop := kv.1 = uc_lower kv.2 /\ py_strip kv.2 <> [].

Lemma cand_ok_pair wf d : cand_ok wf d -> Forall pair_ok d.
Proof.
  intros [Hall _]. eapply Forall_impl; [exact Hall|]. intros kv [Hc Hk]. split; [done|].
  unfold is_word_candidate in Hc. by case_bool_decide.
Qed.

Lemma add_nonblank_ok out v : Forall pair_ok out -> Forall pair_ok (add_nonblank out v).
Proof.
  intros Hout. destruct v; simpl; try done. case_bool_decide; [done|].
  apply Forall_forall. intros kv [Hin| ->]%setdefault_elem; [by eapply Forall_forall in Hout|done].
Qed.

Lemma collect_fast_ok fuel obj out :
  Forall pair_ok out -> Forall pair_ok (collect_words_from_obj_fast fuel obj out).
Proof.
  revert obj out. induction fuel as [|f IH]; intros obj out Hout; [done|].
  destruct obj as [| | | |l|fs]; cbn [collect_words_from_obj_fast]; try done.
  - apply foldl_inv; [|done]. intros acc x _. apply IH.
  - apply foldl_inv; [|apply foldl_inv; [|apply foldl_inv; [|done]]].
    + intros acc [k v] _ Hacc. cbn beta iota. pose proof (add_nonblank_ok acc (JStr k) Hacc).
      destruct v; cbn [snd]; try done; by apply IH.
    + intros acc k _ Hacc. destruct (obj_get fs k); try done.
      apply foldl_inv; [|done]. intros ? ? _. apply add_nonblank_ok.
    + intros acc k _. apply add_nonblank_ok.
Qed.

End CollectLemmas.

(** ** Lemmas on the scan *)

Lemma file_candidates_pair_ok `{UnicodeDB} cfg data : Forall pair_ok (file_candidates cfg data).
Proof.
  unfold file_candidates. destruct (sc_fast cfg); [by apply collect_fast_ok|].
  apply (cand_ok_pair (sc_filter cfg)), collect_words_from_obj_ok. split; constructor.
Qed.

(** A word that the filter of lines 250-256 keeps. *)
Definition fresh (cfg : ScanConfig) (k : list Z) : bool :=
  negb (mem_str k (sc_have cfg)) && negb (mem_str k (sc_blacklist cfg)) && negb (mem_str k (sc_failed cfg)).

Lemma new_candidates_fresh cfg cand : Forall (fun kv => fresh cfg kv.1 = true) (new_candidates cfg cand).
Proof.
  apply Forall_forall. intros kv Hin. apply list_elem_of_filter in Hin as [Hf _]. by apply Is_true_true.
Qed.

Lemma mem_str_false k l : mem_str k l = false -> k ∉ l.
Proof. unfold mem_str. by case_bool_decide. Qed.

Lemma mem_str_false_2 k l : k ∉ l -> mem_str k l = false.
Proof. intros. unfold mem_str. by rewrite bool_decide_eq_false_2. Qed.

Lemma add_found_take target found cand :
  NoDup (map fst cand) -> (forall k, k ∈ map fst cand -> k ∉ map fst found) ->
  Zlength found < target ->
  add_found target found cand = found ++ take (Z.to_nat (target - Zlength found)) cand.
Proof.
  revert found. induction cand as [|[low orig] cand IH]; intros found Hnd Hdisj Hlt; simpl.
  { by rewrite take_nil, app_nil_r. }
  apply NoDup_cons in Hnd as [Hlow Hnd].
  rewrite mem_str_false_2 by (apply Hdisj; by left).
  rewrite Zlength_snoc.
  destruct (Z.leb_spec target (Zlength found + 1)).
  - replace (Z.to_nat (target - Zlength found)) with 1%nat by lia. done.
  - rewrite IH; [|done| |rewrite Zlength_snoc; lia].
    + rewrite <-app_assoc, Zlength_snoc.
      replace (Z.to_nat (target - Zlength found)) with (S (Z.to_nat (target - (Zlength found + 1)))) by lia.
      done.
    + intros k Hk. rewrite map_app. intros [Hin|Hin%list_elem_of_singleton]%elem_of_app.
      * apply (Hdisj k); [by right|done].
      * simpl in Hin. subst. done.
Qed.

Lemma add_found_inv cfg target found cand :
  NoDup (map fst found) -> Forall (fun kv => fresh cfg kv.1 = true) found ->
  Forall (fun kv => fresh cfg kv.1 = true) cand ->
  NoDup (map fst (add_found target found cand)) /\
  Forall (fun kv => fresh cfg kv.1 = true) (add_found target found cand).
Proof.
  revert found. induction cand as [|[low orig] cand IH]; intros found Hnd Hf Hc; simpl; [done|].
  apply Forall_cons in Hc as [Hlow Hc].
  destruct (mem_str low (map fst found)) eqn:E; [by apply IH|].
  assert (NoDup (map fst (found ++ [(low, orig)])) /\ Forall (fun kv => fresh cfg kv.1 = true) (found ++ [(low, orig)]))
    as [Hnd' Hf'].
  { rewrite map_app. split; [|by apply Forall_app; split; [|constructor]].
    apply NoDup_app. split_and!; [done| |apply NoDup_singleton].
    intros x Hx ->%list_elem_of_singleton. by apply mem_str_false in E. }
  destruct (_ <=? _); [done|]. by apply IH.
Qed.

Lemma add_found_len target found cand :
  Zlength found < target -> Zlength (add_found target found cand) <= target.
Proof.
  revert found. induction cand as [|[low orig] cand IH]; intros found Hlt; simpl; [lia|].
  destruct (mem_str _ _); [by apply IH|].
  destruct (Z.leb_spec target (Zlength (found ++ [(low, orig)]))) as [Hle|Hgt];
    [rewrite Zlength_snoc in *; lia|by apply IH].
Qed.

Lemma py_index_in_range {A} (l : list A) i :
  - Zlength l <= i < Zlength l -> exists x, py_index l i = Some x.
Proof.
  intros Hi. unfold py_index. rewrite Zlength_correct in Hi.
  destruct (Z.ltb_spec i 0); [rewrite (proj2 (Z.ltb_ge _ _)) by (rewrite Zlength_correct; lia)|];
    apply lookup_lt_is_Some_2; rewrite ?Zlength_correct; lia.
Qed.

Lemma py_index_nonneg {A} (l : list A) i : 0 <= i -> py_index l i = l !! Z.to_nat i.
Proof. intros Hi. unfold py_index. by rewrite (proj2 (Z.ltb_ge _ _)). Qed.

(** The scan state that the invariant of the found words holds of. *)
Definition scan_inv (cfg : ScanConfig) (st : ScanState) : Prop :=
  NoDup (map fst (found_map st)) /\ Forall (fun kv => fresh cfg kv.1 = true) (found_map st) /\
  Zlength (found_map st) <= Z.max 0 (sc_target_new cfg).

Lemma scan_inv_step `{UnicodeDB} cfg st data :
  scan_inv cfg st -> Zlength (found_map st) < sc_target_new cfg ->
  scan_inv cfg (mkScanState (idx st + 1) (visited st + 1)
     (add_found (sc_target_new cfg) (found_map st) (new_candidates cfg (file_candidates cfg data)))).
Proof.
  intros (Hnd & Hf & Hlen) Hlt. unfold scan_inv; simpl.
  destruct (add_found_inv cfg (sc_target_new cfg) (found_map st)
              (new_candidates cfg (file_candidates cfg data)) Hnd Hf (new_candidates_fresh _ _)).
  pose proof (add_found_len (sc_target_new cfg) (found_map st)
                (new_candidates cfg (file_candidates cfg data)) Hlt).
  split_and!; [done|done|lia].
Qed.

Lemma add_found_elem target found cand kv :
  kv ∈ add_found target found cand -> kv ∈ found \/ kv ∈ cand.
Proof.
  revert found. induction cand as [|[low orig] cand IH]; intros found; simpl; [by left|].
  destruct (mem_str _ _).
  - intros [?|?]%IH; [by left|right; by right].
  - destruct (target <=? _); intros Hkv; [|apply IH in Hkv as [Hkv|?]; [|right; by right]];
      apply elem_of_app in Hkv as [?|?%list_elem_of_singleton]; subst; (by left) || (right; by left).
Qed.

Lemma py_index_elem {A} (l : list A) i x : py_index l i = Some x -> x ∈ l.
Proof. unfold py_index. destruct (i <? 0); [destruct (_ <? 0); [done|]|]; apply list_elem_of_lookup_2. Qed.

(** A property of every new candidate of every file of the list holds
    of every word the scan collects. *)
Lemma scan_loop_found `{UnicodeDB} (P : list Z * list Z -> Prop) fuel cfg files st st' :
  scan_loop fuel cfg files st = Some st' ->
  (forall p data, p ∈ files -> sc_load cfg p = Some data ->
     Forall P (new_candidates cfg (file_candidates cfg data))) ->
  Forall P (found_map st) -> Forall P (found_map st').
Proof.
  intros Hs HP. revert st Hs. induction fuel as [|f IH]; intros st Hs Hst; simpl in Hs; [by simplify_eq|].
  destruct (_ && _); [|by simplify_eq].
  destruct (py_index files (idx st)) as [p|] eqn:Hp; simpl in Hs; [|done].
  destruct (sc_load cfg p) as [data|] eqn:Hl; [|by eapply IH].
  assert (Forall P (add_found (sc_target_new cfg) (found_map st)
                     (new_candidates cfg (file_candidates cfg data)))) as Hadd.
  { apply Forall_forall. intros kv [Hkv|Hkv]%add_found_elem; [by eapply Forall_forall in Hst|].
    eapply Forall_forall; [|exact Hkv]. eapply HP; [by eapply py_index_elem|done]. }
  destruct (negb _ && _); [by simplify_eq|]. by eapply IH.
Qed.

(** The scan leaves the index where it was or moves it forward, up to
    the end of the list. *)
Lemma scan_loop_idx `{UnicodeDB} fuel cfg files st st' :
  scan_loop fuel cfg files st = Some st' ->
  idx st' = idx st \/ idx st < idx st' <= Zlength files.
Proof.
  revert st. induction fuel as [|f IH]; intros st Hs; simpl in Hs; [simplify_eq; by left|].
  destruct (_ && _) eqn:Hc; [|simplify_eq; by left].
  apply andb_true_iff in Hc as [Hi%Z.ltb_lt _].
  destruct (py_index files (idx st)) as [p|]; simpl in Hs; [|done].
  destruct (sc_load cfg p) as [data|]; [destruct (negb _ && _)|]; try (simplify_eq; simpl; right; lia);
    (destruct (IH _ Hs) as [->|?]; simpl in *; right; lia).
Qed.

(** Without [--limit-scan-files], a scan with enough turns that ends
    short of [target_new] words ends at the end of the list. *)
Lemma scan_loop_end `{UnicodeDB} fuel cfg files st st' :
  scan_loop fuel cfg files st = Some st' -> sc_limit_scan_files cfg = 0 ->
  Zlength files - idx st <= Z.of_nat fuel -> Zlength (found_map st') < sc_target_new cfg ->
  Zlength files <= idx st'.
Proof.
  intros Hs Hlim. revert st Hs. induction fuel as [|f IH]; intros st Hs Hf Hlt; simpl in Hs.
  { simplify_eq. lia. }
  destruct (_ && _) eqn:Hc; [|simplify_eq; apply andb_false_iff in Hc as [?%Z.ltb_ge|?%Z.ltb_ge]; lia].
  destruct (py_index files (idx st)) as [p|]; simpl in Hs; [|done].
  rewrite Hlim in Hs. simpl in Hs.
  destruct (sc_load cfg p); (eapply IH; [exact Hs|simpl; lia|done]).
Qed.

(** ** The word scan *)

(** C38: [WORD_RE.findall] is the leftmost, greedy, non-overlapping
    match list of [[A-Za-z][A-Za-z'-]{0,63}]: the executable scan is the
    one list that the regular expression's semantics relates to the
    text. *)
Theorem findall_spec s ws : findall_rel s ws <-> ws = WORD_RE_findall s.
Proof.
  split.
  - induction 1 as [|c s ws Hc _ ->|c t rest ws Hc Ht Hlen Hstop _ ->].
    + done.
    + by rewrite findall_cons_skip.
    + by rewrite findall_cons_match.
  - intros ->. by apply (findall_rel_complete (length s)).
Qed.

(** [WORD_RE] cuts a word after 64 letters: a run of more than 64
    ASCII letters gives its first 64 as one candidate word and the rest
    as further words. *)
Theorem word_re_splits_long_words c t rest :
  ascii_alpha c = true -> forallb ascii_alpha t = true -> length t = 63%nat ->
  WORD_RE_findall (c :: t ++ rest) = (c :: t) :: WORD_RE_findall rest.
Proof.
  intros Hc Ht Hlen. apply findall_cons_match; [done| |lia|by left].
  apply forallb_forall. intros x Hx. eapply forallb_forall in Ht; [|exact Hx].
  unfold word_tail. by rewrite Ht.
Qed.

(** Every word the collectors store is a candidate of the filter,
    stored under its lower-cased form, and no key is stored twice. *)
Theorem collect_words_candidates `{UnicodeDB} fuel wf obj :
  cand_ok wf (collect_words_from_obj fuel wf obj []).
Proof. apply collect_words_from_obj_ok. split; constructor. Qed.

(** C40: From any index the list can address ([-len(files) <= idx]) the
    scan ends within [len(files) - idx] turns, without an [IndexError],
    at the end of the list, with [target_new] words found, or with
    [--limit-scan-files] files visited. *)
Theorem scan_terminates `{UnicodeDB} cfg files st :
  - Zlength files <= idx st ->
  exists st', scan_loop (scan_fuel files (idx st)) cfg files st = Some st' /\
    (Zlength files <= idx st' \/ sc_target_new cfg <= Zlength (found_map st') \/
     (sc_limit_scan_files cfg <> 0 /\ sc_limit_scan_files cfg <= visited st')).
Proof.
  unfold scan_fuel. remember (Z.to_nat (Zlength files - idx st)) as n eqn:Hn.
  revert st Hn. induction n as [|n IH]; intros st Hn Hlo; simpl.
  { exists st. split; [done|left; lia]. }
  destruct (Z.ltb_spec (idx st) (Zlength files)) as [Hi|Hi]; [|exists st; split; [done|left; lia]].
  destruct (Z.ltb_spec (Zlength (found_map st)) (sc_target_new cfg)) as [Hf|Hf];
    [|exists st; split; [done|right; left; lia]].
  destruct (py_index_in_range files (idx st)) as [p Hp]; [lia|]. rewrite Hp. simpl.
  destruct (sc_load cfg p) as [data|].
  - destruct (negb _ && _) eqn:Hlim.
    + eexists. split; [reflexivity|]. right; right. simpl.
      apply andb_true_iff in Hlim as [Hz Hle]. apply negb_true_iff, Z.eqb_neq in Hz.
      apply Z.leb_le in Hle. done.
    + apply IH; simpl; lia.
  - apply IH; simpl; lia.
Qed.

(** C35: The scan never collects more than [target_new] words, never a
    word twice, and only words not in the database, the blacklist or
    the earlier failures. *)
Theorem scan_found_bound `{UnicodeDB} fuel cfg files st st' :
  scan_inv cfg st -> scan_loop fuel cfg files st = Some st' -> scan_inv cfg st'.
Proof.
  revert st. induction fuel as [|f IH]; intros st Hinv Hs; simpl in Hs; [by simplify_eq|].
  destruct (_ && _) eqn:Hc; [|by simplify_eq].
  apply andb_true_iff in Hc as [_ Hlt%Z.ltb_lt].
  destruct (py_index files (idx st)) as [p|]; simpl in Hs; [|done].
  destruct (sc_load cfg p) as [data|].
  - pose proof (scan_inv_step cfg st data Hinv Hlt) as Hinv'.
    destruct (negb _ && _); [by simplify_eq|]. exact (IH _ Hinv' Hs).
  - eapply IH; [|exact Hs]. destruct Hinv as (? & ? & ?). split_and!; simpl; done.
Qed.

(** C39: The scan saves the index after the file in which it reaches
    [target_new]: when a file has more new words than are still wanted,
    the first ones are taken, the index moves past the file, and the
    words left over are in no list, so the next run, which resumes at
    the saved index, does not see them. *)
Theorem scan_loses_candidates `{UnicodeDB} f cfg files st p data :
  0 <= idx st < Zlength files -> files !! Z.to_nat (idx st) = Some p -> sc_load cfg p = Some data ->
  let cand := new_candidates cfg (file_candidates cfg data) in
  let n := Z.to_nat (sc_target_new cfg - Zlength (found_map st)) in
  NoDup (map fst cand) -> (forall k, k ∈ map fst cand -> k ∉ map fst (found_map st)) ->
  Zlength (found_map st) < sc_target_new cfg < Zlength (found_map st) + Zlength cand ->
  scan_loop (S f) cfg files st =
    Some (mkScanState (idx st + 1) (visited st + 1) (found_map st ++ take n cand)) /\
  drop n cand <> [] /\
  Forall (fun kv => kv.1 ∉ map fst (found_map st ++ take n cand)) (drop n cand).
Proof.
  intros Hi Hp Hload cand n Hnd Hdisj Htarget.
  assert (n < length cand)%nat as Hn by (subst n; rewrite (Zlength_correct cand) in Htarget; lia).
  split_and!.
  - cbn [scan_loop]. rewrite (proj2 (Z.ltb_lt _ _)), (proj2 (Z.ltb_lt _ _)) by lia. simpl.
    rewrite py_index_nonneg, Hp by lia. simpl. rewrite Hload.
    fold cand. rewrite add_found_take by (done || lia). fold n.
    destruct (negb _ && _); [done|].
    destruct f; simpl; [done|].
    rewrite (proj2 (Z.ltb_ge (Zlength (_ ++ take n cand)) _)); [by rewrite andb_false_r|].
    rewrite Zlength_app, (Zlength_correct (take _ _)), length_take. subst n. lia.
  - intros Hd. apply (f_equal length) in Hd. rewrite length_drop in Hd. simpl in Hd. lia.
  - apply Forall_forall. intros [k v] Hin. simpl. rewrite map_app.
    intros [Hk|Hk]%elem_of_app.
    + apply (Hdisj k); [|done]. apply list_elem_of_fmap. exists (k, v).
      split; [done|]. rewrite <-(take_drop n cand). apply elem_of_app. by right.
    + rewrite <-(take_drop n cand), map_app in Hnd. apply NoDup_app in Hnd as (_ & Hnd & _).
      apply (Hnd k); [done|]. apply list_elem_of_fmap. by exists (k, v).
Qed.

(** ** Lemmas on scraping *)

Lemma chunks_go_concat {A} fuel n (seq : list A) :
  (0 < n)%nat -> (length seq <= fuel)%nat -> concat (chunks_go fuel n seq) = seq.
Proof.
  revert seq. induction fuel as [|f IH]; intros seq Hn Hlen; simpl.
  - by destruct seq; [|simpl in Hlen; lia].
  - destruct seq as [|x seq]; [done|]. simpl. rewrite IH; [by rewrite take_drop|done|].
    rewrite length_drop. simpl in *. lia.
Qed.

Lemma chunks_concat {A} (seq : list A) n : concat (chunks seq n) = seq.
Proof.
  unfold chunks. destruct (Z.leb_spec n 0); [by rewrite concat_cons, app_nil_r|].
  apply chunks_go_concat; lia.
Qed.

Lemma foldl_concat {A B} (g : B -> A -> B) (b : B) (ls : list (list A)) :
  foldl (fun acc l => foldl g acc l) b ls = foldl g b (concat ls).
Proof.
  revert b. induction ls as [|l ls IH]; intros b; simpl; [done|]. by rewrite IH, foldl_app.
Qed.

Lemma foldl_partition (ok : list Z -> bool) (failed db l : list (list Z)) :
  foldl (fun '(failed, db) w => if ok w then (failed, db ++ [w]) else (failed ++ [w], db)) (failed, db) l =
  (failed ++ List.filter (fun w => negb (ok w)) l, db ++ List.filter ok l).
Proof.
  revert failed db. induction l as [|w l IH]; intros failed db; simpl; [by rewrite !app_nil_r|].
  destruct (ok w); simpl; rewrite IH, <-app_assoc; done.
Qed.

Lemma scrape_attempts_spec outcome retries w fuel a :
  Z.of_nat fuel = retries + 2 - a ->
  scrape_attempts outcome retries w a fuel = Some true <->
  exists a', a <= a' <= retries + 1 /\ outcome w a' = true.
Proof.
  revert a. induction fuel as [|f IH]; intros a Hf; simpl.
  - split; [done|]. intros (a' & ? & _). lia.
  - destruct (outcome w a) eqn:Ho.
    + split; [intros _; exists a; split; [lia|done]|done].
    + destruct (Z.leb_spec a retries).
      * rewrite IH by lia. split; intros (a' & Ha' & Ho'); exists a'; split; try done; try lia.
        destruct (decide (a' = a)); [congruence|lia].
      * split; [done|]. intros (a' & Ha' & Ho'). assert (a' = a) by lia. congruence.
Qed.

Section FailureLemmas.
Context `{UnicodeDB}.

(** The failure map: each value under its lower-cased form, each key once. *)
Definition lower_map_ok (m : str_dict) : Prop :=
  Forall (fun kv => kv.1 = uc_lower kv.2) m /\ NoDup (map fst m).

Lemma dict_assign_keys d k v : (map fst (dict_assign d k v) = map fst d) \/
  ((k ∉ map fst d) /\ map fst (dict_assign d k v) = map fst d ++ [k]).
Proof.
  unfold dict_assign. destruct (mem_str k (map fst d)) eqn:E.
  - left. rewrite map_map. apply List.map_ext. intros [k' v']. simpl. by case_bool_decide; subst.
  - right. split; [by apply mem_str_false|]. by rewrite map_app.
Qed.

Lemma dict_assign_ok d w : lower_map_ok d -> lower_map_ok (dict_assign d (uc_lower w) w).
Proof.
  intros [Hall Hnd]. split.
  - unfold dict_assign. destruct (mem_str _ _).
    + rewrite List.Forall_forall in Hall |- *. intros kv (kv0 & <- & Hin)%in_map_iff.
      specialize (Hall _ Hin). destruct kv0 as [k v]. simpl in *. by case_bool_decide.
    + apply Forall_app. split; [done|]. by constructor.
  - destruct (dict_assign_keys d (uc_lower w) w) as [->|[Hk ->]]; [done|].
    apply NoDup_app. split_and!; [done| |apply NoDup_singleton].
    intros x Hx ->%list_elem_of_singleton. done.
Qed.

Lemma dict_assign_key_set d k v x : x ∈ map fst (dict_assign d k v) <-> x ∈ map fst d \/ x = k.
Proof.
  unfold dict_assign. destruct (mem_str k (map fst d)) eqn:E.
  - rewrite map_map. unfold mem_str in E. apply bool_decide_eq_true in E.
    split; [|intros [Hx| ->]].
    + intros ([k' v'] & -> & Hin)%list_elem_of_fmap. simpl. case_bool_decide; [by right|left].
      apply list_elem_of_fmap. by exists (k', v').
    + apply list_elem_of_fmap in Hx as ([k' v'] & -> & Hin). apply list_elem_of_fmap.
      exists (k', v'). split; [|done]. simpl. by case_bool_decide; subst.
    + apply list_elem_of_fmap in E as ([k' v'] & Hk & Hin). simpl in Hk. subst.
      apply list_elem_of_fmap. exists (k', v'). split; [|done]. simpl. by case_bool_decide.
  - rewrite map_app, elem_of_app. split; (intros [Hx|Hx]; [by left|right]); [by apply list_elem_of_singleton in Hx|by apply list_elem_of_singleton].
Qed.

Lemma assign_all_ok acc ws :
  lower_map_ok acc ->
  lower_map_ok (foldl (fun m w => dict_assign m (uc_lower w) w) acc ws) /\
  forall x, x ∈ map fst (foldl (fun m w => dict_assign m (uc_lower w) w) acc ws) <->
            x ∈ map fst acc \/ x ∈ map uc_lower ws.
Proof.
  revert acc. induction ws as [|w ws IH]; intros acc Hacc; simpl.
  - split; [done|]. intros x. rewrite elem_of_nil. tauto.
  - destruct (IH _ (dict_assign_ok acc w Hacc)) as [Hok Hset]. split; [done|].
    intros x. rewrite Hset, dict_assign_key_set, elem_of_cons. tauto.
Qed.

Lemma append_new_ok acc ws :
  lower_map_ok acc ->
  let step := fun m w => if mem_str (uc_lower w) (map fst m) then m else m ++ [(uc_lower w, w)] in
  lower_map_ok (foldl step acc ws) /\
  forall x, x ∈ map fst (foldl step acc ws) <-> x ∈ map fst acc \/ x ∈ map uc_lower ws.
Proof.
  intros Hacc step. revert acc Hacc. induction ws as [|w ws IH]; intros acc Hacc; simpl.
  - split; [done|]. intros x. rewrite elem_of_nil. tauto.
  - assert (lower_map_ok (step acc w) /\ forall x, x ∈ map fst (step acc w) <-> x ∈ map fst acc \/ x = uc_lower w)
      as [Hok1 Hset1].
    { subst step. simpl. destruct (mem_str (uc_lower w) (map fst acc)) eqn:E.
      - split; [done|]. intros x. split; [by left|]. intros [?| ->]; [done|].
        unfold mem_str in E. by apply bool_decide_eq_true in E.
      - destruct Hacc as [Hall Hnd]. split; [split|].
        + apply Forall_app. split; [done|]. by constructor.
        + rewrite map_app. apply NoDup_app. split_and!; [done| |apply NoDup_singleton].
          intros x Hx ->%list_elem_of_singleton. by apply mem_str_false in E.
        + intros x. rewrite map_app, elem_of_app. cbn [map fst]. rewrite list_elem_of_singleton. done. }
    destruct (IH _ Hok1) as [Hok Hset]. split; [done|].
    intros x. rewrite Hset, Hset1, elem_of_cons. tauto.
Qed.

Lemma lower_values m : Forall (fun kv => kv.1 = uc_lower kv.2) m -> map uc_lower (map snd m) = map fst m.
Proof.
  induction 1 as [|[k v] m Hkv _ IH]; simpl in *; [done|]. by rewrite IH, Hkv.
Qed.

(** A property of every word before and every word failed now holds
    of every word of the merged list. *)
Lemma merge_failed_forall (Q : list Z -> Prop) prev_failed failed :
  Forall Q prev_failed -> Forall Q failed -> Forall Q (merge_failed prev_failed failed).
Proof.
  intros Hp Hf. unfold merge_failed. apply Forall_fmap.
  apply foldl_inv; [|apply foldl_inv; [|constructor]].
  - intros m w Hw Hm. destruct (mem_str _ _); [done|].
    apply Forall_app. split; [done|]. constructor; [|constructor]. by eapply Forall_forall in Hf.
  - intros m w Hw Hm. unfold dict_assign. destruct (mem_str _ _).
    + apply Forall_fmap. eapply Forall_impl; [exact Hm|]. intros kv ?. simpl.
      case_bool_decide; [|done]. simpl. by eapply Forall_forall in Hp.
    + apply Forall_app. split; [done|]. constructor; [|constructor]. by eapply Forall_forall in Hp.
Qed.

End FailureLemmas.

(** ** Scraping *)

(** [scrape_one(w)] reports success exactly when one of the attempts
    [1 .. retries + 1] succeeds; with [retries < 0] no attempt is made
    and the word counts as failed. *)
Theorem scrape_one_spec outcome retries w :
  scrape_ok outcome retries w = true <-> exists a, 1 <= a <= retries + 1 /\ outcome w a = true.
Proof.
  unfold scrape_ok, scrape_one. destruct (Z.leb_spec 0 (retries + 1)) as [Hr|Hr].
  - rewrite <-(scrape_attempts_spec outcome retries w (Z.to_nat (retries + 1)) 1) by lia.
    destruct (scrape_attempts _ _ _ _ _) as [[]|]; split; congruence.
  - replace (Z.to_nat (retries + 1)) with O by lia. simpl.
    split; [done|]. intros (a & ? & _). lia.
Qed.

(** The batches change nothing: every word of [new_list] is scraped
    once, in order, whatever [--batch-size]; those whose scrape fails
    are the failures and the others are added to the database. *)
Theorem scrape_batches_chunking outcome retries batch_size new_list db :
  scrape_batches outcome retries batch_size new_list db =
  (List.filter (fun w => negb (scrape_ok outcome retries w)) new_list,
   db ++ List.filter (scrape_ok outcome retries) new_list).
Proof.
  unfold scrape_batches. rewrite foldl_concat, chunks_concat, foldl_partition. done.
Qed.

(** The failure list written back holds every word that failed
    before or in this run, once per lower-cased form. *)
Theorem merge_failed_spec `{UnicodeDB} prev_failed failed :
  NoDup (map uc_lower (merge_failed prev_failed failed)) /\
  forall x, x ∈ map uc_lower (merge_failed prev_failed failed) <->
            x ∈ map uc_lower prev_failed \/ x ∈ map uc_lower failed.
Proof.
  unfold merge_failed.
  destruct (assign_all_ok [] prev_failed) as [Hok1 Hset1]; [split; constructor|].
  destruct (append_new_ok _ failed Hok1) as [[Hall Hnd] Hset].
  rewrite lower_values by done. split; [done|].
  intros x. rewrite Hset, Hset1, elem_of_nil. tauto.
Qed.

(** The scan resumes at an index below the length of the file list,
    or at 0 of a rebuilt list. *)
Theorem resume_in_range refresh root file_glob build state state' files i :
  resume refresh root file_glob build state = Some (state', files, i) ->
  i < Zlength files \/ (files = build /\ i = 0).
Proof.
  unfold resume. intros Hr. inv_obind Hr. destruct p as [st fs]. inv_obind Hr; simplify_eq.
  - by right.
  - left. by apply Z.leb_gt.
Qed.

(** ** Witnesses *)

Lemma word_re_splits_long_words_witness :
  WORD_RE_findall (97 :: repeat 98 63 ++ [99; 100]) = (97 :: repeat 98 63) :: WORD_RE_findall [99; 100].
Proof. apply word_re_splits_long_words; reflexivity. Defined.

Lemma scan_terminates_witness :
  exists st', @scan_loop ascii_db (scan_fuel sample_files 0) sample_cfg sample_files (mkScanState 0 0 []) = Some st' /\
    (Zlength sample_files <= idx st' \/ sc_target_new sample_cfg <= Zlength (found_map st') \/
     (sc_limit_scan_files sample_cfg <> 0 /\ sc_limit_scan_files sample_cfg <= visited st')).
Proof. apply (@scan_terminates ascii_db sample_cfg sample_files (mkScanState 0 0 [])). rewrite Zlength_correct. simpl. lia. Defined.

Lemma scan_found_bound_witness :
  scan_inv sample_cfg (mkScanState 1 1 [(str "alpha", str "alpha"); (str "beta", str "beta")]).
Proof.
  apply (@scan_found_bound ascii_db 1 sample_cfg sample_files (mkScanState 0 0 [])).
  - split_and!; simpl; [apply NoDup_nil_2|apply Forall_nil_2|rewrite Zlength_nil; lia].
  - vm_compute. reflexivity.
Defined.

Lemma scan_loses_candidates_witness :
  let cand := new_candidates sample_cfg (@file_candidates ascii_db sample_cfg
                 (JObj [(str "definition", JStr (str "alpha beta gamma"))])) in
  let n := Z.to_nat (sc_target_new sample_cfg - Zlength (@nil (list Z * list Z))) in
  @scan_loop ascii_db 1 sample_cfg sample_files (mkScanState 0 0 []) =
    Some (mkScanState (0 + 1) (0 + 1) ([] ++ take n cand)) /\
  drop n cand <> [] /\ Forall (fun kv => kv.1 ∉ map fst ([] ++ take n cand)) (drop n cand).
Proof.
  apply (@scan_loses_candidates ascii_db 0 sample_cfg sample_files (mkScanState 0 0 []) (str "N/x.json")).
  - rewrite Zlength_correct. simpl. lia.
  - reflexivity.
  - reflexivity.
  - apply (bool_decide_unpack _). vm_compute. reflexivity.
  - intros k _ Hk. by apply not_elem_of_nil in Hk.
  - vm_compute. split; reflexivity.
Defined.

Lemma resume_in_range_witness : 0 < Zlength sample_files \/ (sample_files = sample_files /\ 0 = 0).
Proof.
  apply (resume_in_range false (str "dict") None sample_files []
           [(str "version", JNum 3); (str "root", JStr (str "dict")); (str "file_glob", JStr []);
            (str "files", JArr (map JStr sample_files)); (str "idx", JNum 0); (str "runs", JNum 0)]).
  reflexivity.
Defined.

(** ** Fuel of the collectors: any fuel above the nesting depth gives the
    same result, so the depth plus one that [file_candidates] gives is
    enough. *)

Lemma collect_words_from_obj_fuel `{UnicodeDB} f1 f2 wf obj out :
  (json_depth obj < f1)%nat -> (json_depth obj < f2)%nat ->
  collect_words_from_obj f1 wf obj out = collect_words_from_obj f2 wf obj out.
Proof.
  revert f2 obj out. induction f1 as [|f1 IH]; intros [|f2] obj out H1 H2; try lia. simpl.
  destruct obj as [| | | |l|fs]; try done.
  - apply foldl_ext_in. intros acc x Hx. pose proof (json_depth_arr x l Hx). apply IH; lia.
  - apply foldl_ext_in. intros acc [k v] Hkv. pose proof (json_depth_obj k v fs Hkv). simpl.
    destruct v as [| | | |l|fs']; try done.
    + apply foldl_ext_in. intros acc' x Hx. pose proof (json_depth_arr x l Hx). apply IH; lia.
    + apply IH; lia.
Qed.

Lemma collect_words_from_obj_fast_fuel f1 f2 obj out :
  (json_depth obj < f1)%nat -> (json_depth obj < f2)%nat ->
  collect_words_from_obj_fast f1 obj out = collect_words_from_obj_fast f2 obj out.
Proof.
  revert f2 obj out. induction f1 as [|f1 IH]; intros [|f2] obj out H1 H2; try lia. simpl.
  destruct obj as [| | | |l|fs]; try done.
  - apply foldl_ext_in. intros acc x Hx. pose proof (json_depth_arr x l Hx). apply IH; lia.
  - apply foldl_ext_in. intros acc [k v] Hkv. pose proof (json_depth_obj k v fs Hkv). simpl.
    destruct v; try done; apply IH; lia.
Qed.

(** [int()] of a stored [idx] string: whitespace, sign and single
    underscores between digits are accepted, as in Python. *)
Example py_int_strings :
  py_int (JStr (str " -1_000 ")) = Some (-1000) /\ py_int (JStr (str "42")) = Some 42 /\
  py_int (JStr (str "1__0")) = None /\ py_int (JStr (str "_1")) = None /\ py_int (JStr (str "")) = None.
Proof. vm_compute. auto. Qed.
