(* ===== verification/L0Db.v ===== *)
(** * L0Db: the SQLite writer of scraped lemmas

    [src/memory/adapters/l0_db.py] ([connect], [upsert_lemma]) and its
    copy in [src/memory/adapters/wiktionary_scraper.py] ([db_connect],
    [upsert_lemma]) store a scraped lemma object: the whole object as
    canonical JSON in [l0_entry], and rows for variants, senses, labels,
    examples and forms in detail tables.

    The connection is modelled as its committed database and the working
    copy of an open transaction: Python's [sqlite3] keeps a transaction
    open after an exception, and an explicit [BEGIN] inside an open
    transaction raises.  [upsert_lemma] is a program in a state and error
    monad over the connection, executing the statements the code issues
    in its order; the walk over entries, POS blocks and definitions that
    computes the rows is a pure function with Python's exceptions as
    [None].  The schemas of the detail tables are not in the repository:
    a table holds the rows inserted into it, with no unique constraint
    assumed; [l0_entry] has its primary key [lemma].  The JSON text
    [_json(obj)] (sorted keys) is the value [canon obj] and [_sha] is a
    parameter. *)

From S2P Require Import Prelude Text Json Labels.

Open Scope Z_scope.

(** ** SQL values and statements *)

(** A parameter of a statement; [SJsonText j] is [json.dumps(j)]. *)
Inductive sqlv := SNull | SInt (n : Z) | SText (s : list Z) | SJsonText (j : json).

#[global] Instance sqlv_eq_dec : EqDecision sqlv.
Proof. solve_decision. Defined.

(** A Python value passed as a parameter: [dict] and [list] are not
    supported by [sqlite3] ([None]). *)
Definition sql_param (v : json) : option sqlv :=
  match v with
  | JNull => Some SNull
  | JBool b => Some (SInt (if b then 1 else 0))
  | JNum n => Some (SInt n)
  | JStr s => Some (SText s)
  | _ => None
  end.

Inductive insert_mode := Plain | OrIgnore | OrReplace.

Inductive stmt :=
| SBegin
| SUpsertEntry (lemma : sqlv) (raw : json) (checksum : list Z)
| SDelete (table : list Z) (lemma : sqlv)
| SInsert (table : list Z) (mode : insert_mode) (row : list sqlv)
| SCommit.

Definition t_entry := str "l0_entry".
Definition t_variant := str "l0_variant".
Definition t_def_label := str "l0_def_label".
Definition t_example := str "l0_example".
Definition t_def := str "l0_def".
Definition t_forms_noun := str "l0_forms_noun".
Definition t_forms_adjadv := str "l0_forms_adjadv".
Definition t_forms_verb := str "l0_forms_verb".

(** The number of columns the INSERT statements name for each table;
    [l0_forms_verb] has [lemma] and one column per verb form. *)
Definition insert_columns (n_verb : nat) (t : list Z) : nat :=
  if bool_decide (t = t_variant) then 2
  else if bool_decide (t = t_def) then 7
  else if bool_decide (t = t_def_label) then 5
  else if bool_decide (t = t_example) then 6
  else if bool_decide (t = t_forms_noun) then 2
  else if bool_decide (t = t_forms_adjadv) then 4
  else if bool_decide (t = t_forms_verb) then S n_verb
  else O.

(** ** The database and the connection *)

Record DBState := mkDB {
  db_tables : list (list Z);
  db_entries : list (sqlv * (json * list Z));
  db_rows : list (list Z * list sqlv)
}.

Record Conn := mkConn { committed : DBState; tx : option DBState }.

Inductive db_error :=
| NoSuchTable (t : list Z)
| TxWithinTx
| PyError.

(** [CREATE TABLE IF NOT EXISTS l0_entry (...)]: the schema of [connect]
    and [db_connect]; the pragmas tune the engine and are not modelled. *)
Definition create_entry_table (db : DBState) : DBState :=
  if bool_decide (t_entry ∈ db_tables db) then db
  else mkDB (db_tables db ++ [t_entry]) (db_entries db) (db_rows db).

Definition connect (db : DBState) : Conn := mkConn (create_entry_table db) None.

Definition upsert_entry (l : list (sqlv * (json * list Z))) (k : sqlv) (v : json * list Z)
    : list (sqlv * (json * list Z)) :=
  if existsb (fun kv => bool_decide (kv.1 = k)) l
  then map (fun kv => if bool_decide (kv.1 = k) then (k, v) else kv) l
  else l ++ [(k, v)].

(** One statement on the working copy of the transaction. *)
Definition exec_db (db : DBState) (s : stmt) : result DBState db_error :=
  let need t := if bool_decide (t ∈ db_tables db) then Ok tt else Err (NoSuchTable t) in
  match s with
  | SUpsertEntry k raw ck =>
      _ <- need t_entry ;; Ok (mkDB (db_tables db) (upsert_entry (db_entries db) k (raw, ck)) (db_rows db))
  | SDelete t k =>
      _ <- need t ;;
      Ok (mkDB (db_tables db) (db_entries db)
               (filter (fun r => negb (bool_decide (r.1 = t /\ head r.2 = Some k))) (db_rows db)))
  | SInsert t _ row => _ <- need t ;; Ok (mkDB (db_tables db) (db_entries db) (db_rows db ++ [(t, row)]))
  | _ => Ok db
  end.

(** [cur.execute(s)] on the connection. *)
Definition exec (c : Conn) (s : stmt) : result Conn db_error * Conn :=
  match s, tx c with
  | SBegin, Some _ => (Err TxWithinTx, c)
  | SBegin, None => (Ok (mkConn (committed c) (Some (committed c))), mkConn (committed c) (Some (committed c)))
  | SCommit, Some w => (Ok (mkConn w None), mkConn w None)
  | SCommit, None => (Ok c, c)
  | _, _ =>
      let w := default (committed c) (tx c) in
      match exec_db w s with
      | Ok w' => (Ok (mkConn (committed c) (Some w')), mkConn (committed c) (Some w'))
      | Err e => (Err e, mkConn (committed c) (Some w))
      end
  end.

(** The statements of a call in order: the first error stops it and the
    connection keeps its state at that point. *)
Fixpoint exec_all (c : Conn) (ss : list stmt) : result unit db_error * Conn :=
  match ss with
  | [] => (Ok tt, c)
  | s :: ss' =>
      match exec c s with
      | (Ok _, c') => exec_all c' ss'
      | (Err e, c') => (Err e, c')
      end
  end.

(** ** The walk over the lemma object *)

(** [v.get(k)] on a value that must be a [dict]. *)
Definition py_get (v : json) (k : list Z) : option json :=
  match v with JObj fs => Some (obj_get fs k) | _ => None end.

(** [dict.items()] *)
Definition py_items (v : json) : option (list (list Z * json)) :=
  match v with JObj fs => Some fs | _ => None end.

(** [_merge(a, b)] *)
Definition _merge (a b : json) : json := if py_truthy a then a else b.

(** The accumulators of the walk: [noun_plural], [adj_forms] (the
    comparative and superlative of ADJ and ADV), [verb_forms] (one value
    per key, [None] as [JNull]) and the three row lists. *)
Record Walk := mkWalk {
  noun_plural : json;
  adj_comp : json; adj_sup : json; adv_comp : json; adv_sup : json;
  verb_forms : list (list Z * json);
  sense_rows : list (list sqlv);
  label_rows : list (list sqlv);
  example_rows : list (list sqlv)
}.

Definition Walk_init (verb_keys : list (list Z)) : Walk :=
  mkWalk JNull JNull JNull JNull JNull (map (fun k => (k, JNull)) verb_keys) [] [] [].

Definition add_rows (w : Walk) (s l e : list (list sqlv)) : Walk :=
  mkWalk (noun_plural w) (adj_comp w) (adj_sup w) (adv_comp w) (adv_sup w) (verb_forms w)
         (sense_rows w ++ s) (label_rows w ++ l) (example_rows w ++ e).

(** [for j, x in enumerate(xs, 1)] keeping the non-blank strings, stripped. *)
Definition nonblank_strs (xs : list json) : list (Z * list Z) :=
  omap (fun jx => match jx.2 with
                  | JStr s => if bool_decide (py_strip s = []) then None else Some (jx.1, py_strip s)
                  | _ => None
                  end)
       (enumerate1 xs).

(** The rows of one definition ([k = None]) or subdefinition ([k = Some
    k]) at sense index [i]: [None] in the first component is the
    [continue] of a blank gloss. *)
Definition sense_of (lemma : sqlv) (pos : list Z) (i : Z) (k : option Z) (d : json)
    : option (option (list sqlv * list (list sqlv) * list (list sqlv))) :=
  dg ← py_get d k_definition;
  match py_or dg (JStr []) with
  | JStr g =>
      let gloss := py_strip g in
      if bool_decide (gloss = []) then Some None
      else
        labels0 ← py_get d k_labels;
        let labels := py_or labels0 (JArr []) in
        label_groups ← py_get d k_label_groups;
        lbs ← py_iter labels;
        exs0 ← py_get d (str "examples");
        exs ← py_iter (py_or exs0 (JArr []));
        let kv := match k with Some k => SInt k | None => SNull end in
        let row := [lemma; SText pos; SInt i; kv; SText gloss;
                    if py_truthy labels then SJsonText labels else SNull;
                    if py_truthy label_groups then SJsonText label_groups else SNull] in
        let lrows := map (fun js => [lemma; SText pos; SInt i; kv; SText js.2]) (nonblank_strs lbs) in
        let erows := map (fun js => [lemma; SText pos; SInt i; kv; SInt js.1; SText js.2]) (nonblank_strs exs) in
        Some (Some (row, lrows, erows))
  | _ => None
  end.

(** Lines 116-154: the definitions of a block, each with its
    subdefinitions. *)
Definition def_rows (lemma : sqlv) (pos : list Z) (w : Walk) (i : Z) (d : json) : option Walk :=
  r ← sense_of lemma pos i None d;
  match r with
  | None => Some w
  | Some (row, lrows, erows) =>
      let w := add_rows w [row] lrows erows in
      sds0 ← py_get d k_subdefinitions;
      sds ← py_iter (py_or sds0 (JArr []));
      foldlM (fun w ksd =>
                r ← sense_of lemma pos i (Some ksd.1) ksd.2;
                match r with
                | None => Some w
                | Some (srow, slrows, serows) => Some (add_rows w [srow] slrows serows)
                end) w (enumerate1 sds)
  end.

(** Lines 104-106: the first truthy plural of an N, PROPN or LETTER
    block.  [forms.get] is only called where the code calls it. *)
Definition forms_noun (pos : list Z) (forms : json) (w : Walk) : option Walk :=
  if bool_decide (pos ∈ [str "N"; str "PROPN"; str "LETTER"]) then
    if bool_decide (noun_plural w = JNull) then
      pl ← py_get forms (str "plural");
      Some (if py_truthy pl then mkWalk pl (adj_comp w) (adj_sup w) (adv_comp w) (adv_sup w)
                                        (verb_forms w) (sense_rows w) (label_rows w) (example_rows w)
            else w)
    else Some w
  else Some w.

(** Lines 107-109: the comparative and superlative of ADJ and ADV. *)
Definition forms_adjadv (pos : list Z) (forms : json) (w : Walk) : option Walk :=
  if bool_decide (pos = str "ADJ") then
    c ← py_get forms (str "comparative"); s ← py_get forms (str "superlative");
    Some (mkWalk (noun_plural w) (_merge (adj_comp w) c) (_merge (adj_sup w) s) (adv_comp w) (adv_sup w)
                 (verb_forms w) (sense_rows w) (label_rows w) (example_rows w))
  else if bool_decide (pos = str "ADV") then
    c ← py_get forms (str "comparative"); s ← py_get forms (str "superlative");
    Some (mkWalk (noun_plural w) (adj_comp w) (adj_sup w) (_merge (adv_comp w) c) (_merge (adv_sup w) s)
                 (verb_forms w) (sense_rows w) (label_rows w) (example_rows w))
  else Some w.

(** Lines 110-113: the verb forms of a V block, key by key. *)
Definition forms_verb (pos : list Z) (forms : json) (w : Walk) : option Walk :=
  if bool_decide (pos = str "V") then
    vi0 ← py_get forms (str "verb_inflections");
    let vi := py_or vi0 (JObj []) in
    vf ← mapM (fun kv => x ← py_get vi kv.1; Some (kv.1, _merge kv.2 x)) (verb_forms w);
    Some (mkWalk (noun_plural w) (adj_comp w) (adj_sup w) (adv_comp w) (adv_sup w)
                 vf (sense_rows w) (label_rows w) (example_rows w))
  else Some w.

(** Lines 102-113: the forms of a block, the first non-empty value
    winning. *)
Definition forms_of (pos : list Z) (forms : json) (w : Walk) : option Walk :=
  w ← forms_noun pos forms w; w ← forms_adjadv pos forms w; forms_verb pos forms w.

Definition block_rows (lemma : sqlv) (pos : list Z) (w : Walk) (block : json) : option Walk :=
  forms0 ← py_get block (str "forms");
  w ← forms_of pos (py_or forms0 (JObj [])) w;
  defs0 ← py_get block k_definitions;
  defs ← py_iter (py_or defs0 (JArr []));
  foldlM (fun w id => def_rows lemma pos w id.1 id.2) w (enumerate1 defs).

(** Lines 97-154: [for ent in entries: for pos_code, blocks in
    pos_map.items(): ...]; a [blocks] that is not a list is skipped. *)
Definition walk_entries (verb_keys : list (list Z)) (lemma : sqlv) (entries : list json) : option Walk :=
  foldlM (fun w ent =>
            pm0 ← py_get ent k_pos;
            items ← py_items (py_or pm0 (JObj []));
            foldlM (fun w pb =>
                      match pb.2 with
                      | JArr blocks => foldlM (block_rows lemma pb.1) w blocks
                      | _ => Some w
                      end) w items)
         (Walk_init verb_keys) entries.

(** ** [upsert_lemma] *)

(** What a call does, in order: a statement, or a Python exception that
    ends the call. *)
Inductive step := Do (s : stmt) | Raise.

#[global] Instance insert_mode_eq_dec : EqDecision insert_mode.
Proof. solve_decision. Defined.
#[global] Instance stmt_eq_dec : EqDecision stmt.
Proof. solve_decision. Defined.
#[global] Instance step_eq_dec : EqDecision step.
Proof. solve_decision. Defined.

Fixpoint run (c : Conn) (ps : list step) : result unit db_error * Conn :=
  match ps with
  | [] => (Ok tt, c)
  | Raise :: _ => (Err PyError, c)
  | Do s :: ps' =>
      match exec c s with
      | (Ok _, c') => run c' ps'
      | (Err e, c') => (Err e, c')
      end
  end.

(** [obj[k]] *)
Definition py_getitem (v : json) (k : list Z) : option json :=
  match v with
  | JObj fs => if existsb (fun kv => bool_decide (kv.1 = k)) fs then Some (obj_get fs k) else None
  | _ => None
  end.

(** Lines 173-185: the rows of the forms tables. *)
Definition forms_steps (lemma : sqlv) (w : Walk) : list step :=
  let ins t row := match row with Some r => [Do (SInsert t OrReplace r)] | None => [Raise] end in
  let adj pos c s :=
    if py_truthy c || py_truthy s
    then ins t_forms_adjadv (c' ← sql_param c; s' ← sql_param s; Some [lemma; SText (str pos); c'; s'])
    else [] in
  (if bool_decide (noun_plural w = JNull) then []
   else ins t_forms_noun (match noun_plural w with
                          | JArr _ => Some [lemma; SJsonText (noun_plural w)]
                          | np => v ← sql_param np; Some [lemma; v]
                          end)) ++
  adj "ADJ" (adj_comp w) (adj_sup w) ++ adj "ADV" (adv_comp w) (adv_sup w) ++
  (if existsb (fun kv => py_truthy kv.2) (verb_forms w)
   then ins t_forms_verb (vs ← mapM (fun kv => sql_param kv.2) (verb_forms w); Some (lemma :: vs))
   else []).

Definition detail_tables : list (list Z) :=
  [t_def_label; t_example; t_def; t_forms_noun; t_forms_adjadv; t_forms_verb].

(** [upsert_lemma(conn, lemma_obj)] as the steps it takes. *)
Definition upsert_steps (verb_keys : list (list Z)) (sha : json -> list Z) (obj : json) : list step :=
  match py_getitem obj (str "lemma") with
  | None => [Raise]
  | Some lj =>
      let raw := canon obj in
      Do SBegin ::
      match sql_param lj with
      | None => [Raise]
      | Some lemma =>
          [Do (SUpsertEntry lemma raw (sha raw)); Do (SDelete t_variant lemma)] ++
          match (v ← py_get obj (str "variants"); py_iter (py_or v (JArr []))) with
          | None => [Raise]
          | Some vs =>
              map (fun s => Do (SInsert t_variant OrIgnore [lemma; SText s.2])) (nonblank_strs vs) ++
              map (fun t => Do (SDelete t lemma)) detail_tables ++
              match (v ← py_get obj k_entries; es ← py_iter (py_or v (JArr []));
                     walk_entries verb_keys lemma es) with
              | None => [Raise]
              | Some w =>
                  map (fun r => Do (SInsert t_def Plain r)) (sense_rows w) ++
                  map (fun r => Do (SInsert t_def_label OrIgnore r)) (label_rows w) ++
                  map (fun r => Do (SInsert t_example OrReplace r)) (example_rows w) ++
                  forms_steps lemma w ++ [Do SCommit]
              end
          end
      end
  end.

Definition upsert_lemma (verb_keys : list (list Z)) (sha : json -> list Z) (c : Conn) (obj : json)
    : result unit db_error * Conn :=
  run c (upsert_steps verb_keys sha obj).

(** [verb_forms = {k: None for k in (...)}] of [l0_db.py] *)
Definition l0_verb_keys : list (list Z) :=
  map str ["1PSP";"2PSP";"3PSP";"PLSP";"1PST";"2PST";"3PST";"PLPT";"SIMPLE";"PAP";"PRP";"INF";"GER"].

(** [VERB_CONCEPTS] of [wiktionary_scraper.py] *)
Definition VERB_CONCEPTS : list (list Z) :=
  map str ["1PSP";"2PSP";"3PSP";"PLSP";"1PST";"2PST";"3PST";"PLPT";"SIMPLE";"PAP";"PRP";"INF";"GER"].

(** [l0_db.upsert_lemma] and [wiktionary_scraper.upsert_lemma]. *)
Definition l0_upsert_lemma := upsert_lemma l0_verb_keys.
Definition scraper_upsert_lemma := upsert_lemma VERB_CONCEPTS.

(** [db_connect(path)] of [wiktionary_scraper.py]: the same schema. *)
Definition db_connect (db : DBState) : Conn := mkConn (create_entry_table db) None.

(** ** Sample objects *)

Definition sample_sha (j : json) : list Z := [Zlength (str "sha256")].

Definition gloss_def (g : string) : json := JObj [(k_definition, JStr (str g))].

(** A verb with two blocks under [V] and a blank-gloss definition whose
    subdefinition has a gloss. *)
Definition sample_lemma : json :=
  JObj [(str "lemma", JStr (str "run"));
        (k_entries, JArr [JObj [(k_pos, JObj [(str "V", JArr [
           JObj [(k_definitions, JArr [gloss_def "To move fast.";
                                       JObj [(k_definition, JStr []);
                                             (k_subdefinitions, JArr [gloss_def "To flee."])]])];
           JObj [(k_definitions, JArr [gloss_def "To operate."])]])])]])].

Definition all_tables_db : DBState := mkDB (t_entry :: t_variant :: detail_tables) [] [].

(** [SELECT json, checksum FROM l0_entry WHERE lemma=?] *)
Definition entry_lookup (l : list (sqlv * (json * list Z))) (k : sqlv) : option (json * list Z) :=
  snd <$> List.find (fun kv => bool_decide (kv.1 = k)) l.

(** A statement on a detail table that exists. *)
Definition dml_ok (tables : list (list Z)) (s : stmt) : Prop :=
  match s with
  | SDelete t _ | SInsert t _ _ => t ∈ tables
  | _ => False
  end.

Definition steps_ok (tables : list (list Z)) (ps : list step) : Prop :=
  Forall (fun p => match p with Do s => dml_ok tables s | Raise => False end) ps.

(** ** Lemmas *)

Lemma upsert_entry_lookup_same l k v : entry_lookup (upsert_entry l k v) k = Some v.
Proof.
  unfold upsert_entry, entry_lookup. destruct (existsb _ l) eqn:E.
  - induction l as [|[k1 v1] l IH]; simpl in *; [done|].
    destruct (decide (k1 = k)) as [->|Hne].
    + simpl. repeat (case_bool_decide; simpl in *); congruence.
    + rewrite bool_decide_eq_false_2 in E by done. simpl.
      repeat (case_bool_decide; simpl in *); try congruence. by apply IH.
  - induction l as [|[k1 v1] l IH]; simpl in *; [by rewrite bool_decide_eq_true_2|].
    apply orb_false_iff in E as [E1 E2]. rewrite E1. by apply IH.
Qed.

Lemma find_map_replace l k v k' :
  k' <> k ->
  List.find (fun kv => bool_decide (kv.1 = k'))
    (map (fun kv : sqlv * (json * list Z) => if bool_decide (kv.1 = k) then (k, v) else kv) l) =
  List.find (fun kv => bool_decide (kv.1 = k')) l.
Proof.
  intros Hne. induction l as [|[k1 v1] l IH]; simpl; [done|].
  repeat (case_bool_decide; simpl in *); subst; congruence.
Qed.

Lemma find_snoc_skip (l : list (sqlv * (json * list Z))) k v k' :
  k' <> k ->
  List.find (fun kv => bool_decide (kv.1 = k')) (l ++ [(k, v)]) = List.find (fun kv => bool_decide (kv.1 = k')) l.
Proof.
  intros Hne. induction l as [|[k1 v1] l IH]; simpl; [by rewrite bool_decide_eq_false_2|].
  by rewrite IH.
Qed.

Lemma upsert_entry_lookup_ne l k k' v :
  k' <> k -> entry_lookup (upsert_entry l k v) k' = entry_lookup l k'.
Proof.
  intros Hne. unfold upsert_entry, entry_lookup.
  destruct (existsb _ l); [by rewrite find_map_replace|by rewrite find_snoc_skip].
Qed.

Lemma exec_db_dml w s :
  dml_ok (db_tables w) s ->
  exists w', exec_db w s = Ok w' /\ db_tables w' = db_tables w /\ db_entries w' = db_entries w.
Proof.
  destruct s as [|k raw ck|t k|t m row|]; simpl; try done; intros Ht;
    rewrite bool_decide_eq_true_2 by done; simpl; eauto.
Qed.

Lemma run_steps_ok c w ps rest :
  tx c = Some w -> steps_ok (db_tables w) ps ->
  exists w', run c (ps ++ rest) = run (mkConn (committed c) (Some w')) rest /\
             db_tables w' = db_tables w /\ db_entries w' = db_entries w.
Proof.
  revert c w. induction ps as [|p ps IH]; intros c w Htx Hok.
  - exists w. destruct c; simpl in *; subst. by split.
  - inversion Hok as [|? ? Hp Hps]; subst. destruct p as [s|]; [|done].
    destruct (exec_db_dml w s Hp) as (w1 & Hw1 & Ht1 & He1).
    assert (exec c s = (Ok (mkConn (committed c) (Some w1)), mkConn (committed c) (Some w1))) as Hexec.
    { unfold exec. rewrite Htx. destruct s; simpl in Hp; try done; cbn -[exec_db]; by rewrite Hw1. }
    simpl. rewrite Hexec.
    destruct (IH (mkConn (committed c) (Some w1)) w1) as (w2 & Hrun & Ht2 & He2); [done| |].
    { by rewrite Ht1. }
    exists w2. split; [done|]. split; congruence.
Qed.

Lemma steps_ok_map_insert tables t m rows :
  t ∈ tables -> steps_ok tables (map (fun r => Do (SInsert t m r)) rows).
Proof. intros Ht. unfold steps_ok. apply Forall_forall. intros p (r & -> & _)%list_elem_of_fmap. done. Qed.

Lemma forms_steps_ok tables lemma w :
  (forall t, t ∈ detail_tables -> t ∈ tables) -> Raise ∉ forms_steps lemma w ->
  steps_ok tables (forms_steps lemma w).
Proof.
  intros Ht Hr. unfold forms_steps in *.
  assert (forall t, t ∈ [t_forms_noun; t_forms_adjadv; t_forms_verb] -> t ∈ tables) as Hf.
  { intros t Hin. apply Ht. unfold detail_tables. set_solver. }
  unfold steps_ok. apply Forall_forall. intros p Hp. destruct p as [s|]; [|done].
  repeat (apply elem_of_app in Hp as [Hp|Hp]); repeat case_match; simplify_eq;
    repeat match goal with H : _ ∈ [] |- _ => by apply not_elem_of_nil in H end;
    apply list_elem_of_singleton in Hp; simplify_eq; simpl; apply Hf; set_solver.
Qed.

Lemma exec_db_upsert w k raw ck :
  t_entry ∈ db_tables w ->
  exec_db w (SUpsertEntry k raw ck) = Ok (mkDB (db_tables w) (upsert_entry (db_entries w) k (raw, ck)) (db_rows w)).
Proof. intros Ht. simpl. by rewrite bool_decide_eq_true_2. Qed.

Lemma exec_db_delete_missing w t k : t ∉ db_tables w -> exec_db w (SDelete t k) = Err (NoSuchTable t).
Proof. intros Ht. simpl. by rewrite bool_decide_eq_false_2. Qed.

Lemma run_cons_ok c s c' ps : exec c s = (Ok c', c') -> run c (Do s :: ps) = run c' ps.
Proof. intros He. simpl. by rewrite He. Qed.

Lemma run_cons_err c s e c' ps : exec c s = (Err e, c') -> run c (Do s :: ps) = (Err e, c').
Proof. intros He. simpl. by rewrite He. Qed.

Lemma steps_ok_detail tables lemma :
  (forall t, t ∈ detail_tables -> t ∈ tables) ->
  steps_ok tables (map (fun t => Do (SDelete t lemma)) detail_tables).
Proof.
  intros Ht. unfold steps_ok. apply Forall_forall. intros p (t & -> & Hin)%list_elem_of_fmap. by apply Ht.
Qed.

Lemma steps_ok_variants tables lemma (vs : list (Z * list Z)) :
  t_variant ∈ tables -> steps_ok tables (map (fun s => Do (SInsert t_variant OrIgnore [lemma; SText s.2])) vs).
Proof. intros Ht. unfold steps_ok. apply Forall_forall. intros p (s & -> & _)%list_elem_of_fmap. done. Qed.

(** ** The writer *)

(** C17: On a connection with no open transaction whose database has all
    the tables the writer names, [upsert_lemma] of a lemma object on
    which no Python exception is raised commits, and [l0_entry] then
    maps the lemma to the canonical JSON of the object and its checksum,
    every other lemma keeping its entry. *)
Theorem upsert_lemma_stores verb_keys sha c obj lemma :
  tx c = None -> (forall t, t ∈ t_entry :: t_variant :: detail_tables -> t ∈ db_tables (committed c)) ->
  Raise ∉ upsert_steps verb_keys sha obj -> (py_getitem obj (str "lemma") ≫= sql_param) = Some lemma ->
  exists c', upsert_lemma verb_keys sha c obj = (Ok tt, c') /\ tx c' = None /\
    entry_lookup (db_entries (committed c')) lemma = Some (canon obj, sha (canon obj)) /\
    forall k, k <> lemma -> entry_lookup (db_entries (committed c')) k = entry_lookup (db_entries (committed c)) k.
Proof.
  intros Htx Ht Hr Hl. unfold upsert_lemma. unfold upsert_steps in *.
  destruct (py_getitem obj (str "lemma")) as [lj|]; simpl in Hl; [|done]. rewrite Hl in Hr |- *.
  destruct (v ← py_get obj (str "variants"); py_iter _) as [vs|]; [|set_solver].
  destruct (v ← py_get obj k_entries; _) as [w|]; [|set_solver].
  assert (t_entry ∈ db_tables (committed c)) as He by (apply Ht; set_solver).
  set (w1 := mkDB (db_tables (committed c)) (upsert_entry (db_entries (committed c)) lemma
                    (canon obj, sha (canon obj))) (db_rows (committed c))).
  assert (steps_ok (db_tables w1)
            ([Do (SDelete t_variant lemma)] ++
             map (fun s => Do (SInsert t_variant OrIgnore [lemma; SText s.2])) (nonblank_strs vs) ++
             map (fun t => Do (SDelete t lemma)) detail_tables ++
             map (fun r => Do (SInsert t_def Plain r)) (sense_rows w) ++
             map (fun r => Do (SInsert t_def_label OrIgnore r)) (label_rows w) ++
             map (fun r => Do (SInsert t_example OrReplace r)) (example_rows w) ++
             forms_steps lemma w)) as Hok.
  { assert (forall t, t ∈ detail_tables -> t ∈ db_tables w1) as Hd by (intros; apply Ht; set_solver).
    unfold steps_ok. rewrite !Forall_app. split_and!.
    - constructor; [|done]. simpl. apply Ht. set_solver.
    - apply steps_ok_variants. apply Ht. set_solver.
    - by apply steps_ok_detail.
    - apply steps_ok_map_insert, Hd. unfold detail_tables. set_solver.
    - apply steps_ok_map_insert, Hd. unfold detail_tables. set_solver.
    - apply steps_ok_map_insert, Hd. unfold detail_tables. set_solver.
    - apply forms_steps_ok; [done|]. intros Hin. apply Hr. set_solver. }
  destruct (run_steps_ok (mkConn (committed c) (Some w1)) w1 _ [Do SCommit] eq_refl Hok)
    as (w2 & Hrun & Ht2 & He2).
  rewrite (run_cons_ok c SBegin (mkConn (committed c) (Some (committed c))))
    by (unfold exec; by rewrite Htx).
  cbn [app]. rewrite (run_cons_ok _ _ (mkConn (committed c) (Some w1)))
    by (unfold exec; cbn -[exec_db]; by rewrite exec_db_upsert).
  rewrite <-!app_assoc in Hrun. cbn [app] in Hrun. rewrite Hrun. simpl. eexists. split; [reflexivity|]. split; [done|]. simpl. rewrite He2. simpl.
  split; [apply upsert_entry_lookup_same|]. intros k Hk. by apply upsert_entry_lookup_ne.
Qed.

(** C16: The schema of [connect] and [db_connect] creates [l0_entry]
    only, and no code of the repository creates the detail tables: on
    such a database [upsert_lemma] of any object with a usable [lemma]
    fails with [no such table: l0_variant], leaves its transaction open
    and nothing committed, and every later [upsert_lemma] on the
    connection fails at its [BEGIN]. *)
Theorem upsert_fresh_db_poisons verb_keys sha db obj lemma :
  t_variant ∉ db_tables db -> (py_getitem obj (str "lemma") ≫= sql_param) = Some lemma ->
  let '(r, c') := upsert_lemma verb_keys sha (connect db) obj in
  r = Err (NoSuchTable t_variant) /\ tx c' <> None /\ committed c' = committed (connect db) /\
  forall obj', is_Some (py_getitem obj' (str "lemma")) ->
    fst (upsert_lemma verb_keys sha c' obj') = Err TxWithinTx.
Proof.
  intros Hv Hl. unfold upsert_lemma, upsert_steps.
  destruct (py_getitem obj (str "lemma")) as [lj|]; simpl in Hl; [|done]. rewrite Hl.
  assert (t_entry ∈ db_tables (committed (connect db))) as He.
  { simpl. unfold create_entry_table. case_bool_decide; [done|]. simpl. set_solver. }
  assert (t_variant ∉ db_tables (committed (connect db))) as Hv'.
  { simpl. unfold create_entry_table. case_bool_decide; [done|]. simpl.
    rewrite elem_of_app, list_elem_of_singleton. intros [|Heq]; [done|]. vm_compute in Heq. congruence. }
  rewrite (run_cons_ok _ SBegin (mkConn (committed (connect db)) (Some (committed (connect db))))) by done.
  set (w1 := mkDB (db_tables (committed (connect db)))
                  (upsert_entry (db_entries (committed (connect db))) lemma (canon obj, sha (canon obj)))
                  (db_rows (committed (connect db)))).
  cbn [app]. rewrite (run_cons_ok _ _ (mkConn (committed (connect db)) (Some w1)))
    by (unfold exec; cbn -[exec_db connect]; by rewrite exec_db_upsert).
  rewrite (run_cons_err _ _ (NoSuchTable t_variant) (mkConn (committed (connect db)) (Some w1)))
    by (unfold exec; cbn -[exec_db connect]; by rewrite exec_db_delete_missing).
  split_and!; [done|done|done|].
  intros obj' [lj' Hlj']. unfold upsert_steps. rewrite Hlj'. done.
Qed.

(** The two copies of the writer are the same program. *)
Lemma l0_scraper_upsert_same sha c obj : l0_upsert_lemma sha c obj = scraper_upsert_lemma sha c obj.
Proof. reflexivity. Qed.

(** The rows of [sample_lemma]: both blocks under [V] number their
    definitions from 1, so [(run, V, 1, NULL)] is the key of two sense
    rows; the blank-gloss definition 2 is skipped with its subdefinition
    [To flee.]. *)
Example upsert_sample_rows :
  map (take 4) (default [] (sense_rows <$>
     (walk_entries l0_verb_keys (SText (str "run"))
        [JObj [(k_pos, JObj [(str "V", JArr [
           JObj [(k_definitions, JArr [gloss_def "To move fast.";
                                       JObj [(k_definition, JStr []);
                                             (k_subdefinitions, JArr [gloss_def "To flee."])]])];
           JObj [(k_definitions, JArr [gloss_def "To operate."])]])])]]))) =
  [[SText (str "run"); SText (str "V"); SInt 1; SNull]; [SText (str "run"); SText (str "V"); SInt 1; SNull]].
Proof. vm_compute. reflexivity. Qed.

(** ** Witnesses *)

Lemma upsert_lemma_stores_witness :
  exists c', l0_upsert_lemma sample_sha (mkConn all_tables_db None) sample_lemma = (Ok tt, c') /\ tx c' = None /\
    entry_lookup (db_entries (committed c')) (SText (str "run")) = Some (canon sample_lemma, sample_sha (canon sample_lemma)) /\
    forall k, k <> SText (str "run") ->
      entry_lookup (db_entries (committed c')) k = entry_lookup (db_entries all_tables_db) k.
Proof.
  apply (upsert_lemma_stores l0_verb_keys sample_sha (mkConn all_tables_db None) sample_lemma).
  - reflexivity.
  - intros t Ht. exact Ht.
  - apply (bool_decide_unpack _). vm_compute. reflexivity.
  - reflexivity.
Defined.

Lemma upsert_fresh_db_poisons_witness :
  let '(r, c') := l0_upsert_lemma sample_sha (connect (mkDB [] [] [])) sample_lemma in
  r = Err (NoSuchTable t_variant) /\ tx c' <> None /\ committed c' = committed (connect (mkDB [] [] [])) /\
  forall obj', is_Some (py_getitem obj' (str "lemma")) ->
    fst (l0_upsert_lemma sample_sha c' obj') = Err TxWithinTx.
Proof.
  apply (upsert_fresh_db_poisons l0_verb_keys sample_sha (mkDB [] [] []) sample_lemma (SText (str "run"))).
  - apply not_elem_of_nil.
  - reflexivity.
Defined.

(** ** Row arity *)

(** The accumulators of the walk have one verb form per key and rows of
    the arity of their INSERT statements. *)
Definition walk_wf (n : nat) (w : Walk) : Prop :=
  length (verb_forms w) = n /\ Forall (fun r => length r = 7%nat) (sense_rows w) /\
  Forall (fun r => length r = 5%nat) (label_rows w) /\ Forall (fun r => length r = 6%nat) (example_rows w).

Lemma sense_of_arity lemma pos i k d row lr er :
  sense_of lemma pos i k d = Some (Some (row, lr, er)) ->
  length row = 7%nat /\ Forall (fun r => length r = 5%nat) lr /\ Forall (fun r => length r = 6%nat) er.
Proof.
  unfold sense_of. intros Hs. inv_obind Hs. destruct (py_or _ _); try discriminate.
  case_bool_decide; [discriminate|]. inv_obind Hs. simplify_eq. split_and!; [done| |];
    apply Forall_forall; intros r (x & -> & _)%list_elem_of_fmap; done.
Qed.

Lemma add_rows_wf n w row lr er :
  walk_wf n w -> length row = 7%nat -> Forall (fun r => length r = 5%nat) lr ->
  Forall (fun r => length r = 6%nat) er -> walk_wf n (add_rows w [row] lr er).
Proof.
  intros (H1 & H2 & H3 & H4) Hr Hl He. unfold walk_wf, add_rows; simpl.
  split_and!; [done| | |]; apply Forall_app; auto.
Qed.

Lemma def_rows_wf n lemma pos w i d w' : walk_wf n w -> def_rows lemma pos w i d = Some w' -> walk_wf n w'.
Proof.
  unfold def_rows. intros Hw Hd. inv_obind Hd. destruct o as [[[row lr] er]|]; [|by injection Hd as <-].
  destruct (sense_of_arity _ _ _ _ _ _ _ _ Hb) as (Hr & Hl & He). inv_obind Hd.
  eapply foldlM_inv; [exact Hd|by apply add_rows_wf|].
  intros acc x acc' _ Hacc Hs. cbn beta in Hs.
  destruct (sense_of lemma pos i (Some x.1) x.2) as [[[[row' lr'] er']|]|] eqn:Hso'; simpl in Hs; simplify_eq; try assumption.
  destruct (sense_of_arity _ _ _ _ _ _ _ _ Hso') as (Hr' & Hl' & He'). by apply add_rows_wf.
Qed.

Lemma forms_of_wf n pos forms w w' : walk_wf n w -> forms_of pos forms w = Some w' -> walk_wf n w'.
Proof.
  unfold forms_of. intros Hw Hf.
  destruct (forms_noun pos forms w) as [w0|] eqn:Hn; simpl in Hf; [|done].
  assert (Hw0 : walk_wf n w0).
  { unfold forms_noun in Hn. repeat case_bool_decide; inv_obind Hn; simplify_eq; try apply Hw.
    destruct (py_truthy _); apply Hw. }
  destruct (forms_adjadv pos forms w0) as [w1|] eqn:Ha; simpl in Hf; [|done].
  assert (Hw1 : walk_wf n w1).
  { unfold forms_adjadv in Ha. repeat case_bool_decide; inv_obind Ha; simplify_eq; apply Hw0. }
  unfold forms_verb in Hf. case_bool_decide; inv_obind Hf; simplify_eq; [|done].
  destruct Hw1 as (H1 & H2 & H3 & H4). split_and!; [|done|done|done]. simpl.
  apply mapM_Some in Hb0. rewrite <-(Forall2_length _ _ _ Hb0). done.
Qed.

Lemma block_rows_wf n lemma pos w block w' : walk_wf n w -> block_rows lemma pos w block = Some w' -> walk_wf n w'.
Proof.
  unfold block_rows. intros Hw Hb. inv_obind Hb.
  eapply foldlM_inv; [exact Hb|by eapply forms_of_wf|].
  intros acc x acc' _ Hacc Hd. cbn beta in Hd. by eapply def_rows_wf.
Qed.

Lemma walk_entries_wf vk lemma es w : walk_entries vk lemma es = Some w -> walk_wf (length vk) w.
Proof.
  unfold walk_entries. intros Hw. eapply foldlM_inv; [exact Hw| |].
  - unfold walk_wf, Walk_init; simpl. split_and!; [by rewrite length_map|constructor..].
  - intros acc ent acc' _ Hacc He. cbn beta in He. inv_obind He. eapply foldlM_inv; [exact He|exact Hacc|].
    intros acc1 pb acc2 _ Hacc1 Hp. cbn beta in Hp. destruct pb as [pos [| | | | blocks |]]; simpl in Hp; simplify_eq; try done.
    eapply foldlM_inv; [exact Hp|exact Hacc1|]. intros acc3 b acc4 _ Hacc3 Hbr. by eapply block_rows_wf.
Qed.

Lemma forms_steps_arity n lemma w t m r :
  walk_wf n w -> Do (SInsert t m r) ∈ forms_steps lemma w -> length r = insert_columns n t.
Proof.
  intros (Hv & _ & _ & _) Hin. unfold forms_steps in Hin.
  repeat (apply elem_of_app in Hin as [Hin|Hin]); repeat case_match; simplify_eq;
    repeat match goal with H : _ ∈ [] |- _ => by apply not_elem_of_nil in H end;
    apply list_elem_of_singleton in Hin; simplify_eq; try done.
  all: try (inv_obind H0; simplify_eq; done).
  inv_obind H0. simplify_eq. apply mapM_Some, Forall2_length in Hb. simpl. rewrite Hb. done.
Qed.

(** Every INSERT that [upsert_lemma] issues has as many values as
    the columns its statement names: 2 for [l0_variant], 7 for [l0_def],
    5 for [l0_def_label], 6 for [l0_example], 2, 4 and 1 + 13 for the
    forms tables. *)
Theorem upsert_inserts_arity verb_keys sha obj t m r :
  Do (SInsert t m r) ∈ upsert_steps verb_keys sha obj -> length r = insert_columns (length verb_keys) t.
Proof.
  unfold upsert_steps. intros Hin.
  destruct (py_getitem obj (str "lemma")) as [lj|]; [|by apply list_elem_of_singleton in Hin].
  apply elem_of_cons in Hin as [Hin|Hin]; [done|].
  destruct (sql_param lj) as [lemma|]; [|by apply list_elem_of_singleton in Hin].
  apply elem_of_app in Hin as [Hin|Hin]; [set_solver|].
  destruct (_ ≫= _) as [vs|]; [|by apply list_elem_of_singleton in Hin].
  apply elem_of_app in Hin as [Hin|Hin].
  { apply list_elem_of_fmap in Hin as (s & Heq & _). by simplify_eq. }
  apply elem_of_app in Hin as [Hin|Hin].
  { apply list_elem_of_fmap in Hin as (s & Heq & _). done. }
  destruct (_ ≫= _) as [w|] eqn:Hw; [|by apply list_elem_of_singleton in Hin].
  assert (Hwf : walk_wf (length verb_keys) w).
  { inv_obind Hw. by eapply walk_entries_wf. }
  pose proof Hwf as (Hv & Hs & Hl & He).
  apply elem_of_app in Hin as [Hin|Hin].
  { apply list_elem_of_fmap in Hin as (r' & Heq & Hr). simplify_eq. rewrite Forall_forall in Hs. by apply Hs. }
  apply elem_of_app in Hin as [Hin|Hin].
  { apply list_elem_of_fmap in Hin as (r' & Heq & Hr). simplify_eq. rewrite Forall_forall in Hl. by apply Hl. }
  apply elem_of_app in Hin as [Hin|Hin].
  { apply list_elem_of_fmap in Hin as (r' & Heq & Hr). simplify_eq. rewrite Forall_forall in He. by apply He. }
  apply elem_of_app in Hin as [Hin|Hin]; [by eapply forms_steps_arity|by apply list_elem_of_singleton in Hin].
Qed.

Lemma upsert_inserts_arity_witness :
  let r := [SText (str "run"); SText (str "V"); SInt 1; SNull; SText (str "To move fast."); SNull; SNull] in
  Do (SInsert t_def Plain r) ∈ upsert_steps l0_verb_keys sample_sha sample_lemma /\
  length r = insert_columns (length l0_verb_keys) t_def.
Proof.
  intros r. assert (Hin : Do (SInsert t_def Plain r) ∈ upsert_steps l0_verb_keys sample_sha sample_lemma)
    by (apply (bool_decide_unpack _); vm_compute; reflexivity).
  split; [exact Hin|]. exact (upsert_inserts_arity _ _ _ _ _ _ Hin).
Defined.
