(* ===== verification/DictStore.v ===== *)
(** * DictStore: the per-lemma JSON files of the dictionary

    [src/memory/adapters/language/dictionary_maker.py] files the POS
    sections of scraped dumps into one JSON file per lemma and POS
    ([save_entry], [sort_wiktionary_dumps]) and builds manifests over
    them ([build_manifest], [build_pos_manifests]);
    [src/memory/adapters/language/dictionary_loader.py]
    ([load_dictionary]) reads them back into a map from word forms to
    entries.

    The file system is a list of paths, each a directory or a file whose
    content is a JSON value or undecodable text ([None]); [os.listdir]
    gives the names under a directory in the order of the list (Python
    leaves the order unspecified, so this is one of the orders a run may
    see), and [os.path.join] inserts a [/].  Python's [==] on JSON values
    is taken as equality of the values with sorted keys ([canon]). *)

From S2P Require Import Prelude Text Json Labels L0Db.

Open Scope Z_scope.

(** ** The file system *)

Inductive fnode := FDir | FFile (content : option json).

Definition FS := list (list Z * fnode).

Definition c_slash : Z := 47.

(** [os.path.join(d, n)] *)
Definition path_join (d n : list Z) : list Z := d ++ c_slash :: n.

Definition fs_lookup (fs : FS) (p : list Z) : option fnode := alist_find fs p.

(** [open(p, "w")] and [json.dump]: the file replaces the old one in
    place or is added at the end. *)
Definition fs_write (fs : FS) (p : list Z) (n : fnode) : FS := alist_set fs p n.

(** [os.path.split(p)[0]] of a path without repeated or trailing
    separators: [""] when [p] has no separator, ["/"] for a name right
    under the root. *)
Definition path_head (p : list Z) : list Z :=
  let k := span_while (fun c => negb (c =? c_slash)) (rev p) in
  if (k =? length p)%nat then []
  else let h := rev (drop (S k) (rev p)) in if bool_decide (h = []) then [c_slash] else h.

(** The heads [os.makedirs] does not create: [""] and the root. *)
Definition is_root_or_empty (h : list Z) : bool := bool_decide (h = []) || bool_decide (h = [c_slash]).

(** [try: mkdir(name) except OSError: if not exist_ok or not
    path.isdir(name): raise], with [exist_ok=True]: an existing
    directory is fine, a file raises [FileExistsError], a parent that
    is not a directory raises. *)
Definition mkdir_exist_ok (fs : FS) (name : list Z) : option FS :=
  match fs_lookup fs name with
  | Some FDir => Some fs
  | Some (FFile _) => None
  | None =>
      let head := path_head name in
      if is_root_or_empty head then Some (fs_write fs name FDir)
      else match fs_lookup fs head with Some FDir => Some (fs_write fs name FDir) | _ => None end
  end.

(** [os.makedirs(name, exist_ok=True)] (and [Path.mkdir(parents=True,
    exist_ok=True)], which agrees with it wherever the parent of every
    entry is a directory): [head, tail = path.split(name);
    if head and tail and not path.exists(head): makedirs(head)], then
    [mkdir(name)].  The head is shorter than the name, so the fuel
    [1 + len(name)] is never exhausted ([makedirs_go_fuel]). *)
Fixpoint makedirs_go (fuel : nat) (fs : FS) (name : list Z) : option FS :=
  match fuel with
  | O => None
  | S f =>
      let head := path_head name in
      fs1 ← (if negb (is_root_or_empty head) && negb (bool_decide (is_Some (fs_lookup fs head)))
             then makedirs_go f fs head else Some fs);
      mkdir_exist_ok fs1 name
  end.

Definition makedirs (fs : FS) (d : list Z) : option FS := makedirs_go (S (length d)) fs d.

(** [x] is [p] or a directory on the way to it. *)
Definition dir_prefix (x p : list Z) : bool := bool_decide (x = p) || starts_with (x ++ [c_slash]) p.

(** [os.listdir(d)]: the names of the entries right under [d]. *)
Definition listdir (fs : FS) (d : list Z) : list (list Z) :=
  omap (fun e => if starts_with (d ++ [c_slash]) e.1 then
                   let n := drop (S (length d)) e.1 in
                   if bool_decide (c_slash ∈ n) then None else Some n
                 else None) fs.

(** [os.listdir(d)] as called: a [d] that is not a directory raises. *)
Definition os_listdir (fs : FS) (d : list Z) : option (list (list Z)) :=
  match fs_lookup fs d with Some FDir => Some (listdir fs d) | _ => None end.

(** [os.remove(p)] *)
Definition fs_remove (fs : FS) (p : list Z) : FS := filter (fun e => e.1 <> p) fs.

(** ** [save_entry] *)

Definition RESERVED_WINDOWS_NAMES : list (list Z) :=
  map str ["con"; "prn"; "aux"; "nul"; "com1"; "com2"; "lpt1"; "lpt2"].

(** [d.get(k, default)] on a value that must be a [dict]. *)
Definition get_or (v : json) (k : list Z) (dflt : json) : option json :=
  match v with
  | JObj fs => Some (if existsb (fun kv => bool_decide (kv.1 = k)) fs then obj_get fs k else dflt)
  | _ => None
  end.

(** [entry.get("forms", {}).get("FORM", {}).get("INFLECTION", {})] *)
Definition inflections_of (entry : json) : option json :=
  f ← get_or entry (str "forms") (JObj []);
  f ← get_or f (str "FORM") (JObj []);
  get_or f (str "INFLECTION") (JObj []).

(** Python's [==] on JSON values. *)
Definition py_eq (a b : json) : bool := dumps_eq a b.

Section Store.
Context `{UnicodeDB}.

(** The file name of an entry: the lower-cased base lemma, with [_lex]
    after a reserved Windows name. *)
Definition entry_fname (entry : json) : option (list Z) :=
  lemma ← py_getitem entry (str "lemma");
  infl ← inflections_of entry;
  inf ← get_or infl (str "INF") lemma;
  match py_or inf lemma with
  | JStr base =>
      let raw := uc_lower base in
      Some (if bool_decide (raw ∈ RESERVED_WINDOWS_NAMES) then raw ++ str "_lex" else raw)
  | _ => None
  end.

(** [os.path.join(output_dir, f"{fname}.json")] *)
Definition entry_path (output_dir fname : list Z) : list Z := path_join output_dir (fname ++ str ".json").

Definition new_container (entry : json) : option json :=
  w ← py_getitem entry (str "word"); l ← py_getitem entry (str "lemma"); p ← py_getitem entry (str "pos");
  Some (JObj [(str "word", w); (str "lemma", l); (str "pos", p); (str "variants", JArr [])]).

(** The variant of a section. *)
Definition variant_of (entry : json) : option json :=
  et ← get_or entry (str "etymology") JNull;
  pi ← get_or entry (str "pos_index") JNull;
  fo ← get_or entry (str "forms") (JObj []);
  pr ← get_or entry (str "pronunciation") (JStr []);
  de ← get_or entry k_definitions (JArr []);
  Some (JObj [(str "etymology", et); (str "pos_index", pi); (str "forms", fo);
              (str "pronunciation", pr); (k_definitions, de)]).

(** [save_entry(entry, output_dir)]: the file system after the call;
    [None] is an exception. *)
Definition save_entry (fs : FS) (entry : json) (output_dir : list Z) : option FS :=
  fs ← makedirs fs output_dir;
  fname ← entry_fname entry;
  let path := entry_path output_dir fname in
  container ← (match fs_lookup fs path with
               | Some (FFile (Some c)) => Some c
               | Some FDir => None
               | _ => new_container entry
               end);
  variant ← variant_of entry;
  match container with
  | JObj cfs =>
      match obj_get cfs (str "variants") with
      | JArr vs =>
          existing ← mapM (fun v => py_getitem v k_definitions) vs;
          vdefs ← py_getitem variant k_definitions;
          let vs := if existsb (py_eq vdefs) existing then vs else vs ++ [variant] in
          Some (fs_write fs path (FFile (Some (JObj (obj_set cfs (str "variants") (JArr vs))))))
      | _ => None
      end
  | _ => None
  end.

(** The JSON value of a file, as [json.load] reads it. *)
Definition fs_load (fs : FS) (p : list Z) : option json :=
  match fs_lookup fs p with Some (FFile (Some j)) => Some j | _ => None end.

(** [sort_wiktionary_dumps(dump_dir, out_dir)] *)
Definition sort_wiktionary_dumps (fs : FS) (dump_dir out_dir : list Z) : option FS :=
  names ← os_listdir fs dump_dir;
  foldlM (fun fs fname =>
            if ends_with (str "_wiktionary_dump.json") fname then
              let path := path_join dump_dir fname in
              data ← fs_load fs path;
              entries ← py_iter data;
              fs ← foldlM (fun fs entry =>
                             rl ← get_or entry (str "raw_label") (JStr []);
                             pos_folder ← (match rl with
                                           | JStr r => if bool_decide (uc_lower r = str "proper noun")
                                                       then Some (JStr (str "PROPN"))
                                                       else py_getitem entry (str "pos")
                                           | _ => None
                                           end);
                             match pos_folder with
                             | JStr pf => save_entry fs entry (path_join out_dir pf)
                             | _ => None
                             end) fs entries;
              Some (fs_remove fs path)
            else Some fs)
         fs names.

(** [len(x)] *)
Definition py_len (v : json) : option Z :=
  match v with
  | JArr l => Some (Zlength l)
  | JObj fs => Some (Zlength fs)
  | JStr s => Some (Zlength s)
  | _ => None
  end.

(** One record of [build_manifest]. *)
Definition manifest_record (relpath lemma pos : json) (variant : json) : option json :=
  f ← get_or variant (str "forms") (JObj []);
  f ← get_or f (str "FORM") (JObj []);
  forms ← get_or f (str "INFLECTION") (JObj []);
  total_slots ← py_len forms;
  items ← (match forms with JObj fs => Some fs | _ => None end);
  let non_empty := Zlength (filter (fun kv => py_truthy kv.2 = true) items) in
  pi ← get_or variant (str "pos_index") JNull;
  et ← get_or variant (str "etymology") JNull;
  defs ← get_or variant k_definitions (JArr []);
  dc ← py_len defs;
  ds ← py_iter defs;
  ecs ← mapM (fun d => e ← get_or d (str "examples") (JArr []); py_len e) ds;
  Some (JObj [(str "path", relpath); (str "lemma", lemma); (str "pos", pos); (str "pos_index", pi);
              (str "etymology", et); (str "definition_count", JNum dc);
              (str "example_count", JNum (foldr Z.add 0 ecs));
              (str "form_slots", JNum total_slots); (str "filled_slots", JNum non_empty)]).

Definition manifest_records (fs : FS) (dict_dir : list Z) : option (list json) :=
  names ← os_listdir fs dict_dir;
  foldlM (fun acc pos =>
            let pos_dir := path_join dict_dir pos in
            match fs_lookup fs pos_dir with
            | Some FDir =>
                foldlM (fun acc fname =>
                          if ends_with (str ".json") fname then
                            let path := path_join pos_dir fname in
                            container ← fs_load fs path;
                            lemma ← get_or container (str "lemma") (JStr (take (length fname - 5) fname));
                            vs0 ← get_or container (str "variants") (JArr []);
                            vs ← py_iter vs0;
                            recs ← mapM (fun v => p ← py_getitem container (str "pos");
                                                  manifest_record (JStr (path_join pos fname)) lemma p v) vs;
                            Some (acc ++ recs)
                          else Some acc) acc (listdir fs pos_dir)
            | _ => Some acc
            end) [] names.

(** [build_manifest(dict_dir)] *)
Definition build_manifest (fs : FS) (dict_dir : list Z) : option FS :=
  recs ← manifest_records fs dict_dir;
  Some (fs_write fs (dict_dir ++ str "/manifest.json") (FFile (Some (JArr recs)))).

(** The decimal digits of a non-negative integer; [log2 n + 1] steps are
    enough, one per digit. *)
Fixpoint dec_digits (fuel : nat) (n : Z) : list Z :=
  match fuel with
  | O => []
  | S f => if n <? 10 then [48 + n] else dec_digits f (n / 10) ++ [48 + n mod 10]
  end.

(** [str(n)] of an [int] *)
Definition z_to_dec (n : Z) : list Z :=
  let d := dec_digits (S (Z.to_nat (Z.log2 (Z.abs n)))) (Z.abs n) in
  if n <? 0 then 45 :: d else d.

(** [str(x)] of a scalar, the file name part of [f"{pos}.json"]. *)
Definition py_str (v : json) : option (list Z) :=
  match v with
  | JStr s => Some s
  | JNull => Some (str "None")
  | JBool b => Some (str (if b then "True" else "False"))
  | JNum n => Some (z_to_dec n)
  | _ => None
  end.

(** [by_pos[e["pos"]].append(e)] on a [defaultdict(list)]: lists and
    dicts are not hashable. *)
Definition group_step (groups : list (json * list json)) (e : json) : option (list (json * list json)) :=
  p ← py_getitem e (str "pos");
  match p with
  | JArr _ | JObj _ => None
  | _ =>
      Some (if existsb (fun g => bool_decide (g.1 = p)) groups
            then map (fun g => if bool_decide (g.1 = p) then (g.1, g.2 ++ [e]) else g) groups
            else groups ++ [(p, [e])])
  end.

(** The groups in the order their key is first seen. *)
Definition group_by_pos (entries : list json) : option (list (json * list json)) :=
  foldlM group_step [] entries.

(** [build_pos_manifests(dict_dir, manifest_dir)] *)
Definition build_pos_manifests (fs : FS) (dict_dir manifest_dir : list Z) : option FS :=
  data ← fs_load fs (path_join dict_dir (str "manifest.json"));
  entries ← py_iter data;
  groups ← group_by_pos entries;
  foldlM (fun fs g => name ← py_str g.1;
                      _ ← (match fs_lookup fs manifest_dir with Some FDir => Some tt | _ => None end);
                      Some (fs_write fs (path_join manifest_dir (name ++ str ".json")) (FFile (Some (JArr g.2)))))
         fs groups.

(** [full_dict.setdefault(k, {})[pos] = entry] *)
Definition register (d : list (list Z * list (list Z * json))) (k pos : list Z) (e : json)
    : list (list Z * list (list Z * json)) :=
  let set inner := if existsb (fun pe => bool_decide (pe.1 = pos)) inner
                   then map (fun pe => if bool_decide (pe.1 = pos) then (pos, e) else pe) inner
                   else inner ++ [(pos, e)] in
  if existsb (fun ke => bool_decide (ke.1 = k)) d
  then map (fun ke => if bool_decide (ke.1 = k) then (k, set ke.2) else ke) d
  else d ++ [(k, set [])].

(** [load_dictionary(DICTIONARY_DIR)] *)
Definition load_dictionary (fs : FS) (dict_dir : list Z) : option (list (list Z * list (list Z * json))) :=
  names ← os_listdir fs dict_dir;
  foldlM (fun full pos_folder =>
            let pos_path := path_join dict_dir pos_folder in
            match fs_lookup fs pos_path with
            | Some FDir =>
                foldlM (fun full fname =>
                          if ends_with (str ".json") fname then
                            let lemma := uc_lower (take (length fname - 5) fname) in
                            entry ← fs_load fs (path_join pos_path fname);
                            vs0 ← get_or entry (str "variants") (JArr []);
                            vs ← py_iter vs0;
                            all_defs ← foldlM (fun acc v => d ← get_or v k_definitions (JArr []);
                                                            ds ← py_iter d; Some (acc ++ ds)) [] vs;
                            efs ← (match entry with JObj efs => Some efs | _ => None end);
                            let entry := JObj (obj_set efs (str "_flattened_definitions") (JArr all_defs)) in
                            let full := register full lemma (uc_upper pos_folder) entry in
                            foldlM (fun full v =>
                                      infl ← inflections_of v;
                                      forms ← (match infl with JObj ifs => Some (map snd ifs) | _ => None end);
                                      Some (foldl (fun full form =>
                                                     match form with
                                                     | JStr f => if bool_decide (f = []) then full
                                                                 else register full (uc_lower f) (uc_upper pos_folder) entry
                                                     | _ => full
                                                     end) full forms)) full vs
                          else Some full) full (listdir fs pos_path)
            | _ => Some full
            end) [] names.

End Store.

(** ** Samples: two nouns whose lemmas differ in case *)

Definition noun_section (lemma gloss : string) : json :=
  JObj [(str "word", JStr (str lemma)); (str "lemma", JStr (str lemma)); (str "pos", JStr (str "NOUN"));
        (k_definitions, JArr [JObj [(str "gloss", JStr (str gloss))]])].

Definition march_month : json := noun_section "March" "The third month of the year.".
Definition march_walk : json := noun_section "march" "A formal, rhythmic way of walking.".
Definition noun_dir : list Z := str "dictionary/NOUN".
Definition after_month : FS := default [] (save_entry [] march_month noun_dir).
Definition after_walk : FS := default [] (save_entry after_month march_walk noun_dir).

(** ** Lemmas on the file system *)

Lemma path_join_ne d n : path_join d n <> d.
Proof.
  intros Heq. apply (f_equal length) in Heq. unfold path_join in Heq.
  rewrite length_app in Heq. simpl in Heq. lia.
Qed.

Lemma fs_lookup_write_same fs p n : fs_lookup (fs_write fs p n) p = Some n.
Proof. apply alist_find_set_same. Qed.

Lemma fs_lookup_write_ne fs p q n : q <> p -> fs_lookup (fs_write fs p n) q = fs_lookup fs q.
Proof. apply alist_find_set_ne. Qed.

Lemma fs_write_write fs p n : fs_write (fs_write fs p n) p n = fs_write fs p n.
Proof. apply alist_set_set. Qed.

(** *** [os.makedirs] *)

Lemma path_head_split p :
  is_root_or_empty (path_head p) = false -> exists t, p = path_head p ++ c_slash :: t.
Proof.
  unfold path_head. set (k := span_while _ (rev p)).
  destruct (Nat.eqb_spec k (length p)) as [Hk|Hk]; [done|].
  assert (Hlt : (k < length (rev p))%nat) by (pose proof (span_while_le (fun c => negb (c =? c_slash)) (rev p)); rewrite length_rev in *; lia).
  destruct (lookup_lt_is_Some_2 (rev p) k Hlt) as [c Hc].
  pose proof (span_while_stop _ _ _ Hc) as Hs. apply negb_false_iff, Z.eqb_eq in Hs. subst c.
  assert (Hr : rev p = take k (rev p) ++ c_slash :: drop (S k) (rev p)).
  { rewrite <-(take_drop k (rev p)) at 1. f_equal. by apply drop_S. }
  cbv zeta. case_bool_decide as Hh.
  { unfold is_root_or_empty. rewrite (bool_decide_true (_ = [c_slash])) by done. by rewrite orb_true_r. }
  intros _. exists (rev (take k (rev p))).
  transitivity (rev (rev p)); [by rewrite rev_involutive|]. rewrite Hr at 1.
  rewrite rev_app_distr. simpl. by rewrite <-app_assoc.
Qed.

Lemma path_head_shorter p : is_root_or_empty (path_head p) = false -> (length (path_head p) < length p)%nat.
Proof. intros [t Ht]%path_head_split. rewrite Ht at 2. rewrite length_app. simpl. lia. Qed.

Lemma dir_prefix_refl p : dir_prefix p p = true.
Proof. unfold dir_prefix. by rewrite bool_decide_true. Qed.

Lemma dir_prefix_spec x p : dir_prefix x p = true <-> x = p \/ exists t, p = x ++ c_slash :: t.
Proof.
  unfold dir_prefix. rewrite orb_true_iff, bool_decide_eq_true, starts_with_spec.
  by setoid_rewrite <-app_assoc.
Qed.

Lemma dir_prefix_head x p :
  is_root_or_empty (path_head p) = false -> dir_prefix x (path_head p) = true -> dir_prefix x p = true.
Proof.
  intros [t Ht]%path_head_split. revert Ht. generalize (path_head p) as h. intros h Ht.
  rewrite !dir_prefix_spec. intros [<-|[r ->]]; right; [by exists t|].
  exists (r ++ c_slash :: t). rewrite Ht. by rewrite <-app_assoc.
Qed.

Lemma dir_prefix_length x p : dir_prefix x p = true -> (length x <= length p)%nat.
Proof. rewrite dir_prefix_spec. intros [->|[t ->]]; [lia|]. rewrite length_app. simpl. lia. Qed.

Lemma dir_prefix_join_false d n : dir_prefix (path_join d n) d = false.
Proof.
  destruct (dir_prefix _ _) eqn:E; [|done]. apply dir_prefix_length in E.
  unfold path_join in E. rewrite length_app in E. simpl in E. lia.
Qed.

(** Every directory on the way to [p] is a prefix of [p]: checking the
    prefixes checks them all. *)
Lemma no_file_on_path fs p :
  forallb (fun i => match fs_lookup fs (take i p) with Some (FFile _) => false | _ => true end)
          (seq 0 (S (length p))) = true ->
  forall x c, dir_prefix x p = true -> fs_lookup fs x <> Some (FFile c).
Proof.
  intros Hall x c Hx. rewrite forallb_forall in Hall.
  assert (Hk : exists k, (k <= length p)%nat /\ x = take k p).
  { apply dir_prefix_spec in Hx as [->|[t ->]].
    - exists (length p). by rewrite take_ge.
    - exists (length x). rewrite take_app_length. split; [|done]. rewrite length_app. lia. }
  destruct Hk as (k & Hk & ->). specialize (Hall k). rewrite in_seq in Hall.
  intros Hf. rewrite Hf in Hall. discriminate (Hall ltac:(lia)).
Qed.

(** [fs1] is [fs] with directories added where nothing was, at paths
    satisfying [P]. *)
Definition grows_within (P : list Z -> Prop) (fs fs1 : FS) : Prop :=
  forall x, fs_lookup fs1 x = fs_lookup fs x \/ (P x /\ fs_lookup fs x = None /\ fs_lookup fs1 x = Some FDir).

Lemma grows_trans (P Q : list Z -> Prop) fs fs1 fs2 :
  grows_within P fs fs1 -> grows_within Q fs1 fs2 -> grows_within (fun x => P x \/ Q x) fs fs2.
Proof.
  intros H1 H2 x. destruct (H1 x) as [E1|(? & ? & E1)], (H2 x) as [E2|(? & E2 & ?)];
    rewrite ?E1 in *; first [by left; congruence | by right; naive_solver | congruence].
Qed.

Lemma grows_mono (P Q : list Z -> Prop) fs fs1 :
  (forall x, P x -> Q x) -> grows_within P fs fs1 -> grows_within Q fs fs1.
Proof. intros HPQ H x. destruct (H x) as [?|(? & ? & ?)]; [by left|right; auto]. Qed.

Lemma grows_keep P fs fs1 x n : grows_within P fs fs1 -> fs_lookup fs x = Some n -> fs_lookup fs1 x = Some n.
Proof. intros H Hx. destruct (H x) as [->|(_ & ? & _)]; congruence. Qed.

Lemma grows_file P fs fs1 x c :
  grows_within P fs fs1 -> fs_lookup fs1 x = Some (FFile c) -> fs_lookup fs x = Some (FFile c).
Proof. intros H Hx. destruct (H x) as [<-|(_ & _ & ?)]; congruence. Qed.

Lemma mkdir_exist_ok_grows fs name fs1 :
  mkdir_exist_ok fs name = Some fs1 -> grows_within (fun x => x = name) fs fs1 /\ fs_lookup fs1 name = Some FDir.
Proof.
  unfold mkdir_exist_ok. destruct (fs_lookup fs name) as [[|c]|] eqn:E; [intros [= <-]; split; [by left|done]|done|].
  assert (Hw : forall fs', fs' = fs_write fs name FDir -> grows_within (fun x => x = name) fs fs' /\ fs_lookup fs' name = Some FDir).
  { intros fs' ->. split; [|apply fs_lookup_write_same]. intros x.
    destruct (decide (x = name)) as [->|Hne]; [right; rewrite fs_lookup_write_same; auto|left; by apply fs_lookup_write_ne]. }
  destruct (is_root_or_empty _); [intros [= <-]; by apply Hw|].
  destruct (fs_lookup fs (path_head name)) as [[|]|]; intros; simplify_eq; by apply Hw.
Qed.

Lemma makedirs_go_grows f fs name fs1 :
  makedirs_go f fs name = Some fs1 ->
  grows_within (fun x => dir_prefix x name = true) fs fs1 /\ fs_lookup fs1 name = Some FDir.
Proof.
  revert fs name fs1. induction f as [|f IH]; intros fs name fs1; [done|]. cbn [makedirs_go].
  destruct (negb _ && negb _) eqn:Hc.
  - destruct (makedirs_go f fs (path_head name)) as [fs2|] eqn:E2; [|done]. cbn [mbind option_bind].
    intros (Hg & Hd)%mkdir_exist_ok_grows. destruct (IH _ _ _ E2) as [Hg2 _]. split; [|done].
    eapply grows_mono; [|exact (grows_trans _ _ _ _ _ Hg2 Hg)].
    apply andb_true_iff in Hc as [Hr _]. apply negb_true_iff in Hr.
    intros x [Hx| ->]; [by apply dir_prefix_head|apply dir_prefix_refl].
  - cbn [mbind option_bind]. intros (Hg & Hd)%mkdir_exist_ok_grows. split; [|done].
    eapply grows_mono; [|exact Hg]. intros x ->. apply dir_prefix_refl.
Qed.

Lemma makedirs_grows fs d fs1 :
  makedirs fs d = Some fs1 -> grows_within (fun x => dir_prefix x d = true) fs fs1.
Proof. apply makedirs_go_grows. Qed.

Lemma makedirs_dir fs d fs1 : makedirs fs d = Some fs1 -> fs_lookup fs1 d = Some FDir.
Proof. apply makedirs_go_grows. Qed.

(** Any fuel longer than the path gives the same result. *)
Lemma makedirs_go_fuel f fs name : (length name < f)%nat -> makedirs_go f fs name = makedirs fs name.
Proof.
  unfold makedirs. remember (S (length name)) as g eqn:Hg. assert (Hgl : (length name < g)%nat) by lia. clear Hg.
  revert g fs name Hgl. induction f as [|f IH]; intros [|g] fs name Hgl Hf; try lia. cbn [makedirs_go].
  destruct (negb (is_root_or_empty _)) eqn:Hr; [|done]. apply negb_true_iff in Hr.
  pose proof (path_head_shorter _ Hr). destruct (negb _); [|done]. rewrite (IH g); [done|lia|lia].
Qed.

(** [makedirs] changes nothing when the path is a directory and its head
    exists. *)
Lemma makedirs_idem fs d :
  fs_lookup fs d = Some FDir -> (is_root_or_empty (path_head d) = true \/ is_Some (fs_lookup fs (path_head d))) ->
  makedirs fs d = Some fs.
Proof.
  intros Hd Hh. unfold makedirs. cbn [makedirs_go].
  assert (Hc : negb (is_root_or_empty (path_head d)) && negb (bool_decide (is_Some (fs_lookup fs (path_head d)))) = false).
  { destruct Hh as [-> | Hs]; [done|]. rewrite bool_decide_true by done. apply andb_false_r. }
  rewrite Hc. cbn [mbind option_bind]. unfold mkdir_exist_ok. by rewrite Hd.
Qed.

Lemma makedirs_head fs d fs1 :
  makedirs fs d = Some fs1 -> is_root_or_empty (path_head d) = true \/ is_Some (fs_lookup fs1 (path_head d)).
Proof.
  intros Hm. destruct (is_root_or_empty (path_head d)) eqn:Hr; [by left|right]. revert Hm.
  unfold makedirs. cbn [makedirs_go]. rewrite Hr. cbn [negb andb].
  destruct (fs_lookup fs (path_head d)) as [n|] eqn:E.
  - rewrite bool_decide_true by done. cbn [negb mbind option_bind]. intros (Hg & _)%mkdir_exist_ok_grows.
    exists n. by eapply grows_keep.
  - rewrite bool_decide_false by (by intros [? ?]). cbn [negb mbind option_bind].
    destruct (makedirs_go _ fs (path_head d)) as [fs2|] eqn:E2; [|done]. cbn [mbind option_bind].
    intros (Hg & _)%mkdir_exist_ok_grows. apply makedirs_go_grows in E2 as [_ Hd2].
    exists FDir. by eapply grows_keep.
Qed.

(** A second [makedirs] of the same path changes nothing. *)
Lemma makedirs_twice fs d fs1 : makedirs fs d = Some fs1 -> makedirs fs1 d = Some fs1.
Proof.
  intros Hm. apply makedirs_idem; [by eapply makedirs_dir|by eapply makedirs_head].
Qed.

(** ... also after a write somewhere else than the path itself. *)
Lemma makedirs_twice_write fs d fs1 p n :
  makedirs fs d = Some fs1 -> p <> d -> makedirs (fs_write fs1 p n) d = Some (fs_write fs1 p n).
Proof.
  intros Hm Hp. apply makedirs_idem.
  - rewrite fs_lookup_write_ne by congruence. by eapply makedirs_dir.
  - destruct (makedirs_head _ _ _ Hm) as [?|Hh]; [by left|right].
    destruct (decide (path_head d = p)) as [->|Hne]; [rewrite fs_lookup_write_same; by eexists|].
    by rewrite fs_lookup_write_ne.
Qed.

Lemma makedirs_lookup_ne fs d fs1 x :
  makedirs fs d = Some fs1 -> dir_prefix x d = false -> fs_lookup fs1 x = fs_lookup fs x.
Proof. intros Hm Hx. destruct (makedirs_grows _ _ _ Hm x) as [?|(? & _ & _)]; [done|congruence]. Qed.

Lemma makedirs_keep fs d fs1 x n : makedirs fs d = Some fs1 -> fs_lookup fs x = Some n -> fs_lookup fs1 x = Some n.
Proof. intros Hm. apply grows_keep with (P := fun x => dir_prefix x d = true). by apply makedirs_grows. Qed.

Lemma makedirs_file fs d fs1 x c :
  makedirs fs d = Some fs1 -> fs_lookup fs1 x = Some (FFile c) -> fs_lookup fs x = Some (FFile c).
Proof. intros Hm. apply grows_file with (P := fun x => dir_prefix x d = true). by apply makedirs_grows. Qed.

Lemma dir_prefix_of_head p :
  is_root_or_empty (path_head p) = false -> dir_prefix (path_head p) p = true.
Proof. intros [t Ht]%path_head_split. apply dir_prefix_spec. right. by exists t. Qed.

(** [mkdir] succeeds on a path that is no file when its head, unless it
    is the root, is a directory. *)
Lemma mkdir_exist_ok_ok fs d :
  (forall c, fs_lookup fs d <> Some (FFile c)) ->
  (is_root_or_empty (path_head d) = true \/ fs_lookup fs (path_head d) = Some FDir) ->
  is_Some (mkdir_exist_ok fs d).
Proof.
  intros Hd Hh. unfold mkdir_exist_ok. destruct (fs_lookup fs d) as [[|c]|] eqn:E; [done|by destruct (Hd c)|].
  cbv zeta. destruct Hh as [Hr|Hh]; [by rewrite Hr|]. rewrite Hh. by destruct (is_root_or_empty _).
Qed.

(** [makedirs] succeeds when no directory on the way is a file. *)
Lemma makedirs_ok fs d :
  (forall x c, dir_prefix x d = true -> fs_lookup fs x <> Some (FFile c)) -> is_Some (makedirs fs d).
Proof.
  rewrite <-(makedirs_go_fuel (S (length d))) by lia.
  assert (Hf : (length d < S (length d))%nat) by lia. revert Hf. generalize (S (length d)) as f.
  intros f. revert fs d. induction f as [|f IH]; intros fs d Hf Hno; [lia|]. cbn [makedirs_go].
  destruct (is_root_or_empty (path_head d)) eqn:Hr; cbn [negb andb mbind option_bind].
  - apply mkdir_exist_ok_ok; [intros c; apply Hno, dir_prefix_refl|by left].
  - pose proof (path_head_shorter _ Hr) as Hlen.
    destruct (fs_lookup fs (path_head d)) as [n|] eqn:E.
    + rewrite bool_decide_true by done. cbn [negb mbind option_bind].
      apply mkdir_exist_ok_ok; [intros c; apply Hno, dir_prefix_refl|right].
      destruct n as [|c]; [done|]. exfalso. by apply (Hno _ c (dir_prefix_of_head _ Hr)).
    + rewrite bool_decide_false by (by intros [? ?]). cbn [negb mbind option_bind].
      destruct (IH fs (path_head d)) as [fs2 E2]; [lia| |].
      { intros x c Hx. apply Hno. by apply dir_prefix_head. }
      rewrite E2. cbn [mbind option_bind]. apply makedirs_go_grows in E2 as [Hg Hd2].
      apply mkdir_exist_ok_ok; [|by right].
      intros c Hc. apply (Hno d c (dir_prefix_refl d)). by eapply grows_file.
Qed.

Lemma mapM_snoc {A B} (f : A -> option B) l x ys y :
  mapM f l = Some ys -> f x = Some y -> mapM f (l ++ [x]) = Some (ys ++ [y]).
Proof.
  rewrite !mapM_Some. intros Hl Hx. apply Forall2_app; [done|by constructor].
Qed.

(** After the dedup step of [save_entry] the variants hold one whose
    definitions are those of the new variant. *)
Lemma variants_dedup vs existing var vdefs :
  mapM (fun v => py_getitem v k_definitions) vs = Some existing ->
  py_getitem var k_definitions = Some vdefs ->
  exists existing',
    mapM (fun v => py_getitem v k_definitions)
         (if existsb (py_eq vdefs) existing then vs else vs ++ [var]) = Some existing' /\
    existsb (py_eq vdefs) existing' = true.
Proof.
  intros Hvs Hvar. destruct (existsb (py_eq vdefs) existing) eqn:E; [by exists existing|].
  exists (existing ++ [vdefs]). split; [by apply mapM_snoc|].
  rewrite existsb_app. simpl. unfold py_eq, dumps_eq. rewrite bool_decide_eq_true_2 by done.
  apply orb_true_r.
Qed.


Section StoreLemmas.
Context `{UnicodeDB}.

(** The shape of a [save_entry] call that returns. *)
Lemma save_entry_Some fs e d fs' :
  save_entry fs e d = Some fs' ->
  exists fs1 fname cfs vs existing var vdefs,
    makedirs fs d = Some fs1 /\ entry_fname e = Some fname /\
    (match fs_lookup fs1 (entry_path d fname) with
     | Some (FFile (Some c)) => Some c
     | Some FDir => None
     | _ => new_container e
     end) = Some (JObj cfs) /\
    variant_of e = Some var /\ obj_get cfs (str "variants") = JArr vs /\
    mapM (fun v => py_getitem v k_definitions) vs = Some existing /\
    py_getitem var k_definitions = Some vdefs /\
    fs' = fs_write fs1 (entry_path d fname)
            (FFile (Some (JObj (obj_set cfs (str "variants")
               (JArr (if existsb (py_eq vdefs) existing then vs else vs ++ [var])))))).
Proof.
  unfold save_entry. intros Hs. inv_obind Hs.
  destruct j as [| | | | |cfs]; try discriminate.
  destruct (obj_get cfs (str "variants")) as [| | | |vs|] eqn:Ev; try discriminate.
  inv_obind Hs. simplify_eq. eexists _, _, cfs, vs, _, _, _. split_and!; eauto.
Qed.

(** C18: Saving the same section twice leaves the file system as saving it
    once: the second call finds the variant's definitions already in the
    file and writes the same container back. *)
Theorem save_entry_idempotent fs e d fs' :
  save_entry fs e d = Some fs' -> save_entry fs' e d = Some fs'.
Proof.
  intros Hs.
  destruct (save_entry_Some _ _ _ _ Hs)
    as (fs1 & fname & cfs & vs & existing & var & vdefs & Hmk & Hf & Hc & Hv & Hvs & Hex & Hvd & ->).
  destruct (variants_dedup vs existing var vdefs Hex Hvd) as (ex' & Hex' & Hin).
  unfold save_entry. rewrite (makedirs_twice_write fs d fs1) by (done || apply path_join_ne).
  cbn [mbind option_bind]. rewrite Hf. cbn [mbind option_bind].
  rewrite fs_lookup_write_same, Hv. cbn [mbind option_bind].
  rewrite obj_get_set_same, Hex', Hvd. cbn [mbind option_bind]. rewrite Hin.
  by rewrite obj_set_set, fs_write_write.
Qed.

Lemma new_container_lemma e cfs l :
  new_container e = Some (JObj cfs) -> py_getitem e (str "lemma") = Some l ->
  obj_get cfs (str "lemma") = l.
Proof. unfold new_container. intros Hn Hl. rewrite Hl in Hn. inv_obind Hn. simplify_eq. by vm_compute. Qed.

Lemma lemma_ne_variants : str "lemma" <> str "variants".
Proof. by vm_compute. Qed.

(** C19: Two sections whose lemmas differ only in case (["March"] and
    ["march"]) share one file, and the file keeps the [lemma] of the
    first one saved: the second lemma is recorded nowhere. *)
Theorem save_entry_keeps_first_lemma fs fs1 fs2 e1 e2 d fname l1 :
  entry_fname e1 = Some fname -> entry_fname e2 = Some fname ->
  fs_lookup fs (entry_path d fname) = None ->
  py_getitem e1 (str "lemma") = Some l1 ->
  save_entry fs e1 d = Some fs1 -> save_entry fs1 e2 d = Some fs2 ->
  exists cfs, fs_load fs2 (entry_path d fname) = Some (JObj cfs) /\ obj_get cfs (str "lemma") = l1.
Proof.
  intros Hf1 Hf2 Hfresh Hl1 Hs1 Hs2.
  destruct (save_entry_Some _ _ _ _ Hs1)
    as (f1 & n1 & cfs1 & vs1 & ex1 & var1 & vd1 & Hmk1 & Hn1 & Hc1 & _ & _ & _ & _ & ->).
  destruct (save_entry_Some _ _ _ _ Hs2)
    as (f2 & n2 & cfs2 & vs2 & ex2 & var2 & vd2 & Hmk2 & Hn2 & Hc2 & _ & _ & _ & _ & ->).
  rewrite Hf1 in Hn1. rewrite Hf2 in Hn2. injection Hn1 as <-. injection Hn2 as <-.
  assert (Hne : dir_prefix (entry_path d fname) d = false) by apply dir_prefix_join_false.
  rewrite (makedirs_lookup_ne _ _ _ _ Hmk1 Hne), Hfresh in Hc1.
  rewrite (makedirs_lookup_ne _ _ _ _ Hmk2 Hne), fs_lookup_write_same in Hc2. injection Hc2 as <-.
  eexists. unfold fs_load. rewrite fs_lookup_write_same. split; [done|].
  rewrite !obj_get_set_ne by apply lemma_ne_variants. by eapply new_container_lemma.
Qed.

End StoreLemmas.

Lemma save_entry_idempotent_witness :
  save_entry [] march_month noun_dir = Some after_month /\
  save_entry after_month march_month noun_dir = Some after_month.
Proof.
  split; [vm_compute; reflexivity|]. apply (save_entry_idempotent []). vm_compute; reflexivity.
Defined.

Lemma save_entry_keeps_first_lemma_witness :
  exists cfs, fs_load after_walk (entry_path noun_dir (str "march")) = Some (JObj cfs) /\
              obj_get cfs (str "lemma") = JStr (str "March").
Proof.
  apply (save_entry_keeps_first_lemma [] after_month after_walk march_month march_walk noun_dir (str "march"));
    vm_compute; reflexivity.
Defined.

(** ** Paths and listings *)

Lemma path_join_assoc d a b : path_join (path_join d a) b = path_join d (a ++ c_slash :: b).
Proof. unfold path_join. by rewrite <-app_assoc. Qed.

Lemma path_join_inj d a b : path_join d a = path_join d b -> a = b.
Proof. unfold path_join. intros H. apply app_inv_head in H. by injection H. Qed.

(** Two paths split at their first slash. *)
Lemma slash_split a b x y :
  c_slash ∉ a -> c_slash ∉ b -> a ++ c_slash :: x = b ++ c_slash :: y -> a = b /\ x = y.
Proof.
  revert b. induction a as [|c a IH]; intros [|c' b] Ha Hb H; simpl in H; simplify_eq.
  - done.
  - exfalso. apply Hb. by left.
  - exfalso. apply Ha. by left.
  - destruct (IH b) as [-> ->]; [intros ?; apply Ha; by right|intros ?; apply Hb; by right|done|done].
Qed.

Lemma slash_free_ne a b y : c_slash ∉ a -> a <> b ++ c_slash :: y.
Proof. intros Ha ->. apply Ha. apply elem_of_app. right. by left. Qed.

Lemma fs_lookup_in fs p n : fs_lookup fs p = Some n -> (p, n) ∈ fs.
Proof.
  unfold fs_lookup, alist_find. induction fs as [|[p1 n1] fs IH]; simpl; [done|].
  case_bool_decide; simpl; intros Hf; simplify_eq.
  - by left.
  - right. by apply IH.
Qed.

(** A name right under [d] is listed by [os.listdir(d)]. *)
Lemma listdir_elem fs d n nd : fs_lookup fs (path_join d n) = Some nd -> c_slash ∉ n -> n ∈ listdir fs d.
Proof.
  intros Hl Hn. apply fs_lookup_in in Hl. unfold listdir. apply list_elem_of_omap.
  exists (path_join d n, nd). split; [done|]. simpl. unfold path_join.
  replace (d ++ c_slash :: n) with ((d ++ [c_slash]) ++ n) by (by rewrite <-app_assoc).
  rewrite starts_with_app. rewrite drop_app_length'; [|by rewrite length_app; simpl; lia].
  by rewrite bool_decide_eq_false_2.
Qed.

(** And every listed name is the last component of a path of the file
    system. *)
Lemma listdir_in fs d n : n ∈ listdir fs d -> path_join d n ∈ map fst fs /\ c_slash ∉ n.
Proof.
  unfold listdir. intros ([p nd] & Hin & Hf)%list_elem_of_omap. simpl in Hf.
  destruct (starts_with _ p) eqn:Hs; [|done]. apply starts_with_spec in Hs as [r ->].
  rewrite drop_app_length' in Hf by (rewrite length_app; simpl; lia).
  case_bool_decide; simplify_eq. split; [|done].
  apply list_elem_of_fmap. exists (d ++ [c_slash] ++ n, nd). split; [|by rewrite app_assoc].
  unfold path_join. done.
Qed.

Lemma ends_with_app s x : ends_with s (x ++ s) = true.
Proof. unfold ends_with. rewrite rev_app_distr. apply starts_with_app. Qed.

(** ** Grouping by POS *)

Lemma group_step_keys groups e groups' :
  group_step groups e = Some groups' ->
  exists p, py_getitem e (str "pos") = Some p /\ p ∈ map fst groups' /\
            forall k, k ∈ map fst groups -> k ∈ map fst groups'.
Proof.
  unfold group_step. intros H. inv_obind H. exists j. split; [done|].
  destruct j; simplify_eq; (destruct (existsb _ groups) eqn:E;
    [ split; [apply existsb_exists in E as ([k l] & Hin & Hk);
              apply list_elem_of_fmap; exists (k, l ++ [e]); split;
              [by case_bool_decide|apply list_elem_of_fmap; exists (k, l); split; [|by apply list_elem_of_In];
                                    cbn in *; by rewrite Hk]
             |intros k Hk; rewrite map_map; apply list_elem_of_fmap in Hk as ([k' l'] & -> & Hin);
              apply list_elem_of_fmap; exists (k', l'); split; [by case_bool_decide|done]]
    | rewrite map_app; split; [set_solver|set_solver]]).
Qed.

Lemma group_by_pos_key entries gs e k :
  group_by_pos entries = Some gs -> e ∈ entries -> py_getitem e (str "pos") = Some k -> k ∈ map fst gs.
Proof.
  unfold group_by_pos. generalize (@nil (json * list json)) as acc.
  induction entries as [|e' es IH]; intros acc Hg He Hk; [by apply not_elem_of_nil in He|].
  simpl in Hg. destruct (group_step acc e') as [acc'|] eqn:Hs; simpl in Hg; [|done].
  apply elem_of_cons in He as [->|He]; [|by eapply IH].
  destruct (group_step_keys _ _ _ Hs) as (p & Hp & Hin & _). rewrite Hk in Hp. injection Hp as ->.
  clear IH Hs. revert acc' Hg Hin. induction es as [|e'' es IH]; intros acc' Hg Hin; simpl in Hg; [congruence|].
  destruct (group_step acc' e'') as [acc''|] eqn:Hs; simpl in Hg; [|done].
  destruct (group_step_keys _ _ _ Hs) as (p2 & _ & _ & Hmono). eapply IH; [exact Hg|]. by apply Hmono.
Qed.

Lemma fs_lookup_remove_same fs p : fs_lookup (fs_remove fs p) p = None.
Proof.
  unfold fs_lookup, alist_find, fs_remove. induction fs as [|[p1 n1] fs IH]; [done|].
  rewrite (filter_cons (fun e : list Z * fnode => e.1 <> p)). case_decide as Hne; simpl in *; [|done].
  by rewrite bool_decide_eq_false_2.
Qed.

Lemma fs_lookup_remove_ne fs p q : q <> p -> fs_lookup (fs_remove fs p) q = fs_lookup fs q.
Proof.
  intros Hqp. unfold fs_lookup, alist_find, fs_remove. induction fs as [|[p1 n1] fs IH]; [done|].
  rewrite (filter_cons (fun e : list Z * fnode => e.1 <> p)). case_decide as Hne; simpl in *.
  - by case_bool_decide.
  - rewrite bool_decide_eq_false_2; [done|]. intros ->. destruct (decide (q = p)); tauto.
Qed.

Lemma path_join_dir_ne d q r : q <> r -> path_join d q <> path_join d r.
Proof. intros Hne Heq. by apply Hne, (path_join_inj d). Qed.

Lemma path_join_sub_ne d q r n :
  c_slash ∉ q -> c_slash ∉ r -> q <> r -> path_join (path_join d q) n <> path_join (path_join d r) n.
Proof.
  intros Hq Hr Hne. rewrite !path_join_assoc. intros Heq%path_join_inj.
  apply slash_split in Heq as [? _]; auto.
Qed.

Lemma path_join_sub_dir_ne d q r n : c_slash ∉ r -> path_join (path_join d q) n <> path_join d r.
Proof.
  intros Hr. rewrite path_join_assoc. intros Heq%path_join_inj. symmetry in Heq.
  by apply (slash_free_ne r q n).
Qed.

(** A file [d/r/n] is no directory on the way to [d/q] when [q] is a
    single name. *)
Lemma dir_prefix_sub_false d q r n : c_slash ∉ q -> dir_prefix (path_join (path_join d r) n) (path_join d q) = false.
Proof.
  intros Hq. destruct (dir_prefix _ _) eqn:E; [|done]. exfalso.
  apply dir_prefix_spec in E. rewrite path_join_assoc in E.
  destruct E as [E%path_join_inj|[t E]].
  - exact (slash_free_ne q r n Hq (eq_sym E)).
  - unfold path_join in E. rewrite <-app_assoc in E. simpl in E. apply app_inv_head in E. injection E as E.
    apply (slash_free_ne q r (n ++ c_slash :: t) Hq). rewrite E, <-app_assoc. done.
Qed.

Lemma fs_remove_file fs p x c : fs_lookup (fs_remove fs p) x = Some (FFile c) -> fs_lookup fs x = Some (FFile c).
Proof.
  destruct (decide (x = p)) as [->|Hne]; [by rewrite fs_lookup_remove_same|by rewrite fs_lookup_remove_ne].
Qed.

Lemma fs_write_file fs p n x c :
  fs_lookup (fs_write fs p n) x = Some (FFile c) -> fs_lookup fs x = Some (FFile c) \/ x = p.
Proof. destruct (decide (x = p)) as [->|Hne]; [by right|rewrite fs_lookup_write_ne by done; by left]. Qed.

(** Rewrite lookups past writes, removals and [makedirs] at other paths. *)
Ltac fs_frame :=
  repeat first [ rewrite fs_lookup_remove_ne by congruence
               | rewrite fs_lookup_write_ne by congruence
               | erewrite makedirs_lookup_ne by eassumption ].

(** ** [str(n)] of an [int] *)

(** The integer a string of decimal digits denotes, [int(s)]. *)
Definition dec_value (ds : list Z) : Z := fold_left (fun acc d => acc * 10 + (d - 48)) ds 0.

Lemma dec_value_snoc ds d : dec_value (ds ++ [d]) = dec_value ds * 10 + (d - 48).
Proof. unfold dec_value. by rewrite fold_left_app. Qed.

Lemma dec_digits_value fuel n :
  (0 < fuel)%nat -> 0 <= n < 10 ^ Z.of_nat fuel ->
  dec_value (dec_digits fuel n) = n /\ Forall (fun d => 48 <= d <= 57) (dec_digits fuel n).
Proof.
  revert n. induction fuel as [|f IH]; intros n Hf Hn; [lia|]. simpl.
  destruct (n <? 10) eqn:E.
  - apply Z.ltb_lt in E. split; [unfold dec_value; simpl; lia|]. constructor; [lia|constructor].
  - apply Z.ltb_ge in E. destruct f as [|f]; [simpl in Hn; lia|].
    assert (Hq : 0 <= n / 10 < 10 ^ Z.of_nat (S f)).
    { split; [apply Z.div_pos; lia|]. apply Z.div_lt_upper_bound; [lia|].
      rewrite Nat2Z.inj_succ, Z.pow_succ_r in Hn by lia. lia. }
    destruct (IH (n / 10) ltac:(lia) Hq) as [Hv Hd]. split.
    + rewrite dec_value_snoc, Hv. pose proof (Z.div_mod n 10). pose proof (Z.mod_pos_bound n 10). lia.
    + apply Forall_app. split; [done|]. constructor; [pose proof (Z.mod_pos_bound n 10); lia|constructor].
Qed.

(** [z_to_dec], [str(n)] computed with fuel [1 + log2 |n|], has enough
    fuel for every integer: it is a minus sign for a negative [n]
    followed by a non-empty string of decimal digits whose value is
    [|n|]. *)
Theorem z_to_dec_spec n :
  exists ds, z_to_dec n = (if n <? 0 then [45] else []) ++ ds /\ dec_value ds = Z.abs n /\
             Forall (fun d => 48 <= d <= 57) ds /\ ds <> [].
Proof.
  set (m := Z.abs n). assert (Hm : 0 <= m) by apply Z.abs_nonneg.
  assert (Hlt : m < 10 ^ Z.of_nat (S (Z.to_nat (Z.log2 m)))).
  { rewrite Nat2Z.inj_succ, Z2Nat.id by apply Z.log2_nonneg.
    destruct (Z.eq_dec m 0) as [->|Hne]; [simpl; lia|].
    destruct (Z.log2_spec m) as [_ H2]; [lia|].
    eapply Z.lt_le_trans; [exact H2|]. apply Z.pow_le_mono_l. split; [lia|lia]. }
  destruct (dec_digits_value (S (Z.to_nat (Z.log2 m))) m ltac:(lia) (conj Hm Hlt)) as [Hv Hd].
  exists (dec_digits (S (Z.to_nat (Z.log2 m))) m). split_and!; [|done|done|].
  - unfold z_to_dec. fold m. by destruct (n <? 0).
  - cbn. destruct (m <? 10); [done|]. intros Hnil. apply app_eq_nil in Hnil as [_ ?]. done.
Qed.
