(* ===== verification/Rebuild.v ===== *)
(** * Rebuild: the batch tools of [language/wiktionary_scraper.py]

    [src/memory/adapters/language/wiktionary_scraper.py] rebuilds the
    dictionary one lemma at a time: [rebuild_word] scrapes the lemma
    (the network part, an input here), saves the raw dump, writes one
    file per POS bucket ([write_pos_files]), runs the label enricher and
    writes a per-lemma manifest ([build_and_save_manifest]);
    [rebuild_entire_dictionary] lists the lemmas of the dictionary
    ([_iter_lemmas_from_dictionary]), picks a start
    ([_find_start_index], [_load_progress]), and runs [rebuild_word] on
    each lemma inside [try]/[except], optionally purging the old files
    with a backup first ([_purge_lemma_files]) and saving progress.

    The file system is the one of DictStore.v.  A Python exception does
    not undo the writes made before it, so the file operations live in a
    small state monad whose result is [None] on an exception while the
    state keeps every write made so far ([St]).  The three base
    directories of [pablopath] are section variables. *)

From S2P Require Import Prelude Text Json Labels L0Db DictStore Enricher.
From stdpp Require Import sorting.

Open Scope Z_scope.

(** ** State with exceptions *)

Definition St (A : Type) : Type := FS -> FS * option A.

Definition st_ret {A} (a : A) : St A := fun fs => (fs, Some a).
Definition st_raise {A} : St A := fun fs => (fs, None).
Definition st_bind {A B} (m : St A) (k : A -> St B) : St B :=
  fun fs => match m fs with (fs', Some a) => k a fs' | (fs', None) => (fs', None) end.
Definition st_get : St FS := fun fs => (fs, Some fs).
Definition st_put (fs : FS) : St unit := fun _ => (fs, Some tt).
(** A pure computation that may raise. *)
Definition st_lift {A} (o : option A) : St A := fun fs => (fs, o).
(** [try: m except Exception: pass] *)
Definition st_try (m : St unit) : St unit := fun fs => ((m fs).1, Some tt).

Declare Scope st_scope.
Delimit Scope st_scope with st.
Notation "x <-- m ;; k" := (st_bind m (fun x => k))
  (at level 100, m at next level, right associativity) : st_scope.
Notation "m ;;; k" := (st_bind m (fun _ => k))
  (at level 100, right associativity) : st_scope.
Open Scope st_scope.

Fixpoint st_for {A} (f : A -> St unit) (l : list A) : St unit :=
  match l with [] => st_ret tt | x :: l' => f x ;;; st_for f l' end.

(** Statements run one after the other until the first that raises:
    the state after the last statement that ran. *)
Fixpoint run_until_fail (ms : list (St unit)) (fs : FS) : FS :=
  match ms with
  | [] => fs
  | m :: ms' => match m fs with (fs', Some _) => run_until_fail ms' fs' | (fs', None) => fs' end
  end.

(** ** Pure helpers *)

Definition _POS_DIRS : list (list Z) :=
  map str ["ADJ"; "ADV"; "CONJ"; "DET"; "INTJ"; "LETTER"; "N"; "NUM"; "PART"; "PREP"; "PRON"; "PROPN"; "V"].

(** The number of an [int] or [bool] sort key. *)
Definition num_key (v : json) : option Z :=
  match v with JNum n => Some n | JBool b => Some (if b then 1 else 0) | _ => None end.
Definition str_key (v : json) : option (list Z) := match v with JStr s => Some s | _ => None end.

(** A stable insertion sort by a strict order. *)
Fixpoint insert_lt {A} (lt : A -> A -> bool) (x : A) (l : list A) : list A :=
  match l with
  | [] => [x]
  | y :: l' => if lt x y then x :: l else y :: insert_lt lt x l'
  end.

Definition sort_lt {A} (lt : A -> A -> bool) (l : list A) : list A :=
  foldr (insert_lt lt) [] (rev l).

(** [l.sort(key=...)]: a stable sort.  Python compares keys with [<];
    a sort of two or more items succeeds exactly when all keys are
    numbers or all are strings (a sort compares the neighbours of its
    result, so some pair of mixed types or a [None] would be compared
    and raise [TypeError]).  Lists as keys are not modelled. *)
Definition py_sort_by (key : json -> option json) (l : list json) : option (list json) :=
  ks ← mapM key l;
  if (length l <=? 1)%nat then Some l
  else match mapM num_key ks with
       | Some ns => Some (map snd (sort_lt (fun p q => p.1 <? q.1) (zip ns l)))
       | None => ss ← mapM str_key ks; Some (map snd (sort_lt (fun p q => str_ltb p.1 q.1) (zip ss l)))
       end.

(** [_bucket_by_pos(entries)]: the groups of [e["pos"]] in the order
    their key is first seen, each sorted by [e.get("pos_index", 1)]. *)
Definition _bucket_by_pos (entries : list json) : option (list (json * list json)) :=
  groups ← group_by_pos entries;
  mapM (fun g => l ← py_sort_by (fun x => get_or x (str "pos_index") (JNum 1)) g.2; Some (g.1, l)) groups.

(** [_count_inflections(e)]: any exception gives [0]. *)
Definition _count_inflections (e : json) : Z :=
  default 0 (inf ← inflections_of e; items ← py_items inf;
             Some (Zlength (filter (fun kv => py_truthy kv.2 = true) items))).

(** [len(d.get(k, []) or [])] *)
Definition len_get (d : json) (k : list Z) : option Z :=
  v ← get_or d k (JArr []); py_len (py_or v (JArr [])).

(** The counters of [_definition_stats]. *)
Record DefStats := mkDefStats { st_defs : Z; st_exs : Z; st_syns : Z; st_ants : Z; st_infl : Z }.

Definition add_counts (c : DefStats) (d : json) : option DefStats :=
  ex ← len_get d (str "examples"); sy ← len_get d (str "synonyms"); an ← len_get d (str "antonyms");
  Some (mkDefStats (st_defs c) (st_exs c + ex) (st_syns c + sy) (st_ants c + an) (st_infl c)).

(** [_definition_stats(plist)] *)
Definition _definition_stats (plist : list json) : option json :=
  c ← foldlM (fun c e =>
                let c := mkDefStats (st_defs c) (st_exs c) (st_syns c) (st_ants c)
                                    (st_infl c + _count_inflections e) in
                dl0 ← get_or e k_definitions (JArr []);
                let dlist := py_or dl0 (JArr []) in
                n ← py_len dlist;
                ds ← py_iter dlist;
                foldlM (fun c d =>
                          c ← add_counts c d;
                          sds0 ← get_or d k_subdefinitions (JArr []);
                          sds ← py_iter (py_or sds0 (JArr []));
                          foldlM (fun c sd =>
                                    add_counts (mkDefStats (st_defs c + 1) (st_exs c) (st_syns c)
                                                           (st_ants c) (st_infl c)) sd) c sds)
                       (mkDefStats (st_defs c + n) (st_exs c) (st_syns c) (st_ants c) (st_infl c)) ds)
             (mkDefStats 0 0 0 0 0) plist;
  Some (JObj [(k_definitions, JNum (st_defs c)); (str "examples", JNum (st_exs c));
              (str "synonyms", JNum (st_syns c)); (str "antonyms", JNum (st_ants c));
              (str "inflections", JNum (st_infl c))]).

(** [seen[p] += 1] on a [defaultdict(int)] *)
Definition bump (seen : list (json * Z)) (p : json) : list (json * Z) :=
  alist_set seen p (default 0 (alist_find seen p) + 1).

(** [_format_pos_order(entries)] *)
Definition _format_pos_order (entries : list json) : option (list json) :=
  r ← foldlM (fun acc e =>
                p ← py_getitem e (str "pos");
                match p with
                | JArr _ | JObj _ => None
                | _ =>
                    let seen := bump acc.1 p in
                    let n := default 0 (alist_find seen p) in
                    if n =? 1 then Some (seen, acc.2 ++ [p])
                    else s ← py_str p; Some (seen, acc.2 ++ [JStr (s ++ str ":" ++ z_to_dec n)])
                end) ([], []) entries;
  Some r.2.

(** [os.path] style [Path(d) / name] *)
Definition json_name (lemma : list Z) : list Z := lemma ++ str ".json".

(** [_write_json(path, data)]: [path.parent.mkdir(parents=True,
    exist_ok=True)], then [open(path, "w")] and [json.dump]. *)
Definition _write_json (dir name : list Z) (data : json) : St unit :=
  fs <-- st_get;;
  fs <-- st_lift (makedirs fs dir);;
  st_put fs;;;
  match fs_lookup fs (path_join dir name) with
  | Some FDir => st_raise
  | _ => st_put (fs_write fs (path_join dir name) (FFile (Some data)))
  end.

(** [Path(d).parent] of a normalised path *)
Definition path_parent (d : list Z) : list Z :=
  let k := span_while (fun c => negb (c =? c_slash)) (rev d) in
  if (k =? length d)%nat then str "."
  else let pre := rev (drop (S k) (rev d)) in
       if bool_decide (pre = []) then [c_slash] else pre.

(** [p.stem] of a name ending in [.json] *)
Definition json_stem (n : list Z) : list Z :=
  if bool_decide (n = str ".json") then n else take (length n - 5) n.

Section Rebuild.
Context `{UnicodeDB}.
Context (RAW_DIR DICTIONARY_DIR MANIFEST_DIR : list Z).

(** [save_raw_dump(lemma, entries)] *)
Definition save_raw_dump (lemma : list Z) (entries : list json) : St unit :=
  _write_json RAW_DIR (lemma ++ str "_wiktionary_dump.json") (JArr entries).

(** [write_pos_files(lemma, entries)] *)
Definition write_pos_files (lemma : list Z) (entries : list json) : St unit :=
  buckets <-- st_lift (_bucket_by_pos entries);;
  st_for (fun b => match b.1 with
                   | JStr pos => if bool_decide (pos ∈ _POS_DIRS)
                                 then _write_json (path_join DICTIONARY_DIR pos) (json_name lemma) (JArr b.2)
                                 else st_ret tt
                   | _ => st_ret tt
                   end) buckets.

(** [build_and_save_manifest(lemma, entries)] at time [now];
    [Path.resolve()] is the identity on the absolute [DICTIONARY_DIR]. *)
Definition build_and_save_manifest (now : list Z) (lemma : list Z) (entries : list json) : St unit :=
  buckets <-- st_lift (_bucket_by_pos entries);;
  files_map <-- st_lift (mapM (fun b => match b.1 with
                                        | JStr pos => Some (pos, JStr (path_join (path_join DICTIONARY_DIR pos) (json_name lemma)))
                                        | _ => None
                                        end) buckets);;
  pos_summary <-- st_lift (mapM (fun b => s ← _definition_stats b.2; pos ← str_key b.1; Some (pos, s)) buckets);;
  order <-- st_lift (_format_pos_order entries);;
  _write_json MANIFEST_DIR (json_name lemma)
    (JObj [(str "word", JStr lemma); (str "pos_order", JArr order); (str "pos", JObj pos_summary);
           (str "files", JObj files_map); (str "timestamp", JStr now)]).

(** [rebuild_word(lemma, enrich_labels)]: [scraped] is what
    [scrape_word(lemma)] returns ([None]: it raised) and [enrich] the
    effect of [_enrich_labels_for_lemma], which catches its exceptions. *)
Definition rebuild_word (scraped : option (list json)) (enrich : FS -> FS) (now : list Z)
    (lemma : list Z) (enrich_labels : bool) : St unit :=
  entries <-- st_lift scraped;;
  save_raw_dump lemma entries;;;
  write_pos_files lemma entries;;;
  (if enrich_labels then fs <-- st_get;; st_put (enrich fs) else st_ret tt);;;
  build_and_save_manifest now lemma entries.

(** One POS of [_purge_lemma_files]: back up [base/pos/lemma.json] to
    [bak_root/pos/lemma.json] unless a backup exists (or always with
    [backup_overwrite]), then delete it; each [try] swallows its
    exception, keeping what was done before it. *)
Definition purge_one (lemma bak_root : list Z) (backup_overwrite : bool) (pos : list Z) : St unit :=
  let jf := path_join (path_join DICTIONARY_DIR pos) (json_name lemma) in
  fs <-- st_get;;
  match fs_lookup fs jf with
  | None => st_ret tt
  | Some _ =>
      st_try (let dest := path_join (path_join bak_root pos) (json_name lemma) in
              fs <-- st_get;;
              fs <-- st_lift (makedirs fs (path_join bak_root pos));;
              st_put fs;;;
              if negb (bool_decide (is_Some (fs_lookup fs dest))) || backup_overwrite then
                match fs_lookup fs jf, fs_lookup fs dest with
                | Some (FFile c), Some FDir => st_raise
                | Some (FFile c), _ => st_put (fs_write fs dest (FFile c))
                | _, _ => st_raise
                end
              else st_ret tt);;;
      st_try (fs <-- st_get;;
              match fs_lookup fs jf with
              | Some (FFile _) => st_put (fs_remove fs jf)
              | _ => st_raise
              end)
  end.

(** [_default_backup_root()] *)
Definition _default_backup_root : list Z := path_join (path_parent DICTIONARY_DIR) (str "dictionarybak").

(** [_purge_lemma_files(lemma, backup_dir, backup_overwrite)]; an empty
    [backup_dir] is [None] or [""]. *)
Definition bak_root_of (backup_dir : list Z) : list Z :=
  if bool_decide (backup_dir = []) then _default_backup_root else backup_dir.

Definition _purge_lemma_files (lemma backup_dir : list Z) (backup_overwrite : bool) : St unit :=
  st_for (purge_one lemma (bak_root_of backup_dir) backup_overwrite) _POS_DIRS.

(** [_iter_lemmas_from_dictionary()] *)
Definition _iter_lemmas_from_dictionary (fs : FS) : list (list Z) :=
  let stems := mbind (fun pos =>
                        let pos_dir := path_join DICTIONARY_DIR pos in
                        match fs_lookup fs pos_dir with
                        | Some FDir => map json_stem (filter (fun n => ends_with (str ".json") n = true)
                                                              (listdir fs pos_dir))
                        | _ => []
                        end) _POS_DIRS in
  sort_by id (remove_dups stems).

Definition progress_path : list Z := path_join RAW_DIR (str "wiktionary_batch_progress.json").

(** [_save_progress(lemma)] at time [now] *)
Definition _save_progress (now lemma : list Z) : St unit :=
  st_try (_write_json RAW_DIR (str "wiktionary_batch_progress.json")
            (JObj [(str "last_lemma", JStr lemma); (str "timestamp", JStr now)])).

(** [_load_progress()]: [JNull] is [None]. *)
Definition _load_progress (fs : FS) : json :=
  match fs_load fs progress_path with
  | Some (JObj o) => obj_get o (str "last_lemma")
  | _ => JNull
  end.

(** [x.lower()] of an argument that must be a [str] *)
Definition py_lower (v : json) : option (list Z) := match v with JStr s => Some (uc_lower s) | _ => None end.

(** [_find_start_index(lemmas, from_lemma, after_lemma)]; [JNull] is
    [None]. *)
Definition _find_start_index_ws (lemmas : list (list Z)) (from_lemma after_lemma : json) : option nat :=
  if bool_decide (lemmas = []) then Some O
  else if py_truthy from_lemma then
    key ← py_lower from_lemma;
    let lows := map uc_lower lemmas in
    Some (match list_index lows key with
          | Some i => i
          | None => Nat.max 0 (Nat.min (bisect_left lows key) (length lemmas))
          end)
  else if py_truthy after_lemma then
    key ← py_lower after_lemma;
    let lows := map uc_lower lemmas in
    Some (match list_index lows key with
          | Some i => S i
          | None => Nat.max 0 (Nat.min (bisect_left lows key) (length lemmas))
          end)
  else Some O.

(** [rebuild_entire_dictionary(...)]: [scrape] and [enrich] are the
    results of [scrape_word] and the effect of the label enricher per
    lemma, [now] the time stamp. *)
Definition rebuild_entire_dictionary (scrape : list Z -> option (list json)) (enrich : list Z -> FS -> FS)
    (now : list Z) (from_lemma after_lemma : json) (resume progress purge_first : bool)
    (backup_dir : list Z) (backup_overwrite enrich_labels : bool) : St unit :=
  fs <-- st_get;;
  let from_lemma := if resume && negb (py_truthy from_lemma) && negb (py_truthy after_lemma)
                    then let last := _load_progress fs in if py_truthy last then last else from_lemma
                    else from_lemma in
  let lemmas := _iter_lemmas_from_dictionary fs in
  start_idx <-- st_lift (_find_start_index_ws lemmas from_lemma after_lemma);;
  st_for (fun lemma =>
            st_try ((if purge_first then _purge_lemma_files lemma backup_dir backup_overwrite else st_ret tt);;;
                    rebuild_word (scrape lemma) (enrich lemma) now lemma enrich_labels;;;
                    (if progress then _save_progress now lemma else st_ret tt)))
         (drop start_idx lemmas).

End Rebuild.

(** ** Samples: the sections scraped for "run" *)

Definition run_section (pos : string) (idx : Z) (gloss : string) : json :=
  JObj [(str "word", JStr (str "run")); (str "pos", JStr (str pos)); (str "pos_index", JNum idx);
        (k_definitions, JArr [JObj [(k_definition, JStr (str gloss))]])].

Definition run_sections : list json :=
  [run_section "V" 2 "To move swiftly."; run_section "N" 1 "An act of running."; run_section "V" 1 "To flow."].

Definition sample_dict_dir : list Z := str "/pablo/dictionary".
Definition sample_dict_fs : FS := [(sample_dict_dir, FDir)].
(** A dictionary holding [N/apple.json], [N/banana.json] and [V/run.json],
    and one where a capitalised lemma [Zulu] sits beside them. *)
Definition lemma_files (names : list string) : FS :=
  sample_dict_fs ++ [(path_join sample_dict_dir (str "N"), FDir); (path_join sample_dict_dir (str "V"), FDir)] ++
  map (fun n => (path_join sample_dict_dir (str n), FFile (Some (JArr [])))) names.
Definition lower_fs : FS := lemma_files ["N/apple.json"; "N/banana.json"; "V/run.json"].
Definition mixed_fs : FS := lemma_files ["N/apple.json"; "N/banana.json"; "N/Zulu.json"].

Definition rebuilt_fs : FS := (write_pos_files sample_dict_dir (str "run") run_sections sample_dict_fs).1.

(** ** The state monad *)

Lemma st_bind_Some {A B} (m : St A) (k : A -> St B) fs fs' b :
  st_bind m k fs = (fs', Some b) -> exists fs1 a, m fs = (fs1, Some a) /\ k a fs1 = (fs', Some b).
Proof. unfold st_bind. destruct (m fs) as [fs1 [a|]]; intros H; [eauto|done]. Qed.

(** An invariant of every successful body of a [for] loop is one of the
    loop. *)
Lemma st_for_inv {A} (f : A -> St unit) (l : list A) fs fs' (Q : FS -> Prop) :
  st_for f l fs = (fs', Some tt) -> Q fs ->
  (forall y fs0 fs1, y ∈ l -> Q fs0 -> f y fs0 = (fs1, Some tt) -> Q fs1) -> Q fs'.
Proof.
  revert fs. induction l as [|y l IH]; intros fs Hl HQ Hf; simpl in Hl; [by injection Hl as <-|].
  apply st_bind_Some in Hl as (fs2 & [] & Hy & Hl). eapply IH; [exact Hl| |].
  - apply (Hf y fs fs2); [by left|done|done].
  - intros z fs0 fs1 Hz. apply Hf. by right.
Qed.

(** A property established by the body at [x] and kept by every body
    holds at the end of a loop over a list containing [x]. *)
Lemma st_for_Some_elem {A} (f : A -> St unit) (l : list A) fs fs' x (Q : FS -> Prop) :
  st_for f l fs = (fs', Some tt) -> x ∈ l ->
  (forall fs0 fs1, f x fs0 = (fs1, Some tt) -> Q fs1) ->
  (forall y fs0 fs1, y ∈ l -> Q fs0 -> f y fs0 = (fs1, Some tt) -> Q fs1) -> Q fs'.
Proof.
  intros Hfor Hx Hest Hpres. revert fs Hfor.
  induction l as [|y l IH]; intros fs Hfor; [by apply not_elem_of_nil in Hx|].
  simpl in Hfor. apply st_bind_Some in Hfor as (fs2 & [] & Hy & Hl).
  apply elem_of_cons in Hx as [->|Hx].
  - eapply st_for_inv; [exact Hl|by eapply Hest|]. intros z ? ? Hz. apply Hpres. by right.
  - eapply IH; [done| |exact Hl]. intros z ? ? Hz. apply Hpres. by right.
Qed.

(** A precondition kept by the bodies before [x], turned by [x] into a
    postcondition kept by the bodies after it. *)
Lemma st_for_pre_post {A} (f : A -> St unit) (l : list A) fs fs' x (Pre Post : FS -> Prop) :
  st_for f l fs = (fs', Some tt) -> NoDup l -> x ∈ l -> Pre fs ->
  (forall y fs0 fs1, y ∈ l -> y <> x -> Pre fs0 -> f y fs0 = (fs1, Some tt) -> Pre fs1) ->
  (forall fs0 fs1, Pre fs0 -> f x fs0 = (fs1, Some tt) -> Post fs1) ->
  (forall y fs0 fs1, y ∈ l -> y <> x -> Post fs0 -> f y fs0 = (fs1, Some tt) -> Post fs1) -> Post fs'.
Proof.
  intros Hfor Hnd Hx Hpre Hkeep Hest Hpost. revert fs Hfor Hpre.
  induction l as [|y l IH]; intros fs Hfor Hpre; [by apply not_elem_of_nil in Hx|].
  simpl in Hfor. apply st_bind_Some in Hfor as (fs2 & [] & Hy & Hl).
  apply NoDup_cons in Hnd as [Hyl Hnd]. apply elem_of_cons in Hx as [->|Hx].
  - eapply st_for_inv; [exact Hl|by eapply Hest|].
    intros z ? ? Hz. apply Hpost; [by right|]. intros ->. by apply Hyl.
  - assert (y <> x) by (intros ->; by apply Hyl).
    eapply IH; [done|done| | |exact Hl|].
    + intros z ? ? Hz. apply Hkeep. by right.
    + intros z ? ? Hz. apply Hpost. by right.
    + apply (Hkeep y fs fs2); [by left|done|done|done].
Qed.

(** A loop whose every body is wrapped in [try] runs every body, each
    from the state the previous one left, and never raises. *)
Lemma st_for_try {A} (f : A -> St unit) (l : list A) fs :
  st_for (fun x => st_try (f x)) l fs = (foldl (fun fs x => (f x fs).1) fs l, Some tt).
Proof. revert fs. induction l as [|y l IH]; intros fs; [done|]. apply IH. Qed.

Lemma st_seq3_run (m1 m2 m3 : St unit) fs : ((m1 ;;; m2 ;;; m3) fs).1 = run_until_fail [m1; m2; m3] fs.
Proof.
  unfold st_bind. cbn [run_until_fail].
  destruct (m1 fs) as [fs1 [[]|]]; [|done]. destruct (m2 fs1) as [fs2 [[]|]]; [|done].
  by destruct (m3 fs2) as [fs3 [[]|]].
Qed.

(** A loop whose bodies never raise does not raise. *)
Lemma st_for_total {A} (f : A -> St unit) (l : list A) fs :
  (forall x fs0, (f x fs0).2 = Some tt) -> st_for f l fs = ((st_for f l fs).1, Some tt).
Proof.
  intros Hf. revert fs. induction l as [|y l IH]; intros fs; [done|].
  simpl. unfold st_bind. specialize (Hf y fs). destruct (f y fs) as [fs1 [[]|]]; [apply IH|done].
Qed.

Lemma _write_json_Some dir name data fs fs' :
  _write_json dir name data fs = (fs', Some tt) ->
  exists fsm, makedirs fs dir = Some fsm /\ fs' = fs_write fsm (path_join dir name) (FFile (Some data)).
Proof.
  unfold _write_json, st_bind, st_get, st_lift, st_put.
  destruct (makedirs fs dir) as [fsm|]; [|done].
  destruct (fs_lookup fsm (path_join dir name)) as [[|]|]; intros H; simplify_eq; eauto.
Qed.

(** ** Buckets *)

Lemma bucket_by_pos_key entries bs e k :
  _bucket_by_pos entries = Some bs -> e ∈ entries -> py_getitem e (str "pos") = Some k ->
  exists l, (k, l) ∈ bs.
Proof.
  unfold _bucket_by_pos. intros Hb He Hk. inv_obind Hb.
  pose proof (group_by_pos_key _ _ _ _ Hb0 He Hk) as Hin.
  apply list_elem_of_fmap in Hin as ([k' l0] & -> & Hin).
  apply list_elem_of_lookup_1 in Hin as [i Hi]. apply mapM_Some in Hb.
  destruct (Forall2_lookup_l _ _ _ _ _ Hb Hi) as ([k2 l2] & Hbi & Hf).
  simpl in Hf. inv_obind Hf. simplify_eq. exists l2. by eapply list_elem_of_lookup_2.
Qed.

Lemma pos_dirs_slash_free : Forall (fun p => c_slash ∉ p) _POS_DIRS.
Proof. apply (bool_decide_unpack _). vm_compute. reflexivity. Qed.

Lemma json_name_slash_free lemma : c_slash ∉ lemma -> c_slash ∉ json_name lemma.
Proof.
  intros Hl Hin. apply elem_of_app in Hin as [Hin|Hin]; [done|]. revert Hin.
  apply (bool_decide_unpack _). vm_compute. reflexivity.
Qed.

Section PosFiles.
Context `{UnicodeDB}.
Variables (D p ln : list Z).
Hypotheses (Hp : c_slash ∉ p) (Hln : c_slash ∉ ln).

(** The POS directory [D/p] exists and [D/p/ln] holds a JSON list. *)
Definition list_file_at (fs : FS) : Prop :=
  fs_lookup fs (path_join D p) = Some FDir /\
  exists l, fs_lookup fs (path_join (path_join D p) ln) = Some (FFile (Some (JArr l))).

Lemma write_pos_establishes l fs0 fs1 :
  _write_json (path_join D p) ln (JArr l) fs0 = (fs1, Some tt) -> list_file_at fs1.
Proof.
  intros Hw. apply _write_json_Some in Hw as (fsm & Hmk & ->). split.
  - rewrite fs_lookup_write_ne; [by eapply makedirs_dir|].
    rewrite path_join_assoc. intros Heq%path_join_inj. by apply (slash_free_ne p p ln).
  - exists l. apply fs_lookup_write_same.
Qed.

Lemma write_pos_preserves q l fs0 fs1 :
  c_slash ∉ q -> list_file_at fs0 ->
  _write_json (path_join D q) ln (JArr l) fs0 = (fs1, Some tt) -> list_file_at fs1.
Proof.
  intros Hq [Hd [l0 Hf]] Hw.
  destruct (decide (q = p)) as [->|Hne]; [by eapply write_pos_establishes|].
  apply _write_json_Some in Hw as (fsm & Hmk & ->).
  assert (Hm : list_file_at fsm).
  { split; [by eapply makedirs_keep|]. exists l0. by eapply makedirs_keep. }
  destruct Hm as [Hd' [l1 Hf']]. split.
  - rewrite fs_lookup_write_ne; [done|]. rewrite path_join_assoc.
    intros Heq%path_join_inj. by apply (slash_free_ne p q ln).
  - exists l1. rewrite fs_lookup_write_ne; [done|]. rewrite !path_join_assoc.
    intros Heq%path_join_inj. apply slash_split in Heq as [? _]; auto.
Qed.

End PosFiles.

Section Composition.
Context `{UnicodeDB}.

(** C20: [rebuild_word] and [dictionary_loader.py] do not agree on the
    format of [DICTIONARY_DIR/<pos>/<lemma>.json]: [write_pos_files]
    writes the list of the lemma's sections, [load_dictionary] reads a
    container [dict] and calls [.get("variants")] on it.  Once a
    section with a POS of [_POS_DIRS] is written, loading the dictionary
    raises. *)
Theorem write_pos_files_unloadable D lemma entries e p fs fs' :
  write_pos_files D lemma entries fs = (fs', Some tt) ->
  e ∈ entries -> py_getitem e (str "pos") = Some (JStr p) -> p ∈ _POS_DIRS -> c_slash ∉ lemma ->
  load_dictionary fs' D = None.
Proof.
  intros Hw He Hk Hpos Hl. unfold write_pos_files in Hw.
  apply st_bind_Some in Hw as (fs1 & bs & Hb & Hfor). injection Hb as -> Hb.
  destruct (bucket_by_pos_key _ _ _ _ Hb He Hk) as [l Hin].
  assert (Hsf : forall q, q ∈ _POS_DIRS -> c_slash ∉ q) .
  { intros q Hq. pose proof pos_dirs_slash_free as HF. rewrite Forall_forall in HF.
    apply HF. first [exact Hq|by apply list_elem_of_In]. }
  assert (Hp := Hsf p Hpos). assert (Hln := json_name_slash_free lemma Hl).
  assert (HQ : list_file_at D p (json_name lemma) fs').
  { eapply (st_for_Some_elem _ _ _ _ (JStr p, l)); [exact Hfor|exact Hin| |].
    - intros fs0 fs2. cbn. rewrite bool_decide_eq_true_2 by done. intros Hw. by eapply write_pos_establishes.
    - intros [[| | | q| |] l'] fs0 fs2 _ HQ0; cbn; try (intros Hr; by injection Hr as <-).
      case_bool_decide as Hq; [by apply write_pos_preserves; auto|intros Hr; by injection Hr as <-]. }
  destruct HQ as [Hd [l0 Hf]].
  unfold load_dictionary, os_listdir. destruct (fs_lookup fs' D) as [[|]|]; [|done|done]. simpl.
  apply (foldlM_None_elem _ _ _ p); [by eapply listdir_elem|]. intros acc. cbn zeta. rewrite Hd.
  apply (foldlM_None_elem _ _ _ (json_name lemma)); [by eapply listdir_elem|]. intros acc'.
  unfold json_name at 1. rewrite ends_with_app. unfold fs_load. rewrite Hf. done.
Qed.

End Composition.

(** ** Sorting *)

Lemma insert_lt_elem {A} (lt : A -> A -> bool) x y l : x ∈ insert_lt lt y l -> x = y \/ x ∈ l.
Proof.
  induction l as [|z l IH]; simpl; [rewrite list_elem_of_singleton; by left|].
  destruct (lt y z); rewrite elem_of_cons; [done|].
  intros [->|[?|?]%IH]; [right; by left|by left|right; by right].
Qed.

Lemma sort_lt_elem {A} (lt : A -> A -> bool) x l : x ∈ sort_lt lt l -> x ∈ l.
Proof.
  unfold sort_lt. intros Hx. apply list_elem_of_In. apply in_rev. apply list_elem_of_In.
  revert Hx. generalize (rev l) as r.
  induction r as [|y r IH]; simpl; [done|]. intros [->|?]%insert_lt_elem; [by left|right; by apply IH].
Qed.

(** ** Choosing the start *)

Lemma iter_lemmas_sorted `{UnicodeDB} D fs : StronglySorted key_le (_iter_lemmas_from_dictionary D fs).
Proof. apply (sort_by_sorted id). Qed.

Lemma find_start_ws_index `{UnicodeDB} lemmas key :
  StronglySorted key_le lemmas ->
  (match list_index lemmas key with
   | Some i => i
   | None => Nat.max 0 (Nat.min (bisect_left lemmas key) (length lemmas))
   end) = length (filter (fun y => str_ltb y key) lemmas).
Proof.
  intros Hs. destruct (start_from_inv lemmas key Hs) as [Hle [Hlt Hge]].
  transitivity (match list_index lemmas key with Some i => i | None => bisect_left lemmas key end).
  { destruct (list_index lemmas key); [done|]. rewrite Nat.min_l; [lia|].
    by destruct (bisect_left_inv lemmas key Hs). }
  by apply partition_point_count.
Qed.

(** C23: When every lemma file name is lower case, [--from f] starts the
    batch at the first lemma that does not sort before [f.lower()]: it
    skips exactly the lemmas before it. *)
Theorem find_start_from_lowercase `{UnicodeDB} D fs f :
  f <> [] -> Forall (fun x => uc_lower x = x) (_iter_lemmas_from_dictionary D fs) ->
  _find_start_index_ws (_iter_lemmas_from_dictionary D fs) (JStr f) JNull =
    Some (length (filter (fun y => str_ltb y (uc_lower f)) (_iter_lemmas_from_dictionary D fs))).
Proof.
  intros Hf Hlow. pose proof (iter_lemmas_sorted D fs) as Hs. revert Hlow Hs.
  generalize (_iter_lemmas_from_dictionary D fs) as lemmas. intros lemmas Hlow Hs.
  unfold _find_start_index_ws. case_bool_decide as Hnil; [by subst|].
  simpl. rewrite bool_decide_eq_false_2 by done. simpl.
  replace (map uc_lower lemmas) with lemmas.
  2:{ induction lemmas as [|x l IH]; [done|]. apply Forall_cons in Hlow as [Hx Hl].
      simpl. rewrite Hx. f_equal. destruct l; [done|]. apply IH; [done|by inversion Hs|done]. }
  f_equal. by apply find_start_ws_index.
Qed.

(** ** Purging *)

Section Purge.
Variables (D lemma bak : list Z) (ow : bool).

Lemma purge_one_frame q fs x :
  dir_prefix x (path_join bak q) = false -> x <> path_join (path_join bak q) (json_name lemma) ->
  x <> path_join (path_join D q) (json_name lemma) ->
  fs_lookup (purge_one D lemma bak ow q fs).1 x = fs_lookup fs x.
Proof.
  intros H1 H2 H3. unfold purge_one, st_bind, st_get, st_ret, st_try, st_lift, st_put, st_raise. cbn -[fs_lookup fs_write fs_remove makedirs].
  destruct (fs_lookup fs _); [|done]. cbn -[fs_lookup fs_write fs_remove makedirs].
  destruct (makedirs fs (path_join bak q)) as [fsm|] eqn:Hmk; cbn -[fs_lookup fs_write fs_remove makedirs].
  - repeat (case_match; cbn -[fs_lookup fs_write fs_remove makedirs]); fs_frame; try done.
  - repeat (case_match; cbn -[fs_lookup fs_write fs_remove makedirs]); fs_frame; done.
Qed.

(** The only file [purge_one] can create is the backup. *)
Lemma purge_one_files q fs x c :
  fs_lookup (purge_one D lemma bak ow q fs).1 x = Some (FFile c) ->
  fs_lookup fs x = Some (FFile c) \/ x = path_join (path_join bak q) (json_name lemma).
Proof.
  unfold purge_one, st_bind, st_get, st_ret, st_try, st_lift, st_put, st_raise. cbn -[fs_lookup fs_write fs_remove makedirs].
  destruct (fs_lookup fs _); [|by left]. cbn -[fs_lookup fs_write fs_remove makedirs].
  destruct (makedirs fs (path_join bak q)) as [fsm|] eqn:Hmk; cbn -[fs_lookup fs_write fs_remove makedirs];
    repeat (case_match; cbn -[fs_lookup fs_write fs_remove makedirs]);
    intros Hl; repeat match goal with
    | H : fs_lookup (fs_remove _ _) _ = Some _ |- _ => apply fs_remove_file in H
    | H : fs_lookup (fs_write _ _ _) _ = Some _ |- _ => apply fs_write_file in H as [H | ->]; [|by right]
    | H : fs_lookup fsm _ = Some (FFile _) |- _ => eapply makedirs_file in H; [|exact Hmk]
    end; by left.
Qed.

Lemma purge_one_ok q fs : (purge_one D lemma bak ow q fs).2 = Some tt.
Proof.
  unfold purge_one, st_bind, st_get, st_ret, st_try. cbn -[fs_lookup fs_write fs_remove makedirs].
  by destruct (fs_lookup fs _).
Qed.

Lemma purge_one_no_file q fs c :
  fs_lookup (purge_one D lemma bak ow q fs).1 (path_join (path_join D q) (json_name lemma)) <> Some (FFile c).
Proof.
  unfold purge_one, st_bind, st_get, st_ret, st_try, st_lift, st_put, st_raise.
  cbn -[fs_lookup fs_write fs_remove makedirs].
  destruct (fs_lookup fs _) eqn:E; [|cbn -[fs_lookup fs_write fs_remove makedirs]; by rewrite E].
  cbn -[fs_lookup fs_write fs_remove makedirs].
  repeat (case_match; cbn -[fs_lookup fs_write fs_remove makedirs] in *); first [rewrite fs_lookup_remove_same; done | congruence].


Qed.

Lemma purge_one_backup q fs c :
  path_join (path_join D q) (json_name lemma) <> path_join (path_join bak q) (json_name lemma) ->
  fs_lookup fs (path_join (path_join D q) (json_name lemma)) = Some (FFile c) ->
  fs_lookup fs (path_join (path_join bak q) (json_name lemma)) = None ->
  (forall x c', dir_prefix x (path_join bak q) = true -> fs_lookup fs x <> Some (FFile c')) ->
  fs_lookup (purge_one D lemma bak ow q fs).1 (path_join (path_join bak q) (json_name lemma)) = Some (FFile c) /\
  fs_lookup (purge_one D lemma bak ow q fs).1 (path_join (path_join D q) (json_name lemma)) = None.
Proof.
  intros Hjd Hjf Hd Hb.
  destruct (makedirs_ok fs (path_join bak q)) as [fsm Hmk]; [intros x c' Hx; by apply Hb|].
  assert (Hm1 : fs_lookup fsm (path_join (path_join D q) (json_name lemma)) = Some (FFile c))
    by (by eapply makedirs_keep).
  assert (Hm2 : fs_lookup fsm (path_join (path_join bak q) (json_name lemma)) = None)
    by (erewrite makedirs_lookup_ne; [done|exact Hmk|apply dir_prefix_join_false]).
  unfold purge_one, st_bind, st_get, st_ret, st_try, st_lift, st_put, st_raise.
  cbn -[fs_lookup fs_write fs_remove makedirs]. rewrite Hjf, Hmk.
  cbn -[fs_lookup fs_write fs_remove makedirs]. rewrite Hm2, Hm1.
  cbn -[fs_lookup fs_write fs_remove makedirs].
  rewrite fs_lookup_write_ne by done. rewrite Hm1.
  cbn -[fs_lookup fs_write fs_remove makedirs].
  split; [rewrite fs_lookup_remove_ne by congruence; apply fs_lookup_write_same|apply fs_lookup_remove_same].
Qed.

End Purge.

Lemma pos_slash_free q : q ∈ _POS_DIRS -> c_slash ∉ q.
Proof.
  intros Hq. pose proof pos_dirs_slash_free as HF. rewrite Forall_forall in HF.
  apply HF. first [exact Hq|by apply list_elem_of_In].
Qed.

Lemma pos_dirs_NoDup : NoDup _POS_DIRS.
Proof. apply (bool_decide_unpack _). vm_compute. reflexivity. Qed.

Section PurgeTheorems.
Variables (D lemma backup_dir : list Z) (ow : bool).
Hypothesis Hdisj : forall q r, q ∈ _POS_DIRS -> r ∈ _POS_DIRS ->
  path_join (bak_root_of D backup_dir) q <> path_join (path_join D r) (json_name lemma) /\
  path_join (path_join (bak_root_of D backup_dir) q) (json_name lemma) <>
    path_join (path_join D r) (json_name lemma).

(** No directory [os.makedirs] creates for the backup tree is on the
    path of a lemma file. *)
Hypothesis Hanc : forall q r, q ∈ _POS_DIRS -> r ∈ _POS_DIRS ->
  dir_prefix (path_join (path_join D r) (json_name lemma)) (path_join (bak_root_of D backup_dir) q) = false.

(** The step of one POS leaves the lemma file and the backup of another
    alone. *)
Lemma purge_one_other q r fs x :
  q ∈ _POS_DIRS -> r ∈ _POS_DIRS -> q <> r ->
  x ∈ [path_join (path_join D r) (json_name lemma);
       path_join (path_join (bak_root_of D backup_dir) r) (json_name lemma)] ->
  fs_lookup (purge_one D lemma (bak_root_of D backup_dir) ow q fs).1 x = fs_lookup fs x.
Proof.
  intros Hq Hr Hne Hx. pose proof (pos_slash_free q Hq). pose proof (pos_slash_free r Hr).
  destruct (Hdisj q r Hq Hr) as [_ Hd2]. destruct (Hdisj r q Hr Hq) as [_ Hd4].
  assert (Hne' : r <> q) by congruence.
  repeat (apply elem_of_cons in Hx as [->|Hx]); [..|by apply not_elem_of_nil in Hx];
    apply purge_one_frame;
    first [ by apply Hanc | by apply dir_prefix_sub_false | done | by apply not_eq_sym
          | by apply path_join_sub_ne ].
Qed.

(** The step of another POS creates no file on the path of the lemma
    file or the backup tree of [pos]. *)
Lemma purge_one_other_files y pos fs x c :
  y ∈ _POS_DIRS -> pos ∈ _POS_DIRS ->
  (x = path_join (path_join D pos) (json_name lemma) \/ dir_prefix x (path_join (bak_root_of D backup_dir) pos) = true) ->
  fs_lookup (purge_one D lemma (bak_root_of D backup_dir) ow y fs).1 x = Some (FFile c) ->
  fs_lookup fs x = Some (FFile c).
Proof.
  intros Hy Hpos Hx [?| ->]%purge_one_files; [done|exfalso].
  destruct Hx as [Hx|Hx].
  - by apply (proj2 (Hdisj y pos Hy Hpos)).
  - by rewrite dir_prefix_sub_false in Hx by (by apply pos_slash_free).
Qed.

(** After [_purge_lemma_files(lemma, ...)] no POS directory holds a
    file [lemma.json], whatever was there before, when the backup tree
    does not overlap the dictionary's lemma files. *)
Theorem purge_removes_lemma_files fs pos c :
  pos ∈ _POS_DIRS ->
  fs_lookup (_purge_lemma_files D lemma backup_dir ow fs).1 (path_join (path_join D pos) (json_name lemma))
    <> Some (FFile c).
Proof.
  intros Hpos. unfold _purge_lemma_files.
  rewrite st_for_total by apply purge_one_ok. cbn [fst].
  eapply (st_for_Some_elem _ _ _ _ pos (fun fs => forall c, fs_lookup fs _ <> Some (FFile c)));
    [apply st_for_total, purge_one_ok|done| |].
  - intros fs0 fs1 Hs c'. replace fs1 with (purge_one D lemma (bak_root_of D backup_dir) ow pos fs0).1
      by (by rewrite Hs). apply purge_one_no_file.
  - intros y fs0 fs1 Hy HQ Hs c' Hc. replace fs1 with (purge_one D lemma (bak_root_of D backup_dir) ow y fs0).1
      in Hc by (by rewrite Hs).
    apply (HQ c'). eapply purge_one_other_files; [exact Hy|exact Hpos|by left|exact Hc].
Qed.

(** C21: A lemma file with no backup yet is copied to
    [bak_root/<pos>/<lemma>.json] and then deleted: the purge loses no
    file, as its docstring promises, when no directory on the way to
    [bak_root/<pos>] is a file and the backup tree does not overlap the
    lemma files. *)
Theorem purge_backs_up fs pos c :
  pos ∈ _POS_DIRS ->
  fs_lookup fs (path_join (path_join D pos) (json_name lemma)) = Some (FFile c) ->
  fs_lookup fs (path_join (path_join (bak_root_of D backup_dir) pos) (json_name lemma)) = None ->
  (forall x c', dir_prefix x (path_join (bak_root_of D backup_dir) pos) = true -> fs_lookup fs x <> Some (FFile c')) ->
  let fs' := (_purge_lemma_files D lemma backup_dir ow fs).1 in
  fs_lookup fs' (path_join (path_join (bak_root_of D backup_dir) pos) (json_name lemma)) = Some (FFile c) /\
  fs_lookup fs' (path_join (path_join D pos) (json_name lemma)) = None.
Proof.
  intros Hpos Hjf Hd Hb fs'. subst fs'. unfold _purge_lemma_files.
  pose proof (pos_slash_free pos Hpos) as Hp. destruct (Hdisj pos pos Hpos Hpos) as [_ Hd2].
  set (jf := path_join (path_join D pos) (json_name lemma)) in *.
  set (dest := path_join (path_join (bak_root_of D backup_dir) pos) (json_name lemma)) in *.
  set (bk := path_join (bak_root_of D backup_dir) pos) in *.
  eapply (st_for_pre_post _ _ _ _ pos
            (fun fs => fs_lookup fs jf = Some (FFile c) /\ fs_lookup fs dest = None /\
                       forall x c', dir_prefix x bk = true -> fs_lookup fs x <> Some (FFile c'))
            (fun fs => fs_lookup fs dest = Some (FFile c) /\ fs_lookup fs jf = None));
    [apply st_for_total, purge_one_ok|apply pos_dirs_NoDup|done|done| | |].
  - intros y fs0 fs1 Hy Hne (H1 & H2 & H3) Hs.
    replace fs1 with (purge_one D lemma (bak_root_of D backup_dir) ow y fs0).1 by (by rewrite Hs).
    rewrite !(purge_one_other y pos) by (done || set_solver). split_and!; [done|done|].
    intros x c' Hx Hc. apply (H3 x c' Hx). eapply purge_one_other_files; [exact Hy|exact Hpos|by right|exact Hc].
  - intros fs0 fs1 (H1 & H2 & H3) Hs.
    replace fs1 with (purge_one D lemma (bak_root_of D backup_dir) ow pos fs0).1 by (by rewrite Hs).
    apply purge_one_backup; auto.
  - intros y fs0 fs1 Hy Hne [H1 H2] Hs.
    replace fs1 with (purge_one D lemma (bak_root_of D backup_dir) ow y fs0).1 by (by rewrite Hs).
    rewrite !(purge_one_other y pos) by (done || set_solver). auto.
Qed.

End PurgeTheorems.

(** ** The batch loop *)

(** C24: Once its start is chosen, [rebuild_entire_dictionary] attempts
    every lemma from the start on, in order, each from the file system
    the previous attempt left: the purge (with [--purge-first]),
    [rebuild_word] and the progress save (with [--progress]) run until
    the first of them raises, which ends that lemma only; the batch
    then returns normally, whatever the scraper, the enricher or the
    file writes raise. *)
Theorem rebuild_batch_completes `{UnicodeDB} R D M scrape enrich now from_lemma after_lemma progress
    purge_first backup_dir backup_overwrite enrich_labels fs s :
  _find_start_index_ws (_iter_lemmas_from_dictionary D fs) from_lemma after_lemma = Some s ->
  rebuild_entire_dictionary R D M scrape enrich now from_lemma after_lemma false progress
    purge_first backup_dir backup_overwrite enrich_labels fs =
  (foldl (fun fs lemma =>
            run_until_fail [if purge_first then _purge_lemma_files D lemma backup_dir backup_overwrite else st_ret tt;
                            rebuild_word R D M (scrape lemma) (enrich lemma) now lemma enrich_labels;
                            if progress then _save_progress R now lemma else st_ret tt] fs)
         fs (drop s (_iter_lemmas_from_dictionary D fs)), Some tt).
Proof.
  intros Hs. unfold rebuild_entire_dictionary, st_bind at 1, st_get.
  cbn -[st_for _find_start_index_ws _iter_lemmas_from_dictionary]. unfold st_bind at 1, st_lift. rewrite Hs.
  rewrite st_for_try. f_equal. apply foldl_ext_in. intros fs' lemma _. apply st_seq3_run.
Qed.

Lemma write_pos_files_unloadable_witness :
  write_pos_files sample_dict_dir (str "run") run_sections sample_dict_fs = (rebuilt_fs, Some tt) /\
  load_dictionary rebuilt_fs sample_dict_dir = None.
Proof.
  split; [vm_compute; reflexivity|].
  apply (write_pos_files_unloadable sample_dict_dir (str "run") run_sections (run_section "V" 2 "To move swiftly.")
           (str "V") sample_dict_fs rebuilt_fs);
    first [vm_compute; reflexivity | apply (bool_decide_unpack _); vm_compute; reflexivity].
Defined.

Lemma find_start_from_lowercase_witness :
  Forall (fun x => uc_lower x = x) (_iter_lemmas_from_dictionary sample_dict_dir lower_fs) /\
  _find_start_index_ws (_iter_lemmas_from_dictionary sample_dict_dir lower_fs) (JStr (str "b")) JNull = Some 1%nat.
Proof.
  assert (Hlow : Forall (fun x => uc_lower x = x) (_iter_lemmas_from_dictionary sample_dict_dir lower_fs))
    by (apply (bool_decide_unpack _); vm_compute; reflexivity).
  split; [exact Hlow|]. rewrite (find_start_from_lowercase sample_dict_dir lower_fs (str "b")); [|done|exact Hlow].
  vm_compute. reflexivity.
Defined.

(** With a capitalised lemma, [sorted()] puts it first while
    [_find_start_index] searches the lower-cased names as if they were
    sorted: [--from y] starts past the end and [Zulu], which does not
    sort before [y], is never rebuilt. *)
Example find_start_skips_capitalised :
  _iter_lemmas_from_dictionary sample_dict_dir mixed_fs = [str "Zulu"; str "apple"; str "banana"] /\
  _find_start_index_ws [str "Zulu"; str "apple"; str "banana"] (JStr (str "y")) JNull = Some 3%nat /\
  str_ltb (uc_lower (str "Zulu")) (uc_lower (str "y")) = false.
Proof. vm_compute. auto. Qed.

(** The default backup tree [/pablo/dictionarybak] does not overlap the
    lemma files of [/pablo/dictionary]. *)
Lemma sample_backup_disjoint :
  forall q r, q ∈ _POS_DIRS -> r ∈ _POS_DIRS ->
  path_join (bak_root_of sample_dict_dir []) q <> path_join (path_join sample_dict_dir r) (json_name (str "run")) /\
  path_join (path_join (bak_root_of sample_dict_dir []) q) (json_name (str "run")) <>
    path_join (path_join sample_dict_dir r) (json_name (str "run")).
Proof.
  assert (H : Forall (fun q => Forall (fun r =>
            path_join (bak_root_of sample_dict_dir []) q <> path_join (path_join sample_dict_dir r) (json_name (str "run")) /\
            path_join (path_join (bak_root_of sample_dict_dir []) q) (json_name (str "run")) <>
              path_join (path_join sample_dict_dir r) (json_name (str "run"))) _POS_DIRS) _POS_DIRS)
    by (apply (bool_decide_unpack _); vm_compute; reflexivity).
  intros q r Hq Hr. rewrite Forall_forall in H. specialize (H q). rewrite Forall_forall in H.
  apply H; first [done|by apply list_elem_of_In].
Qed.

(** Nor is a lemma file on the way to a directory of that tree. *)
Lemma sample_backup_anc :
  forall q r, q ∈ _POS_DIRS -> r ∈ _POS_DIRS ->
  dir_prefix (path_join (path_join sample_dict_dir r) (json_name (str "run"))) (path_join (bak_root_of sample_dict_dir []) q) = false.
Proof.
  assert (H : Forall (fun q => Forall (fun r =>
            dir_prefix (path_join (path_join sample_dict_dir r) (json_name (str "run")))
                       (path_join (bak_root_of sample_dict_dir []) q) = false) _POS_DIRS) _POS_DIRS)
    by (apply (bool_decide_unpack _); vm_compute; reflexivity).
  intros q r Hq Hr. rewrite Forall_forall in H. specialize (H q). rewrite Forall_forall in H.
  apply H; first [done|by apply list_elem_of_In].
Qed.

Lemma purge_removes_lemma_files_witness :
  fs_lookup (_purge_lemma_files sample_dict_dir (str "run") [] false rebuilt_fs).1
            (path_join (path_join sample_dict_dir (str "V")) (json_name (str "run"))) <> Some (FFile None).
Proof.
  apply purge_removes_lemma_files; [exact sample_backup_disjoint|].
  apply (bool_decide_unpack _). vm_compute. reflexivity.
Defined.

Lemma purge_backs_up_witness :
  let fs' := (_purge_lemma_files sample_dict_dir (str "run") [] false rebuilt_fs).1 in
  fs_lookup fs' (path_join (path_join (bak_root_of sample_dict_dir []) (str "V")) (json_name (str "run"))) =
    fs_lookup rebuilt_fs (path_join (path_join sample_dict_dir (str "V")) (json_name (str "run"))) /\
  fs_lookup fs' (path_join (path_join sample_dict_dir (str "V")) (json_name (str "run"))) = None.
Proof.
  assert (Hc : exists c, fs_lookup rebuilt_fs (path_join (path_join sample_dict_dir (str "V")) (json_name (str "run")))
                         = Some (FFile c)) by (eexists; vm_compute; reflexivity).
  destruct Hc as [c Hc]. rewrite Hc.
  apply (purge_backs_up sample_dict_dir (str "run") [] false sample_backup_disjoint sample_backup_anc
           rebuilt_fs (str "V") c);
    [apply (bool_decide_unpack _); vm_compute; reflexivity|exact Hc|vm_compute; reflexivity|].
  apply no_file_on_path. vm_compute. reflexivity.
Defined.

Lemma rebuild_batch_completes_witness :
  _find_start_index_ws (_iter_lemmas_from_dictionary sample_dict_dir lower_fs) (JStr (str "b")) JNull = Some 1%nat /\
  rebuild_entire_dictionary (str "/pablo/raw") sample_dict_dir (str "/pablo/manifest") (fun _ => None)
     (fun _ fs => fs) [] (JStr (str "b")) JNull false true true [] false true lower_fs =
  (foldl (fun fs lemma =>
            run_until_fail [_purge_lemma_files sample_dict_dir lemma [] false;
                            rebuild_word (str "/pablo/raw") sample_dict_dir (str "/pablo/manifest") None
                              (fun fs => fs) [] lemma true;
                            _save_progress (str "/pablo/raw") [] lemma] fs)
         lower_fs (drop 1 (_iter_lemmas_from_dictionary sample_dict_dir lower_fs)), Some tt).
Proof.
  assert (Hs : _find_start_index_ws (_iter_lemmas_from_dictionary sample_dict_dir lower_fs) (JStr (str "b")) JNull
               = Some 1%nat) by (vm_compute; reflexivity).
  split; [exact Hs|].
  exact (rebuild_batch_completes (str "/pablo/raw") sample_dict_dir (str "/pablo/manifest") (fun _ => None)
           (fun _ fs => fs) [] (JStr (str "b")) JNull true true [] false true lower_fs 1 Hs).
Defined.

(** When a file sits on the path of the backup tree, [mkdir] raises in
    the backup [try], which swallows it, and the [unlink] of the next
    [try] still deletes the lemma file: it is gone with no copy. *)
Example purge_without_backup_deletes :
  let fs := fs_write rebuilt_fs (bak_root_of sample_dict_dir []) (FFile None) in
  let fs' := (_purge_lemma_files sample_dict_dir (str "run") [] false fs).1 in
  fs_lookup fs (path_join (path_join sample_dict_dir (str "V")) (json_name (str "run"))) <> None /\
  fs_lookup fs' (path_join (path_join sample_dict_dir (str "V")) (json_name (str "run"))) = None /\
  fs_lookup fs' (path_join (path_join (bak_root_of sample_dict_dir []) (str "V")) (json_name (str "run"))) = None.
Proof. vm_compute. split; [discriminate|split; reflexivity]. Qed.
