(* ===== verification/SyncMain.v ===== *)
(** * SyncMain: one pass of [sync_json_words_to_db.py] over the files

    [main] of [src/memory/adapters/sync_json_words_to_db.py] resumes the
    scan of a list of JSON files from a state file, collects up to
    [--target-new] words that the database, the blacklist and the list
    of earlier failures do not know, writes them to [--out-missing],
    saves the state, scrapes and upserts each word, and records the
    failures in [--out-failed] and the successes in [--out-missing].

    The pieces of the pass are the ones of WordSync.v ([resume],
    [scan_loop], [scrape_batches], [merge_failed], [successes]); this
    file puts them on the file system of DictStore.v, in the order of
    the source, with the state monad of Rebuild.v so that an exception
    keeps the writes made before it.  The [l0_entry] table is the list
    of its lemmas; the scraper is the outcome of each attempt, given
    the database the pass starts from. *)

From S2P Require Import Prelude Text Json WordSync DictStore Rebuild.

Open Scope Z_scope.

(** The command line of [main]. *)
Record SyncArgs := mkSyncArgs {
  json_dir : list Z;
  state_path : list Z;
  out_missing : list Z;
  out_failed : list Z;
  blacklist : option (list Z);
  min_len_arg : Z;
  max_len_arg : Z;
  no_stopwords : bool;
  fast_keys_only : bool;
  file_glob : option (list Z);
  refresh_files : bool;
  target_new : Z;
  batch_size : Z;
  retries : Z;
  limit_scan_files : Z;
  dry_run : bool
}.

(** What one pass works on: the files and the lemmas of [l0_entry]. *)
Record World := mkWorld { w_fs : FS; w_db : list (list Z) }.

(** [k in s] on two [str]s *)
Definition py_in_str (k s : list Z) : bool :=
  existsb (fun i => starts_with k (drop i s)) (seq 0 (S (length s))).

(** [k in v] for a [str] [k] and a value read from JSON; [None] is the
    [TypeError] of [in] on a number, a [bool] or [None]. *)
Definition json_contains (k : list Z) (v : json) : option bool :=
  match v with
  | JObj o => Some (has_key o k)
  | JArr l => Some (bool_decide (JStr k ∈ l))
  | JStr s => Some (py_in_str k s)
  | _ => None
  end.

(** [p.write_text(json.dumps(v))]: a directory at [p] raises. *)
Definition write_text (p : list Z) (v : json) : St unit :=
  fs <-- st_get;;
  match fs_lookup fs p with
  | Some FDir => st_raise
  | _ => st_put (fs_write fs p (FFile (Some v)))
  end.

(** [p.parent.mkdir(parents=True, exist_ok=True)] *)
Definition mkdir_parent (p : list Z) : St unit :=
  fs <-- st_get;;
  fs <-- st_lift (makedirs fs (path_parent p));;
  st_put fs.

Section SyncMain.
Context `{UnicodeDB}.

(** [fnmatch.fnmatch(f, file_glob)] and [str(x)] of a list or a dict,
    which the model does not compute. *)
Variable fnmatch : list Z -> list Z -> bool.
Variable py_repr : json -> list Z.
(** The text lines of a blacklist that is not a JSON list. *)
Variable text_lines : list Z -> list (list Z).
(** [datetime.datetime.utcnow().isoformat() + "Z"] *)
Variable now : list Z.

(** [load_state(state_path)]: a missing or unreadable file is [{}]. *)
Definition load_state (fs : FS) (p : list Z) : json :=
  match fs_load fs p with Some j => j | None => JObj [] end.

(** [save_state(state_path, state)] *)
Definition save_state (p : list Z) (state : list (list Z * json)) : St unit :=
  let state := obj_set state (str "last_time") (JStr now) in
  mkdir_parent p;;;
  write_text p (JObj state).

(** [root.rglob("*.json")]: the paths strictly under [root] whose name
    ends in [.json], directories included. *)
Definition rglob_json (fs : FS) (root : list Z) : list (list Z) :=
  filter (fun p => starts_with (root ++ [c_slash]) p
                   && ends_with (str ".json") (drop (S (length root)) p))
         (map fst fs).

(** [build_file_list(root, file_glob)]: sorted by [s.lower()], a stable
    sort. *)
Definition build_file_list (fs : FS) (root : list Z) (glob : option (list Z)) : list (list Z) :=
  let files := rglob_json fs root in
  let files := match glob with
               | Some g => if bool_decide (g = []) then files else filter (fnmatch g) files
               | None => files
               end in
  sort_lt (fun a b => str_ltb (uc_lower a) (uc_lower b)) files.

(** [str(x)] *)
Definition py_str_any (v : json) : list Z := default (py_repr v) (py_str v).

(** [load_word_list(p)] *)
Definition load_word_list (fs : FS) (p : list Z) : list (list Z) :=
  match fs_load fs p with
  | Some (JArr l) => filter (fun s => negb (bool_decide (py_strip s = []))) (map py_str_any l)
  | _ => []
  end.

(** [load_blacklist(p)]: reading a directory raises. *)
Definition load_blacklist (fs : FS) (p : option (list Z)) : option (list (list Z)) :=
  match p with
  | None => Some []
  | Some p =>
      match fs_lookup fs p with
      | None => Some []
      | Some FDir => None
      | Some (FFile (Some (JArr l))) =>
          Some (map (fun s => uc_lower (py_strip s))
                    (filter (fun s => negb (bool_decide (py_strip s = []))) (map py_str_any l)))
      | Some (FFile _) => Some (map uc_lower (text_lines p))
      end
  end.

(** [db_lemmas_lower(db_path)] *)
Definition db_lemmas_lower (db : list (list Z)) : list (list Z) := map uc_lower db.

(** Lines 201-216 on a state that may not be a dict: [refresh_files]
    or ["files" not in state] rebuilds without reading the rest, and
    [state.get] of a list or a string raises. *)
Definition resume_any (refresh : bool) (root : list Z) (glob : option (list Z))
    (build : list (list Z)) (state : json)
    : option (list (list Z * json) * list (list Z) * Z) :=
  match state with
  | JObj o => resume refresh root glob build o
  | _ =>
      if refresh then resume true root glob build []
      else match json_contains (str "files") state with
           | Some false => resume false root glob build []
           | _ => None
           end
  end.

(** The configuration of the scan of lines 219-231. *)
Definition scan_config (a : SyncArgs) (fs : FS) (have bl prev_failed : list (list Z)) : ScanConfig :=
  mkScanConfig (mkWordFilter (min_len_arg a) (max_len_arg a) STOPWORDS (negb (no_stopwords a)))
               (fast_keys_only a) have bl (map uc_lower prev_failed)
               (target_new a) (limit_scan_files a) (fs_load fs).

(** Lines 201-270: what the pass reads before its first write: the
    state, the file list, the earlier failures and the scan. *)
Definition sync_plan (a : SyncArgs) (w : World)
    : option (list (list Z * json) * list (list Z) * ScanState) :=
  let fs := w_fs w in
  let build := build_file_list fs (json_dir a) (file_glob a) in
  r ← resume_any (refresh_files a) (json_dir a) (file_glob a) build (load_state fs (state_path a));
  let '(state, files, i) := r in
  bl ← load_blacklist fs (blacklist a);
  let prev_failed := load_word_list fs (out_failed a) in
  st ← scan_loop (scan_fuel files i) (scan_config a fs (db_lemmas_lower (w_db w)) bl prev_failed)
                 files (mkScanState i 0 []);
  Some (state, prev_failed, st).

(** Lines 272-285: the new words and the state are written; a dry run
    or a pass without new words ends there. *)
Definition sync_save (a : SyncArgs) (state : list (list Z * json)) (st : ScanState)
    : St unit :=
  let new_list := map snd (found_map st) in
  mkdir_parent (out_missing a);;;
  write_text (out_missing a) (JArr (map JStr new_list));;;
  runs <-- st_lift (py_int (get_default state (str "runs") (JNum 0)));;
  save_state (state_path a) (obj_set (obj_set state (str "idx") (JNum (idx st)))
                                     (str "runs") (JNum (runs + 1))).

(** Lines 322-340: the failures merged into [--out-failed] and the
    successes into [--out-missing]. *)
Definition sync_record (a : SyncArgs) (new_list prev_failed failed : list (list Z)) : St unit :=
  mkdir_parent (out_failed a);;;
  write_text (out_failed a) (JArr (map JStr (merge_failed prev_failed failed)));;;
  write_text (out_missing a) (JArr (map JStr (successes new_list failed))).

(** [main()]: the exit status and what the pass leaves.  An uncaught
    exception exits with status [1].  The database is the one the
    upserts of [scrape_batches] leave, also when [sync_record] raises. *)
Definition sync_pass (a : SyncArgs) (outcome : list (list Z) -> list Z -> Z -> bool)
    (w : World) : Z * World :=
  match sync_plan a w with
  | None => (1, w)
  | Some (state, prev_failed, st) =>
      let new_list := map snd (found_map st) in
      match sync_save a state st (w_fs w) with
      | (fs, None) => (1, mkWorld fs (w_db w))
      | (fs, Some _) =>
          if dry_run a || bool_decide (new_list = []) then (0, mkWorld fs (w_db w))
          else
            match scrape_batches (outcome (w_db w)) (retries a) (batch_size a) new_list (w_db w) with
            | (failed, db) =>
                match sync_record a new_list prev_failed failed fs with
                | (fs, None) => (1, mkWorld fs db)
                | (fs, Some _) => (0, mkWorld fs db)
                end
            end
      end
  end.

End SyncMain.

(** ** The state a pass resumes from *)

Lemma json_str_list_inv v files : json_str_list v = Some files -> v = JArr (map JStr files).
Proof.
  destruct v as [| | | |l|]; simpl; try done. revert files.
  induction l as [|x l IH]; intros files; simpl; [by intros [= <-]|].
  destruct x; simpl; try done. destruct (mapM _ l) eqn:E; simpl; [|done].
  intros [= <-]. injection (IH l0 eq_refl) as ->. done.
Qed.

Lemma get_default_has o k d : has_key o k = true -> get_default o k d = obj_get o k.
Proof. unfold get_default. by intros ->. Qed.

(** What [resume] hands to the scan: the state holds the list under
    [files]; the list is the rebuilt one or the state's; the index is
    [0] or the state's; and it lies below the length of the list unless
    the list was rebuilt. *)
Lemma resume_Some refresh root glob build o st' files i :
  resume refresh root glob build o = Some (st', files, i) ->
  obj_get st' (str "files") = JArr (map JStr files) /\
  (files = build \/ (has_key o (str "files") = true /\ json_str_list (get_default o (str "files") (JArr [])) = Some files)) /\
  (i = 0 \/ (py_int (get_default o (str "idx") (JNum 0)) = Some i /\
             obj_get o (str "files") = JArr (map JStr files))) /\
  (i < Zlength files \/ (files = build /\ i = 0)).
Proof.
  intros Hr. pose proof (resume_in_range _ _ _ _ _ _ _ _ Hr) as Hrange.
  unfold resume in Hr. inv_obind Hr. destruct p as [s fs]. simpl in Hr.
  destruct (_ || _) eqn:Hnb in Hb.
  - injection Hb as <- <-. inv_obind Hr; injection Hr as <- <- <-;
      (split; [try (rewrite obj_get_set_ne by done; apply obj_get_set_same); reflexivity|]);
      split_and!; auto; left; revert Hb; vm_compute; congruence.
  - apply orb_false_iff in Hnb as [Hnb _]. apply orb_false_iff in Hnb as [Hnb _].
    apply orb_false_iff in Hnb as [_ Hk%negb_false_iff].
    inv_obind Hb. injection Hb as <- <-.
    pose proof (json_str_list_inv _ _ Hb0) as Hf. rewrite get_default_has in Hf by done.
    inv_obind Hr; injection Hr as <- <- <-.
    + split; [rewrite obj_get_set_ne by done; apply obj_get_set_same|]. split_and!; auto.
    + split_and!; auto.
Qed.

Lemma resume_any_Some refresh root glob build j st' files i :
  resume_any refresh root glob build j = Some (st', files, i) ->
  obj_get st' (str "files") = JArr (map JStr files) /\
  (files = build \/ exists o, j = JObj o /\ json_str_list (get_default o (str "files") (JArr [])) = Some files) /\
  (i = 0 \/ exists o, j = JObj o /\ py_int (get_default o (str "idx") (JNum 0)) = Some i /\
                      obj_get o (str "files") = JArr (map JStr files)) /\
  (i < Zlength files \/ (files = build /\ i = 0)).
Proof.
  assert (forall refresh, resume refresh root glob build [] = Some (st', files, i) ->
            obj_get st' (str "files") = JArr (map JStr files) /\ files = build /\ i = 0 /\
            (i < Zlength files \/ (files = build /\ i = 0))) as Hnil.
  { intros r (Hf & [->|[? _]] & [->|[Hi _]] & Hr)%resume_Some; try done. by injection Hi as <-. }
  destruct j as [| | | | |o]; cbn [resume_any];
    [.. |intros (Hf & Hb & Hi & Hr)%resume_Some; split_and!; [done| | |done]];
    [.. |destruct Hb as [?|[_ ?]]; [by left|right; eauto]|destruct Hi as [?|?]; [by left|right; eauto]];
    (destruct refresh; [intros (? & -> & -> & ?)%Hnil; split_and!; auto|]);
    destruct (json_contains _ _) as [[]|]; try done; intros (? & -> & -> & ?)%Hnil; split_and!; auto.
Qed.

(** ** What the writes of a pass leave *)

(** [m] leaves the value [json.load] reads at [q] as it was. *)
Definition st_keeps (q : list Z) {A} (m : St A) : Prop := forall fs, fs_load (m fs).1 q = fs_load fs q.

Lemma st_keeps_bind {A B} q (m : St A) (k : A -> St B) :
  st_keeps q m -> (forall a, st_keeps q (k a)) -> st_keeps q (st_bind m k).
Proof.
  intros Hm Hk fs. unfold st_bind. specialize (Hm fs).
  destruct (m fs) as [fs1 [a|]]; simpl in *; [by rewrite Hk|done].
Qed.

Lemma st_keeps_lift {A} q (o : option A) : st_keeps q (st_lift o).
Proof. done. Qed.

(** [makedirs] adds directories where nothing was, which [json.load]
    cannot read either. *)
Lemma makedirs_load fs d fs' q : makedirs fs d = Some fs' -> fs_load fs' q = fs_load fs q.
Proof.
  intros Hm. unfold fs_load. by destruct (makedirs_grows _ _ _ Hm q) as [->|(_ & -> & ->)].
Qed.

Lemma mkdir_parent_keeps p q : st_keeps q (mkdir_parent p).
Proof.
  intros fs. unfold mkdir_parent, st_bind, st_get, st_lift, st_put.
  destruct (makedirs fs (path_parent p)) eqn:E; simpl; [by eapply makedirs_load|done].
Qed.

Lemma write_text_keeps p v q : q <> p -> st_keeps q (write_text p v).
Proof.
  intros Hne fs. unfold write_text, st_bind, st_get, st_put, st_raise.
  destruct (fs_lookup fs p) as [[|]|]; simpl; try done; unfold fs_load; by rewrite fs_lookup_write_ne.
Qed.

Lemma write_text_Some p v fs fs' : write_text p v fs = (fs', Some tt) -> fs_load fs' p = Some v.
Proof.
  unfold write_text, st_bind, st_get, st_put, st_raise.
  destruct (fs_lookup fs p) as [[|]|]; intros; simplify_eq; unfold fs_load; by rewrite fs_lookup_write_same.
Qed.

Lemma st_keeps_run {A} q (m : St A) fs fs' r :
  st_keeps q m -> m fs = (fs', r) -> fs_load fs' q = fs_load fs q.
Proof. intros Hk Hm. specialize (Hk fs). by rewrite Hm in Hk. Qed.

(** Frame a sequence of writes at other paths. *)
Ltac st_keeps_tac :=
  repeat first [ apply mkdir_parent_keeps | apply st_keeps_lift
               | apply write_text_keeps; congruence | apply st_keeps_bind; intros ].

(** Take a successful sequence of [St] steps apart. *)
Ltac st_steps H :=
  repeat match type of H with
  | st_bind _ _ _ = (_, Some _) =>
      let fs := fresh "fs" in let a := fresh "a" in let Hm := fresh "Hm" in
      apply st_bind_Some in H as (fs & a & Hm & H)
  end.

(** The state [sync_save] writes. *)
Definition saved_state (state : list (list Z * json)) (n : Z) (r t : json) : list (list Z * json) :=
  obj_set (obj_set (obj_set state (str "idx") (JNum n)) (str "runs") r) (str "last_time") t.

Section SaveLemmas.
Context `{UnicodeDB}.
Variable now : list Z.

Lemma sync_save_keeps a state st q :
  q <> out_missing a -> q <> state_path a -> st_keeps q (sync_save now a state st).
Proof. intros. unfold sync_save, save_state. st_keeps_tac. Qed.

Lemma sync_record_keeps a new_list prev_failed failed q :
  q <> out_missing a -> q <> out_failed a -> st_keeps q (sync_record a new_list prev_failed failed).
Proof. intros. unfold sync_record. st_keeps_tac. Qed.

(** After [sync_save]: the state with the new index, and the new words. *)
Lemma sync_save_Some a state st fs fs' :
  out_missing a <> state_path a ->
  sync_save now a state st fs = (fs', Some tt) ->
  exists runs, py_int (get_default state (str "runs") (JNum 0)) = Some runs /\
    fs_load fs' (state_path a) = Some (JObj (saved_state state (idx st) (JNum (runs + 1)) (JStr now))) /\
    fs_load fs' (out_missing a) = Some (JArr (map JStr (map snd (found_map st)))).
Proof.
  intros Hne Hs. unfold sync_save, save_state in Hs.
  apply st_bind_Some in Hs as (fs1 & [] & _ & Hs).
  apply st_bind_Some in Hs as (fs2 & [] & Hw & Hs).
  apply st_bind_Some in Hs as (fs3 & runs & Hr & Hs). injection Hr as <- Hr.
  apply st_bind_Some in Hs as (fs4 & [] & Hd & Hs).
  exists runs. split_and!; [done|by eapply write_text_Some|].
  rewrite (st_keeps_run _ _ _ _ _ (write_text_keeps _ _ _ Hne) Hs).
  rewrite (st_keeps_run _ _ _ _ _ (mkdir_parent_keeps _ _) Hd). by eapply write_text_Some.
Qed.

(** After [sync_record]: the merged failures and the successes. *)
Lemma sync_record_Some a new_list prev_failed failed fs fs' :
  out_missing a <> out_failed a ->
  sync_record a new_list prev_failed failed fs = (fs', Some tt) ->
  fs_load fs' (out_failed a) = Some (JArr (map JStr (merge_failed prev_failed failed))) /\
  fs_load fs' (out_missing a) = Some (JArr (map JStr (successes new_list failed))).
Proof.
  intros Hne Hs. unfold sync_record in Hs.
  apply st_bind_Some in Hs as (fs1 & [] & _ & Hs).
  apply st_bind_Some in Hs as (fs2 & [] & Hw & Hs).
  split; [|by eapply write_text_Some].
  rewrite (st_keeps_run _ _ _ _ _ (write_text_keeps _ _ _ (not_eq_sym Hne)) Hs).
  by eapply write_text_Some.
Qed.

End SaveLemmas.

(** ** The file list and the plan of a pass *)

Lemma load_word_list_same py_repr fs fs' p :
  fs_load fs' p = fs_load fs p -> load_word_list py_repr fs' p = load_word_list py_repr fs p.
Proof. unfold load_word_list. by intros ->. Qed.

(** A list of non-blank words written as JSON reads back unchanged. *)
Lemma load_word_list_written py_repr fs p l :
  fs_load fs p = Some (JArr (map JStr l)) -> Forall (fun s => py_strip s <> []) l ->
  load_word_list py_repr fs p = l.
Proof.
  unfold load_word_list. intros -> Hl. rewrite map_map. simpl. induction Hl as [|s l Hs _ IH]; [done|].
  simpl. rewrite filter_cons_True; [by rewrite IH|]. by case_bool_decide.
Qed.

Lemma load_word_list_nonblank py_repr fs p : Forall (fun s => py_strip s <> []) (load_word_list py_repr fs p).
Proof.
  unfold load_word_list. destruct (fs_load fs p) as [[]|]; try constructor.
  apply Forall_forall. intros s [Hs _]%list_elem_of_filter. by case_bool_decide.
Qed.

Section PlanLemmas.
Context `{UnicodeDB}.
Variables (fnmatch : list Z -> list Z -> bool) (py_repr : json -> list Z)
          (text_lines : list Z -> list (list Z)) (now : list Z).

(** Every file of a rebuilt list lies under [root]. *)
Lemma build_file_list_under fs root glob p :
  p ∈ build_file_list fnmatch fs root glob -> starts_with (root ++ [c_slash]) p = true.
Proof.
  unfold build_file_list, rglob_json. intros Hp%sort_lt_elem.
  destruct glob as [g|]; [case_bool_decide; [|apply list_elem_of_filter in Hp as [_ Hp]]|];
    apply list_elem_of_filter in Hp as [Hp%Is_true_true _]; by apply andb_true_iff in Hp as [? _].
Qed.

Lemma sync_plan_Some a w state prev_failed st :
  blacklist a = None ->
  sync_plan fnmatch py_repr text_lines a w = Some (state, prev_failed, st) ->
  exists files i,
    resume_any (refresh_files a) (json_dir a) (file_glob a)
      (build_file_list fnmatch (w_fs w) (json_dir a) (file_glob a))
      (load_state (w_fs w) (state_path a)) = Some (state, files, i) /\
    prev_failed = load_word_list py_repr (w_fs w) (out_failed a) /\
    scan_loop (scan_fuel files i)
      (scan_config a (w_fs w) (db_lemmas_lower (w_db w)) [] prev_failed) files (mkScanState i 0 [])
      = Some st.
Proof.
  intros Hbl Hp. unfold sync_plan in Hp. inv_obind Hp. destruct p as [[s files] i].
  rewrite Hbl in Hp. simpl in Hp. inv_obind Hp. simplify_eq. eauto 10.
Qed.

(** The three ways a pass ends: an exit status other than [0], a pass
    that found nothing, or a pass that scraped the words it found. *)
Lemma sync_pass_cases a outcome w rc w' :
  dry_run a = false ->
  sync_pass fnmatch py_repr text_lines now a outcome w = (rc, w') ->
  rc <> 0 \/
  exists state prev_failed st fs1,
    sync_plan fnmatch py_repr text_lines a w = Some (state, prev_failed, st) /\
    sync_save now a state st (w_fs w) = (fs1, Some tt) /\
    ((map snd (found_map st) = [] /\ w' = mkWorld fs1 (w_db w)) \/
     (map snd (found_map st) <> [] /\
      let r := scrape_batches (outcome (w_db w)) (retries a) (batch_size a) (map snd (found_map st)) (w_db w) in
      sync_record a (map snd (found_map st)) prev_failed r.1 fs1 = (w_fs w', Some tt) /\
      w_db w' = r.2)).
Proof.
  intros Hdry. unfold sync_pass. rewrite Hdry. simpl.
  destruct (sync_plan _ _ _ _ _) as [[[state pf] st]|]; [|intros [= <- _]; by left].
  destruct (sync_save _ _ _ _ _) as [fs1 [[]|]] eqn:Hs; [|intros [= <- _]; by left].
  case_bool_decide as Hn.
  - intros [= <- <-]. right. exists state, pf, st, fs1. split_and!; [done|done|left; done].
  - destruct (scrape_batches _ _ _ _ _) as [failed db] eqn:Hb.
    destruct (sync_record _ _ _ _ _) as [fs2 [[]|]] eqn:Hr; intros [= <- <-]; [|by left].
    right. exists state, pf, st, fs1. split_and!; [done|done|right]. split; [done|]. cbv zeta. rewrite Hb. by split.
Qed.

Lemma sync_plan_prev_failed a w state prev_failed st :
  sync_plan fnmatch py_repr text_lines a w = Some (state, prev_failed, st) ->
  prev_failed = load_word_list py_repr (w_fs w) (out_failed a).
Proof.
  unfold sync_plan. intros Hp. inv_obind Hp. destruct p as [[s files] i]. inv_obind Hp. by simplify_eq.
Qed.

(** The words a pass collects are well-formed pairs. *)
Lemma sync_plan_pairs a w state prev_failed st :
  sync_plan fnmatch py_repr text_lines a w = Some (state, prev_failed, st) -> Forall pair_ok (found_map st).
Proof.
  unfold sync_plan. intros Hp. inv_obind Hp. destruct p as [[s files] i]. inv_obind Hp. simplify_eq.
  eapply scan_loop_found; [exact Hb1| |constructor]. intros p d _ _.
  apply Forall_forall. intros kv [_ Hkv]%list_elem_of_filter.
  by eapply Forall_forall in Hkv; [|apply file_candidates_pair_ok].
Qed.

(** The failures [sync_record] writes read back as the merged list. *)
Lemma record_failed_list a new_list prev_failed failed fs fs' :
  out_missing a <> out_failed a ->
  Forall (fun s => py_strip s <> []) prev_failed -> Forall (fun s => py_strip s <> []) failed ->
  sync_record a new_list prev_failed failed fs = (fs', Some tt) ->
  load_word_list py_repr fs' (out_failed a) = merge_failed prev_failed failed.
Proof.
  intros Hne Hp Hf Hr. destruct (sync_record_Some _ _ _ _ _ _ Hne Hr) as [Hl _].
  apply load_word_list_written; [done|]. by apply merge_failed_forall.
Qed.

(** A word of the pass is stored or, by its lower-cased form, a
    failure. *)
Lemma settled_word (ok : list Z -> bool) db new_list prev_failed v :
  v ∈ new_list ->
  uc_lower v ∈ map uc_lower (db ++ List.filter ok new_list) \/
  uc_lower v ∈ map uc_lower (merge_failed prev_failed (List.filter (fun w => negb (ok w)) new_list)).
Proof.
  intros Hv. destruct (ok v) eqn:E.
  - left. rewrite map_app. apply elem_of_app. right. apply list_elem_of_fmap. exists v.
    split; [done|]. apply list_elem_of_In, filter_In. split; [by apply list_elem_of_In|done].
  - right. apply merge_failed_spec. right. apply list_elem_of_fmap. exists v.
    split; [done|]. apply list_elem_of_In, filter_In. split; [by apply list_elem_of_In|by rewrite E].
Qed.

End PlanLemmas.

(** ** A sample pass

    One JSON file under [/d], the outputs under [/o], no state yet and an
    empty database; only [cat] scrapes. *)
Definition sample_sync_fs : FS :=
  [(str "/d", FDir);
   (str "/d/a.json", FFile (Some (JObj [(str "lemma", JStr (str "cat")); (str "note", JStr (str "Dog bites"))])))].

Definition sample_world : World := mkWorld sample_sync_fs [].

Definition sample_outcome (db : list (list Z)) (w : list Z) (attempt : Z) : bool := bool_decide (w = str "cat").

Definition sample_sync_args : SyncArgs :=
  mkSyncArgs (str "/d") (str "/o/state.json") (str "/o/missing.json") (str "/o/failed.json") None 1 64
             false false None false 10 10 1 0 false.

Definition sample_now : list Z := str "2025-01-01T00:00:00Z".

Definition sample_plan : option (list (list Z * json) * list (list Z) * ScanState) :=
  sync_plan (fun _ _ => true) (fun _ => []) (fun _ => []) sample_sync_args sample_world.

Definition sample_found : ScanState :=
  match sample_plan with Some (_, _, st) => st | None => mkScanState 0 0 [] end.

(** C27: After a pass that exits with status [0], every word the pass
    collected is settled: it is a lemma of [l0_entry], or its lower-cased
    form is one of the list [--out-failed] holds, so that no later pass
    collects it again. *)
Theorem sync_pass_settles `{UnicodeDB} fnmatch py_repr text_lines now a outcome w w' state prev_failed st :
  dry_run a = false -> out_missing a <> state_path a -> out_missing a <> out_failed a ->
  sync_plan fnmatch py_repr text_lines a w = Some (state, prev_failed, st) ->
  sync_pass fnmatch py_repr text_lines now a outcome w = (0, w') ->
  Forall (fun v => uc_lower v ∈ db_lemmas_lower (w_db w') \/
                   uc_lower v ∈ map uc_lower (load_word_list py_repr (w_fs w') (out_failed a)))
         (map snd (found_map st)).
Proof.
  intros Hdry Hms Hmf Hp Hpass.
  destruct (sync_pass_cases _ _ _ _ _ _ _ _ _ Hdry Hpass)
    as [?|(state' & pf & st' & fs1 & Hp' & _ & [[HN ->]|[HN [Hrec Hdb]]])]; [done| |];
    rewrite Hp in Hp'; injection Hp' as <- <- <-; [by rewrite HN|].
  pose proof (sync_plan_pairs _ _ _ _ _ _ _ _ Hp) as Hpairs.
  rewrite scrape_batches_chunking in Hrec, Hdb. cbn [fst snd] in Hrec, Hdb.
  erewrite record_failed_list; [|exact Hmf| | |exact Hrec].
  - apply Forall_forall. intros v Hv. rewrite Hdb. by apply settled_word.
  - rewrite (sync_plan_prev_failed _ _ _ _ _ _ _ _ Hp). apply load_word_list_nonblank.
  - apply Forall_forall. intros x Hx%list_elem_of_In%filter_In.
    destruct Hx as [Hx%list_elem_of_In _]. apply list_elem_of_fmap in Hx as ([k v] & -> & Hkv).
    rewrite Forall_forall in Hpairs. by destruct (Hpairs _ Hkv).
Qed.

Lemma sync_pass_settles_witness :
  Forall (fun v => uc_lower v ∈ db_lemmas_lower
                     (w_db (sync_pass (fun _ _ => true) (fun _ => []) (fun _ => []) sample_now
                              sample_sync_args sample_outcome sample_world).2) \/
                   uc_lower v ∈ map uc_lower (load_word_list (fun _ => [])
                     (w_fs (sync_pass (fun _ _ => true) (fun _ => []) (fun _ => []) sample_now
                              sample_sync_args sample_outcome sample_world).2) (str "/o/failed.json")))
         (map snd (found_map sample_found)).
Proof.
  apply (sync_pass_settles (fun _ _ => true) (fun _ => []) (fun _ => []) sample_now sample_sync_args
           sample_outcome sample_world _ (default [] (fst <$> (fst <$> sample_plan)))
           (default [] (snd <$> (fst <$> sample_plan)))).
  - reflexivity.
  - apply (bool_decide_unpack _). vm_compute. reflexivity.
  - apply (bool_decide_unpack _). vm_compute. reflexivity.
  - vm_compute. reflexivity.
  - vm_compute. reflexivity.
Defined.
