(* ===== verification/SyncLoop.v ===== *)
(** * SyncLoop: [sync_loop_until_done.py]

    [src/memory/adapters/sync_loop_until_done.py] runs
    [sync_json_words_to_db.py] again and again: after each pass it
    reads the count of new lemmas from [--out-missing] and the index
    and file count from [--state], and stops when a pass found nothing
    and the index reached the end of the list, or found nothing and did
    not move.  A pass that fails stops the loop with its exit status.

    The loop is written over any pass ([loop_until_done]); [sync_loop]
    runs it on the pass of SyncMain.v with the arguments the loop hands
    to the script.  The loop has no bound in the source; the fuel is
    the number of passes, and the theorems give the fuel that makes it
    stop by itself. *)

From S2P Require Import Prelude Text Json WordSync DictStore Rebuild SyncMain.

Open Scope Z_scope.

(** [len(v)] is DictStore's [py_len]. *)

(** [read_state_idx(state)]: any exception gives [(0, 0)]. *)
Definition read_state_idx (fs : FS) (state : list Z) : Z * Z :=
  match fs_load fs state with
  | Some (JObj s) =>
      let files := py_or (obj_get s (str "files")) (JArr []) in
      match py_int (get_default s (str "idx") (JNum 0)), py_len files with
      | Some i, Some n => (i, n)
      | _, _ => (0, 0)
      end
  | _ => (0, 0)
  end.

(** [read_count(path)]: any exception gives [0]. *)
Definition read_count (fs : FS) (path : list Z) : Z :=
  match fs_load fs path with
  | Some j => default 0 (py_len j)
  | None => 0
  end.

(** How the [while True] loop ends. *)
Inductive loop_end :=
| LoopExit (rc : Z)        (* [sys.exit(rc)] after a failed pass *)
| LoopDone                 (* no new lemmas and the end reached *)
| LoopStalled.             (* no new lemmas and no progress *)

Section Loop.
Variable W : Type.
Variable fs_of : W -> FS.
(** [subprocess.run(cmd).returncode] and what the pass leaves. *)
Variable run : W -> Z * W.
Variables (state out_missing : list Z).

(** One turn of the loop: [None] is [time.sleep(1.0)] and the next
    turn. *)
Definition loop_pass (w : W) : option loop_end * W :=
  let '(idx_before, total) := read_state_idx (fs_of w) state in
  let '(rc, w') := run w in
  if negb (rc =? 0) then (Some (LoopExit rc), w')
  else
    let new_count := read_count (fs_of w') out_missing in
    let '(idx_after, total_after) := read_state_idx (fs_of w') state in
    let total := if total_after =? 0 then total else total_after in
    if (new_count =? 0) && negb (total =? 0) && (total <=? idx_after) then (Some LoopDone, w')
    else if (new_count =? 0) && (idx_after =? idx_before) then (Some LoopStalled, w')
    else (None, w').

(** [while True], with at most [fuel] passes; [None] is a loop still
    running after them. *)
Fixpoint loop_until_done (fuel : nat) (w : W) : option (loop_end * W) :=
  match fuel with
  | O => None
  | S f =>
      let '(r, w') := loop_pass w in
      match r with
      | Some e => Some (e, w')
      | None => loop_until_done f w'
      end
  end.

End Loop.

Section SyncLoop.
Context `{UnicodeDB}.
Variables (fnmatch : list Z -> list Z -> bool) (py_repr : json -> list Z)
          (text_lines : list Z -> list (list Z)) (now : list Z).

(** The command [main] builds: the paths and switches it passes on;
    the script's other options keep their defaults. *)
Definition loop_args (json_dir state out_missing out_failed : list Z)
    (target_new batch_size retries : Z) (fast_keys_only no_stopwords : bool) : SyncArgs :=
  mkSyncArgs json_dir state out_missing out_failed None 1 64 no_stopwords fast_keys_only
             None false target_new batch_size retries 0 false.

(** [main()] of the loop on the pass of SyncMain.v. *)
Definition sync_loop (a : SyncArgs) (outcome : list (list Z) -> list Z -> Z -> bool)
    (fuel : nat) (w : World) : option (loop_end * World) :=
  loop_until_done World w_fs (sync_pass fnmatch py_repr text_lines now a outcome)
                  (state_path a) (out_missing a) fuel w.

End SyncLoop.

(** ** What the loop works through *)

(** The files a pass writes. *)
Definition outputs (a : SyncArgs) : list (list Z) := [state_path a; out_missing a; out_failed a].

(** The lower-cased words the scan of the options [a] collects from
    a JSON value. *)
Definition file_keys `{UnicodeDB} (a : SyncArgs) (d : json) : list (list Z) :=
  map fst (file_candidates (scan_config a [] [] [] []) d).

(** Every word any file of [fs0] offers. *)
Definition universe `{UnicodeDB} (a : SyncArgs) (fs0 : FS) : list (list Z) :=
  flat_map (fun e => match fs_load fs0 e.1 with Some d => file_keys a d | None => [] end) fs0.

(** The file list of the state names none of the files a pass writes. *)
Definition state_files_ok (a : SyncArgs) (fs : FS) : bool :=
  match fs_load fs (state_path a) with
  | Some (JObj o) =>
      match json_str_list (get_default o (str "files") (JArr [])) with
      | Some l => forallb (fun p => negb (mem_str p (outputs a))) l
      | None => true
      end
  | _ => true
  end.

(** ** Reading the state back *)

Lemma get_default_nonnull o k d : obj_get o k <> JNull -> get_default o k d = obj_get o k.
Proof.
  unfold get_default, has_key, obj_get. destruct (existsb _ o) eqn:E; [done|].
  destruct (List.find _ o) eqn:F; [|done]. apply find_some in F as [Hin Hf].
  assert (existsb (fun kv => bool_decide (kv.1 = k)) o = true) as E' by (apply existsb_exists; eauto).
  congruence.
Qed.

Lemma json_str_list_map l : json_str_list (JArr (map JStr l)) = Some l.
Proof. induction l as [|s l IH]; [done|]. simpl in *. destruct (mapM _ _); by simplify_eq. Qed.

Lemma py_len_files files : py_len (py_or (JArr (map JStr files)) (JArr [])) = Some (Zlength files).
Proof.
  destruct files; [done|]. unfold py_or. cbn [py_truthy].
  rewrite bool_decide_eq_false_2 by done. cbn [negb py_len]. by rewrite !Zlength_correct, length_map.
Qed.

Lemma read_state_obj fs p o i files :
  fs_load fs p = Some (JObj o) -> py_int (get_default o (str "idx") (JNum 0)) = Some i ->
  obj_get o (str "files") = JArr (map JStr files) -> read_state_idx fs p = (i, Zlength files).
Proof. intros Hl Hi Hf. unfold read_state_idx. by rewrite Hl, Hi, Hf, py_len_files. Qed.

Lemma saved_state_files state n r t :
  obj_get (saved_state state n r t) (str "files") = obj_get state (str "files").
Proof. unfold saved_state. by rewrite !obj_get_set_ne. Qed.

Lemma saved_state_idx state n r t d : get_default (saved_state state n r t) (str "idx") d = JNum n.
Proof.
  unfold saved_state. rewrite get_default_nonnull; rewrite !obj_get_set_ne by done; by rewrite obj_get_set_same.
Qed.

Lemma read_state_saved fs p state n r t files :
  fs_load fs p = Some (JObj (saved_state state n r t)) ->
  obj_get state (str "files") = JArr (map JStr files) -> read_state_idx fs p = (n, Zlength files).
Proof.
  intros Hl Hf. apply (read_state_obj _ _ _ _ _ Hl); [by rewrite saved_state_idx|by rewrite saved_state_files].
Qed.

Lemma load_state_obj fs p o :
  load_state fs p = JObj o -> fs_load fs p = Some (JObj o) \/ o = [].
Proof. unfold load_state. destruct (fs_load fs p); intros; simplify_eq; auto. Qed.

(** Filtering by a stronger predicate that drops an element the weaker
    one keeps gives a shorter list. *)
Lemma filter_length_lt {A} (P Q : A -> Prop) `{forall x, Decision (P x)} `{forall x, Decision (Q x)}
    (l : list A) :
  (forall x, Q x -> P x) -> (exists x, x ∈ l /\ P x /\ ~ Q x) ->
  (length (filter Q l) < length (filter P l))%nat.
Proof.
  intros HQP. induction l as [|y l IH]; intros (x & Hx & HP & HQ); [by apply not_elem_of_nil in Hx|].
  assert (forall l', (length (filter Q l') <= length (filter P l'))%nat) as Hle.
  { induction l' as [|z l' IH']; [done|]. rewrite !filter_cons.
    destruct (decide (Q z)), (decide (P z)); simpl; try lia. naive_solver. }
  rewrite !filter_cons. apply elem_of_cons in Hx as [->|Hx].
  - rewrite decide_False, decide_True by done. simpl. specialize (Hle l). lia.
  - specialize (IH (ex_intro _ x (conj Hx (conj HP HQ)))).
    destruct (decide (Q y)), (decide (P y)); simpl; try lia. naive_solver.
Qed.

(** ** Every pass that does not end the loop makes progress *)

Section Progress.
Context `{UnicodeDB}.
Variables (fnmatch : list Z -> list Z -> bool) (py_repr : json -> list Z)
          (text_lines : list Z -> list (list Z)) (now : list Z).
Variable a : SyncArgs.
Variable outcome : list (list Z) -> list Z -> Z -> bool.
(** The files before the first pass. *)
Variable fs0 : FS.
Hypothesis Hbl : blacklist a = None.
Hypothesis Hlim : limit_scan_files a = 0.
Hypothesis Hdry : dry_run a = false.
Hypothesis Hnd : NoDup (outputs a).
Hypothesis Hout : Forall (fun o => starts_with (json_dir a ++ [c_slash]) o = false) (outputs a).

(** A word the database or the list of failures knows. *)
Definition known (w : World) (k : list Z) : Prop :=
  k ∈ db_lemmas_lower (w_db w) \/ k ∈ map uc_lower (load_word_list py_repr (w_fs w) (out_failed a)).

(** The words still to find, the state's index away from [0], and the
    measure of a world that every pass lowers. *)
Definition pool (w : World) : list (list Z) :=
  filter (fun k => ~ known w k) (remove_dups (universe a fs0)).

Definition flag (w : World) : nat :=
  if (read_state_idx (w_fs w) (state_path a)).1 =? 0 then 0 else 1.

Definition measure (w : World) : nat := 2 * length (pool w) + flag w.

(** The files outside the outputs are those of [fs0], and the state's
    list avoids the outputs. *)
Definition Inv (w : World) : Prop :=
  (forall p, p ∉ outputs a -> fs_load (w_fs w) p = fs_load fs0 p) /\
  state_files_ok a (w_fs w) = true.

Lemma outputs_not_under p : starts_with (json_dir a ++ [c_slash]) p = true -> p ∉ outputs a.
Proof. intros Hp Hin. eapply Forall_forall in Hout; [|exact Hin]. congruence. Qed.

(** The list a pass scans avoids the outputs. *)
Lemma files_avoid w state files i :
  Inv w ->
  resume_any (refresh_files a) (json_dir a) (file_glob a)
    (build_file_list fnmatch (w_fs w) (json_dir a) (file_glob a))
    (load_state (w_fs w) (state_path a)) = Some (state, files, i) ->
  forall p, p ∈ files -> p ∉ outputs a.
Proof.
  intros [_ Hok] (_ & [->|(o & Ho & Hl)] & _)%resume_any_Some p Hp.
  { by eapply outputs_not_under, build_file_list_under. }
  destruct (load_state_obj _ _ _ Ho) as [Hs| ->];
    [|vm_compute in Hl; injection Hl as <-; by apply not_elem_of_nil in Hp].
  unfold state_files_ok in Hok. rewrite Hs, Hl in Hok.
  eapply forallb_forall in Hok; [|by apply list_elem_of_In]. apply negb_true_iff in Hok. by apply mem_str_false.
Qed.

Lemma universe_elem p d k :
  fs_load fs0 p = Some d -> k ∈ file_keys a d -> k ∈ universe a fs0.
Proof.
  intros Hd Hk. pose proof Hd as Hd'. unfold fs_load in Hd'.
  destruct (fs_lookup fs0 p) as [n|] eqn:E; [|done]. apply fs_lookup_in in E.
  apply list_elem_of_In, in_flat_map. exists (p, n). split; [by apply list_elem_of_In|].
  simpl. rewrite Hd. by apply list_elem_of_In.
Qed.
(** The words a pass collects: well-formed pairs, from a file of
    [fs0], and unknown to the world the pass starts from. *)
Lemma found_ok w state prev_failed st :
  Inv w -> sync_plan fnmatch py_repr text_lines a w = Some (state, prev_failed, st) ->
  Forall (fun kv => pair_ok kv /\ kv.1 ∈ universe a fs0 /\ ~ known w kv.1) (found_map st).
Proof.
  intros HI Hp. destruct (sync_plan_Some fnmatch py_repr text_lines a w _ _ _ Hbl Hp) as (files & i & Hr & -> & Hs).
  eapply (scan_loop_found _ _ _ _ _ _ Hs); [|constructor].
  intros p d Hpf Hl. simpl in Hl.
  assert (fs_load fs0 p = Some d) as Hd by (rewrite <-(proj1 HI p); [done|by eapply files_avoid]).
  set (cfg := scan_config _ _ _ _ _).
  pose proof (new_candidates_fresh cfg (file_candidates cfg d)) as Hfr.
  pose proof (file_candidates_pair_ok cfg d) as Hpo.
  apply Forall_forall. intros kv Hkv.
  pose proof (proj1 (Forall_forall _ _) Hfr kv Hkv) as Hf.
  apply list_elem_of_filter in Hkv as [_ Hkv].
  split_and!; [by eapply Forall_forall in Hpo| |].
  - apply (universe_elem p d); [done|]. apply list_elem_of_fmap. by exists kv.
  - unfold fresh in Hf. simpl in Hf. apply andb_true_iff in Hf as [[Hh _]%andb_true_iff Hf].
    apply negb_true_iff, mem_str_false in Hh. apply negb_true_iff, mem_str_false in Hf.
    by intros [?|?].
Qed.

Lemma outputs_distinct :
  state_path a <> out_missing a /\ state_path a <> out_failed a /\ out_missing a <> out_failed a.
Proof.
  pose proof Hnd as Hd. unfold outputs in Hd.
  apply NoDup_cons in Hd as [H1 Hd]. apply NoDup_cons in Hd as [H2 _]. set_solver.
Qed.

Lemma state_ok_saved fs state n r t files :
  fs_load fs (state_path a) = Some (JObj (saved_state state n r t)) ->
  obj_get state (str "files") = JArr (map JStr files) -> (forall p, p ∈ files -> p ∉ outputs a) ->
  state_files_ok a fs = true.
Proof.
  intros Hl Hf Hp. unfold state_files_ok. rewrite Hl, get_default_nonnull; rewrite saved_state_files, Hf; [|done].
  rewrite json_str_list_map. apply forallb_forall. intros p Hin%list_elem_of_In.
  apply negb_true_iff, mem_str_false_2. by apply Hp.
Qed.

(** What a pass has read and written once [sync_save] has run. *)
Lemma after_save w state prev_failed st fs1 :
  Inv w -> sync_plan fnmatch py_repr text_lines a w = Some (state, prev_failed, st) ->
  sync_save now a state st (w_fs w) = (fs1, Some tt) ->
  exists files i,
    resume_any (refresh_files a) (json_dir a) (file_glob a)
      (build_file_list fnmatch (w_fs w) (json_dir a) (file_glob a))
      (load_state (w_fs w) (state_path a)) = Some (state, files, i) /\
    prev_failed = load_word_list py_repr (w_fs w) (out_failed a) /\
    scan_loop (scan_fuel files i)
      (scan_config a (w_fs w) (db_lemmas_lower (w_db w)) [] prev_failed) files (mkScanState i 0 [])
      = Some st /\
    read_state_idx fs1 (state_path a) = (idx st, Zlength files) /\
    Inv (mkWorld fs1 (w_db w)) /\
    fs_load fs1 (out_failed a) = fs_load (w_fs w) (out_failed a) /\
    fs_load fs1 (out_missing a) = Some (JArr (map JStr (map snd (found_map st)))).
Proof.
  intros HI Hp Hs. destruct outputs_distinct as (Hsm & Hsf & Hmf).
  destruct (sync_plan_Some fnmatch py_repr text_lines a w _ _ _ Hbl Hp) as (files & i & Hr & Hpf & Hscan).
  destruct (sync_save_Some now a state st _ _ (not_eq_sym Hsm) Hs) as (runs & _ & Hst & Hm).
  pose proof (resume_any_Some _ _ _ _ _ _ _ _ Hr) as [Hf _].
  exists files, i. split_and!; try done.
  - by eapply read_state_saved.
  - split; [|by eapply state_ok_saved, files_avoid].
    intros p Hp'. rewrite <-(proj1 HI p Hp'). eapply st_keeps_run; [|exact Hs].
    apply sync_save_keeps; set_solver.
  - eapply st_keeps_run; [|exact Hs]. by apply sync_save_keeps.
Qed.

Lemma scan_loop_target_reached fuel cfg files st st' :
  sc_target_new cfg <= Zlength (found_map st) -> scan_loop fuel cfg files st = Some st' -> st' = st.
Proof.
  intros Ht. destruct fuel; simpl; [by intros [= <-]|].
  rewrite (proj2 (Z.ltb_ge _ _) Ht), andb_false_r. by intros [= <-].
Qed.

(** A pass that finds nothing leaves the index at [0], at the end of a
    list that is not empty, or where it was. *)
Lemma empty_pass_idx w state prev_failed st fs1 ib tot :
  Inv w -> sync_plan fnmatch py_repr text_lines a w = Some (state, prev_failed, st) ->
  sync_save now a state st (w_fs w) = (fs1, Some tt) -> found_map st = [] ->
  read_state_idx (w_fs w) (state_path a) = (ib, tot) ->
  exists files : list (list Z), read_state_idx fs1 (state_path a) = (idx st, Zlength files) /\
    (idx st = 0 \/ (idx st = Zlength files /\ Zlength files <> 0) \/ idx st = ib).
Proof.
  intros HI Hp Hs Hfound Hb.
  destruct (after_save _ _ _ _ _ HI Hp Hs) as (files & i & Hr & _ & Hscan & Hrd & _).
  exists files. split; [done|].
  destruct (resume_any_Some _ _ _ _ _ _ _ _ Hr) as (_ & _ & Hi & Hrange).
  destruct (Z.leb_spec (target_new a) 0) as [Ht|Ht].
  - apply scan_loop_target_reached in Hscan; [|cbn; lia]. subst st. simpl.
    destruct Hi as [->|(o & Ho & Hio & Hfo)]; [by left|].
    destruct (load_state_obj _ _ _ Ho) as [Hl| ->].
    + right; right. rewrite (read_state_obj _ _ _ _ _ Hl Hio Hfo) in Hb. by injection Hb as <-.
    + left. vm_compute in Hio. by injection Hio as <-.
  - pose proof (scan_loop_idx _ _ _ _ _ Hscan) as Hidx.
    apply scan_loop_end in Hscan; [|by simpl| |by rewrite Hfound].
    2:{ unfold scan_fuel; simpl. destruct (Z.le_gt_cases 0 (Zlength files - i)); [rewrite Z2Nat.id|]; lia. }
    simpl in *. rewrite Zlength_correct in *. destruct Hrange as [?|[_ ?]];
      (destruct (Z.eq_dec (Z.of_nat (length files)) 0); [left|right; left]; lia).
Qed.

Lemma state_files_ok_same fs fs' :
  fs_load fs' (state_path a) = fs_load fs (state_path a) -> state_files_ok a fs' = state_files_ok a fs.
Proof. unfold state_files_ok. by intros ->. Qed.

(** A pass that scrapes the words it found keeps the invariant, and
    every word it found is known afterwards. *)
Lemma full_pass_progress w state prev_failed st fs1 w' :
  Inv w -> sync_plan fnmatch py_repr text_lines a w = Some (state, prev_failed, st) ->
  sync_save now a state st (w_fs w) = (fs1, Some tt) -> map snd (found_map st) <> [] ->
  let r := scrape_batches (outcome (w_db w)) (retries a) (batch_size a) (map snd (found_map st)) (w_db w) in
  sync_record a (map snd (found_map st)) prev_failed r.1 fs1 = (w_fs w', Some tt) ->
  w_db w' = r.2 ->
  Inv w' /\ (length (pool w') < length (pool w))%nat.
Proof.
  intros HI Hp Hs Hne r Hrec Hdb. subst r.
  rewrite scrape_batches_chunking in Hrec, Hdb. cbn [fst snd] in Hrec, Hdb. destruct outputs_distinct as (Hsm & Hsf & Hmf).
  destruct (after_save _ _ _ _ _ HI Hp Hs) as (files & i & _ & Hpf & _ & _ & [HI1 HI2] & _ & _).
  pose proof (found_ok _ _ _ _ HI Hp) as Hfound.
  assert (load_word_list py_repr (w_fs w') (out_failed a) = merge_failed prev_failed (List.filter (fun x => negb (scrape_ok (outcome (w_db w)) (retries a) x)) (map snd (found_map st)))) as Hload.
  { eapply record_failed_list; [exact Hmf| | |exact Hrec].
    - rewrite Hpf. apply load_word_list_nonblank.
    - apply Forall_forall.
      intros x [Hx%list_elem_of_In _]%list_elem_of_In%filter_In.
      apply list_elem_of_fmap in Hx as ([k v] & -> & Hkv).
      rewrite Forall_forall in Hfound. by destruct (Hfound _ Hkv) as [[_ ?] _]. }
  assert (forall k, known w k -> known w' k) as Hmono.
  { intros k [Hk|Hk]; [left; rewrite Hdb; unfold db_lemmas_lower; rewrite map_app; set_solver|right].
    rewrite Hload. apply merge_failed_spec. left. by rewrite Hpf. }
  split.
  - split.
    + intros q Hq. rewrite <-(HI1 q Hq). eapply st_keeps_run; [|exact Hrec].
      apply sync_record_keeps; set_solver.
    + rewrite <-HI2. apply state_files_ok_same. eapply st_keeps_run; [|exact Hrec].
      by apply sync_record_keeps.
  - destruct (found_map st) as [|[k v] rest] eqn:Ef; [done|].
    apply Forall_cons in Hfound as [[[Hkv _] [HU Hunk]] _]. simpl in Hkv, HU, Hunk. subst k.
    apply filter_length_lt; [intros x Hx Hw; by apply Hx, Hmono|].
    exists (uc_lower v). split_and!; [by apply elem_of_remove_dups|done|].
    intros Hk. apply Hk. unfold known. rewrite Hdb, Hload.
    apply settled_word. by left.
Qed.

Lemma flag_le w : (flag w <= 1)%nat.
Proof. unfold flag. destruct (_ =? 0); lia. Qed.

(** Each turn that goes on keeps the invariant and lowers the measure. *)
Lemma pass_progress w w' :
  Inv w ->
  loop_pass World w_fs (sync_pass fnmatch py_repr text_lines now a outcome)
    (state_path a) (out_missing a) w = (None, w') ->
  Inv w' /\ (measure w' < measure w)%nat.
Proof.
  intros HI. unfold loop_pass.
  destruct (read_state_idx (w_fs w) (state_path a)) as [ib tot] eqn:Eb.
  destruct (sync_pass _ _ _ _ _ _ w) as [rc w1] eqn:Ep.
  destruct (negb (rc =? 0)) eqn:Erc; [discriminate|]. apply negb_false_iff, Z.eqb_eq in Erc. subst rc.
  destruct (read_state_idx (w_fs w1) (state_path a)) as [ia ta] eqn:Ea.
  destruct (_ && _ && _) eqn:Edone; [discriminate|].
  destruct (_ && (ia =? ib)) eqn:Estall; [discriminate|]. intros [= <-].
  destruct (sync_pass_cases _ _ _ _ _ _ _ _ _ Hdry Ep)
    as [?|(state & pf & st & fs1 & Hp & Hs & [[HN ->]|[HN [Hrec Hdb]]])]; [done| |].
  - apply map_eq_nil in HN.
    destruct (after_save _ _ _ _ _ HI Hp Hs) as (_ & _ & _ & _ & _ & _ & HI' & Hfail & Hmiss).
    destruct (empty_pass_idx _ _ _ _ _ _ _ HI Hp Hs HN Eb) as (files & Hrd & Hcase).
    simpl in Ea. rewrite Hrd in Ea. injection Ea as <- <-.
    unfold read_count in Edone, Estall. simpl in Edone, Estall. rewrite Hmiss, HN in Edone, Estall.
    simpl in Edone, Estall. apply Z.eqb_neq in Estall.
    assert (idx st = 0) as H0.
    { destruct Hcase as [?|[[Hl Hz]|?]]; [done| |done]. exfalso.
      rewrite (proj2 (Z.eqb_neq _ _) Hz), Hl, Z.leb_refl in Edone. simpl in Edone.
      by rewrite (proj2 (Z.eqb_neq _ _) Hz) in Edone. }
    split; [done|]. unfold measure, flag. simpl. rewrite Hrd, Eb, H0. simpl.
    rewrite (proj2 (Z.eqb_neq ib 0)) by lia.
    assert (pool (mkWorld fs1 (w_db w)) = pool w) as ->; [|lia].
    unfold pool, known. simpl. by rewrite (load_word_list_same _ _ _ _ Hfail).
  - destruct (full_pass_progress _ _ _ _ _ _ HI Hp Hs HN Hrec Hdb) as [HI' Hlt].
    split; [done|]. unfold measure. pose proof (flag_le w1). lia.
Qed.

Lemma length_remove_dups {A} `{EqDecision A} (l : list A) : (length (remove_dups l) <= length l)%nat.
Proof. induction l as [|x l IH]; simpl; [lia|]. case_decide; simpl; lia. Qed.

Lemma measure_bound w : (measure w <= 2 * length (universe a fs0) + 1)%nat.
Proof.
  unfold measure, pool. pose proof (flag_le w).
  pose proof (length_filter (fun k => ~ known w k) (remove_dups (universe a fs0))).
  pose proof (length_remove_dups (universe a fs0)). lia.
Qed.

(** From a world where the invariant holds the loop stops by itself
    within [measure] turns. *)
Lemma loop_ends_within n w :
  Inv w -> (measure w < n)%nat ->
  exists e w', loop_until_done World w_fs (sync_pass fnmatch py_repr text_lines now a outcome)
                 (state_path a) (out_missing a) n w = Some (e, w').
Proof.
  revert w. induction n as [|n IH]; intros w HI Hm; [lia|]. simpl.
  destruct (loop_pass _ _ _ _ _ w) as [[e|] w1] eqn:E; [eauto|].
  destruct (pass_progress _ _ HI E) as [HI1 Hlt]. apply IH; [done|lia].
Qed.

End Progress.

(** ** A sample run: the pass of SyncMain.v's sample, in the loop *)

Definition sample_loop_args : SyncArgs :=
  loop_args (str "/d") (str "/o/state.json") (str "/o/missing.json") (str "/o/failed.json") 10 10 1 false false.

Definition sample_sync_loop (fuel : nat) : option (loop_end * World) :=
  sync_loop (fun _ _ => true) (fun _ => []) (fun _ => []) sample_now
            sample_loop_args sample_outcome fuel sample_world.

(** C26: [sync_loop_until_done.py] stops by itself, whatever the scraper
    does: when the three files a pass writes are distinct, lie outside
    [--json-dir], and are not in the file list of the state it starts
    from, the loop ends (a failed pass, no new lemmas at the end of the
    list, or no new lemmas and no progress) within [2 * |U| + 2]
    passes, where [U] is the list of the words the files offer.  Every
    pass either records at least one word for good, in the database or
    in [--out-failed], or finds nothing and ends the loop or moves the
    index to [0]. *)
Theorem sync_loop_terminates `{UnicodeDB} fnmatch py_repr text_lines now
    json_dir state out_missing out_failed target_new batch_size retries fast no_stop outcome w0 fuel :
  let a := loop_args json_dir state out_missing out_failed target_new batch_size retries fast no_stop in
  NoDup (outputs a) ->
  Forall (fun o => starts_with (json_dir ++ [c_slash]) o = false) (outputs a) ->
  state_files_ok a (w_fs w0) = true ->
  (2 * length (universe a (w_fs w0)) + 2 <= fuel)%nat ->
  exists e w', sync_loop fnmatch py_repr text_lines now a outcome fuel w0 = Some (e, w').
Proof.
  intros a Hnd Hout Hst Hfuel. unfold sync_loop.
  apply (loop_ends_within fnmatch py_repr text_lines now a outcome (w_fs w0)); try done.
  all: match goal with
       | |- Inv _ _ _ _ => split; [done|exact Hst]
       | |- _ => pose proof (measure_bound py_repr a (w_fs w0) w0); lia
       end.
Qed.

(** A pass that reaches the end of the file list with new lemmas
    does not end the loop: the next pass finds the index at the end,
    rebuilds the list, and scans every file again from index [0] before
    the loop can stop.  On one file with five new words the loop needs
    two passes, and the state counts two runs. *)
Example sync_loop_rescans :
  sample_sync_loop 1 = None /\
  exists w', sample_sync_loop 2 = Some (LoopDone, w') /\
    (read_state_idx (w_fs w') (str "/o/state.json")) = (1, 1) /\
    option_map (fun j => match j with JObj o => obj_get o (str "runs") | _ => JNull end)
      (fs_load (w_fs w') (str "/o/state.json")) = Some (JNum 2).
Proof. split; [by vm_compute|]. eexists. split; [vm_compute; reflexivity|]. by vm_compute. Qed.

Lemma sync_loop_terminates_witness :
  exists e w', sample_sync_loop 20 = Some (e, w').
Proof.
  unfold sample_sync_loop, sample_loop_args.
  apply (sync_loop_terminates (fun _ _ => true) (fun _ => []) (fun _ => []) sample_now).
  - apply (bool_decide_unpack _). vm_compute. reflexivity.
  - repeat constructor.
  - vm_compute. reflexivity.
  - apply Nat.leb_le. vm_compute. reflexivity.
Defined.
