(* ===== verification/Paths.v ===== *)
(** * Paths: [pablopath.py]

    [src/pablopath.py] names the directories of the project under the
    directory of the module ([ROOT_DIR]) with [os.path.join], puts the
    existing top-level package directories on [sys.path] ([_add]), and
    finds the pack and skill manifests with recursive [glob]
    ([discover_manifests]).  The location of the module is the section
    variable [abspath_file] ([os.path.abspath(__file__)]); every constant
    is the [os.path.join] chain of the source.  The rebuild tool of
    Rebuild.v takes its [DICTIONARY_DIR] from here. *)

From S2P Require Import Prelude Text Json DictStore Rebuild.

Open Scope Z_scope.

(** [os.path.join(a, b)] on POSIX: an absolute [b] replaces [a]; a
    separator is inserted unless [a] is empty or ends with one. *)
Definition os_path_join (a b : list Z) : list Z :=
  if starts_with [c_slash] b then b
  else if bool_decide (a = []) || ends_with [c_slash] a then a ++ b
  else a ++ c_slash :: b.

(** [os.path.dirname(p)]: the part before the last separator, without
    its trailing separators unless it is made of separators only. *)
Definition py_dirname (p : list Z) : list Z :=
  let head := take (length p - span_while (fun c => negb (c =? c_slash)) (rev p)) p in
  if bool_decide (head <> []) && negb (forallb (fun c => c =? c_slash) head)
  then rev (drop (span_while (fun c => c =? c_slash) (rev head)) (rev head))
  else head.

Section Pablopath.
(** [os.path.abspath(__file__)] *)
Variable abspath_file : list Z.

Definition ROOT_DIR : list Z := py_dirname abspath_file.

Definition BRAIN_DIR : list Z := os_path_join ROOT_DIR (str "brain").
Definition THALAMUS_DIR : list Z := os_path_join BRAIN_DIR (str "thalamus").
Definition RAS_DIR : list Z := os_path_join BRAIN_DIR (str "ras").
Definition BRAIN_ATTN_DIR : list Z := os_path_join BRAIN_DIR (str "attention").
Definition SCHEDULER_DIR : list Z := os_path_join BRAIN_DIR (str "scheduler").
Definition SENSES_DIR : list Z := os_path_join ROOT_DIR (str "senses").
Definition EYES_DIR : list Z := os_path_join SENSES_DIR (str "eyes").
Definition EYES_ORGANS_DIR : list Z := os_path_join EYES_DIR (str "organs").
Definition EYES_NERVES_DIR : list Z := os_path_join EYES_DIR (str "nerves").
Definition EYES_V1_DIR : list Z := os_path_join EYES_DIR (str "primary_cortex").
Definition EYES_ASSOC_DIR : list Z := os_path_join EYES_DIR (str "association").
Definition EARS_DIR : list Z := os_path_join SENSES_DIR (str "ears").
Definition EARS_ORGANS_DIR : list Z := os_path_join EARS_DIR (str "organs").
Definition EARS_NERVES_DIR : list Z := os_path_join EARS_DIR (str "nerves").
Definition EARS_V1_DIR : list Z := os_path_join EARS_DIR (str "primary_cortex").
Definition EARS_ASSOC_DIR : list Z := os_path_join EARS_DIR (str "association").
Definition SYSTEM_DIR : list Z := os_path_join SENSES_DIR (str "system").
Definition SYSTEM_ORGANS_DIR : list Z := os_path_join SYSTEM_DIR (str "organs").
Definition SYSTEM_NERVES_DIR : list Z := os_path_join SYSTEM_DIR (str "nerves").
Definition SYSTEM_V1_DIR : list Z := os_path_join SYSTEM_DIR (str "primary_cortex").
Definition SYSTEM_ASSOC_DIR : list Z := os_path_join SYSTEM_DIR (str "association").
Definition TOUCH_DIR : list Z := os_path_join SENSES_DIR (str "touch").
Definition TOUCH_ORGANS_DIR : list Z := os_path_join TOUCH_DIR (str "organs").
Definition TOUCH_NERVES_DIR : list Z := os_path_join TOUCH_DIR (str "nerves").
Definition TOUCH_V1_DIR : list Z := os_path_join TOUCH_DIR (str "primary_cortex").
Definition TOUCH_ASSOC_DIR : list Z := os_path_join TOUCH_DIR (str "association").
Definition MOTOR_DIR : list Z := os_path_join ROOT_DIR (str "motor").
Definition MOTOR_UI_DIR : list Z := os_path_join MOTOR_DIR (str "ui").
Definition MOTOR_FS_DIR : list Z := os_path_join MOTOR_DIR (str "filesystem").
Definition MOTOR_NET_DIR : list Z := os_path_join MOTOR_DIR (str "network").
Definition MOTOR_SPEECH_DIR : list Z := os_path_join MOTOR_DIR (str "speech").
Definition COGNITION_DIR : list Z := os_path_join ROOT_DIR (str "cognition").
Definition CONTEXT_DIR : list Z := os_path_join COGNITION_DIR (str "context").
Definition WM_DIR : list Z := os_path_join COGNITION_DIR (str "wm").
Definition REASON_DIR : list Z := os_path_join COGNITION_DIR (str "reason").
Definition PLANNER_DIR : list Z := os_path_join COGNITION_DIR (str "planner").
Definition SKILLS_DIR : list Z := os_path_join COGNITION_DIR (str "skills").
Definition SKILL_LANGUAGE_DIR : list Z := os_path_join SKILLS_DIR (str "language").
Definition SKILL_MATH_DIR : list Z := os_path_join SKILLS_DIR (str "math").
Definition SKILL_VISION_DIR : list Z := os_path_join SKILLS_DIR (str "vision").
Definition SKILL_FILES_DIR : list Z := os_path_join SKILLS_DIR (str "files").
Definition SKILL_SEARCH_DIR : list Z := os_path_join SKILLS_DIR (str "search").
Definition SKILL_AUTOMATION_DIR : list Z := os_path_join SKILLS_DIR (str "automation").
Definition BUFFERS_DIR : list Z := os_path_join WM_DIR (str "buffers").
Definition RAW_DUMPS_DIR : list Z := os_path_join (os_path_join BUFFERS_DIR (str "eyes")) (str "raw_dumps").
Definition UNSORTED_DIR : list Z := os_path_join RAW_DUMPS_DIR (str "unsorted").
Definition SORTED_DIR : list Z := os_path_join RAW_DUMPS_DIR (str "sorted").
Definition WM_WIKT_RAW_DIR : list Z := os_path_join RAW_DUMPS_DIR (str "wiktionary").
Definition WM_WIKT_UNSORTED : list Z := os_path_join WM_WIKT_RAW_DIR (str "unsorted").
Definition WM_WIKT_SORTED : list Z := os_path_join WM_WIKT_RAW_DIR (str "sorted").
Definition MEMORY_DIR : list Z := os_path_join ROOT_DIR (str "memory").
Definition EPISODIC_STORE_DIR : list Z := os_path_join MEMORY_DIR (str "episodic").
Definition SEMANTIC_STORE_DIR : list Z := os_path_join MEMORY_DIR (str "semantic").
Definition VECTOR_STORE_DIR : list Z := os_path_join MEMORY_DIR (str "vector").
Definition ADAPTERS_DIR : list Z := os_path_join MEMORY_DIR (str "adapters").
Definition DOMAINS_DIR : list Z := os_path_join SEMANTIC_STORE_DIR (str "domains").
Definition LANG_DOMAIN_DIR : list Z := os_path_join DOMAINS_DIR (str "language").
Definition LANG_L0_DIR : list Z := os_path_join LANG_DOMAIN_DIR (str "L0").
Definition LANG_L1_DIR : list Z := os_path_join LANG_DOMAIN_DIR (str "L1").
Definition THESAURUS_DIR : list Z := os_path_join LANG_L0_DIR (str "rules").
Definition sentence_rules_path : list Z := os_path_join THESAURUS_DIR (str "sentence_rules.json").
Definition phrases_clauses_path : list Z := os_path_join THESAURUS_DIR (str "phrases_clauses.json").
Definition pos_rules_path : list Z := os_path_join THESAURUS_DIR (str "pos_rules.json").
Definition word_rules_path : list Z := os_path_join THESAURUS_DIR (str "wordrules.json").
Definition BLACKLIST_FILE : list Z := os_path_join THESAURUS_DIR (str "blacklist.json").
Definition DICTIONARY_DIR : list Z := os_path_join LANG_L0_DIR (str "dictionary").
Definition MANIFEST_DIR : list Z := os_path_join DICTIONARY_DIR (str "manifest").
Definition L0_MANIFESTS_DIR : list Z := os_path_join LANG_L0_DIR (str "manifests").
Definition LEMMA_MANIFESTS_DIR : list Z := os_path_join L0_MANIFESTS_DIR (str "lemmas").
Definition LANG_L1_EXPERIENCE_DIR : list Z := os_path_join LANG_L1_DIR (str "experience").
Definition LANG_L1_OVERLAYS_DIR : list Z := os_path_join LANG_L1_DIR (str "overlays").
Definition curiosity_path : list Z := os_path_join LANG_L1_EXPERIENCE_DIR (str "curiosity_log.json").
Definition WIKT_OVERLAYS_DIR : list Z := os_path_join LANG_L1_OVERLAYS_DIR (str "wiktionary").
Definition MATH_DOMAIN_DIR : list Z := os_path_join DOMAINS_DIR (str "math").
Definition MATH_L0_DIR : list Z := os_path_join MATH_DOMAIN_DIR (str "L0").
Definition MATH_L1_DIR : list Z := os_path_join MATH_DOMAIN_DIR (str "L1").
Definition MATH_L0_AXIOMS_DIR : list Z := os_path_join MATH_L0_DIR (str "axioms").
Definition MATH_L0_THEOREMS_DIR : list Z := os_path_join MATH_L0_DIR (str "theorems").
Definition MATH_L0_DEFINITIONS_DIR : list Z := os_path_join MATH_L0_DIR (str "definitions").
Definition MATH_L1_EXPERIMENTS_DIR : list Z := os_path_join MATH_L1_DIR (str "experiments").
Definition MATH_L1_CONJECTURES_DIR : list Z := os_path_join MATH_L1_DIR (str "conjectures").
Definition MATH_L1_NOTES_DIR : list Z := os_path_join MATH_L1_DIR (str "notes").
Definition VISION_DOMAIN_DIR : list Z := os_path_join DOMAINS_DIR (str "vision").
Definition VISION_L0_DIR : list Z := os_path_join VISION_DOMAIN_DIR (str "L0").
Definition VISION_L1_DIR : list Z := os_path_join VISION_DOMAIN_DIR (str "L1").
Definition VISION_L0_LABELS_DIR : list Z := os_path_join VISION_L0_DIR (str "labels").
Definition VISION_L0_ONTOLOGIES_DIR : list Z := os_path_join VISION_L0_DIR (str "ontologies").
Definition VISION_L1_OBSERVATIONS_DIR : list Z := os_path_join VISION_L1_DIR (str "observations").
Definition SYSTEM_DOMAIN_DIR2 : list Z := os_path_join DOMAINS_DIR (str "system").
Definition SYSTEM_L0_DIR : list Z := os_path_join SYSTEM_DOMAIN_DIR2 (str "L0").
Definition SYSTEM_L1_DIR : list Z := os_path_join SYSTEM_DOMAIN_DIR2 (str "L1").
Definition SYSTEM_L0_SCHEMAS_DIR : list Z := os_path_join SYSTEM_L0_DIR (str "schemas").
Definition SYSTEM_L1_EPISODES_DIR : list Z := os_path_join SYSTEM_L1_DIR (str "episodes").

Definition pablo_paths : list (list Z) :=
  [BRAIN_DIR;
   THALAMUS_DIR;
   RAS_DIR;
   BRAIN_ATTN_DIR;
   SCHEDULER_DIR;
   SENSES_DIR;
   EYES_DIR;
   EYES_ORGANS_DIR;
   EYES_NERVES_DIR;
   EYES_V1_DIR;
   EYES_ASSOC_DIR;
   EARS_DIR;
   EARS_ORGANS_DIR;
   EARS_NERVES_DIR;
   EARS_V1_DIR;
   EARS_ASSOC_DIR;
   SYSTEM_DIR;
   SYSTEM_ORGANS_DIR;
   SYSTEM_NERVES_DIR;
   SYSTEM_V1_DIR;
   SYSTEM_ASSOC_DIR;
   TOUCH_DIR;
   TOUCH_ORGANS_DIR;
   TOUCH_NERVES_DIR;
   TOUCH_V1_DIR;
   TOUCH_ASSOC_DIR;
   MOTOR_DIR;
   MOTOR_UI_DIR;
   MOTOR_FS_DIR;
   MOTOR_NET_DIR;
   MOTOR_SPEECH_DIR;
   COGNITION_DIR;
   CONTEXT_DIR;
   WM_DIR;
   REASON_DIR;
   PLANNER_DIR;
   SKILLS_DIR;
   SKILL_LANGUAGE_DIR;
   SKILL_MATH_DIR;
   SKILL_VISION_DIR;
   SKILL_FILES_DIR;
   SKILL_SEARCH_DIR;
   SKILL_AUTOMATION_DIR;
   BUFFERS_DIR;
   RAW_DUMPS_DIR;
   UNSORTED_DIR;
   SORTED_DIR;
   WM_WIKT_RAW_DIR;
   WM_WIKT_UNSORTED;
   WM_WIKT_SORTED;
   MEMORY_DIR;
   EPISODIC_STORE_DIR;
   SEMANTIC_STORE_DIR;
   VECTOR_STORE_DIR;
   ADAPTERS_DIR;
   DOMAINS_DIR;
   LANG_DOMAIN_DIR;
   LANG_L0_DIR;
   LANG_L1_DIR;
   THESAURUS_DIR;
   sentence_rules_path;
   phrases_clauses_path;
   pos_rules_path;
   word_rules_path;
   BLACKLIST_FILE;
   DICTIONARY_DIR;
   MANIFEST_DIR;
   L0_MANIFESTS_DIR;
   LEMMA_MANIFESTS_DIR;
   LANG_L1_EXPERIENCE_DIR;
   LANG_L1_OVERLAYS_DIR;
   curiosity_path;
   WIKT_OVERLAYS_DIR;
   MATH_DOMAIN_DIR;
   MATH_L0_DIR;
   MATH_L1_DIR;
   MATH_L0_AXIOMS_DIR;
   MATH_L0_THEOREMS_DIR;
   MATH_L0_DEFINITIONS_DIR;
   MATH_L1_EXPERIMENTS_DIR;
   MATH_L1_CONJECTURES_DIR;
   MATH_L1_NOTES_DIR;
   VISION_DOMAIN_DIR;
   VISION_L0_DIR;
   VISION_L1_DIR;
   VISION_L0_LABELS_DIR;
   VISION_L0_ONTOLOGIES_DIR;
   VISION_L1_OBSERVATIONS_DIR;
   SYSTEM_DOMAIN_DIR2;
   SYSTEM_L0_DIR;
   SYSTEM_L1_DIR;
   SYSTEM_L0_SCHEMAS_DIR;
   SYSTEM_L1_EPISODES_DIR].

End Pablopath.

(** ** [_add] and the import roots *)

(** [os.path.join(a, *p)]: the binary join from the left. *)
Definition os_path_join_many (a : list Z) (ps : list (list Z)) : list Z :=
  fold_left os_path_join ps a.

Section Setup.
Variable abspath_file : list Z.
(** [os.path.isdir] on the file system at import time *)
Variable isdir : list Z -> bool.
(** [glob.glob(pattern, recursive=True)] *)
Variable glob_recursive : list Z -> list (list Z).

(** [_add(p)] on [sys.path] *)
Definition _add (p : list Z) (sys_path : list (list Z)) : list (list Z) :=
  if isdir p && negb (bool_decide (p ∈ sys_path)) then p :: sys_path else sys_path.

Definition import_roots : list (list Z) :=
  map str ["brain"; "senses"; "motor"; "cognition"; "memory"; "daemons"].

(** The module-level loop [for _p in (...): _add(os.path.join(ROOT_DIR, _p))] *)
Definition add_import_roots (sys_path : list (list Z)) : list (list Z) :=
  fold_left (fun sp p => _add (os_path_join (ROOT_DIR abspath_file) p) sp) import_roots sys_path.

Definition PACK_MANIFEST_FILES : list (list Z) := map str ["__manifest__.json"; "__pack__.json"].

(** The [patterns] of [discover_manifests()] *)
Definition manifest_patterns : list (list Z) :=
  let R := ROOT_DIR abspath_file in
  [os_path_join_many R (map str ["senses"; "**"; "__pack__.json"]);
   os_path_join_many R (map str ["senses"; "**"; "__manifest__.json"]);
   os_path_join_many R (map str ["motor"; "**"; "__pack__.json"]);
   os_path_join_many R (map str ["motor"; "**"; "__manifest__.json"]);
   os_path_join_many (SKILLS_DIR abspath_file) (map str ["**"; "__manifest__.json"]);
   os_path_join_many R (map str ["daemons"; "**"; "__manifest__.json"])].

(** One step of the deduplicating loop: [(seen, uniq)] *)
Definition dedup_step (acc : gset (list Z) * list (list Z)) (p : list Z) : gset (list Z) * list (list Z) :=
  let '(seen, uniq) := acc in
  if bool_decide (p ∈ seen) then (seen, uniq) else ({[p]} ∪ seen, uniq ++ [p]).

(** [discover_manifests()] *)
Definition discover_manifests : list (list Z) :=
  let found := fold_left (fun found pat => found ++ glob_recursive pat) manifest_patterns [] in
  (fold_left dedup_step found (∅, [])).2.

End Setup.

(** The reference of the deduplication in [discover_manifests]: the
    element at position [i] is kept exactly when it does not occur before
    [i]. *)
Definition dedup_first (l : list (list Z)) : list (list Z) :=
  omap id (imap (fun i x => if bool_decide (x ∈ take i l) then None else Some x) l).

Definition sample_pablopath : list Z := str "/opt/pablo/pablopath.py".

Definition pablo_rels : list (list Z) :=
  map str ["brain";
           "brain/thalamus";
           "brain/ras";
           "brain/attention";
           "brain/scheduler";
           "senses";
           "senses/eyes";
           "senses/eyes/organs";
           "senses/eyes/nerves";
           "senses/eyes/primary_cortex";
           "senses/eyes/association";
           "senses/ears";
           "senses/ears/organs";
           "senses/ears/nerves";
           "senses/ears/primary_cortex";
           "senses/ears/association";
           "senses/system";
           "senses/system/organs";
           "senses/system/nerves";
           "senses/system/primary_cortex";
           "senses/system/association";
           "senses/touch";
           "senses/touch/organs";
           "senses/touch/nerves";
           "senses/touch/primary_cortex";
           "senses/touch/association";
           "motor";
           "motor/ui";
           "motor/filesystem";
           "motor/network";
           "motor/speech";
           "cognition";
           "cognition/context";
           "cognition/wm";
           "cognition/reason";
           "cognition/planner";
           "cognition/skills";
           "cognition/skills/language";
           "cognition/skills/math";
           "cognition/skills/vision";
           "cognition/skills/files";
           "cognition/skills/search";
           "cognition/skills/automation";
           "cognition/wm/buffers";
           "cognition/wm/buffers/eyes/raw_dumps";
           "cognition/wm/buffers/eyes/raw_dumps/unsorted";
           "cognition/wm/buffers/eyes/raw_dumps/sorted";
           "cognition/wm/buffers/eyes/raw_dumps/wiktionary";
           "cognition/wm/buffers/eyes/raw_dumps/wiktionary/unsorted";
           "cognition/wm/buffers/eyes/raw_dumps/wiktionary/sorted";
           "memory";
           "memory/episodic";
           "memory/semantic";
           "memory/vector";
           "memory/adapters";
           "memory/semantic/domains";
           "memory/semantic/domains/language";
           "memory/semantic/domains/language/L0";
           "memory/semantic/domains/language/L1";
           "memory/semantic/domains/language/L0/rules";
           "memory/semantic/domains/language/L0/rules/sentence_rules.json";
           "memory/semantic/domains/language/L0/rules/phrases_clauses.json";
           "memory/semantic/domains/language/L0/rules/pos_rules.json";
           "memory/semantic/domains/language/L0/rules/wordrules.json";
           "memory/semantic/domains/language/L0/rules/blacklist.json";
           "memory/semantic/domains/language/L0/dictionary";
           "memory/semantic/domains/language/L0/dictionary/manifest";
           "memory/semantic/domains/language/L0/manifests";
           "memory/semantic/domains/language/L0/manifests/lemmas";
           "memory/semantic/domains/language/L1/experience";
           "memory/semantic/domains/language/L1/overlays";
           "memory/semantic/domains/language/L1/experience/curiosity_log.json";
           "memory/semantic/domains/language/L1/overlays/wiktionary";
           "memory/semantic/domains/math";
           "memory/semantic/domains/math/L0";
           "memory/semantic/domains/math/L1";
           "memory/semantic/domains/math/L0/axioms";
           "memory/semantic/domains/math/L0/theorems";
           "memory/semantic/domains/math/L0/definitions";
           "memory/semantic/domains/math/L1/experiments";
           "memory/semantic/domains/math/L1/conjectures";
           "memory/semantic/domains/math/L1/notes";
           "memory/semantic/domains/vision";
           "memory/semantic/domains/vision/L0";
           "memory/semantic/domains/vision/L1";
           "memory/semantic/domains/vision/L0/labels";
           "memory/semantic/domains/vision/L0/ontologies";
           "memory/semantic/domains/vision/L1/observations";
           "memory/semantic/domains/system";
           "memory/semantic/domains/system/L0";
           "memory/semantic/domains/system/L1";
           "memory/semantic/domains/system/L0/schemas";
           "memory/semantic/domains/system/L1/episodes"].

(** ** The constants as paths under [ROOT_DIR] *)

(** A relative path segment: not empty, without a leading or trailing
    separator. *)
Definition rel_okb (b : list Z) : bool :=
  negb (bool_decide (b = [])) && negb (starts_with [c_slash] b) && negb (ends_with [c_slash] b).

(** What [os.path.join(a, ...)] puts before a relative path. *)
Definition join_prefix (a : list Z) : list Z :=
  if bool_decide (a = []) || ends_with [c_slash] a then a else a ++ [c_slash].

Lemma os_path_join_rel a b : starts_with [c_slash] b = false -> os_path_join a b = join_prefix a ++ b.
Proof.
  intros Hb. unfold os_path_join, join_prefix. rewrite Hb.
  destruct (_ || _); [done|]. by rewrite <-app_assoc.
Qed.

Lemma ends_with_slash_app a b : b <> [] -> ends_with [c_slash] (a ++ b) = ends_with [c_slash] b.
Proof.
  intros Hb. unfold ends_with. rewrite rev_app_distr.
  destruct (rev b) eqn:E; [apply (f_equal (@rev Z)) in E; rewrite rev_involutive in E; by subst|done].
Qed.

Lemma starts_with_slash_app b c : b <> [] -> starts_with [c_slash] (b ++ c) = starts_with [c_slash] b.
Proof. by destruct b. Qed.

Lemma join_prefix_app a b : rel_okb b = true -> join_prefix (join_prefix a ++ b) = join_prefix a ++ b ++ [c_slash].
Proof.
  unfold rel_okb. intros [[Hne%negb_true_iff _]%andb_true_iff He%negb_true_iff]%andb_true_iff.
  apply bool_decide_eq_false in Hne. unfold join_prefix at 1.
  rewrite ends_with_slash_app, He by done. rewrite bool_decide_eq_false_2; [by rewrite app_assoc|].
  intros Hn. apply app_eq_nil in Hn as [_ ?]. done.
Qed.

(** [os.path.join(os.path.join(a, b), c)] is [os.path.join(a, b/c)]. *)
Lemma join_assoc a b c :
  rel_okb b = true -> starts_with [c_slash] c = false ->
  os_path_join (os_path_join a b) c = os_path_join a (b ++ c_slash :: c).
Proof.
  intros Hb Hc. pose proof Hb as Hb'.
  unfold rel_okb in Hb'. apply andb_true_iff in Hb' as [[Hne%negb_true_iff Hs%negb_true_iff]%andb_true_iff _].
  apply bool_decide_eq_false in Hne.
  rewrite !os_path_join_rel; [|by rewrite starts_with_slash_app|done|done].
  rewrite join_prefix_app by done. by rewrite <-!app_assoc.
Qed.

Lemma join_inj a b c :
  starts_with [c_slash] b = false -> starts_with [c_slash] c = false ->
  os_path_join a b = os_path_join a c -> b = c.
Proof. intros Hb Hc. rewrite !os_path_join_rel by done. apply app_inv_head. Qed.

(** Every constant is [os.path.join(ROOT_DIR, r)] for its relative path
    [r]. *)
Lemma pablo_paths_rel f : pablo_paths f = map (os_path_join (ROOT_DIR f)) pablo_rels.
Proof.
  unfold pablo_paths, SYSTEM_L1_EPISODES_DIR, SYSTEM_L0_SCHEMAS_DIR, SYSTEM_L1_DIR, SYSTEM_L0_DIR, SYSTEM_DOMAIN_DIR2, VISION_L1_OBSERVATIONS_DIR, VISION_L0_ONTOLOGIES_DIR, VISION_L0_LABELS_DIR, VISION_L1_DIR, VISION_L0_DIR, VISION_DOMAIN_DIR, MATH_L1_NOTES_DIR, MATH_L1_CONJECTURES_DIR, MATH_L1_EXPERIMENTS_DIR, MATH_L0_DEFINITIONS_DIR, MATH_L0_THEOREMS_DIR, MATH_L0_AXIOMS_DIR, MATH_L1_DIR, MATH_L0_DIR, MATH_DOMAIN_DIR, WIKT_OVERLAYS_DIR, curiosity_path, LANG_L1_OVERLAYS_DIR, LANG_L1_EXPERIENCE_DIR, LEMMA_MANIFESTS_DIR, L0_MANIFESTS_DIR, MANIFEST_DIR, DICTIONARY_DIR, BLACKLIST_FILE, word_rules_path, pos_rules_path, phrases_clauses_path, sentence_rules_path, THESAURUS_DIR, LANG_L1_DIR, LANG_L0_DIR, LANG_DOMAIN_DIR, DOMAINS_DIR, ADAPTERS_DIR, VECTOR_STORE_DIR, SEMANTIC_STORE_DIR, EPISODIC_STORE_DIR, MEMORY_DIR, WM_WIKT_SORTED, WM_WIKT_UNSORTED, WM_WIKT_RAW_DIR, SORTED_DIR, UNSORTED_DIR, RAW_DUMPS_DIR, BUFFERS_DIR, SKILL_AUTOMATION_DIR, SKILL_SEARCH_DIR, SKILL_FILES_DIR, SKILL_VISION_DIR, SKILL_MATH_DIR, SKILL_LANGUAGE_DIR, SKILLS_DIR, PLANNER_DIR, REASON_DIR, WM_DIR, CONTEXT_DIR, COGNITION_DIR, MOTOR_SPEECH_DIR, MOTOR_NET_DIR, MOTOR_FS_DIR, MOTOR_UI_DIR, MOTOR_DIR, TOUCH_ASSOC_DIR, TOUCH_V1_DIR, TOUCH_NERVES_DIR, TOUCH_ORGANS_DIR, TOUCH_DIR, SYSTEM_ASSOC_DIR, SYSTEM_V1_DIR, SYSTEM_NERVES_DIR, SYSTEM_ORGANS_DIR, SYSTEM_DIR, EARS_ASSOC_DIR, EARS_V1_DIR, EARS_NERVES_DIR, EARS_ORGANS_DIR, EARS_DIR, EYES_ASSOC_DIR, EYES_V1_DIR, EYES_NERVES_DIR, EYES_ORGANS_DIR, EYES_DIR, SENSES_DIR, SCHEDULER_DIR, BRAIN_ATTN_DIR, RAS_DIR, THALAMUS_DIR, BRAIN_DIR.
  repeat rewrite join_assoc by reflexivity. reflexivity.
Qed.

Lemma pablo_rels_ok : Forall (fun r => rel_okb r = true) pablo_rels.
Proof. apply (bool_decide_unpack _). vm_compute. reflexivity. Qed.

Lemma pablo_rels_NoDup : NoDup pablo_rels.
Proof. apply (bool_decide_unpack _). vm_compute. reflexivity. Qed.

(** Wherever [pablopath.py] lies, its path constants are pairwise
    distinct and each lies strictly under [ROOT_DIR] (the directory
    prefix followed by a non-empty relative path); in particular
    [SYSTEM_DOMAIN_DIR2] is not [SYSTEM_DIR], the clash its comment
    avoids. *)
Theorem pablo_paths_distinct f :
  NoDup (pablo_paths f) /\
  Forall (fun p => exists r, r <> [] /\ p = join_prefix (ROOT_DIR f) ++ r) (pablo_paths f).
Proof.
  rewrite pablo_paths_rel. pose proof pablo_rels_ok as Hok. rewrite Forall_forall in Hok.
  assert (forall r, r ∈ pablo_rels -> starts_with [c_slash] r = false) as Hs.
  { intros r Hr%Hok. unfold rel_okb in Hr. by apply andb_true_iff in Hr as [[_ ?%negb_true_iff]%andb_true_iff _]. }
  split.
  - apply NoDup_fmap_2_strong; [|apply pablo_rels_NoDup].
    intros x y Hx Hy. apply join_inj; by apply Hs.
  - apply Forall_forall. intros p (r & -> & Hr)%list_elem_of_fmap. exists r. split.
    + intros ->. specialize (Hok _ Hr). done.
    + by apply os_path_join_rel, Hs.
Qed.

(** ** The dictionary of the rebuild tool *)

Lemma DICTIONARY_DIR_rel f :
  DICTIONARY_DIR f = os_path_join (ROOT_DIR f) (str "memory/semantic/domains/language/L0" ++ c_slash :: str "dictionary").
Proof.
  unfold DICTIONARY_DIR, LANG_L0_DIR, LANG_DOMAIN_DIR, DOMAINS_DIR, SEMANTIC_STORE_DIR, MEMORY_DIR.
  repeat rewrite join_assoc by reflexivity. reflexivity.
Qed.

(** [Path(p).parent] of a path whose last separator follows a non-empty
    directory. *)
Lemma path_parent_last x n :
  x <> [] -> forallb (fun c => negb (c =? c_slash)) n = true -> path_parent (x ++ c_slash :: n) = x.
Proof.
  intros Hx Hn. unfold path_parent. rewrite rev_app_distr. simpl rev.
  rewrite <-app_assoc. rewrite span_while_app_all.
  2:{ apply forallb_forall. intros c Hc%in_rev. by apply (proj1 (forallb_forall _ _) Hn). }
  simpl. rewrite Nat.add_0_r, length_app, length_rev. simpl.
  rewrite (proj2 (Nat.eqb_neq _ _)) by lia.
  rewrite drop_app_ge by (rewrite length_rev; lia).
  rewrite length_rev, Nat.sub_succ_l, Nat.sub_diag by lia. simpl. rewrite drop_0, rev_involutive.
  by rewrite bool_decide_eq_false_2.
Qed.

(** [_default_backup_root()] under pablopath's [DICTIONARY_DIR] is the
    sibling [.../L0/dictionarybak]. *)
Lemma default_backup_root_sibling f :
  _default_backup_root (DICTIONARY_DIR f) =
    (join_prefix (ROOT_DIR f) ++ str "memory/semantic/domains/language/L0") ++ c_slash :: str "dictionarybak".
Proof.
  unfold _default_backup_root, path_join. rewrite DICTIONARY_DIR_rel, os_path_join_rel by reflexivity.
  rewrite app_assoc, path_parent_last; [done| |reflexivity].
  intros Hn%(f_equal length). rewrite length_app in Hn. simpl in Hn. lia.
Qed.


(** The backup tree [.../L0/dictionarybak] and the lemma files
    [.../L0/dictionary/<pos>/<lemma>.json] never meet, whatever the POS
    names and the lemma: the hypothesis of Rebuild's purge theorems holds of
    pablopath's layout. *)
Lemma default_backup_disjoint f lemma q r :
  path_join (bak_root_of (DICTIONARY_DIR f) []) q <>
    path_join (path_join (DICTIONARY_DIR f) r) (json_name lemma) /\
  path_join (path_join (bak_root_of (DICTIONARY_DIR f) []) q) (json_name lemma) <>
    path_join (path_join (DICTIONARY_DIR f) r) (json_name lemma).
Proof.
  unfold bak_root_of. rewrite bool_decide_eq_true_2 by done.
  rewrite default_backup_root_sibling. unfold path_join.
  rewrite DICTIONARY_DIR_rel, os_path_join_rel by reflexivity. rewrite <-!app_assoc.
  split; intros H%app_inv_head; cbn in H; simplify_eq.
Qed.

(** C22: With pablopath's [DICTIONARY_DIR] and the default backup root,
    [_purge_lemma_files(lemma)] leaves no file [<pos>/<lemma>.json] in any
    POS directory of the dictionary, wherever the tree is installed and
    whatever the lemma and the files before. *)
Theorem default_purge_removes f lemma ow fs pos c :
  pos ∈ _POS_DIRS ->
  fs_lookup (_purge_lemma_files (DICTIONARY_DIR f) lemma [] ow fs).1
    (path_join (path_join (DICTIONARY_DIR f) pos) (json_name lemma)) <> Some (FFile c).
Proof.
  apply purge_removes_lemma_files. intros q r _ _. apply default_backup_disjoint.
Qed.

Lemma default_purge_removes_witness :
  fs_lookup (_purge_lemma_files (DICTIONARY_DIR sample_pablopath) (str "run") [] false [])
    .1 (path_join (path_join (DICTIONARY_DIR sample_pablopath) (str "V")) (json_name (str "run")))
    <> Some (FFile None).
Proof.
  apply default_purge_removes. apply (bool_decide_unpack _). vm_compute. reflexivity.
Defined.

(** ** [discover_manifests] *)

Lemma dedup_first_snoc pre x :
  dedup_first (pre ++ [x]) = dedup_first pre ++ (if bool_decide (x ∈ pre) then [] else [x]).
Proof.
  unfold dedup_first. rewrite imap_app, omap_app. f_equal.
  - f_equal. apply imap_ext. intros i y Hy%lookup_lt_Some. by rewrite take_app_le by lia.
  - simpl. rewrite Nat.add_0_r, take_app_length. by case_bool_decide.
Qed.

Lemma dedup_step_snoc pre x :
  dedup_step (list_to_set pre, dedup_first pre) x = (list_to_set (pre ++ [x]), dedup_first (pre ++ [x])).
Proof.
  simpl. rewrite dedup_first_snoc, list_to_set_app_L. simpl.
  destruct (decide (x ∈ pre)) as [Hin|Hin];
    [rewrite !bool_decide_eq_true_2 by (rewrite ?elem_of_list_to_set; done)
    |rewrite !bool_decide_eq_false_2 by (rewrite ?elem_of_list_to_set; done)];
    rewrite ?app_nil_r; f_equal; set_solver.
Qed.

Lemma dedup_fold l pre :
  fold_left dedup_step l (list_to_set pre, dedup_first pre) =
    (list_to_set (pre ++ l), dedup_first (pre ++ l)).
Proof.
  revert pre. induction l as [|x l IH]; intros pre; cbn [fold_left]; [by rewrite app_nil_r|].
  by rewrite dedup_step_snoc, IH, <-app_assoc.
Qed.

Lemma dedup_first_elem l x : x ∈ dedup_first l <-> x ∈ l.
Proof.
  induction l as [|y l IH] using rev_ind; [done|]. rewrite dedup_first_snoc, !elem_of_app, IH.
  case_bool_decide; set_solver.
Qed.

Lemma dedup_first_NoDup l : NoDup (dedup_first l).
Proof.
  induction l as [|y l IH] using rev_ind; [constructor|]. rewrite dedup_first_snoc.
  case_bool_decide as Hy; [by rewrite app_nil_r|]. apply NoDup_app. split_and!; [done| |apply NoDup_singleton].
  intros z Hz Hz2. rewrite dedup_first_elem in Hz. apply list_elem_of_singleton in Hz2. by subst z.
Qed.

Lemma fold_extend {A B} (g : A -> list B) (l : list A) acc :
  fold_left (fun found pat => found ++ g pat) l acc = acc ++ concat (map g l).
Proof. revert acc. induction l as [|a l IH]; intros acc; simpl; [by rewrite app_nil_r|]. by rewrite IH, app_assoc. Qed.

(** C28: [discover_manifests()] returns the paths the six recursive globs
    find, each once, in the order of their first occurrence: its
    [seen]/[uniq] loop computes [dedup_first] of the concatenated results. *)
Theorem discover_manifests_dedup f glob :
  let found := concat (map glob (manifest_patterns f)) in
  discover_manifests f glob = dedup_first found /\ NoDup (discover_manifests f glob) /\
  (forall p, p ∈ discover_manifests f glob <-> p ∈ found).
Proof.
  intros found. assert (H : discover_manifests f glob = dedup_first found).
  { unfold discover_manifests. rewrite fold_extend, app_nil_l. pose proof (dedup_fold found []) as Hf.
    simpl in Hf. change (dedup_first []) with (@nil (list Z)) in Hf. subst found. by rewrite Hf. }
  rewrite H. split_and!; [done|apply dedup_first_NoDup|apply dedup_first_elem].
Qed.

(** ** [_add] on [sys.path] *)

Section AddLemmas.
Variable isdir : list Z -> bool.

Lemma _add_spec d sp :
  NoDup sp -> NoDup (_add isdir d sp) /\ (exists n, _add isdir d sp = n ++ sp) /\
  (forall x, x ∈ _add isdir d sp <-> x ∈ sp \/ (x = d /\ isdir d = true)).
Proof.
  intros Hnd. unfold _add. destruct (isdir d) eqn:Hd; simpl; [case_bool_decide as Hin; simpl|].
  - split_and!; [done|by exists []|]. intros x. naive_solver.
  - split_and!; [by constructor|by exists [d]|]. intros x. rewrite elem_of_cons. naive_solver.
  - split_and!; [done|by exists []|]. intros x. naive_solver.
Qed.

Lemma add_fold_spec (g : list Z -> list Z) ps sp :
  NoDup sp ->
  let sp' := fold_left (fun sp p => _add isdir (g p) sp) ps sp in
  NoDup sp' /\ (exists n, sp' = n ++ sp) /\
  (forall x, x ∈ sp' <-> x ∈ sp \/ exists p, p ∈ ps /\ x = g p /\ isdir (g p) = true).
Proof.
  revert sp. induction ps as [|p ps IH]; intros sp Hnd; simpl.
  - split_and!; [done|by exists []|]. intros x. set_solver.
  - destruct (_add_spec (g p) sp Hnd) as (Hnd1 & [n1 Hn1] & Hel1).
    destruct (IH _ Hnd1) as (Hnd2 & [n2 Hn2] & Hel2). split_and!; [done| |].
    + exists (n2 ++ n1). by rewrite Hn2, Hn1, app_assoc.
    + intros x. rewrite Hel2, Hel1. setoid_rewrite elem_of_cons. naive_solver.
Qed.
End AddLemmas.

(** The import-root loop of [pablopath.py] only prepends to
    [sys.path], keeps it free of duplicates, and afterwards
    [ROOT_DIR/<root>] is on it exactly for the roots that are directories
    (or were on it before). *)
Theorem add_import_roots_spec f isdir sp :
  NoDup sp ->
  let sp' := add_import_roots f isdir sp in
  NoDup sp' /\ (exists n, sp' = n ++ sp) /\
  (forall r, r ∈ import_roots ->
     os_path_join (ROOT_DIR f) r ∈ sp' <->
       os_path_join (ROOT_DIR f) r ∈ sp \/ isdir (os_path_join (ROOT_DIR f) r) = true).
Proof.
  intros Hnd sp'. destruct (add_fold_spec isdir (os_path_join (ROOT_DIR f)) import_roots sp Hnd)
    as (Hnd' & Hsuf & Hel). split_and!; [done|done|]. intros r Hr. unfold sp', add_import_roots.
  rewrite Hel. split; [intros [?|(p & Hp & Heq & Hd)]; [by left|right; by rewrite Heq]|].
  intros [?|Hd]; [by left|right; by exists r].
Qed.

Lemma add_import_roots_spec_witness :
  NoDup [str "/usr/lib/python3"] /\
  let sp' := add_import_roots sample_pablopath (fun _ => true) [str "/usr/lib/python3"] in
  NoDup sp' /\ (exists n, sp' = n ++ [str "/usr/lib/python3"]) /\
  (forall r, r ∈ import_roots ->
     os_path_join (ROOT_DIR sample_pablopath) r ∈ sp' <->
       os_path_join (ROOT_DIR sample_pablopath) r ∈ [str "/usr/lib/python3"] \/ true = true).
Proof.
  assert (H : NoDup [str "/usr/lib/python3"]) by (apply NoDup_singleton).
  split; [exact H|]. exact (add_import_roots_spec sample_pablopath (fun _ => true) _ H).
Defined.
