(* ===== verification/Structure.v ===== *)
(** * Structure: [structure.py]

    [src/structure.py] writes the directory tree of the project to
    [structure.json]: [build_structure(root, max_depth=6)] gives a node
    [{'name', 'type'}] for every entry, with the list of [children] of a
    directory sorted by lower-cased name, descends into subdirectories
    while [current_depth < max_depth], lists a directory named
    [dictionary] or [dictionarybak] one level deep only, and gives a
    directory whose listing raises [PermissionError] no children.

    The file system is the one of DictStore; [Path.iterdir()] is
    [listdir] and raises [PermissionError] on a directory [readable]
    refuses (a section variable).  The recursion carries fuel, and the
    theorems show that fuel [max_depth - current_depth + 1] (or the
    longest path of the file system without a depth limit) never runs
    out. *)

From S2P Require Import Prelude Text Json DictStore Rebuild.

Open Scope Z_scope.

(** [Path.name]: the part after the last separator *)
Definition path_name (p : list Z) : list Z :=
  rev (take (span_while (fun c => negb (c =? c_slash)) (rev p)) (rev p)).

(** [Path.is_dir()] *)
Definition fs_is_dir (fs : FS) (p : list Z) : bool :=
  match fs_lookup fs p with Some FDir => true | _ => false end.

(** What escapes [build_structure]: the [PermissionError] of an
    unguarded [iterdir()], or the end of the fuel of the model. *)
Inductive bs_error := PermissionError | OutOfFuel.

(** [{'name': ..., 'type': ...}] *)
Definition node_leaf (name : list Z) (is_dir : bool) : json :=
  JObj [(str "name", JStr name); (str "type", JStr (if is_dir then str "directory" else str "file"))].

(** A directory node after [node['children'] = [...]] *)
Definition node_dir (name : list Z) (children : list json) : json :=
  JObj [(str "name", JStr name); (str "type", JStr (str "directory")); (str "children", JArr children)].

(** The loop [for entry in entries: ... node['children'].append(...)],
    an entry giving no node ([None]) or raising ([Err]). *)
Fixpoint collect_children (f : list Z -> option (result json bs_error)) (es : list (list Z))
    : result (list json) bs_error :=
  match es with
  | [] => Ok []
  | e :: es =>
      match f e with
      | None => collect_children f es
      | Some r => c <- r ;; cs <- collect_children f es ;; Ok (c :: cs)
      end
  end.

Section Structure.
Context `{UnicodeDB}.
(** [iterdir()] of a directory succeeds exactly when [readable] holds. *)
Variable readable : list Z -> bool.

(** [sorted(d.iterdir(), key=lambda e: e.name.lower())] *)
Definition iterdir_sorted (fs : FS) (d : list Z) : result (list (list Z)) bs_error :=
  if readable d
  then Ok (sort_lt (fun a b => str_ltb (uc_lower (path_name a)) (uc_lower (path_name b)))
                   (map (path_join d) (listdir fs d)))
  else Err PermissionError.

Definition is_dictionary_name (n : list Z) : bool :=
  bool_decide (uc_lower n = str "dictionary") || bool_decide (uc_lower n = str "dictionarybak").

(** The branch for [dictionary]: its children as leaves; the
    [iterdir()] there is not guarded. *)
Definition dictionary_node (fs : FS) (entry : list Z) : result json bs_error :=
  children <- iterdir_sorted fs entry ;;
  Ok (node_dir (path_name entry) (map (fun c => node_leaf (path_name c) (fs_is_dir fs c)) children)).

(** The body of the entry loop: [rec] is the recursive call. *)
Definition entry_child (rec : list Z -> result json bs_error) (fs : FS) (max_depth : option nat)
    (current_depth : nat) (entry : list Z) : option (result json bs_error) :=
  if fs_is_dir fs entry then
    if is_dictionary_name (path_name entry) then Some (dictionary_node fs entry)
    else match max_depth with
         | None => Some (rec entry)
         | Some d => if (current_depth <? d)%nat then Some (rec entry) else None
         end
  else Some (Ok (node_leaf (path_name entry) false)).

(** [build_structure(root, max_depth, current_depth)] *)
Fixpoint build_structure (fuel : nat) (fs : FS) (root : list Z) (max_depth : option nat)
    (current_depth : nat) : result json bs_error :=
  match fuel with
  | O => Err OutOfFuel
  | S fuel' =>
      if fs_is_dir fs root then
        match iterdir_sorted fs root with
        | Err PermissionError => Ok (node_dir (path_name root) [])
        | Err e => Err e
        | Ok entries =>
            children <- collect_children
                          (entry_child (fun e => build_structure fuel' fs e max_depth (S current_depth))
                                       fs max_depth current_depth) entries ;;
            Ok (node_dir (path_name root) children)
        end
      else Ok (node_leaf (path_name root) false)
  end.

(** The [__main__] block: the tree of the script's directory with the
    default depth 6, written to [structure.json]; fuel 7 covers the
    depths 0 to 6. *)
Definition structure_main (fs : FS) (script : list Z) : result FS bs_error :=
  tree <- build_structure 7 fs (path_parent script) (Some 6%nat) 0 ;;
  Ok (fs_write fs (str "structure.json") (FFile (Some tree))).

End Structure.

(** The longest path of the file system *)
Definition max_path_len (fs : FS) : nat := foldr Nat.max O (map (fun e => length e.1) fs).

(** What bounds the depth of the recursion from [root] *)
Definition bs_bound (fs : FS) (root : list Z) (max_depth : option nat) (current_depth : nat) : nat :=
  match max_depth with
  | Some d => d - current_depth
  | None => max_path_len fs - length root
  end.

(** ** Samples *)

Definition sample_tree : FS :=
  [(str "/p", FDir); (str "/p/structure.py", FFile None); (str "/p/brain", FDir);
   (str "/p/brain/Tokenizer.py", FFile None); (str "/p/brain/morph", FDir);
   (str "/p/memory", FDir); (str "/p/memory/Dictionary", FDir);
   (str "/p/memory/Dictionary/NOUN", FDir); (str "/p/memory/Dictionary/NOUN/cat.json", FFile None);
   (str "/p/memory/Dictionary/index.json", FFile None)].

Definition readable_all (_ : list Z) : bool := true.
Definition readable_but (q p : list Z) : bool := negb (bool_decide (p = q)).

(** ** The entry loop *)

Lemma collect_children_ext f g es :
  (forall e, e ∈ es -> f e = g e) -> collect_children f es = collect_children g es.
Proof.
  induction es as [|e es IH]; intros Hfg; simpl; [done|].
  rewrite Hfg by (apply elem_of_cons; by left). rewrite IH by (intros; apply Hfg; by apply elem_of_cons; right).
  done.
Qed.

Lemma collect_children_err f es err :
  collect_children f es = Err err -> exists e, e ∈ es /\ f e = Some (Err err).
Proof.
  induction es as [|e es IH]; simpl; [done|].
  destruct (f e) as [[c|err']|] eqn:Hf; simpl.
  - destruct (collect_children f es) eqn:Hc; simpl; [done|]. intros [= ->].
    destruct (IH eq_refl) as (x & Hx & Hfx). exists x. split; [by apply elem_of_cons; right|done].
  - intros [= ->]. exists e. split; [by apply elem_of_cons; left|done].
  - intros (x & Hx & Hfx)%IH. exists x. split; [by apply elem_of_cons; right|done].
Qed.

Lemma collect_children_ok f es cs P :
  (forall e c, e ∈ es -> f e = Some (Ok c) -> P c) ->
  collect_children f es = Ok cs -> Forall P cs.
Proof.
  revert cs. induction es as [|e es IH]; intros cs Hf; simpl; [by intros [= <-]|].
  destruct (f e) as [[c|err']|] eqn:He; simpl; [|done|].
  - destruct (collect_children f es) eqn:Hc; simpl; [|done]. intros [= <-]. constructor.
    + eapply Hf; [by apply elem_of_cons; left|done].
    + apply IH; [|done]. intros; eapply Hf; [by apply elem_of_cons; right|done].
  - apply IH. intros; eapply Hf; [by apply elem_of_cons; right|done].
Qed.

Section StructureLemmas.
Context `{UnicodeDB}.
Variable readable : list Z -> bool.

(** The entries of a directory are paths of the file system, one name
    longer. *)
Lemma iterdir_sorted_in fs d es e :
  iterdir_sorted readable fs d = Ok es -> e ∈ es ->
  e ∈ map fst fs /\ (length d < length e)%nat.
Proof.
  unfold iterdir_sorted. destruct (readable d); [|done]. intros [= <-] He%sort_lt_elem.
  apply list_elem_of_fmap in He as (n & -> & Hn). apply listdir_in in Hn as [Hin _].
  split; [done|]. unfold path_join. rewrite length_app. simpl. lia.
Qed.

Lemma max_path_len_ge fs p : p ∈ map fst fs -> (length p <= max_path_len fs)%nat.
Proof.
  unfold max_path_len. induction fs as [|[q n] fs IH]; simpl; [by intros ?%not_elem_of_nil|].
  intros [->|Hp]%elem_of_cons; [lia|]. specialize (IH Hp). lia.
Qed.

Lemma iterdir_sorted_not_fuel fs d : iterdir_sorted readable fs d <> Err OutOfFuel.
Proof. unfold iterdir_sorted. by destruct (readable d). Qed.

(** The guard under which the loop body recurses *)
Definition descends (max_depth : option nat) (current_depth : nat) : Prop :=
  match max_depth with None => True | Some d => (current_depth < d)%nat end.

Lemma entry_child_rec rec1 rec2 fs md c e :
  (descends md c -> rec1 e = rec2 e) ->
  entry_child readable rec1 fs md c e = entry_child readable rec2 fs md c e.
Proof.
  intros Hr. unfold entry_child. destruct (fs_is_dir fs e), (is_dictionary_name (path_name e)); try done.
  destruct md as [d|]; [|by rewrite Hr]. destruct (c <? d)%nat eqn:Hc; [|done].
  apply Nat.ltb_lt in Hc. by rewrite Hr.
Qed.

Lemma dictionary_node_unreadable fs e err :
  dictionary_node readable fs e = Err err -> err = PermissionError /\ readable e = false.
Proof. unfold dictionary_node, iterdir_sorted. destruct (readable e); simpl; [done|by intros [= <-]]. Qed.

(** An entry raises in the [dictionary] branch or in the recursive call. *)
Lemma entry_child_err rec fs md c e err :
  entry_child readable rec fs md c e = Some (Err err) ->
  (fs_is_dir fs e = true /\ is_dictionary_name (path_name e) = true /\
   err = PermissionError /\ readable e = false) \/ (descends md c /\ rec e = Err err).
Proof.
  unfold entry_child. destruct (fs_is_dir fs e) eqn:Hd; [|done].
  destruct (is_dictionary_name (path_name e)) eqn:Hn.
  { intros [= Hx]. left. apply dictionary_node_unreadable in Hx. naive_solver. }
  destruct md as [d|]; [|intros [= Hr]; by right].
  destruct (c <? d)%nat eqn:Hc; [|done]. apply Nat.ltb_lt in Hc. intros [= Hr]. by right.
Qed.

End StructureLemmas.

(** ** Termination *)

Section Fuel.
Context `{UnicodeDB}.
Variable readable : list Z -> bool.

(** An entry the loop descends into has a smaller bound. *)
Lemma bs_bound_entry fs root md c es e fuel :
  iterdir_sorted readable fs root = Ok es -> e ∈ es -> descends md c ->
  (bs_bound fs root md c < S fuel)%nat -> (bs_bound fs e md (S c) < fuel)%nat.
Proof.
  intros Hit He Hd. destruct (iterdir_sorted_in readable fs root es e Hit He) as [Hin Hlt].
  pose proof (max_path_len_ge fs e Hin). destruct md; simpl in *; lia.
Qed.

(** [build_structure] terminates: with fuel above
    [max_depth - current_depth] (or, without a depth limit, above the
    longest path of the file system less the length of [root]) it never
    runs out of fuel, and more fuel gives the same tree or the same
    exception. *)
Theorem build_structure_fuel fuel fs root md c :
  (bs_bound fs root md c < fuel)%nat ->
  build_structure readable fuel fs root md c <> Err OutOfFuel /\
  forall k, build_structure readable (fuel + k) fs root md c = build_structure readable fuel fs root md c.
Proof.
  revert root c. induction fuel as [|fuel IH]; intros root c Hb; [lia|]. cbn [build_structure Nat.add].
  destruct (fs_is_dir fs root); [|done].
  pose proof (iterdir_sorted_not_fuel readable fs root).
  destruct (iterdir_sorted readable fs root) as [es|[]] eqn:Hit; [|done|done].
  assert (Hrec : forall e, e ∈ es -> descends md c -> (bs_bound fs e md (S c) < fuel)%nat)
    by (intros; by eapply bs_bound_entry).
  split.
  - destruct (collect_children _ es) as [cs|err] eqn:Hcc; simpl; [done|intros [= ->]].
    apply collect_children_err in Hcc as (e & He & Hf).
    apply entry_child_err in Hf as [(_ & _ & ? & _)|[Hd Hr]]; [done|]. by apply (IH e (S c) (Hrec e He Hd)).
  - intros k. f_equal. apply collect_children_ext. intros e He. apply entry_child_rec.
    intros Hd. by apply (IH e (S c) (Hrec e He Hd)).
Qed.

End Fuel.

Lemma build_structure_fuel_witness :
  (bs_bound sample_tree (str "/p") None 0 < 40)%nat /\
  build_structure readable_all 40 sample_tree (str "/p") None 0 <> Err OutOfFuel /\
  (forall k, build_structure readable_all (40 + k) sample_tree (str "/p") None 0 =
             build_structure readable_all 40 sample_tree (str "/p") None 0).
Proof.
  assert (Hb : (bs_bound sample_tree (str "/p") None 0 < 40)%nat) by (vm_compute; lia).
  split; [exact Hb|]. exact (build_structure_fuel readable_all 40 sample_tree (str "/p") None 0 Hb).
Defined.

(** ** The depth of [structure.json] *)

Lemma node_leaf_depth n b : json_depth (node_leaf n b) = 1%nat.
Proof. by destruct b. Qed.

Lemma node_dir_depth n cs B :
  Forall (fun x => (json_depth x <= B)%nat) cs -> (json_depth (node_dir n cs) <= 2 + B)%nat.
Proof.
  intros HB. simpl. enough (foldr (fun x m => Nat.max (json_depth x) m) O cs <= B)%nat by lia.
  induction HB; simpl; lia.
Qed.

Section Depth.
Context `{UnicodeDB}.
Variable readable : list Z -> bool.

Lemma dictionary_node_depth fs e t : dictionary_node readable fs e = Ok t -> (json_depth t <= 3)%nat.
Proof.
  unfold dictionary_node. destruct (iterdir_sorted readable fs e) as [es|]; simpl; [|done].
  intros [= <-]. apply node_dir_depth. apply Forall_forall. intros x (c & -> & _)%list_elem_of_fmap.
  by rewrite node_leaf_depth.
Qed.

(** C34: [max_depth] bounds the nesting of [structure.json]: a tree
    built from depth [c] with limit [d] nests at most [5 + 2 (d - c)]
    JSON levels, two per directory level below [d] and five for the
    last level with its leaves and the one extra level of a
    [dictionary] directory, whatever the file system. *)
Theorem build_structure_depth fuel fs root d c t :
  build_structure readable fuel fs root (Some d) c = Ok t -> (json_depth t <= 5 + 2 * (d - c))%nat.
Proof.
  revert root c t. induction fuel as [|fuel IH]; intros root c t; cbn [build_structure]; [done|].
  destruct (fs_is_dir fs root); [|intros [= <-]; rewrite node_leaf_depth; lia].
  destruct (iterdir_sorted readable fs root) as [es|[]]; [|intros [= <-]; simpl; lia|done].
  destruct (collect_children _ es) as [cs|] eqn:Hcc; simpl; [intros [= <-]|done].
  enough (HF : Forall (fun x => (json_depth x <= 3 + 2 * (d - c))%nat) cs)
    by (pose proof (node_dir_depth (path_name root) cs _ HF); lia).
  eapply collect_children_ok; [|exact Hcc]. intros e x _. unfold entry_child.
  destruct (fs_is_dir fs e); [|intros [= <-]; rewrite node_leaf_depth; lia].
  destruct (is_dictionary_name (path_name e)); [intros [= Hx]; apply dictionary_node_depth in Hx; lia|].
  destruct (c <? d)%nat eqn:Hc; [|done]. apply Nat.ltb_lt in Hc. intros [= Hx]. apply IH in Hx. lia.
Qed.

End Depth.

Lemma build_structure_depth_witness :
  build_structure readable_all 3 sample_tree (str "/p") (Some 1%nat) 0 =
    Ok (node_dir (str "p")
          [node_dir (str "brain") [node_leaf (str "Tokenizer.py") false];
           node_dir (str "memory") [node_dir (str "Dictionary") [node_leaf (str "index.json") false;
                                                                 node_leaf (str "NOUN") true]];
           node_leaf (str "structure.py") false]) /\
  (json_depth (node_dir (str "p")
          [node_dir (str "brain") [node_leaf (str "Tokenizer.py") false];
           node_dir (str "memory") [node_dir (str "Dictionary") [node_leaf (str "index.json") false;
                                                                 node_leaf (str "NOUN") true]];
           node_leaf (str "structure.py") false]) <= 5 + 2 * (1 - 0))%nat.
Proof.
  assert (H : build_structure readable_all 3 sample_tree (str "/p") (Some 1%nat) 0 =
    Ok (node_dir (str "p")
          [node_dir (str "brain") [node_leaf (str "Tokenizer.py") false];
           node_dir (str "memory") [node_dir (str "Dictionary") [node_leaf (str "index.json") false;
                                                                 node_leaf (str "NOUN") true]];
           node_leaf (str "structure.py") false])) by (vm_compute; reflexivity).
  split; [exact H|]. exact (build_structure_depth readable_all 3 sample_tree (str "/p") 1 0 _ H).
Defined.

(** ** Exceptions *)

Section Raises.
Context `{UnicodeDB}.
Variable readable : list Z -> bool.

(** C33: [build_structure] raises [PermissionError] only from a
    directory named [dictionary] or [dictionarybak] whose listing fails:
    the [iterdir()] of that branch is outside the [try], while any other
    unreadable directory is caught and listed with no children. *)
Theorem build_structure_raises fuel fs root md c :
  build_structure readable fuel fs root md c = Err PermissionError ->
  exists p, fs_is_dir fs p = true /\ is_dictionary_name (path_name p) = true /\ readable p = false.
Proof.
  revert root c. induction fuel as [|fuel IH]; intros root c; cbn [build_structure]; [done|].
  destruct (fs_is_dir fs root); [|done].
  destruct (iterdir_sorted readable fs root) as [es|[]]; [|done|done].
  destruct (collect_children _ es) as [cs|err] eqn:Hcc; simpl; [done|intros [= ->]].
  apply collect_children_err in Hcc as (e & _ & Hf).
  apply entry_child_err in Hf as [(Hd & Hn & _ & Hr)|[_ Hr]]; [by exists e|]. by eapply IH.
Qed.

End Raises.

Lemma build_structure_raises_witness :
  build_structure (readable_but (str "/p/memory/Dictionary")) 7 sample_tree (str "/p") (Some 6%nat) 0
    = Err PermissionError /\
  exists p, fs_is_dir sample_tree p = true /\ is_dictionary_name (path_name p) = true /\
            readable_but (str "/p/memory/Dictionary") p = false.
Proof.
  assert (H : build_structure (readable_but (str "/p/memory/Dictionary")) 7 sample_tree (str "/p") (Some 6%nat) 0
              = Err PermissionError) by (vm_compute; reflexivity).
  split; [exact H|]. exact (build_structure_raises _ 7 sample_tree (str "/p") (Some 6%nat) 0 H).
Defined.

(** An unreadable directory of another name is caught: [brain] is listed
    with no children. *)
Example structure_unreadable_brain_empty :
  build_structure (readable_but (str "/p/brain")) 7 sample_tree (str "/p") (Some 6%nat) 0 =
    Ok (node_dir (str "p")
          [node_dir (str "brain") [];
           node_dir (str "memory") [node_dir (str "Dictionary") [node_leaf (str "index.json") false;
                                                                 node_leaf (str "NOUN") true]];
           node_leaf (str "structure.py") false]).
Proof. vm_compute. reflexivity. Qed.
