(* ===== verification/VerifySetup.v ===== *)
(** * VerifySetup: [scripts/verify_setup.py]

    [src/scripts/verify_setup.py] imports [pablopath], checks that
    sixteen of its paths exist ([CHECKS], [ok]), walks
    [LANG_L0_DIR] with [os.walk] for Python files (a warning only) and
    exits with an error when a check failed.  The paths are those of
    Paths.v, the file system is the one of DictStore, and [os.walk]
    lists entries in the order of [listdir], skips a directory whose
    listing fails ([onerror=None]) and recurses with fuel; its files are
    the entries that are not directories. *)

From S2P Require Import Prelude Text Json DictStore Rebuild Paths Structure.

Open Scope Z_scope.

Section VerifySetup.
(** [os.path.abspath(pablopath.__file__)] *)
Variable abspath_file : list Z.

(** [CHECKS]; [getattr(pp, "word_rules_path", None)] finds the
    attribute, so every value is a path. *)
Definition CHECKS : list (list Z * option (list Z)) :=
  [(str "THESAURUS_DIR", Some (THESAURUS_DIR abspath_file));
   (str "sentence_rules_path", Some (sentence_rules_path abspath_file));
   (str "phrases_clauses_path", Some (phrases_clauses_path abspath_file));
   (str "pos_rules_path", Some (pos_rules_path abspath_file));
   (str "word_rules_path", Some (word_rules_path abspath_file));
   (str "DICTIONARY_DIR", Some (DICTIONARY_DIR abspath_file));
   (str "MANIFEST_DIR", Some (MANIFEST_DIR abspath_file));
   (str "RAW_DUMPS_DIR (WM)", Some (RAW_DUMPS_DIR abspath_file));
   (str "UNSORTED_DIR (WM)", Some (UNSORTED_DIR abspath_file));
   (str "SORTED_DIR (WM)", Some (SORTED_DIR abspath_file));
   (str "curiosity_path (L1)", Some (curiosity_path abspath_file));
   (str "LANG_L0_DIR", Some (LANG_L0_DIR abspath_file));
   (str "LANG_L1_DIR", Some (LANG_L1_DIR abspath_file));
   (str "MATH_L0_DIR", Some (MATH_L0_DIR abspath_file));
   (str "VISION_L0_DIR", Some (VISION_L0_DIR abspath_file));
   (str "SYSTEM_L0_DIR", Some (SYSTEM_L0_DIR abspath_file))].

End VerifySetup.

(** [ok(p)]: [p and (os.path.isdir(p) or os.path.isfile(p))] *)
Definition ok (fs : FS) (p : option (list Z)) : bool :=
  match p with
  | Some p => negb (bool_decide (p = [])) && bool_decide (is_Some (fs_lookup fs p))
  | None => false
  end.

Section Walk.
(** [os.scandir(d)] succeeds on a directory exactly when [readable] holds. *)
Variable readable : list Z -> bool.

(** The [dirs] and [files] of a directory: its entries that are and
    that are not directories. *)
Definition walk_dirs (fs : FS) (top : list Z) : list (list Z) :=
  filter (fun n => fs_is_dir fs (path_join top n) = true) (listdir fs top).
Definition walk_files (fs : FS) (top : list Z) : list (list Z) :=
  filter (fun n => fs_is_dir fs (path_join top n) = false) (listdir fs top).

(** [os.walk(top)] (top-down): the triples [(root, dirs, files)], a
    directory whose listing fails or that does not exist giving none. *)
Fixpoint os_walk (fuel : nat) (fs : FS) (top : list Z) : list (list Z * list (list Z) * list (list Z)) :=
  match fuel with
  | O => []
  | S fuel' =>
      if fs_is_dir fs top && readable top then
        (top, walk_dirs fs top, walk_files fs top)
          :: flat_map (fun n => os_walk fuel' fs (path_join top n)) (walk_dirs fs top)
      else []
  end.

(** The loop collecting [l0_code] *)
Definition l0_code_of (walk : list (list Z * list (list Z) * list (list Z))) : list (list Z) :=
  flat_map (fun '(root, _, files) =>
              map (path_join root) (filter (fun f => ends_with (str ".py") f = true) files)) walk.

(** The script: the failed checks, the Python files under [LANG_L0_DIR]
    and whether it ends normally ([true]) or with [SystemExit]. *)
Definition verify_setup (fuel : nat) (fs : FS) (abspath_file : list Z)
    : list (list Z * option (list Z)) * list (list Z) * bool :=
  let bad := filter (fun kv => ok fs kv.2 = false) (CHECKS abspath_file) in
  let l0_code := l0_code_of (os_walk fuel fs (LANG_L0_DIR abspath_file)) in
  (bad, l0_code, bool_decide (bad = [])).

(** The directories [os.walk(top)] visits, from the top down: a
    listable directory, and what is visited from one of its
    subdirectories. *)
Inductive walkable (fs : FS) : list Z -> list Z -> Prop :=
| walk_here top : fs_is_dir fs top = true -> readable top = true -> walkable fs top top
| walk_child top n d : fs_is_dir fs top = true -> readable top = true -> n ∈ listdir fs top ->
    fs_is_dir fs (path_join top n) = true -> walkable fs (path_join top n) d -> walkable fs top d.

End Walk.

(** ** Samples *)

(** An L0 tree with one Python file in a subdirectory *)
Definition sample_l0_fs : FS :=
  let L0 := LANG_L0_DIR sample_pablopath in
  [(L0, FDir); (path_join L0 (str "rules"), FDir);
   (path_join (path_join L0 (str "rules")) (str "fix.py"), FFile None);
   (path_join L0 (str "a.json"), FFile None)].

(** ** [os.walk] *)

Section WalkLemmas.
Variable readable : list Z -> bool.

Lemma walkable_top fs top d : walkable readable fs top d -> fs_is_dir fs top = true /\ readable top = true.
Proof. by inversion 1. Qed.

(** With fuel above the longest path less the length of [top],
    [os_walk] yields exactly one triple per directory it can visit. *)
Lemma os_walk_spec fuel fs top t :
  (max_path_len fs - length top < fuel)%nat ->
  t ∈ os_walk readable fuel fs top <->
    exists d, walkable readable fs top d /\ t = (d, walk_dirs fs d, walk_files fs d).
Proof.
  revert top. induction fuel as [|fuel IH]; intros top Hb; [lia|]. cbn [os_walk].
  destruct (fs_is_dir fs top && readable top) eqn:Htop.
  2:{ split; [by intros ?%not_elem_of_nil|]. intros (d & Hw%walkable_top & _).
      destruct Hw as [Hd Hr]. by rewrite Hd, Hr in Htop. }
  apply andb_true_iff in Htop as [Hd Hr].
  rewrite elem_of_cons, list_elem_of_In, in_flat_map. setoid_rewrite <-list_elem_of_In. split.
  - intros [->|(n & Hn & Ht)]; [exists top; split; [by constructor|done]|].
    apply list_elem_of_filter in Hn as [Hnd Hn]. apply listdir_in in Hn as Hin.
    apply IH in Ht as (d & Hw & ->); [|destruct Hin as [Hin _]; apply max_path_len_ge in Hin;
      unfold path_join in *; rewrite length_app in *; simpl in *; lia].
    exists d. split; [by eapply walk_child|done].
  - intros (d & Hw & ->). inversion Hw as [? _ _|? n ? _ _ Hn Hnd Hw']; subst; [by left|].
    right. exists n. split; [by apply list_elem_of_filter|].
    apply IH; [|by exists d]. apply listdir_in in Hn as [Hin _]. apply max_path_len_ge in Hin.
    unfold path_join in *; rewrite length_app in *; simpl in *; lia.
Qed.

End WalkLemmas.

(** C32: The [l0_code] loop of [verify_setup.py] collects exactly the
    [.py] files right under the directories [os.walk(LANG_L0_DIR)] can
    visit, when the walk has enough fuel. *)
Theorem l0_code_spec readable fuel fs f p :
  (max_path_len fs - length (LANG_L0_DIR f) < fuel)%nat ->
  p ∈ (verify_setup readable fuel fs f).1.2 <->
    exists d n, walkable readable fs (LANG_L0_DIR f) d /\ n ∈ walk_files fs d /\
                ends_with (str ".py") n = true /\ p = path_join d n.
Proof.
  intros Hb. unfold verify_setup, l0_code_of. simpl. rewrite list_elem_of_In, in_flat_map.
  setoid_rewrite <-list_elem_of_In. split.
  - intros ([[r ds] fls] & Ht & Hp). apply os_walk_spec in Ht as (d & Hw & Ht); [|done]. simplify_eq.
    apply list_elem_of_fmap in Hp as (n & -> & Hn). apply list_elem_of_filter in Hn as [Hpy Hn].
    by exists d, n.
  - intros (d & n & Hw & Hn & Hpy & ->). exists (d, walk_dirs fs d, walk_files fs d).
    split; [apply os_walk_spec; [done|by exists d]|].
    apply list_elem_of_fmap. exists n. split; [done|]. by apply list_elem_of_filter.
Qed.

Lemma l0_code_spec_witness :
  (max_path_len sample_l0_fs - length (LANG_L0_DIR sample_pablopath) < 20)%nat /\
  (path_join (path_join (LANG_L0_DIR sample_pablopath) (str "rules")) (str "fix.py")
     ∈ (verify_setup (fun _ => true) 20 sample_l0_fs sample_pablopath).1.2 <->
   exists d n, walkable (fun _ => true) sample_l0_fs (LANG_L0_DIR sample_pablopath) d /\
               n ∈ walk_files sample_l0_fs d /\ ends_with (str ".py") n = true /\
               path_join (path_join (LANG_L0_DIR sample_pablopath) (str "rules")) (str "fix.py") = path_join d n).
Proof.
  assert (Hb : (max_path_len sample_l0_fs - length (LANG_L0_DIR sample_pablopath) < 20)%nat) by (vm_compute; lia).
  split; [exact Hb|].
  exact (l0_code_spec (fun _ => true) 20 sample_l0_fs sample_pablopath
           (path_join (path_join (LANG_L0_DIR sample_pablopath) (str "rules")) (str "fix.py")) Hb).
Defined.

(** ** The exit status *)

Lemma os_path_join_nonempty a b : b <> [] -> os_path_join a b <> [].
Proof.
  intros Hb. unfold os_path_join. destruct (starts_with _ b); [done|].
  destruct (_ || _); [|by destruct a]. intros [_ ?]%app_eq_nil. done.
Qed.

Lemma filter_nil_Forall {A} (P : A -> Prop) `{forall x, Decision (P x)} (l : list A) :
  filter P l = [] <-> Forall (fun x => ~ P x) l.
Proof.
  induction l as [|x l IH]; [split; by constructor|]. rewrite filter_cons, Forall_cons, <-IH.
  case_decide; [split; [done|naive_solver]|naive_solver].
Qed.

Lemma CHECKS_nonempty f : Forall (fun kv => exists p, kv.2 = Some p /\ p <> []) (CHECKS f).
Proof.
  unfold CHECKS. repeat constructor; eexists; (split; [reflexivity|]);
    unfold THESAURUS_DIR, sentence_rules_path, phrases_clauses_path, pos_rules_path, word_rules_path,
      DICTIONARY_DIR, MANIFEST_DIR, RAW_DUMPS_DIR, UNSORTED_DIR, SORTED_DIR, curiosity_path,
      LANG_L0_DIR, LANG_L1_DIR, MATH_L0_DIR, VISION_L0_DIR, SYSTEM_L0_DIR;
    by apply os_path_join_nonempty.
Qed.

(** No check fails exactly when every checked path exists, for paths
    that are never empty. *)
Lemma bad_nil_iff fs (l : list (list Z * option (list Z))) :
  Forall (fun kv => exists p, kv.2 = Some p /\ p <> []) l ->
  filter (fun kv => ok fs kv.2 = false) l = [] <->
  Forall (fun kv => exists p, kv.2 = Some p /\ is_Some (fs_lookup fs p)) l.
Proof.
  intros Hne. rewrite filter_nil_Forall. rewrite !Forall_forall in *.
  split; intros Hall kv Hkv; specialize (Hall kv Hkv); destruct (Hne kv Hkv) as (p & Hp & Hpne);
    unfold ok in *; rewrite Hp in *.
  - exists p. split; [done|]. rewrite bool_decide_eq_false_2 in Hall by done. simpl in Hall.
    apply not_false_is_true in Hall. by apply bool_decide_eq_true in Hall.
  - destruct Hall as (p' & [= <-] & Hs). rewrite bool_decide_eq_false_2, bool_decide_eq_true_2 by done. done.
Qed.

(** [verify_setup.py] ends without [SystemExit] exactly when every path
    it checks exists: the paths of pablopath are never empty, so the
    [p and] of [ok] never decides. *)
Theorem verify_setup_exit readable fuel fs f :
  (verify_setup readable fuel fs f).2 = true <->
  Forall (fun kv => exists p, kv.2 = Some p /\ is_Some (fs_lookup fs p)) (CHECKS f).
Proof.
  unfold verify_setup. cbn [fst snd]. rewrite bool_decide_eq_true. apply bad_nil_iff, CHECKS_nonempty.
Qed.
