(* ===== verification/ToDb.v ===== *)
(** * ToDb: [wiktionary_to_db.py]

    [src/memory/adapters/wiktionary_to_db.py] scrapes each word of its
    command line or word list, enriches the lemma object with labels
    ([_enrich_lemma_inplace], Labels.v) and stores it with
    [l0_db.upsert_lemma] (L0Db.v) on the connection [l0_db.connect]
    opens; a word that fails is retried [--retries] times.  The scraper
    is an oracle [scrape_word w k] (the [k]-th call for [w], [None] for an
    exception); the connection is the state threaded through the words,
    so that a call that raises leaves it as the next word finds it. *)

From S2P Require Import Prelude Text Json Labels L0Db.

Open Scope Z_scope.

(** What the script prints for a word: [[OK]] at an attempt ([0] the
    first call, [k] the retry [k]) or [[FAIL]]. *)
Inductive todb_status := TOk (attempt : nat) | TFail.

(** The parsed command line *)
Record ToDbArgs := {
  a_word : option (list Z);
  a_list : option (list Z);   (** the text of the [--list] file *)
  a_retries : Z
}.

Section ToDb.
Context `{UnicodeDB}.
(** [hashlib.sha256] of [l0_db.py] *)
Variable sha : json -> list Z.
(** [scrape_word(w)] at its [k]-th call for [w] *)
Variable scrape_word : list Z -> nat -> option json.
(** [str.splitlines] *)
Variable text_lines : list Z -> list (list Z).

(** One [try] block: scrape, enrich in place, upsert. *)
Definition attempt (c : Conn) (w : list Z) (k : nat) : bool * Conn :=
  match scrape_word w k with
  | None => (false, c)
  | Some obj =>
      match _enrich_lemma_inplace_todb obj with
      | None => (false, c)
      | Some obj' =>
          let '(r, c') := l0_upsert_lemma sha c obj' in
          (match r with Ok _ => true | Err _ => false end, c')
      end
  end.

(** [for k in range(1, args.retries+1): ... break] *)
Fixpoint retry_loop (c : Conn) (w : list Z) (ks : list nat) : option nat * Conn :=
  match ks with
  | [] => (None, c)
  | k :: ks' =>
      let '(ok, c') := attempt c w k in
      if ok then (Some k, c') else retry_loop c' w ks'
  end.

(** The body of [for i, w in enumerate(words, 1)]; printing and
    [time.sleep] are left out. *)
Definition word_step (retries : Z) (acc : Conn * list (list Z * todb_status)) (w : list Z)
    : Conn * list (list Z * todb_status) :=
  let '(c, log) := acc in
  let '(ok, c1) := attempt c w 0 in
  if ok then (c1, log ++ [(w, TOk 0)])
  else if 0 <? retries then
    let '(r, c2) := retry_loop c1 w (seq 1 (Z.to_nat retries)) in
    (c2, log ++ [(w, match r with Some k => TOk k | None => TFail end)])
  else (c1, log ++ [(w, TFail)]).

(** The list comprehension over the lines of [--list]; [None] when
    there is no list ([Path(None)] raises). *)
Definition list_words (a : ToDbArgs) : option (list (list Z)) :=
  t ← a_list a; Some (filter (fun w => w <> []) (map py_strip (text_lines t))).

(** [words = [args.word] if args.word else [...]] *)
Definition todb_words (a : ToDbArgs) : option (list (list Z)) :=
  match a_word a with
  | Some w => if bool_decide (w = []) then list_words a else Some [w]
  | None => list_words a
  end.

(** [main()] on the database file [db] *)
Definition todb_main (a : ToDbArgs) (db : DBState) : option (Conn * list (list Z * todb_status)) :=
  words ← todb_words a;
  Some (fold_left (word_step (a_retries a)) words (connect db, [])).

End ToDb.

(** ** Samples *)

(** A lemma object whose [variants] is not iterable: [upsert_lemma]
    raises after its [BEGIN]. *)
Definition bad_variants_obj : json := JObj [(str "lemma", JStr (str "bad")); (str "variants", JNum 5)].

Definition sample_scrape (w : list Z) (_ : nat) : option json :=
  if bool_decide (w = str "bad") then Some bad_variants_obj else Some sample_lemma.

Definition list_args (retries : Z) : ToDbArgs := {| a_word := None; a_list := Some []; a_retries := retries |}.

(** ** A database without the detail tables *)

(** The connection after a failed [upsert_lemma] on a database whose
    schema lacks [l0_variant]: nothing committed beyond [C0], and any
    open transaction on a copy with the same tables. *)
Definition poisoned (C0 : DBState) (c : Conn) : Prop :=
  committed c = C0 /\ t_variant ∉ db_tables C0 /\
  (forall w, tx c = Some w -> db_tables w = db_tables C0).

Lemma exec_db_tables w s w' : exec_db w s = Ok w' -> db_tables w' = db_tables w.
Proof. destruct s; simpl; repeat case_bool_decide; simpl; by intros [= <-]. Qed.

(** The steps of [upsert_lemma] after its [BEGIN]: a [Raise], or the
    upsert of [l0_entry] and then the [DELETE] from [l0_variant]. *)
Lemma run_poisoned_tail C0 w ps :
  poisoned C0 (mkConn C0 (Some w)) ->
  ps = [Raise] \/ (exists lemma raw ck rest,
                     ps = Do (SUpsertEntry lemma raw ck) :: Do (SDelete t_variant lemma) :: rest) ->
  (exists e, (run (mkConn C0 (Some w)) ps).1 = Err e) /\ poisoned C0 (run (mkConn C0 (Some w)) ps).2.
Proof.
  intros HP [->|(lemma & raw & ck & rest & ->)]; [split; [by eexists|done]|].
  destruct HP as (_ & Hv & Htx). specialize (Htx w eq_refl). cbn [run exec tx default committed id].
  destruct (exec_db w (SUpsertEntry lemma raw ck)) as [w1|e] eqn:He1.
  - apply exec_db_tables in He1 as Ht1. cbn [exec tx default committed id].
    rewrite exec_db_delete_missing by congruence. split; [by eexists|].
    split_and!; [done|done|]. simpl. intros ? [= <-]. congruence.
  - split; [by eexists|]. split_and!; [done|done|]. simpl. intros ? [= <-]. done.
Qed.

(** On such a connection every [upsert_lemma] fails and the connection
    stays so. *)
Lemma upsert_poisoned vk sha C0 c obj :
  poisoned C0 c ->
  (exists e, (upsert_lemma vk sha c obj).1 = Err e) /\ poisoned C0 (upsert_lemma vk sha c obj).2.
Proof.
  intros HP. pose proof HP as (Hc & Hv & Htx). unfold upsert_lemma, upsert_steps.
  destruct (py_getitem obj (str "lemma")) as [lj|]; [|simpl; split; [by eexists|done]].
  cbn [run]. destruct (tx c) as [w|] eqn:Ht; unfold exec; rewrite Ht; [simpl; split; [by eexists|done]|].
  rewrite Hc. apply run_poisoned_tail; [split_and!; [done|done|]; simpl; by intros ? [= <-]|].
  destruct (sql_param lj); [right; by do 4 eexists|by left].
Qed.

Section Poisoned.
Context `{UnicodeDB}.
Variables (sha : json -> list Z) (scrape_word : list Z -> nat -> option json).
Variable C0 : DBState.

Lemma attempt_poisoned c w k :
  poisoned C0 c -> (attempt sha scrape_word c w k).1 = false /\ poisoned C0 (attempt sha scrape_word c w k).2.
Proof.
  intros HP. unfold attempt. destruct (scrape_word w k); [|by split].
  destruct (_enrich_lemma_inplace_todb _) as [obj'|]; [|by split]. unfold l0_upsert_lemma.
  destruct (upsert_poisoned l0_verb_keys sha C0 c obj' HP) as [[e He] HP'].
  destruct (upsert_lemma _ _ _ _) as [r c']. simpl in *. subst r. by split.
Qed.

Lemma retry_poisoned c w ks :
  poisoned C0 c -> (retry_loop sha scrape_word c w ks).1 = None /\ poisoned C0 (retry_loop sha scrape_word c w ks).2.
Proof.
  revert c. induction ks as [|k ks IH]; intros c HP; simpl; [done|].
  destruct (attempt_poisoned c w k HP) as [Hf HP']. destruct (attempt _ _ _ _ _) as [ok c']. simpl in *.
  subst ok. by apply IH.
Qed.

(** Every word is logged [[FAIL]] and the connection stays poisoned. *)
Lemma words_poisoned retries ws c log :
  poisoned C0 c ->
  let '(c', log') := fold_left (word_step sha scrape_word retries) ws (c, log) in
  poisoned C0 c' /\ log' = log ++ map (fun w => (w, TFail)) ws.
Proof.
  revert c log. induction ws as [|w ws IH]; intros c log HP; simpl; [by rewrite app_nil_r|].
  destruct (attempt_poisoned c w 0 HP) as [Hf HP1]. destruct (attempt _ _ _ _ _) as [ok c1] eqn:Ha.
  simpl in Hf, HP1. subst ok. destruct (0 <? retries).
  - destruct (retry_poisoned c1 w (seq 1 (Z.to_nat retries)) HP1) as [Hn HP2].
    destruct (retry_loop _ _ _ _ _) as [r c2]. simpl in *. subst r.
    specialize (IH c2 (log ++ [(w, TFail)]) HP2). destruct (fold_left _ _ _). by rewrite <-app_assoc in IH.
  - specialize (IH c1 (log ++ [(w, TFail)]) HP1). destruct (fold_left _ _ _). by rewrite <-app_assoc in IH.
Qed.

End Poisoned.

Lemma connect_poisoned db : t_variant ∉ db_tables db -> poisoned (create_entry_table db) (connect db).
Proof.
  intros Hv. split_and!; [done| |done]. unfold create_entry_table. case_bool_decide; [done|]. simpl.
  rewrite elem_of_app, list_elem_of_singleton. intros [|Heq]; [done|]. vm_compute in Heq. congruence.
Qed.

(** C29: [wiktionary_to_db.py] on a database it opens with
    [l0_db.connect] whose schema lacks [l0_variant] (as every database
    the repository's code creates): whatever the scraper returns and
    however many retries are asked for, every word is reported
    [[FAIL]] and nothing beyond the empty [l0_entry] table is
    committed. *)
Theorem todb_fresh_db_fails `{UnicodeDB} sha scrape_word text_lines a db ws :
  t_variant ∉ db_tables db -> todb_words text_lines a = Some ws ->
  exists c, todb_main sha scrape_word text_lines a db = Some (c, map (fun w => (w, TFail)) ws) /\
            committed c = create_entry_table db.
Proof.
  intros Hv Hw. unfold todb_main. rewrite Hw. simpl.
  pose proof (words_poisoned sha scrape_word _ (a_retries a) ws (connect db) [] (connect_poisoned db Hv)) as HP.
  destruct (fold_left _ _ _) as [c log]. destruct HP as [(Hc & _) ->]. by exists c.
Qed.

Lemma todb_fresh_db_fails_witness :
  t_variant ∉ db_tables (mkDB [] [] []) /\
  todb_words (fun _ => []) {| a_word := Some (str "run"); a_list := None; a_retries := 2 |} = Some [str "run"] /\
  exists c, todb_main sample_sha (fun _ _ => Some sample_lemma) (fun _ => [])
              {| a_word := Some (str "run"); a_list := None; a_retries := 2 |} (mkDB [] [] [])
            = Some (c, map (fun w => (w, TFail)) [str "run"]) /\
          committed c = create_entry_table (mkDB [] [] []).
Proof.
  assert (Hv : t_variant ∉ db_tables (mkDB [] [] [])) by (simpl; apply not_elem_of_nil).
  assert (Hw : todb_words (fun _ => []) {| a_word := Some (str "run"); a_list := None; a_retries := 2 |}
               = Some [str "run"]) by reflexivity.
  split; [exact Hv|]. split; [exact Hw|]. exact (todb_fresh_db_fails _ _ _ _ _ _ Hv Hw).
Defined.

(** ** An open transaction sticks *)

(** With a transaction left open by an earlier exception, every later
    [upsert_lemma] fails and leaves the connection as it is. *)
Lemma upsert_open_tx vk sha c obj :
  tx c <> None -> exists e, upsert_lemma vk sha c obj = (Err e, c).
Proof.
  intros Ht. unfold upsert_lemma, upsert_steps. destruct (py_getitem obj (str "lemma")); [|by eexists].
  cbn [run]. unfold exec. destruct (tx c); [by eexists|done].
Qed.

Section OpenTx.
Context `{UnicodeDB}.
Variables (sha : json -> list Z) (scrape_word : list Z -> nat -> option json).

Lemma attempt_open_tx c w k : tx c <> None -> attempt sha scrape_word c w k = (false, c).
Proof.
  intros Ht. unfold attempt. destruct (scrape_word w k); [|done].
  destruct (_enrich_lemma_inplace_todb _) as [obj'|]; [|done]. unfold l0_upsert_lemma.
  by destruct (upsert_open_tx l0_verb_keys sha c obj' Ht) as [e ->].
Qed.

Lemma retry_open_tx c w ks : tx c <> None -> retry_loop sha scrape_word c w ks = (None, c).
Proof. intros Ht. induction ks as [|k ks IH]; simpl; [done|]. by rewrite attempt_open_tx. Qed.

(** Once an [upsert_lemma] raises after its [BEGIN], every later word
    of the run is reported [[FAIL]], whatever the scraper returns. *)
Theorem words_open_tx retries ws c log :
  tx c <> None ->
  fold_left (word_step sha scrape_word retries) ws (c, log) = (c, log ++ map (fun w => (w, TFail)) ws).
Proof.
  revert log. induction ws as [|w ws IH]; intros log Ht; simpl; [by rewrite app_nil_r|].
  rewrite attempt_open_tx by done. destruct (0 <? retries); [rewrite retry_open_tx by done|];
    rewrite IH, <-app_assoc by done; done.
Qed.

End OpenTx.

(** On a database with every table, the word [run] alone is stored at
    the first attempt, but after a lemma object that makes
    [upsert_lemma] raise, [run] fails too, retries included. *)
Example todb_bad_object_poisons_run :
  option_map snd (todb_main sample_sha sample_scrape (fun _ => [str "run"]) (list_args 1) all_tables_db)
    = Some [(str "run", TOk 0)] /\
  option_map snd (todb_main sample_sha sample_scrape (fun _ => [str "bad"; str "run"]) (list_args 1) all_tables_db)
    = Some [(str "bad", TFail); (str "run", TFail)].
Proof. split; vm_compute; reflexivity. Qed.
