(* ===== verification/ScraperText.v ===== *)
(** * ScraperText: the text helpers of [wiktionary_scraper.py]

    [src/memory/adapters/wiktionary_scraper.py] cleans every definition
    and example it scrapes with [text_clean] and [_normalize_punct]
    ([re.sub] with [\s+] and the punctuation class [[,.;:!?%]]), strips
    invisible codepoints ([_strip_invisible]) and deduplicates lists with
    [unique_preserve].  The regular expressions are written out as the
    loops they compute: [\s] is [str.isspace] ([py_isspace]).  The
    theorems show that [_normalize_punct] is idempotent, that it splits
    decimal numbers and abbreviations, and that [unique_preserve] on
    strings is the first-occurrence deduplication of Paths.v. *)

From S2P Require Import Prelude Text Json DictStore Paths.

Open Scope Z_scope.

Definition c_space : Z := 32.

(** [re.sub(r"\s+", " ", s)]: a whitespace codepoint is dropped when
    the next one is whitespace too and becomes a space otherwise, so each
    maximal run becomes one space. *)
Fixpoint collapse_ws (s : list Z) : list Z :=
  match s with
  | [] => []
  | c :: s' =>
      if py_isspace c then
        match s' with
        | d :: _ => if py_isspace d then collapse_ws s' else c_space :: collapse_ws s'
        | [] => [c_space]
        end
      else c :: collapse_ws s'
  end.

(** [norm_space(s)] and [text_clean(s)]: the same body. *)
Definition norm_space (s : list Z) : list Z := py_strip (collapse_ws s).
Definition text_clean (s : list Z) : list Z := py_strip (collapse_ws s).

(** [_ZW_RE]: zero-width, bidirectional controls and the soft hyphen *)
Definition zw_invisible (c : Z) : bool :=
  in_range 0x200B 0x200F c || in_range 0x202A 0x202E c || in_range 0x2066 0x2069 c || (c =? 0xAD).

(** [_strip_invisible(s)] *)
Definition _strip_invisible (s : list Z) : list Z := List.filter (fun c => negb (zw_invisible c)) s.

(** The class [[,.;:!?%]] *)
Definition punct_char (c : Z) : bool := bool_decide (c ∈ str ",.;:!?%").

(** Whether the first codepoint after the leading whitespace is a
    punctuation mark. *)
Definition next_is_punct (s : list Z) : bool :=
  match drop (span_while py_isspace s) s with
  | p :: _ => punct_char p
  | [] => false
  end.

(** [re.sub(r"\s+([,.;:!?%])", r"\1", s)]: every whitespace codepoint of
    a run that a punctuation mark follows is deleted. *)
Fixpoint drop_space_before_punct (s : list Z) : list Z :=
  match s with
  | [] => []
  | c :: s' =>
      if py_isspace c && next_is_punct s' then drop_space_before_punct s'
      else c :: drop_space_before_punct s'
  end.

(** [re.sub(r"([,.;:!?%])(?!\s|$)", r"\1 ", s)]: a space after every
    punctuation mark that neither whitespace nor the end follows. *)
Fixpoint space_after_punct (s : list Z) : list Z :=
  match s with
  | [] => []
  | c :: s' =>
      if punct_char c then
        match s' with
        | d :: _ => if py_isspace d then c :: space_after_punct s' else c :: c_space :: space_after_punct s'
        | [] => [c]
        end
      else c :: space_after_punct s'
  end.

(** [_normalize_punct(s)] *)
Definition _normalize_punct (s : list Z) : list Z :=
  let s := _strip_invisible s in
  let s := norm_space s in
  let s := drop_space_before_punct s in
  let s := space_after_punct s in
  norm_space s.

Section UniquePreserve.
(** [json.dumps(x, ensure_ascii=False, sort_keys=True)] *)
Variable json_dumps : json -> list Z.

(** The key of [unique_preserve]: the dump of a dict or list, [str(x)]
    of anything else. *)
Definition up_key (x : json) : list Z :=
  match x with
  | JArr _ | JObj _ => json_dumps x
  | _ => default [] (py_str x)
  end.

(** One turn of its loop on [(seen, out)] *)
Definition up_step (acc : gset (list Z) * list json) (x : json) : gset (list Z) * list json :=
  let '(seen, out) := acc in
  if bool_decide (up_key x ∈ seen) then (seen, out) else ({[up_key x]} ∪ seen, out ++ [x]).

(** [unique_preserve(seq)] *)
Definition unique_preserve (seq : list json) : list json :=
  (fold_left up_step seq (∅, [])).2.

End UniquePreserve.

(** ** Normal spacing *)

(** [ns_go b s]: every whitespace codepoint of [s] is a space, follows a
    non-whitespace codepoint ([b] says whether the previous one was
    whitespace or [s] starts the string) and is not the last. *)
Fixpoint ns_go (b : bool) (s : list Z) : bool :=
  match s with
  | [] => true
  | c :: s' =>
      if py_isspace c then negb b && (c =? c_space) && negb (bool_decide (s' = [])) && ns_go true s'
      else ns_go false s'
  end.

(** What [collapse_ws] gives: spaces only, never two in a row. *)
Fixpoint spaced_go (b : bool) (s : list Z) : bool :=
  match s with
  | [] => true
  | c :: s' => if py_isspace c then negb b && (c =? c_space) && spaced_go true s' else spaced_go false s'
  end.

(** No whitespace right before a punctuation mark *)
Fixpoint nsp (s : list Z) : bool :=
  match s with
  | c :: ((d :: _) as s') => negb (py_isspace c && punct_char d) && nsp s'
  | _ => true
  end.

(** [space_after_punct] after [drop_space_before_punct] on a normally
    spaced string: a space after a punctuation mark that a word follows. *)
Fixpoint space_before_word (s : list Z) : list Z :=
  match s with
  | [] => []
  | c :: s' =>
      if punct_char c then
        match s' with
        | d :: _ => if py_isspace d || punct_char d then c :: space_before_word s'
                    else c :: c_space :: space_before_word s'
        | [] => [c]
        end
      else c :: space_before_word s'
  end.

(** The head of a string, when it is not whitespace *)
Definition head_ns (s : list Z) : Prop :=
  match s with d :: _ => py_isspace d = false | [] => True end.

Example normalize_punct_samples :
  _normalize_punct (str "a , b") = str "a, b" /\
  _normalize_punct (str " x ,,y ") = str "x, , y".
Proof. split; vm_compute; reflexivity. Qed.

(** ** Codepoint facts *)

Lemma space_isspace : py_isspace c_space = true.
Proof. reflexivity. Qed.

Lemma space_not_punct : punct_char c_space = false.
Proof. reflexivity. Qed.

Lemma punct_not_space c : punct_char c = true -> py_isspace c = false.
Proof.
  unfold punct_char. intros Hp%bool_decide_eq_true.
  repeat (apply elem_of_cons in Hp as [->|Hp]; [reflexivity|]). by apply not_elem_of_nil in Hp.
Qed.

#[local] Hint Resolve punct_not_space : core.

Lemma ns_go_switch b b' s : head_ns s -> ns_go b s = ns_go b' s.
Proof. destruct s as [|d s]; simpl; [done|]. by intros ->. Qed.

Lemma spaced_go_switch b b' s : head_ns s -> spaced_go b s = spaced_go b' s.
Proof. destruct s as [|d s]; simpl; [done|]. by intros ->. Qed.

Lemma ns_go_true_head s : ns_go true s = true -> head_ns s.
Proof. destruct s as [|d s]; simpl; [done|]. destruct (py_isspace d); simpl; done. Qed.

Lemma spaced_go_true_head s : spaced_go true s = true -> head_ns s.
Proof. destruct s as [|d s]; simpl; [done|]. destruct (py_isspace d); simpl; done. Qed.

(** ** [norm_space] is the identity on normally spaced strings *)

Lemma ns_go_last b w c : ns_go b (w ++ [c]) = true -> py_isspace c = false.
Proof.
  revert b. induction w as [|x w IH]; intros b; simpl.
  - destruct (py_isspace c); [|done]. by rewrite Bool.andb_false_r.
  - destruct (py_isspace x); [|apply IH]. intros (_ & H)%andb_true_iff. by apply (IH true).
Qed.

Lemma collapse_ws_ns b s : ns_go b s = true -> collapse_ws s = s.
Proof.
  revert b. induction s as [|c s IH]; intros b; simpl; [done|].
  destruct (py_isspace c) eqn:Hc; [|intros H; f_equal; by apply (IH false)].
  intros Hh. rewrite !andb_true_iff in Hh. destruct Hh as (((_ & Heq) & Hne) & H). apply Z.eqb_eq in Heq as ->.
  destruct s as [|d s']; [done|]. rewrite (ns_go_true_head _ H). f_equal. by apply (IH true).
Qed.

Lemma py_strip_ns s : ns_go true s = true -> py_strip s = s.
Proof.
  intros H. unfold py_strip, py_rstrip, py_lstrip.
  assert (Hl : span_while py_isspace s = O).
  { pose proof (ns_go_true_head s H). destruct s; simpl in *; [done|]. by rewrite H0. }
  rewrite Hl, drop_0. clear Hl. induction s as [|c w _] using rev_ind; [done|].
  rewrite rev_app_distr. simpl. rewrite (ns_go_last _ _ _ H). simpl. by rewrite rev_involutive.
Qed.

Lemma norm_space_ns s : ns_go true s = true -> norm_space s = s.
Proof. intros H. unfold norm_space. rewrite (collapse_ws_ns true) by done. by apply py_strip_ns. Qed.

(** ** [norm_space] spaces normally *)

Lemma collapse_ws_head d s : py_isspace d = false -> collapse_ws (d :: s) = d :: collapse_ws s.
Proof. simpl. by intros ->. Qed.

Lemma collapse_ws_spaced s : spaced_go false (collapse_ws s) = true.
Proof.
  induction s as [|c s IH]; simpl; [done|]. destruct (py_isspace c) eqn:Hc; [|simpl; by rewrite Hc].
  destruct s as [|d s']; [done|]. destruct (py_isspace d) eqn:Hd; [done|].
  rewrite collapse_ws_head in * by done. simpl in *. by rewrite Hd in *.
Qed.

Lemma lstrip_spaced u : spaced_go false u = true -> spaced_go true (py_lstrip u) = true.
Proof.
  unfold py_lstrip. destruct u as [|c u]; [done|]. simpl. destruct (py_isspace c) eqn:Hc.
  - intros (_ & H)%andb_true_iff. pose proof (spaced_go_true_head u H) as Hh.
    destruct u as [|d u]; [done|]. simpl in Hh. simpl. by rewrite Hh, drop_0.
  - intros H. simpl. by rewrite Hc.
Qed.

Lemma spaced_app b w c : spaced_go b (w ++ [c]) = true -> spaced_go b w = true.
Proof.
  revert b. induction w as [|x w IH]; intros b; simpl; [done|].
  destruct (py_isspace x); [|apply IH]. rewrite !andb_true_iff. intros [? H]. split; [done|]. by apply IH.
Qed.

Lemma spaced_no_double b w e c :
  spaced_go b (w ++ [e; c]) = true -> py_isspace c = true -> py_isspace e = false.
Proof.
  revert b. induction w as [|x w IH]; intros b; simpl.
  - intros H Hc. destruct (py_isspace e) eqn:He; [|done]. exfalso. rewrite Hc in H.
    rewrite Bool.andb_false_r in H. discriminate.
  - destruct (py_isspace x); [|apply IH]. rewrite !andb_true_iff. intros [_ H]. by apply (IH true).
Qed.

Lemma spaced_ns b w :
  spaced_go b w = true -> (forall w' e, w = w' ++ [e] -> py_isspace e = false) -> ns_go b w = true.
Proof.
  revert b. induction w as [|c w IH]; intros b; simpl; [done|]. intros H Hl.
  assert (IH' : forall b', spaced_go b' w = true -> ns_go b' w = true).
  { intros b' Hs. apply IH; [done|]. intros w' e ->. by apply (Hl (c :: w') e). }
  destruct (py_isspace c) eqn:Hc; [|by apply IH'].
  rewrite !andb_true_iff in *. destruct H as [[Hb Heq] Hs]. split_and!; [done|done| |by apply IH'].
  apply negb_true_iff, bool_decide_eq_false_2. intros ->. by rewrite (Hl [] c) in Hc.
Qed.

Lemma rstrip_spaced v : spaced_go true v = true -> ns_go true (py_rstrip v) = true.
Proof.
  intros H. unfold py_rstrip, py_lstrip. induction v as [|c w _] using rev_ind; [done|].
  rewrite rev_app_distr. simpl. destruct (py_isspace c) eqn:Hc.
  - apply spaced_app in H as Hw. destruct w as [|x w'] using rev_ind.
    + simpl in H. by rewrite Hc in H.
    + clear IHw'. rewrite rev_app_distr. simpl.
      rewrite (spaced_no_double true w' x c) by (by rewrite <-app_assoc in H). simpl.
      rewrite rev_involutive. apply spaced_ns; [done|]. intros w'' e Heq%app_inj_tail. destruct Heq as [_ <-].
      apply (spaced_no_double true w' x c); [by rewrite <-app_assoc in H|done].
  - simpl. rewrite rev_involutive. apply spaced_ns; [done|]. intros w'' e [_ <-]%app_inj_tail. done.
Qed.

Lemma norm_space_normal s : ns_go true (norm_space s) = true.
Proof. unfold norm_space, py_strip. apply rstrip_spaced, lstrip_spaced, collapse_ws_spaced. Qed.

(** ** The two punctuation passes *)

Lemma next_is_punct_head d s : py_isspace d = false -> next_is_punct (d :: s) = punct_char d.
Proof. unfold next_is_punct. simpl. by intros ->. Qed.

Lemma dsbp_head d s : py_isspace d = false -> drop_space_before_punct (d :: s) = d :: drop_space_before_punct s.
Proof. simpl. by intros ->. Qed.

Lemma sap_head d s : exists t, space_after_punct (d :: s) = d :: t.
Proof. simpl. destruct (punct_char d); [destruct s as [|e s]; [|destruct (py_isspace e)]|]; by eexists. Qed.

Lemma sbw_head d s : exists t, space_before_word (d :: s) = d :: t.
Proof. simpl. destruct (punct_char d); [destruct s as [|e s]; [|destruct (_ || _)]|]; by eexists. Qed.

(** The space of a normally spaced string is followed by a word. *)
Lemma ns_go_space b c s :
  py_isspace c = true -> ns_go b (c :: s) = true ->
  b = false /\ c = c_space /\ exists d s', s = d :: s' /\ py_isspace d = false /\ ns_go false s = true.
Proof.
  simpl. intros ->. rewrite !andb_true_iff. intros [[[Hb Heq%Z.eqb_eq] Hne] H].
  destruct s as [|d s']; [done|]. pose proof (ns_go_true_head _ H) as Hd. simpl in Hd.
  split; [by destruct b|]. split; [done|]. exists d, s'. split_and!; [done|done|].
  by rewrite (ns_go_switch false true) by done.
Qed.

Lemma dsbp_cons c s :
  drop_space_before_punct (c :: s) =
    if py_isspace c && next_is_punct s then drop_space_before_punct s else c :: drop_space_before_punct s.
Proof. reflexivity. Qed.

Lemma ns_go_space_word d t : py_isspace d = false -> ns_go false (c_space :: d :: t) = ns_go false (d :: t).
Proof. intros Hd. simpl. by rewrite Hd. Qed.

Lemma dsbp_ns b y : ns_go b y = true -> ns_go b (drop_space_before_punct y) = true.
Proof.
  revert b. induction y as [|c s IH]; intros b Hy; [done|]. destruct (py_isspace c) eqn:Hc.
  - destruct (ns_go_space b c s Hc Hy) as (-> & -> & d & s' & -> & Hd & Hs).
    specialize (IH false Hs). rewrite dsbp_cons, next_is_punct_head, Hc by done.
    destruct (punct_char d); [done|]. rewrite dsbp_head in * by done.
    cbn [andb]. by rewrite ns_go_space_word.
  - rewrite dsbp_cons, Hc. cbn [andb ns_go] in *. rewrite Hc in *. by apply IH.
Qed.

Lemma nsp_cons_word c s : py_isspace c = false -> nsp (c :: s) = nsp s.
Proof. intros Hc. destruct s; simpl; [done|]. by rewrite Hc. Qed.

Lemma dsbp_nsp b y : ns_go b y = true -> nsp (drop_space_before_punct y) = true.
Proof.
  revert b. induction y as [|c s IH]; intros b Hy; [done|]. destruct (py_isspace c) eqn:Hc.
  - destruct (ns_go_space b c s Hc Hy) as (-> & -> & d & s' & -> & Hd & Hs).
    specialize (IH false Hs). rewrite dsbp_cons, next_is_punct_head, Hc by done.
    destruct (punct_char d) eqn:Hp; cbn [andb]; [done|]. rewrite dsbp_head in * by done.
    cbn [nsp]. by rewrite Hp, Bool.andb_false_r.
  - rewrite dsbp_cons, Hc. cbn [andb]. rewrite nsp_cons_word by done.
    apply (IH false). cbn [ns_go] in Hy. by rewrite Hc in Hy.
Qed.

Lemma sap_cons c s :
  space_after_punct (c :: s) =
    if punct_char c then
      match s with
      | d :: _ => if py_isspace d then c :: space_after_punct s else c :: c_space :: space_after_punct s
      | [] => [c]
      end
    else c :: space_after_punct s.
Proof. reflexivity. Qed.

Lemma ns_go_cons_word b c s : py_isspace c = false -> ns_go b (c :: s) = ns_go false s.
Proof. intros Hc. simpl. by rewrite Hc. Qed.

Lemma sap_ns b y : ns_go b y = true -> ns_go b (space_after_punct y) = true.
Proof.
  revert b. induction y as [|c s IH]; intros b Hy; [done|]. rewrite sap_cons.
  destruct (punct_char c) eqn:Hp.
  - rewrite ns_go_cons_word in Hy by auto. destruct s as [|d s']; [by rewrite ns_go_cons_word by auto|].
    specialize (IH false Hy). destruct (sap_head d s') as [t Ht]. rewrite Ht in IH |- *.
    destruct (py_isspace d) eqn:Hd; rewrite ns_go_cons_word by auto; [done|].
    by rewrite ns_go_space_word.
  - destruct (py_isspace c) eqn:Hc.
    + destruct (ns_go_space b c s Hc Hy) as (-> & -> & d & s' & -> & Hd & Hs).
      specialize (IH false Hs). destruct (sap_head d s') as [t Ht]. rewrite Ht in IH |- *.
      by rewrite ns_go_space_word.
    + rewrite ns_go_cons_word in * by done. by apply IH.
Qed.

Lemma sbw_cons c s :
  space_before_word (c :: s) =
    if punct_char c then
      match s with
      | d :: _ => if py_isspace d || punct_char d then c :: space_before_word s
                  else c :: c_space :: space_before_word s
      | [] => [c]
      end
    else c :: space_before_word s.
Proof. reflexivity. Qed.

Lemma nsp_tail c s : nsp (c :: s) = true -> nsp s = true.
Proof. destruct s; simpl; [done|]. by intros (_ & ?)%andb_true_iff. Qed.

(** Deleting the spaces before punctuation after inserting them after
    punctuation keeps only those a word follows. *)
Lemma dsbp_sap b y :
  ns_go b y = true -> nsp y = true -> drop_space_before_punct (space_after_punct y) = space_before_word y.
Proof.
  revert b. induction y as [|c s IH]; intros b Hy Hn; [done|]. rewrite sap_cons, sbw_cons.
  pose proof (nsp_tail c s Hn) as Hn'. destruct (punct_char c) eqn:Hp.
  - rewrite ns_go_cons_word in Hy by auto. destruct s as [|d s']; [by rewrite dsbp_head by auto|].
    specialize (IH false Hy Hn'). destruct (sap_head d s') as [t Ht].
    destruct (py_isspace d) eqn:Hd; cbn [orb].
    + by rewrite dsbp_head, IH by auto.
    + rewrite dsbp_head by auto. rewrite dsbp_cons, Ht, next_is_punct_head by done. rewrite <-Ht, IH.
      by destruct (punct_char d).
  - destruct (py_isspace c) eqn:Hc.
    + destruct (ns_go_space b c s Hc Hy) as (-> & -> & d & s' & -> & Hd & Hs).
      specialize (IH false Hs Hn'). destruct (sap_head d s') as [t Ht].
      assert (punct_char d = false) as Hpd.
      { cbn [nsp] in Hn. apply andb_true_iff in Hn as [Hn _]. rewrite Hc in Hn. by destruct (punct_char d). }
      rewrite dsbp_cons, Ht, next_is_punct_head, Hpd by done. cbn [andb]. by rewrite <-Ht, IH.
    + rewrite ns_go_cons_word in Hy by done. by rewrite dsbp_head, (IH false) by done.
Qed.

Lemma sap_sbw s : space_after_punct (space_before_word s) = space_after_punct s.
Proof.
  induction s as [|c s IH]; [done|]. rewrite sap_cons, sbw_cons. destruct (punct_char c) eqn:Hp.
  - destruct s as [|d s']; [by rewrite sap_cons, Hp|]. destruct (sbw_head d s') as [t Ht].
    destruct (py_isspace d) eqn:Hd; cbn [orb].
    + rewrite sap_cons, Hp, Ht, Hd. by rewrite <-Ht, IH.
    + destruct (punct_char d) eqn:Hpd.
      * rewrite sap_cons, Hp, Ht, Hd. by rewrite <-Ht, IH.
      * rewrite sap_cons, Hp. cbv iota. rewrite space_isspace, (sap_cons c_space), space_not_punct.
        by rewrite IH.
  - rewrite sap_cons, Hp. by rewrite IH.
Qed.

(** ** Invisible codepoints *)

Section Codepoints.
Variable P : Z -> Prop.
Hypothesis HP : P c_space.

Lemma collapse_ws_forall s : Forall P s -> Forall P (collapse_ws s).
Proof.
  induction s as [|c s IH]; intros Hs; simpl; [done|]. inversion Hs as [|? ? Hc Hs']; subst.
  destruct (py_isspace c); [|by constructor; auto].
  destruct s as [|d s']; [by constructor|]. destruct (py_isspace d); [by auto|by constructor; auto].
Qed.

Lemma py_strip_forall s : Forall P s -> Forall P (py_strip s).
Proof.
  intros Hs. unfold py_strip, py_rstrip, py_lstrip.
  apply Forall_rev, Forall_drop, Forall_rev, Forall_drop, Hs.
Qed.

Lemma norm_space_forall s : Forall P s -> Forall P (norm_space s).
Proof. intros. by apply py_strip_forall, collapse_ws_forall. Qed.

Lemma dsbp_forall s : Forall P s -> Forall P (drop_space_before_punct s).
Proof.
  induction s as [|c s IH]; intros Hs; [done|]. inversion Hs; subst. rewrite dsbp_cons.
  destruct (_ && _); [by auto|by constructor; auto].
Qed.

Lemma sap_forall s : Forall P s -> Forall P (space_after_punct s).
Proof.
  induction s as [|c s IH]; intros Hs; [done|]. inversion Hs; subst. rewrite sap_cons.
  destruct (punct_char c); [|by constructor; auto].
  destruct s as [|d s']; [by constructor|]. destruct (py_isspace d); repeat constructor; auto.
Qed.

End Codepoints.

Definition visible (c : Z) : Prop := zw_invisible c = false.

Lemma strip_invisible_visible s : Forall visible (_strip_invisible s).
Proof.
  induction s as [|c s IH]; simpl; [done|]. unfold visible in *.
  destruct (zw_invisible c) eqn:Hc; simpl; [done|]. by constructor.
Qed.

Lemma strip_invisible_id s : Forall visible s -> _strip_invisible s = s.
Proof.
  induction s as [|c s IH]; intros Hs; [done|]. inversion Hs as [|? ? Hc Hs']; subst. simpl.
  unfold visible in Hc. rewrite Hc. simpl. by rewrite IH.
Qed.

(** ** Idempotence *)

(** C30: [_normalize_punct] is idempotent: cleaning a definition or an
    example a second time changes nothing, on every string. *)
Theorem normalize_punct_idem s : _normalize_punct (_normalize_punct s) = _normalize_punct s.
Proof.
  set (y := norm_space (_strip_invisible s)).
  assert (Hy : ns_go true y = true) by apply norm_space_normal.
  assert (Hvy : Forall visible y) by (apply norm_space_forall; [done|apply strip_invisible_visible]).
  set (z := drop_space_before_punct y).
  assert (Hz : ns_go true z = true) by (by apply dsbp_ns).
  assert (Hnz : nsp z = true) by (by apply (dsbp_nsp true)).
  set (t := space_after_punct z).
  assert (Ht : ns_go true t = true) by (by apply sap_ns).
  assert (Hvt : Forall visible t) by (apply sap_forall, dsbp_forall; done).
  assert (Hn : _normalize_punct s = t) by (unfold _normalize_punct; fold y z t; by apply norm_space_ns).
  rewrite Hn. unfold _normalize_punct. rewrite strip_invisible_id, (norm_space_ns t) by done.
  unfold t at 1. rewrite (dsbp_sap true), sap_sbw by done. by apply norm_space_ns.
Qed.

(** A decimal number and an abbreviation come out split. *)
Example normalize_punct_splits_decimals :
  _normalize_punct (str "about 3.5 metres, e.g. a pole") = str "about 3. 5 metres, e. g. a pole".
Proof. vm_compute. reflexivity. Qed.

(** ** [unique_preserve] *)

Lemma up_step_str json_dumps seen out x :
  up_step json_dumps (seen, map JStr out) (JStr x) =
    ((dedup_step (seen, out) x).1, map JStr (dedup_step (seen, out) x).2).
Proof. unfold up_step, dedup_step. simpl. case_bool_decide; [done|]. simpl. by rewrite map_app. Qed.

Lemma up_fold_str json_dumps l seen out :
  fold_left (up_step json_dumps) (map JStr l) (seen, map JStr out) =
    ((fold_left dedup_step l (seen, out)).1, map JStr (fold_left dedup_step l (seen, out)).2).
Proof.
  revert seen out. induction l as [|x l IH]; intros seen out; [done|]. cbn [map fold_left].
  rewrite up_step_str. destruct (dedup_step (seen, out) x) as [seen' out']. apply IH.
Qed.

(** C31: On a list of strings, as [scrape_word] and the extractors call
    it, [unique_preserve] keeps the first occurrence of each string in
    order: it is the reference [dedup_first] of Paths.v. *)
Theorem unique_preserve_strings json_dumps l :
  unique_preserve json_dumps (map JStr l) = map JStr (dedup_first l).
Proof.
  unfold unique_preserve. change (∅, @nil json) with (∅ : gset (list Z), map JStr (@nil (list Z))).
  rewrite up_fold_str. pose proof (dedup_fold l []) as Hf. simpl in Hf.
  change (dedup_first []) with (@nil (list Z)) in Hf. by rewrite Hf.
Qed.
