(* ===== verification/EnrichFS.v ===== *)
(** * EnrichFS: the label enricher on the file system

    The file loop of [dictionary_label_enricher.py] (Enricher.v) is
    given its items and loads; here they come from the file system of
    DictStore: [_iter_lemma_files] lists [DICTIONARY_DIR/<pos>/*.json],
    [_load] is [fs_load], the write-back [_dump] and the mirrored backup
    change the file system as the loop goes, so that a run that raises
    keeps the files it already wrote.  [enrich_dictionary_fs] is the
    whole function and [enrich_main] its command line;
    [_enrich_labels_for_lemma] of [language/wiktionary_scraper.py] is the
    call [rebuild_word] (Rebuild.v) makes.  The iteration order of a
    Python [set] of POS names is the parameter [set_order]. *)

From S2P Require Import Prelude Text Json Labels Enricher DictStore Rebuild.

Open Scope Z_scope.

(** [POS_DIRS] of the enricher *)
Definition POS_DIRS : list (list Z) :=
  map str ["ADJ";"ADV";"CONJ";"DET";"INTJ";"LETTER";"N";"NUM";"PART";"PREP";"PRON";"PROPN";"V"].

(** [_iter_lemma_files(pos_dirs)]: [(jf.stem, jf)] for [jf] in
    [pdir.glob("*.json")] of every existing [pdir]. *)
Definition _iter_lemma_files (fs : FS) (D : list Z) (pos_dirs : list (list Z)) : list (list Z * list Z) :=
  flat_map (fun pos =>
              let pdir := path_join D pos in
              if bool_decide (is_Some (fs_lookup fs pdir))
              then map (fun n => (json_stem n, path_join pdir n))
                       (List.filter (fun n => ends_with (str ".json") n) (listdir fs pdir))
              else []) pos_dirs.

(** [_default_backup_root()] of the enricher *)
Definition _default_backup_root_enricher (D : list Z) : list Z :=
  path_join (path_parent D) (str "dictionarybak").

(** [jf.relative_to(Path(DICTIONARY_DIR))] *)
Definition relative_to (D jf : list Z) : option (list Z) :=
  if starts_with (D ++ [c_slash]) jf then Some (drop (S (length D)) jf) else None.

(** The [try] block of the mirrored backup: [bak_file.parent.mkdir],
    then the copy unless the backup exists (or with
    [--backup-overwrite]); an exception keeps what was done. *)
Definition backup_file (fs : FS) (D : list Z) (backup_dir : option (list Z)) (backup_overwrite : bool)
    (jf : list Z) : FS :=
  let bak_root := match backup_dir with
                  | Some b => if bool_decide (b = []) then _default_backup_root_enricher D else b
                  | None => _default_backup_root_enricher D
                  end in
  match relative_to D jf with
  | None => fs
  | Some rel =>
      let bak_file := path_join bak_root rel in
      match makedirs fs (path_parent bak_file) with
      | None => fs
      | Some fs1 =>
          if negb (bool_decide (is_Some (fs_lookup fs1 bak_file))) || backup_overwrite then
            match fs_lookup fs1 bak_file, fs_lookup fs1 jf with
            | Some FDir, _ => fs1
            | _, Some (FFile c) => fs_write fs1 bak_file (FFile c)
            | _, _ => fs1
            end
          else fs1
      end
  end.

(** The backup flags: [backup or backup_dir], [backup_dir],
    [backup_overwrite]. *)
Record BackupArgs := { ba_on : bool; ba_dir : option (list Z); ba_overwrite : bool }.

Definition no_backup : BackupArgs := {| ba_on := false; ba_dir := None; ba_overwrite := false |}.

(** [for lemma, jf in items:] with [_load] and [_dump] on the file
    system: the file system at the end, and the statistics or [None]
    when an exception ends the run. *)
Fixpoint files_loop_fs (D : list Z) (enrich : json -> option json) (write : bool) (bk : BackupArgs)
    (st : Stats * LoopVars) (fs : FS) (items : list (list Z * list Z)) : FS * option Stats :=
  match items with
  | [] => (fs, Some st.1)
  | (_, jf) :: items' =>
      match file_step enrich write st (fs_load fs jf) with
      | None => (fs, None)
      | Some (st', out) =>
          let fs' := match out with
                     | Some p =>
                         let fs0 := if ba_on bk then backup_file fs D (ba_dir bk) (ba_overwrite bk) jf else fs in
                         fs_write fs0 jf (FFile (Some p))
                     | None => fs
                     end in
          files_loop_fs D enrich write bk st' fs' items'
      end
  end.

Section EnrichFS.
Context `{UnicodeDB}.
(** The iteration order of a [set] of strings *)
Variable set_order : list (list Z) -> list (list Z).

(** [pos_set = set(pos) if pos else POS_DIRS] *)
Definition pos_set (pos : option (list (list Z))) : list (list Z) :=
  match pos with
  | Some (p :: ps) => set_order (remove_dups (p :: ps))
  | _ => set_order POS_DIRS
  end.

(** [enrich_dictionary(...)] on the file system *)
Definition enrich_dictionary_fs (fs : FS) (D : list Z) (pos : option (list (list Z)))
    (word from_lemma after_lemma : option (list Z)) (write : bool) (bk : BackupArgs)
    (keep_in_gloss overwrite : bool) : FS * option Stats :=
  let items := _collect_lemmas (_iter_lemma_files fs D (pos_set pos)) word in
  let start := _find_start_index items from_lemma after_lemma in
  files_loop_fs D (fun d => _enrich_def_obj_in_place d (negb keep_in_gloss) overwrite) write bk
                (mkStats 0 0 0, LoopVars_init) fs (drop start items).

(** [_enrich_labels_for_lemma(lemma)]: [enrich_dictionary(word=lemma,
    write=True)]; its exception is caught, the files written stay. *)
Definition _enrich_labels_for_lemma (D lemma : list Z) (fs : FS) : FS :=
  (enrich_dictionary_fs fs D None (Some lemma) None None true no_backup false false).1.

(** The command line of [dictionary_label_enricher.py] *)
Record EnrichArgs := {
  ea_pos : option (list (list Z)); ea_word : option (list Z);
  ea_from : option (list Z); ea_after : option (list Z);
  ea_write : bool; ea_backup : bool; ea_keep_in_gloss : bool; ea_overwrite : bool;
  ea_backup_dir : option (list Z); ea_backup_overwrite : bool
}.

Definition enrich_main (fs : FS) (D : list Z) (a : EnrichArgs) : FS * option Stats :=
  let on := ea_backup a || match ea_backup_dir a with Some b => negb (bool_decide (b = [])) | None => false end in
  enrich_dictionary_fs fs D (ea_pos a) (ea_word a) (ea_from a) (ea_after a) (ea_write a)
    {| ba_on := on; ba_dir := ea_backup_dir a; ba_overwrite := ea_backup_overwrite a |}
    (ea_keep_in_gloss a) (ea_overwrite a).

End EnrichFS.

(** ** What the label pass writes *)

Lemma files_loop_fs_frame D enrich write bk st fs items p :
  ba_on bk = false -> p ∉ map snd items ->
  fs_lookup (files_loop_fs D enrich write bk st fs items).1 p = fs_lookup fs p.
Proof.
  intros Hbk. revert st fs. induction items as [|[k jf] items IH]; intros st fs Hp; [done|]. simpl.
  cbn [map snd] in Hp. rewrite elem_of_cons in Hp. destruct (file_step _ _ _ _) as [[st' [o|]]|]; [|by apply IH; naive_solver|done].
  rewrite IH by naive_solver. rewrite Hbk. apply fs_lookup_write_ne. naive_solver.
Qed.

Lemma elem_of_drop_inv {A} (x : A) n l : x ∈ drop n l -> x ∈ l.
Proof. revert n. induction l as [|y l IH]; intros [|n]; simpl; [done|done|set_solver|]. intros ?%IH. set_solver. Qed.

Lemma iter_lemma_files_in fs D ps it :
  it ∈ _iter_lemma_files fs D ps -> exists pos n, pos ∈ ps /\ it = (json_stem n, path_join (path_join D pos) n).
Proof.
  unfold _iter_lemma_files. rewrite list_elem_of_In, in_flat_map. intros (pos & Hpos & Hit).
  case_bool_decide; [|done]. apply list_elem_of_In, list_elem_of_fmap in Hit as (n & -> & _).
  exists pos, n. split; [by apply list_elem_of_In|done].
Qed.

Lemma collect_lemmas_in `{UnicodeDB} listed w it :
  w <> [] -> it ∈ _collect_lemmas listed (Some w) -> it ∈ listed /\ uc_lower it.1 = uc_lower w.
Proof.
  intros Hw. unfold _collect_lemmas. rewrite opt_truthy_Some by done.
  rewrite (sort_by_perm lower_key). intros [Hk Hin]%list_elem_of_filter. done.
Qed.

(** The hypothesis of the frame theorem, checked on every suffix of a
    concrete path. *)
Lemma frame_hyp_of_suffixes `{UnicodeDB} D lemma p :
  Forall (fun k => uc_lower (json_stem (drop k p)) <> uc_lower lemma) (seq 0 (S (length p))) ->
  forall pos n, p = path_join (path_join D pos) n -> uc_lower (json_stem n) <> uc_lower lemma.
Proof.
  intros HF pos n Hp. unfold path_join in Hp.
  set (a := (D ++ c_slash :: pos) ++ [c_slash]).
  assert (Hn : p = a ++ n) by (subst a; rewrite Hp, <-!app_assoc; done).
  rewrite Forall_forall in HF. specialize (HF (length a)).
  rewrite Hn, drop_app_length in HF. apply HF, list_elem_of_In, in_seq.
  rewrite length_app. lia.
Qed.

Section LabelPass.
Context `{UnicodeDB}.
Variable set_order : list (list Z) -> list (list Z).

(** C25: The label pass of [rebuild_word] ([_enrich_labels_for_lemma])
    leaves every path alone but the [DICTIONARY_DIR/<pos>/<name>.json]
    files whose stem is the lemma up to case: no other lemma's file and
    nothing outside the dictionary is written, whatever the files hold
    and even when the pass raises. *)
Theorem enrich_labels_frame D lemma fs p :
  lemma <> [] ->
  (forall pos n, p = path_join (path_join D pos) n -> uc_lower (json_stem n) <> uc_lower lemma) ->
  fs_lookup (_enrich_labels_for_lemma set_order D lemma fs) p = fs_lookup fs p.
Proof.
  intros Hl Hp. unfold _enrich_labels_for_lemma, enrich_dictionary_fs.
  apply files_loop_fs_frame; [done|]. intros ([k jf] & Hjf & Hin)%list_elem_of_fmap. simpl in Hjf. subst jf.
  apply elem_of_drop_inv, collect_lemmas_in in Hin as [Hin Hk]; [|done].
  apply iter_lemma_files_in in Hin as (pos & n & _ & [= -> ->]). by apply (Hp pos n).
Qed.

End LabelPass.

Definition sample_dict : FS :=
  [(str "/d", FDir); (str "/d/N", FDir); (str "/d/N/run.json", FFile (Some (JArr [])));
   (str "/d/N/cat.json", FFile (Some (JArr [])))].

Lemma enrich_labels_frame_witness :
  str "run" <> [] /\
  (forall pos n, str "/d/N/cat.json" = path_join (path_join (str "/d") pos) n ->
                 uc_lower (json_stem n) <> uc_lower (str "run")) /\
  fs_lookup (_enrich_labels_for_lemma (fun l => l) (str "/d") (str "run") sample_dict) (str "/d/N/cat.json")
    = fs_lookup sample_dict (str "/d/N/cat.json").
Proof.
  assert (Hl : str "run" <> []) by discriminate.
  assert (Hp : forall pos n, str "/d/N/cat.json" = path_join (path_join (str "/d") pos) n ->
                 uc_lower (json_stem n) <> uc_lower (str "run")).
  { apply frame_hyp_of_suffixes. repeat constructor; vm_compute; discriminate. }
  split; [exact Hl|]. split; [exact Hp|]. exact (enrich_labels_frame (fun l => l) _ _ sample_dict _ Hl Hp).
Defined.
